(* ===== verification/_CoqProject ===== *)
-Q . S2P
Prelude.v
GoTime.v
Utils.v
Bytes.v
Context.v
BTree.v
KernelShutdown.v
Locker.v
Watchdog.v
KernelSupervisors.v
KernelElection.v
KernelRun.v
KernelSignals.v
Barrier.v
Scheduler.v
Cron.v
Bitmap.v
BitmapConcurrent.v
Http.v
HttpServer.v
Gateway.v
Grpc.v
ClickHouse.v
Postgres.v
Connections.v
Examples.v
