(* ===== verification/Prelude.v ===== *)
(** * service-pkg: a verification development

    This library models the Go packages under [src/] (a toolkit for long-running services: a process kernel, leader
    election, a job scheduler, a readiness barrier, in-memory storages, HTTP and gRPC servers) and proves the
    properties that make them correct. This file is the root: it documents the whole and holds the shared prelude.

    ** The program and the files that model it

    - [utils] : [Utils] ([SortedDifference] and [Distinct] as the loops over indices they are, [SliceToStrings],
      [GoRecover], [WaitOrCtx]); [GoTime] and [Bytes] model the instants, durations and byte slices of Go, with
      the wrap-around of [int32] and [int64] written out; [Context] is the package [context] (when and why a context is
      done, its deadline, its values) with [TimeoutNoDeadline] of custom_context.go.
    - [database/in_memory_storage/btree] : [BTree]. The tree of google/btree is a class of operations ([BTreeLib])
      with its contract ([BTreeLaws]); the operations of [ByteKeyBTree] are functions on it; [Call] and [call]
      turn the interface [TtlBTree] into data, and [Spec] is the finite map it is refined to. [SortedTree] is an
      instance of the contract, for concrete runs.
    - [database/in_memory_storage/bitmap] : [Bitmap]. The storage and its replicators talk through two classes,
      [MemorySetStorage] and [MemorySetStorageReplicator], each with its laws; recovery is proved once against
      the laws and holds for the fake and the Redis replicator. [BitmapConcurrent] takes the same operations apart into
      their critical sections and store commands and interleaves any number of calls.
    - [locker] : [Locker]. The Lua scripts run over a Redis server given by its commands ([RedisLaws]); the
      locker is refined to a table of leases, which the class [LockerContract] offers to its clients.
    - [watchdog] : [Watchdog]. The goroutine of [Elect] is a step relation on program points; several of them share
      one locker through [LockerContract] in [sys_step], with arbitrary delays, losses and cancellations.
    - [kernel] : [KernelShutdown] (the linked list of hooks, on a heap), [KernelSupervisors] (the goroutine that
      follows a watchdog, and [Kernel.Stop], as the actions on one supervisor, with panics of the user's functions), [KernelElection] (a watchdog and the
      supervisor that reads its channel, and a cluster of such pairs), [KernelRun] (options, [Stop] and [RunKernel]
      with its deferred calls and the points where they can block), [KernelSignals] (the channel of signals, its goroutine, [Run] and the recovery).
    - [readiness_barrier] : [Barrier], and [scheduler] : [Scheduler]. Both are state machines whose actions are the
      atomic operations of the code (a compare-and-swap, a critical section, a channel operation, a case of a
      [select]); any number of calls is in flight. [serial_step] is the restriction to calls of [Start] and
      [Stop] that do not overlap. [Cron] is the wrapper of the cron library.
    - [server] : [Http] (the writers and middlewares of chi.go and gorilla.go, draining and shutdown), [HttpServer]
      (their optional interfaces, the contexts of requests, how the two servers are created and run), [Gateway]
      (grpc_gateway.go), [Grpc] (grpc.go). A handler is a tree of calls on a response writer, run over the writer of
      [net/http] or a logging one.
    - [database/clickhouse] : [ClickHouse]; [database/postgres] : [Postgres]; [redis] : [Connections].
    - [examples] : [Examples], the two programs put together from the models of the packages.

    The state of a component is a record; an operation returns the new state and its result; [outcome] is the
    result of code that may panic, [result] the pair of a value and an error. Executable actions ([run_action],
    [sched_action]) give the step relations, so concrete runs are evaluated by [vm_compute] and are reachable.
    Goroutines interact through the state only: the locker is reached by [locker_call], and the channel of a
    watchdog is the [Watcher] of its supervisor. [KernelElection] shares that list between the two machines
    ([attach], [drained_to]); its lemma [proc_step_project] shows that each side then makes a run of its own
    machine, so the invariants of [Watchdog] and [KernelSupervisors] carry over.

    ** What is shown

    - Refinement: the TTL storage is a finite map, the bitmap storage a set, the Redis locker a table of leases,
      [SortedDifference] the multiset difference, whatever sequence of calls is made; the calls of a supervisor are
      the events of its watchdog.
    - Safety of all interleavings: mutual exclusion of the watchdogs that believe they lead, and renewals that succeed; at most [rate] jobs execute; wait groups never go
      below zero; a barrier is ready only by an accepted signal; supervisors are started and stopped in turn, and their
      jobs exclude each other in a cluster; dumps and recoveries of the bitmap storage are of sets it has held;
      [RunKernel] stops only for a signal or a failure.
    - Well-formedness: the logging writer of chi.go forwards one header at most and no body before it; a context without a
      deadline is otherwise the one it is made of.
    - Order and completeness: hooks run in stable priority order and once; [RunKernel] stops everything, or
      blocks or panics at one of the points listed in the theorem;
      purges delete exactly what is expired; routes are exactly the configured ones; the last option wins.
    - Liveness: the [Stop] of the barrier and of the scheduler can always return; a supervisor can always catch up; the
      first signal is never lost and makes [RunKernel] call [Stop]; [SortedDifference] terminates; a connection to ClickHouse
      is opened or given up within five seconds.
    - Transparency: the logging writers do not change a response; the recovering middlewares always answer.
    - Where the code does not keep what it promises, the failing run or its general condition is a theorem too
      (a purge that loses a refreshed item, a job nobody stops while another process runs its own, a
      recovery that blocks for ever, a supervisor locked by a panic, a [Kernel.Stop] blocked by a skipped goroutine, an example that never answers, and others).

    ** Bounds, fuel and assumptions

    Only two recursions need fuel: the loop of [SortedDifference] runs on the sum of the two lengths plus one, and
    the walks of the list of hooks on the number of nodes plus one; the theorems show that it is never exhausted on
    reachable inputs. Everything else is structural, or a step relation. Go's [int] is [Z] where no
    overflow is possible, and wrapped where it is. Third-party code (google/btree, roaring, the Redis clients, the gRPC
    libraries, database drivers, comparison of route patterns) is a parameter with the laws it documents, and each set
    of laws has a concrete instance. Delays are not bounded: a step may happen at any later time.

    ** What is not modelled

    Handlers that take over a connection, hooks that never return (one that panics is modelled), log lines (except the status a logging middleware logs), the routers (chi and gorilla/mux: a class with the two
    operations the code needs), the connections themselves, the memory model below the level of critical sections (data
    races on unprotected fields are reads of the current value), the polling delays of [http.Server.Shutdown], and the
    tests of the B-tree. What a plan for more would take up: the loop of [Kernel.Stop] over several supervisors whose
    goroutines run meanwhile, a whole process in which the signals of [KernelSignals] cancel the cluster of
    [KernelElection], and a scheduler driven by tickers with periods instead of ticks at any time.

    ** This file

    The notation scope of the library, [outcome] and [result], runs of transition systems and their invariants,
    the lemmas on lists the components share, the hint database [go_db] and the tactics. *)
From stdpp Require Import base tactics relations list sorting gmap strings.
From Stdlib Require Import ZArith Lia.

(** ** Notation scope of the development *)

Declare Scope go_scope.
Delimit Scope go_scope with go.

(** ** Go values shared by the components *)

(** The result of running Go code that may panic: it returns a value or it
    unwinds with a panic value. *)
Inductive outcome (A : Type) : Type :=
  | Returned (a : A)
  | Panicked (reason : string).
Arguments Returned {A} _.
Arguments Panicked {A} _.

(** The usual [(value, error)] pair of Go, for functions whose value is only
    meaningful when the error is [nil]. *)
Inductive result (E A : Type) : Type :=
  | Ok (a : A)
  | Err (e : E).
Arguments Ok {E A} _.
Arguments Err {E A} _.

(** [x, err := c; if err != nil { return err }; k] *)
Definition result_bind {E A B} (c : result E A) (k : A -> result E B) : result E B :=
  match c with Ok a => k a | Err e => Err e end.

Notation "'let!' x ':=' c 'in' k" := (result_bind c (fun x => k))
  (at level 200, x name, c at level 100, k at level 200, right associativity) : go_scope.

(** The traversal a callback drives: the callback is applied to the elements in
    order and the traversal stops when it returns [false]. *)
Fixpoint iter_while {S A} (f : S -> A -> S * bool) (l : list A) (s : S) : S :=
  match l with
  | [] => s
  | x :: l' => let (s', go_on) := f s x in if go_on then iter_while f l' s' else s'
  end.

(** A positive limit keeps a prefix; zero or a negative one keeps everything. *)
Definition take_limit {A} (limit : Z) (l : list A) : list A :=
  if (0 <? limit)%Z then take (Z.to_nat limit) l else l.

(** The rest of a goroutine or of a call: another state, or its end. *)
Definition put {A} (i : nat) (x : option A) (l : list A) : list A :=
  match x with Some x => <[i := x]> l | None => delete i l end.

Fixpoint countb {A} (f : A -> bool) (l : list A) : nat :=
  match l with [] => 0 | x :: l => Nat.b2n (f x) + countb f l end.

(** ** Transition systems: an invariant is proved once for all components *)

Section transition_systems.
Context {St : Type} (step : St -> St -> Prop).

Lemma rtc_invariant (I : St -> Prop) :
  (forall s s', I s -> step s s' -> I s') ->
  forall s s', rtc step s s' -> I s -> I s'.
Proof. intros Hstep s s' Hr. induction Hr; eauto. Qed.

Lemma rtc_invariant_under (J I : St -> Prop) :
  (forall s s', J s -> step s s' -> J s') ->
  (forall s s', J s -> I s -> step s s' -> I s') ->
  forall s s', rtc step s s' -> J s -> I s -> I s'.
Proof. intros HJ HI s s' Hr. induction Hr; eauto. Qed.
End transition_systems.

(** Systems given by an executable action: the step relation, runs of actions, and runs in which the actions that
    begin a call are taken in idle states only. *)
Section executable_systems.
Context {St Act : Type} (act : St -> Act -> option St) (is_call : Act -> bool) (idle : St -> bool).

Definition acts_step (s s' : St) : Prop := exists a, act s a = Some s'.

Definition serial_acts_step (s s' : St) : Prop :=
  exists a, act s a = Some s' /\ (is_call a = true -> idle s = true).

Fixpoint run_all (s : St) (l : list Act) : option St :=
  match l with
  | [] => Some s
  | a :: l => match act s a with Some s' => run_all s' l | None => None end
  end.

Fixpoint run_serially (s : St) (l : list Act) : option St :=
  match l with
  | [] => Some s
  | a :: l =>
    if is_call a && negb (idle s) then None
    else match act s a with Some s' => run_serially s' l | None => None end
  end.

Lemma run_all_sound l s s' : run_all s l = Some s' -> rtc acts_step s s'.
Proof.
  revert s. induction l as [|a l IH]; simpl; intros s H; [by simplify_eq|].
  destruct (act s a) as [s1|] eqn:E; [|done]. eapply rtc_l; [by exists a|by apply IH].
Qed.

(** The state a run ends in, with what evaluating it shows. *)
Lemma run_all_ends (P : St -> Prop) l s :
  match run_all s l with Some s' => P s' | None => False end -> exists s', run_all s l = Some s' /\ P s'.
Proof. destruct (run_all s l) as [s'|]; [|done]. intros Hp. by exists s'. Qed.

Lemma run_serially_sound l s s' : run_serially s l = Some s' -> rtc serial_acts_step s s'.
Proof.
  revert s. induction l as [|a l IH]; simpl; intros s H; [by simplify_eq|].
  destruct (is_call a && negb (idle s)) eqn:Ec; [done|].
  destruct (act s a) as [s1|] eqn:E; [|done]. eapply rtc_l; [|by apply IH].
  exists a. split; [done|]. intros Ha. rewrite Ha in Ec. by apply negb_false_iff.
Qed.

Lemma serial_acts_step_step s s' : serial_acts_step s s' -> acts_step s s'.
Proof. intros (a & Ha & _). by exists a. Qed.
End executable_systems.

(** ** Lists *)

Section lists.
Context {A : Type}.
Implicit Types l : list A.

Lemma take_limit_nonpos (n : Z) l : (n <= 0)%Z -> take_limit n l = l.
Proof. intros H. unfold take_limit. destruct (Z.ltb_spec 0 n); [lia|done]. Qed.

Lemma take_limit_pos (n : Z) l : (0 < n)%Z -> take_limit n l = take (Z.to_nat n) l.
Proof. intros H. unfold take_limit. destruct (Z.ltb_spec 0 n); [done|lia]. Qed.

Lemma take_limit_length (n : Z) l :
  (0 < n)%Z -> (Z.of_nat (length (take_limit n l)) <= n)%Z.
Proof. intros H. rewrite take_limit_pos by done. rewrite length_take. lia. Qed.

Lemma take_limit_prefix (n : Z) l : take_limit n l `prefix_of` l.
Proof.
  unfold take_limit. destruct (0 <? n)%Z; [|done].
  exists (drop (Z.to_nat n) l). by rewrite take_drop.
Qed.

Lemma elem_of_take_limit (n : Z) l x : x ∈ take_limit n l -> x ∈ l.
Proof. intros Hx. destruct (take_limit_prefix n l) as [k ->]. set_solver. Qed.

Lemma iter_while_all {S} (f : S -> A -> S * bool) (g : S -> A -> S) l s :
  (forall s x, f s x = (g s x, true)) -> iter_while f l s = fold_left g l s.
Proof. intros Hf. revert s. induction l as [|x l IH]; intros s; [done|]. simpl. by rewrite Hf. Qed.

Lemma filter_none (P : A -> Prop) `{!forall x, Decision (P x)} l :
  (forall x, x ∈ l -> ~ P x) -> filter P l = [].
Proof.
  induction l as [|x l IH]; intros Hn; [done|].
  rewrite filter_cons_False by (apply Hn; left). apply IH. intros y Hy. apply Hn. by right.
Qed.

Lemma filter_all (P : A -> Prop) `{!forall x, Decision (P x)} l :
  (forall x, x ∈ l -> P x) -> filter P l = l.
Proof.
  induction l as [|x l IH]; intros Ha; [done|].
  rewrite filter_cons_True by (apply Ha; left). f_equal. apply IH. intros y Hy. apply Ha. by right.
Qed.

Lemma list_filter_iff' (P Q : A -> Prop) `{!forall x, Decision (P x)} `{!forall x, Decision (Q x)} l :
  (forall x, x ∈ l -> P x <-> Q x) -> filter P l = filter Q l.
Proof.
  induction l as [|x l IH]; intros Hpq; [done|]. rewrite !filter_cons.
  rewrite IH by (intros y Hy; apply Hpq; by right).
  assert (P x <-> Q x) as E by (apply Hpq; left). do 2 case_decide; naive_solver.
Qed.

Lemma iter_while_ext {S} (f g : S -> A -> S * bool) l s :
  (forall s x, f s x = g s x) -> iter_while f l s = iter_while g l s.
Proof.
  intros Hfg. revert s. induction l as [|x l IH]; intros s; [done|]. simpl.
  rewrite Hfg. by destruct (g s x) as [s' []].
Qed.

Lemma prefix_sublist l1 l2 : l1 `prefix_of` l2 -> l1 `sublist_of` l2.
Proof. intros [k ->]. by apply sublist_inserts_r. Qed.

Lemma StronglySorted_filter (R : relation A) (P : A -> Prop) `{!forall x, Decision (P x)} l :
  StronglySorted R l -> StronglySorted R (filter P l).
Proof.
  induction 1 as [|x l Hl IH Hx]; [constructor|].
  rewrite filter_cons. case_decide; [|done].
  constructor; [done|]. rewrite !Forall_forall in Hx |- *.
  intros y [_ Hy]%list_elem_of_filter. by apply Hx.
Qed.

Lemma StronglySorted_sublist (R : relation A) l1 l2 :
  l1 `sublist_of` l2 -> StronglySorted R l2 -> StronglySorted R l1.
Proof.
  induction 1 as [|x l1 l2 Hl IH|x l1 l2 Hl IH]; intros Hs; [done|..];
    inversion_clear Hs as [|? ? Hs' Hx]; [|by apply IH].
  constructor; [by apply IH|]. rewrite Forall_forall in Hx |- *.
  intros y Hy. apply Hx. by eapply elem_of_sublist.
Qed.

Lemma StronglySorted_map {B} (R : relation A) (R' : relation B) (f : A -> B) l :
  (forall x y, R x y -> R' (f x) (f y)) ->
  StronglySorted R l -> StronglySorted R' (f <$> l).
Proof.
  intros Hf. induction 1 as [|x l Hl IH Hx]; [constructor|]. simpl.
  constructor; [done|]. rewrite Forall_fmap. eapply Forall_impl; [done|]. eauto.
Qed.

Lemma StronglySorted_strict_NoDup (R : relation A) `{!Irreflexive R} l :
  StronglySorted R l -> NoDup l.
Proof.
  induction 1 as [|x l Hl IH Hx]; constructor; [|done].
  intros Hin. rewrite Forall_forall in Hx. by apply (irreflexivity R x), Hx.
Qed.

Lemma elem_of_put i (x : option A) l y : y ∈ put i x l -> x = Some y \/ y ∈ l.
Proof.
  destruct x as [x|]; simpl; intros Hy.
  - apply list_elem_of_lookup in Hy as [j Hj]. apply list_lookup_insert_Some in Hj.
    destruct Hj as [(_ & -> & _)|[_ Hj]]; [by left|right; by eapply list_elem_of_lookup_2].
  - right. eapply elem_of_sublist; [exact Hy|apply sublist_delete].
Qed.

Lemma elem_of_put_ne i (r : option A) l x y : l !! i = Some y -> x <> y -> x ∈ l -> x ∈ put i r l.
Proof.
  intros Hi Hne [j Hj]%list_elem_of_lookup. assert (i <> j) as Hij by congruence.
  destruct r as [r|]; simpl.
  - apply (list_elem_of_lookup_2 _ j). by rewrite list_lookup_insert_ne.
  - destruct (decide (j < i)).
    + apply (list_elem_of_lookup_2 _ j). by rewrite list_lookup_delete_lt.
    + apply (list_elem_of_lookup_2 _ (j - 1)). rewrite list_lookup_delete_ge by lia. by replace (S (j - 1)) with j by lia.
Qed.

Lemma length_delete_lookup i (x : A) l : l !! i = Some x -> length (delete i l) = (length l - 1)%nat.
Proof. intros H. pose proof (length_delete l i ltac:(by eexists)). lia. Qed.

Lemma delete_insert_eq' i (x : A) l : delete i (<[i := x]> l) = delete i l.
Proof.
  revert i. induction l as [|y l IH]; intros [|i]; try done.
  change (y :: delete i (<[i := x]> l) = y :: delete i l). by rewrite IH.
Qed.

Lemma countb_app (f : A -> bool) l1 l2 : countb f (l1 ++ l2) = countb f l1 + countb f l2.
Proof. induction l1 as [|x l1 IH]; simpl; lia. Qed.

Lemma countb_insert (f : A -> bool) l i x y :
  l !! i = Some x -> countb f (<[i := y]> l) + Nat.b2n (f x) = countb f l + Nat.b2n (f y).
Proof.
  revert i. induction l as [|z l IH]; intros [|i]; simpl; intros H; try done.
  - simplify_eq. lia.
  - specialize (IH i H). lia.
Qed.

Lemma countb_delete (f : A -> bool) l i x :
  l !! i = Some x -> countb f (delete i l) + Nat.b2n (f x) = countb f l.
Proof.
  revert i. induction l as [|z l IH]; intros [|i]; simpl; intros H; try done.
  - simplify_eq. lia.
  - specialize (IH i H). change (delete (S i) (z :: l)) with (z :: delete i l). simpl. lia.
Qed.

Lemma countb_pos (f : A -> bool) l x : x ∈ l -> f x = true -> 0 < countb f l.
Proof. induction 1 as [|x y l Hx IH]; simpl; intros H; [rewrite H; simpl; lia|]. specialize (IH H). lia. Qed.

Lemma countb_le (f g : A -> bool) l : (forall x, f x = true -> g x = true) -> countb f l <= countb g l.
Proof.
  intros H. induction l as [|x l IH]; simpl; [lia|]. specialize (H x).
  destruct (f x); [rewrite H by done|]; simpl; lia.
Qed.

(** Strictly sorted lists with the same elements are the same list. *)
Lemma StronglySorted_ext (R : relation A) `{!StrictOrder R} l1 l2 :
  StronglySorted R l1 -> StronglySorted R l2 ->
  (forall x, x ∈ l1 <-> x ∈ l2) -> l1 = l2.
Proof.
  intros H1. revert l2. induction H1 as [|x l1 H1 IH Hx]; intros l2 H2 Heq.
  - destruct l2 as [|y l2]; [done|]. specialize (Heq y). set_solver.
  - destruct H2 as [|y l2 H2 Hy]; [specialize (Heq x); set_solver|].
    rewrite Forall_forall in Hx, Hy.
    assert (x = y) as <-.
    { assert (x ∈ y :: l2) as [->|Hx2]%elem_of_cons by (apply Heq; left); [done|].
      assert (y ∈ x :: l1) as [->|Hy1]%elem_of_cons by (apply Heq; left); [done|].
      exfalso. apply (irreflexivity R x). transitivity y; auto. }
    f_equal. apply IH; [done|]. intros z. split; intros Hz.
    + assert (z ∈ x :: l2) as [->|?]%elem_of_cons by (apply Heq; by right); [|done].
      exfalso. by apply (irreflexivity R x), Hx.
    + assert (z ∈ x :: l1) as [->|?]%elem_of_cons by (apply Heq; by right); [|done].
      exfalso. by apply (irreflexivity R x), Hy.
Qed.
End lists.

Lemma sublist_fmap {A B} (f : A -> B) l1 l2 :
  l1 `sublist_of` l2 -> f <$> l1 `sublist_of` f <$> l2.
Proof. induction 1; simpl; by constructor. Qed.

(** ** Automation *)

Create HintDb go_db discriminated.
#[export] Hint Resolve take_limit_prefix elem_of_take_limit StronglySorted_filter : go_db.

(** Split every boolean connective of the source into its propositional parts. *)
Ltac bool_to_prop :=
  repeat match goal with
  | H : andb _ _ = true |- _ => apply andb_true_iff in H; destruct H
  | H : orb _ _ = false |- _ => apply orb_false_iff in H; destruct H
  | H : negb _ = true |- _ => apply negb_true_iff in H
  | H : negb _ = false |- _ => apply negb_false_iff in H
  | H : (_ <? _)%Z = true |- _ => apply Z.ltb_lt in H
  | H : (_ <? _)%Z = false |- _ => apply Z.ltb_ge in H
  | H : (_ <=? _)%Z = true |- _ => apply Z.leb_le in H
  | H : (_ <=? _)%Z = false |- _ => apply Z.leb_gt in H
  | H : (_ =? _)%Z = true |- _ => apply Z.eqb_eq in H
  | H : (_ =? _)%Z = false |- _ => apply Z.eqb_neq in H
  | H : bool_decide _ = true |- _ => apply bool_decide_eq_true in H
  | H : bool_decide _ = false |- _ => apply bool_decide_eq_false in H
  end.

(** Case analysis on every test of the goal, the conditions left as hypotheses. *)
Ltac case_tests :=
  repeat match goal with
  | |- context [if ?b then _ else _] => destruct b eqn:?
  | |- context [match ?o with Some _ => _ | None => _ end] => destruct o eqn:?
  end; bool_to_prop.
