(* ===== verification/GoTime.v ===== *)
(** Machine integers, [time.Duration] and [time.Time] as the package uses them:
    64-bit and 32-bit wrap-around, the duration constants, [Time.Add],
    [Time.Unix] and [Duration.Milliseconds] of Go's standard library. *)
From S2P Require Import Prelude.
From stdpp Require Import base tactics list.
From Stdlib Require Import ZArith Lia.
Local Open Scope Z_scope.

(** ** Machine integers *)

Definition wrap (w z : Z) : Z := (z + 2 ^ (w - 1)) mod 2 ^ w - 2 ^ (w - 1).
Definition int32 (z : Z) : Z := wrap 32 z.
Definition int64 (z : Z) : Z := wrap 64 z.
Definition max_int64 : Z := 2 ^ 63 - 1.
Definition is_int64 (z : Z) : Prop := - 2 ^ 63 <= z < 2 ^ 63.

(** ** Durations (nanoseconds) *)

Definition Millisecond : Z := 1000000.
Definition Second : Z := 1000000000.
Definition Minute : Z := 60 * Second.
Definition Hour : Z := 60 * Minute.

(** [Duration.Milliseconds]: Go's integer division truncates toward zero. *)
Definition Milliseconds (d : Z) : Z := Z.quot d Millisecond.

(** ** Instants *)

Record Time := mkTime { unix_sec : Z; nsec : Z }.

Definition Time_wf (t : Time) : Prop := 0 <= nsec t < Second.

(** [Time.Add], with the carry of the nanosecond field. (Seconds are not bounded here: Go keeps them in an [int64]
    and a duration is at most 292 years, so the sum is cut only for instants more than 290 thousand million years away.) *)
Definition Add (t : Time) (d : Z) : Time :=
  let dsec := Z.quot d Second in
  let ns := nsec t + Z.rem d Second in
  if Second <=? ns then mkTime (unix_sec t + dsec + 1) (ns - Second)
  else if ns <? 0 then mkTime (unix_sec t + dsec - 1) (ns + Second)
  else mkTime (unix_sec t + dsec) ns.

Definition Unix (t : Time) : Z := unix_sec t.

(** The instant in nanoseconds since the epoch. *)
Definition UnixNano (t : Time) : Z := unix_sec t * Second + nsec t.

(** ** Lemmas *)

Lemma wrap_id w z : 0 < w -> - 2 ^ (w - 1) <= z < 2 ^ (w - 1) -> wrap w z = z.
Proof.
  intros Hw Hz. unfold wrap.
  assert (2 ^ w = 2 * 2 ^ (w - 1)) as E.
  { rewrite <- Z.pow_succ_r by lia. f_equal. lia. }
  rewrite Z.mod_small; lia.
Qed.

Lemma int32_id z : - 2 ^ 31 <= z < 2 ^ 31 -> int32 z = z.
Proof. intros. by apply wrap_id. Qed.

Lemma int64_id z : is_int64 z -> int64 z = z.
Proof. intros. by apply wrap_id. Qed.

Lemma Add_wf t d : Time_wf t -> Time_wf (Add t d).
Proof.
  unfold Time_wf, Add. intros Ht.
  pose proof (Z.rem_bound_abs d Second ltac:(done)) as Hb. unfold Second in *.
  case_tests; simpl; lia.
Qed.

Lemma UnixNano_Add t d : UnixNano (Add t d) = UnixNano t + d.
Proof.
  unfold UnixNano, Add. pose proof (Z.quot_rem' d Second) as E.
  unfold Second in *. case_tests; simpl; lia.
Qed.

Lemma Unix_floor t : Time_wf t -> Unix t = UnixNano t / Second.
Proof.
  unfold Time_wf, Unix, UnixNano. intros Ht.
  rewrite Z.div_add_l by done. rewrite Z.div_small by lia. lia.
Qed.

(** The Unix second of a shifted instant is the floor of the nanosecond sum. *)
Lemma Unix_Add t d : Time_wf t -> Unix (Add t d) = (UnixNano t + d) / Second.
Proof. intros Ht. rewrite Unix_floor by by apply Add_wf. by rewrite UnixNano_Add. Qed.

Lemma Milliseconds_pos d : Millisecond <= d -> 0 < Milliseconds d.
Proof. intros H. unfold Milliseconds. apply Z.quot_str_pos. unfold Millisecond in *. lia. Qed.

Lemma Milliseconds_sub d : 0 <= d < Millisecond -> Milliseconds d = 0.
Proof. intros H. unfold Milliseconds. by apply Z.quot_small. Qed.

#[export] Hint Resolve Add_wf Milliseconds_pos : go_db.
#[export] Hint Rewrite UnixNano_Add : go_rw.
