(* ===== verification/Utils.v ===== *)
(** The helpers of [src/utils]: [SortedDifference] and [Distinct]
    (difference.go), [SliceToStrings] (slice.go), [GoRecover], [panicToError]
    and [WaitOrCtx] (runtime_utils.go). The loops are translated with their indices and
    the structural functions they compute are given beside them. *)
From S2P Require Import Prelude.
From stdpp Require Import base tactics list gmap sorting strings.
From Stdlib Require Import ZArith Lia.

(** ** SortedDifference *)

Module Difference.
Section sorted_difference.
Context {T : Type} (ltb : T -> T -> bool).

(** The [for] loop: [None] is only reached when the fuel is exhausted; an index
    outside its slice panics as in Go. *)
Fixpoint sd_loop (fuel : nat) (base exclude : list T) (baseIdx exclIdx : nat)
    (result : list T) : option (outcome (list T * nat)) :=
  match fuel with
  | O => None
  | S fuel =>
    if (baseIdx <? length base)%nat && (exclIdx <? length exclude)%nat then
      match base !! baseIdx, exclude !! exclIdx with
      | Some b, Some e =>
        if ltb b e then sd_loop fuel base exclude (S baseIdx) exclIdx (result ++ [b])
        else if ltb e b then sd_loop fuel base exclude baseIdx (S exclIdx) result
        else sd_loop fuel base exclude (S baseIdx) (S exclIdx) result
      | _, _ => Some (Panicked "index out of range")
      end
    else Some (Returned (result, baseIdx))
  end.

(** [base[baseIdx:]] panics beyond the length of the slice. *)
Definition slice_from (base : list T) (i : nat) : outcome (list T) :=
  if (i <=? length base)%nat then Returned (drop i base) else Panicked "slice bounds out of range".

Definition sd_fuel (base exclude : list T) : nat := S (length base + length exclude).

Definition SortedDifference (base exclude : list T) : option (outcome (list T)) :=
  match sd_loop (sd_fuel base exclude) base exclude 0 0 [] with
  | Some (Returned (result, baseIdx)) =>
    match slice_from base baseIdx with
    | Returned rest => Some (Returned (result ++ rest))
    | Panicked r => Some (Panicked r)
    end
  | Some (Panicked r) => Some (Panicked r)
  | None => None
  end.

(** The structural merge the loop computes. *)
Fixpoint difference (base : list T) : list T -> list T :=
  fix go (exclude : list T) : list T :=
    match base, exclude with
    | b :: base', e :: exclude' =>
      if ltb b e then b :: difference base' exclude
      else if ltb e b then go exclude'
      else difference base' exclude'
    | _, _ => base
    end.
End sorted_difference.

(** The order laws the result needs: [<] is a strict total order (which
    excludes floating-point NaN). *)
Class StrictTotal {T} (ltb : T -> T -> bool) : Prop := {
  ltb_irrefl x : ltb x x = false;
  ltb_trans x y z : ltb x y = true -> ltb y z = true -> ltb x z = true;
  ltb_total x y : ltb x y = false -> ltb y x = false -> x = y
}.

(** A slice sorted in ascending order, duplicates allowed. *)
Definition ascending {T} (ltb : T -> T -> bool) : list T -> Prop :=
  StronglySorted (fun x y => ltb y x = false).

#[global] Instance Z_strict_total : StrictTotal Z.ltb.
Proof. split; intros; bool_to_prop; try apply Z.ltb_lt; try apply Z.ltb_ge; lia. Qed.

Section difference_lemmas.
Context {T : Type} (ltb : T -> T -> bool).

Lemma difference_nil_r (base : list T) : difference ltb base [] = base.
Proof. by destruct base. Qed.

Lemma difference_cons (b e : T) base exclude :
  difference ltb (b :: base) (e :: exclude) =
  if ltb b e then b :: difference ltb base (e :: exclude)
  else if ltb e b then difference ltb (b :: base) exclude
  else difference ltb base exclude.
Proof. done. Qed.

Lemma difference_sublist (base exclude : list T) :
  difference ltb base exclude `sublist_of` base.
Proof.
  revert exclude. induction base as [|b base IH]; intros exclude.
  { by destruct exclude. }
  induction exclude as [|e exclude IHe]; [done|].
  rewrite difference_cons. destruct (ltb b e); [by constructor|].
  destruct (ltb e b); [done|]. by constructor.
Qed.

(** The loop started at any pair of indices leaves the merge of the suffixes. *)
Lemma sd_loop_spec fuel base exclude bi ei result :
  bi <= length base -> ei <= length exclude ->
  (length base - bi) + (length exclude - ei) < fuel ->
  exists r bi', sd_loop ltb fuel base exclude bi ei result = Some (Returned (r, bi'))
    /\ bi' <= length base
    /\ r ++ drop bi' base = result ++ difference ltb (drop bi base) (drop ei exclude).
Proof.
  revert bi ei result. induction fuel as [|fuel IH]; intros bi ei result Hb He Hf; [lia|].
  simpl. destruct (Nat.ltb_spec bi (length base)) as [Hb'|Hb'];
    destruct (Nat.ltb_spec ei (length exclude)) as [He'|He']; simpl.
  2-4: exists result, bi; split_and!; [done..|]; f_equal.
  2: by rewrite (drop_ge exclude) by lia; rewrite difference_nil_r.
  2-3: by rewrite (drop_ge base) by lia; simpl; destruct (drop ei exclude).
  destruct (lookup_lt_is_Some_2 base bi Hb') as [b Eb].
  destruct (lookup_lt_is_Some_2 exclude ei He') as [e Ee].
  rewrite Eb, Ee, (drop_S base b) by done. rewrite (drop_S exclude e) by done.
  rewrite difference_cons. rewrite <- (drop_S exclude e) by done.
  destruct (ltb b e); [|destruct (ltb e b)].
  - destruct (IH (S bi) ei (result ++ [b])) as (r & bi' & -> & ? & Er); [lia..|].
    exists r, bi'. split_and!; [done..|]. by rewrite Er, <- app_assoc.
  - destruct (IH bi (S ei) result) as (r & bi' & -> & ? & Er); [lia..|].
    exists r, bi'. split_and!; [done..|]. by rewrite Er, (drop_S base b).
  - destruct (IH (S bi) (S ei) result) as (r & bi' & -> & ? & Er); [lia..|].
    by exists r, bi'.
Qed.

Lemma SortedDifference_eq (base exclude : list T) :
  SortedDifference ltb base exclude = Some (Returned (difference ltb base exclude)).
Proof.
  unfold SortedDifference, sd_fuel.
  destruct (sd_loop_spec (S (length base + length exclude)) base exclude 0 0 [])
    as (r & bi & -> & Hbi & Er); [lia..|].
  unfold slice_from. destruct (Nat.leb_spec bi (length base)); [|lia].
  by rewrite Er.
Qed.
End difference_lemmas.

Section difference_counts.
Context {T : Type} `{EqDecision T} (ltb : T -> T -> bool) `{!StrictTotal ltb}.

Definition occurrences (x : T) (l : list T) : nat := length (filter (x =.) l).

Lemma occurrences_cons x y l :
  occurrences x (y :: l) = (if decide (x = y) then 1 else 0) + occurrences x l.
Proof. unfold occurrences. rewrite filter_cons. case_decide; done. Qed.

Lemma occurrences_below x b l :
  ascending ltb (b :: l) -> ltb x b = true -> occurrences x (b :: l) = 0.
Proof.
  intros Hs Hx. unfold occurrences. rewrite filter_none; [done|].
  inversion_clear Hs as [|? ? Hl Hb]. rewrite Forall_forall in Hb.
  intros y Hy <-. apply elem_of_cons in Hy as [->|Hy].
  - by rewrite ltb_irrefl in Hx.
  - specialize (Hb _ Hy). simpl in Hb. congruence.
Qed.

Lemma difference_occurrences base exclude x :
  ascending ltb base -> ascending ltb exclude ->
  occurrences x (difference ltb base exclude) = occurrences x base - occurrences x exclude.
Proof.
  intros Hb. revert exclude. induction base as [|b base IH]; intros exclude He.
  { by destruct exclude. }
  assert (Hb2 := Hb). inversion_clear Hb2 as [|? ? Hb' _].
  induction exclude as [|e exclude IHe].
  { rewrite difference_nil_r. unfold occurrences at 3. simpl. lia. }
  assert (He2 := He). inversion_clear He2 as [|? ? He' _].
  rewrite difference_cons. destruct (ltb b e) eqn:E1; [|destruct (ltb e b) eqn:E2].
  - rewrite !(occurrences_cons x b), IH by done. case_decide as Hx; [subst x|lia].
    rewrite (occurrences_below b e) by done. lia.
  - rewrite IHe by done. rewrite (occurrences_cons x e). case_decide as Hx; [subst x|lia].
    rewrite (occurrences_below e b) by done. lia.
  - assert (b = e) as -> by by apply ltb_total.
    rewrite IH, !occurrences_cons by done. lia.
Qed.
End difference_counts.
End Difference.

(** ** Distinct and SliceToStrings *)

Module Slices.
Section slices.
Context {T : Type} `{Countable T}.

(** The loop of [Distinct]: the map [seen] is the set of its keys. *)
Fixpoint distinct_loop (src : list T) (seen : gset T) (out : list T) : list T :=
  match src with
  | [] => out
  | v :: src =>
    if decide (v ∈ seen) then distinct_loop src seen out
    else distinct_loop src ({[v]} ∪ seen) (out ++ [v])
  end.

Definition Distinct (src : list T) : list T := distinct_loop src ∅ [].

(** Keep the first occurrence of every element, in order. *)
Fixpoint first_occurrences (l : list T) : list T :=
  match l with
  | [] => []
  | v :: l => v :: filter (fun w => w <> v) (first_occurrences l)
  end.
End slices.

(** [SliceToStrings]: [fmt.Sprintf("%v", it)] of every element, in order; the
    formatting of a value is a parameter. *)
Fixpoint SliceToStrings_loop {T} (sprint_v : T -> string) (items : list T) (out : list string) : list string :=
  match items with
  | [] => out
  | it :: items => SliceToStrings_loop sprint_v items (out ++ [sprint_v it])
  end.

Definition SliceToStrings {T} (sprint_v : T -> string) (items : list T) : list string :=
  SliceToStrings_loop sprint_v items [].

Section slices_lemmas.
Context {T : Type} `{Countable T}.

Lemma elem_of_first_occurrences (x : T) l : x ∈ first_occurrences l <-> x ∈ l.
Proof.
  induction l as [|v l IH]; [done|]. simpl.
  rewrite !elem_of_cons, list_elem_of_filter, IH. destruct (decide (x = v)); naive_solver.
Qed.

Lemma NoDup_first_occurrences (l : list T) : NoDup (first_occurrences l).
Proof.
  induction l as [|v l IH]; simpl; constructor; [|by apply NoDup_filter].
  rewrite list_elem_of_filter. naive_solver.
Qed.

Lemma first_occurrences_sublist (l : list T) : first_occurrences l `sublist_of` l.
Proof.
  induction l as [|v l IH]; [done|]. simpl. constructor.
  etrans; [apply sublist_filter|done].
Qed.

Lemma distinct_loop_spec (src : list T) seen out :
  distinct_loop src seen out = out ++ filter (fun w => w ∉ seen) (first_occurrences src).
Proof.
  revert seen out. induction src as [|v src IH]; intros seen out; simpl.
  { by rewrite app_nil_r. }
  rewrite filter_cons. destruct (decide (v ∈ seen)) as [Hv|Hv].
  - rewrite IH, decide_False by naive_solver. f_equal.
    rewrite list_filter_filter. apply list_filter_iff. set_solver.
  - rewrite IH, decide_True by done. rewrite <- app_assoc. simpl. do 2 f_equal.
    rewrite list_filter_filter. apply list_filter_iff. set_solver.
Qed.

Lemma Distinct_eq (src : list T) : Distinct src = first_occurrences src.
Proof. unfold Distinct. rewrite distinct_loop_spec. apply filter_all. set_solver. Qed.

Lemma first_occurrences_NoDup_id (l : list T) : NoDup l -> first_occurrences l = l.
Proof.
  induction 1 as [|v l Hv Hl IH]; [done|]. simpl. rewrite IH, filter_all; [done|].
  by intros w Hw ->.
Qed.
End slices_lemmas.

Lemma SliceToStrings_loop_app {T} (sprint_v : T -> string) items out :
  SliceToStrings_loop sprint_v items out = out ++ (sprint_v <$> items).
Proof.
  revert out. induction items as [|it items IH]; intros out; simpl.
  - by rewrite app_nil_r.
  - by rewrite IH, <- app_assoc.
Qed.
End Slices.

(** ** Goroutines that do not crash the process *)

Module Runtime.
(** How the goroutine started by [GoRecover] ends. *)
Inductive goroutine_end :=
  | CancelledBeforeStart
  | Finished
  | RecoveredPanic (reason : string).

(** [GoRecover] runs [fn] on a state it may change, unless its context is already
    cancelled; a panic of [fn] keeps the effects done so far and is recovered. *)
Definition GoRecover {S} (ctx_done : bool) (fn : S -> S * outcome unit) (s : S) : S * goroutine_end :=
  if ctx_done then (s, CancelledBeforeStart)
  else match fn s with
       | (s', Returned _) => (s', Finished)
       | (s', Panicked r) => (s', RecoveredPanic r)
       end.

(** The dynamic type of a panic value. *)
Inductive panic_value (E : Type) :=
  | PanicError (e : E)
  | PanicString (s : string)
  | PanicOther (printed : string).
Arguments PanicError {E} _.
Arguments PanicString {E} _.
Arguments PanicOther {E} _.

(** [panicToError]: [new] is [errors.New]. *)
Definition panicToError {E} (new : string -> E) (v : panic_value E) : E :=
  match v with
  | PanicError e => e
  | PanicString s => new s
  | PanicOther p => new ("panic: " +:+ p)
  end.

(** [WaitOrCtx]: the context is done at [done_at] (with its error) or never, the
    timer fires [wait] after [now]; [select] takes whichever is ready first, and
    either of them when both are. *)
Definition fires_at (now wait : Z) : Z := (now + Z.max 0 wait)%Z.

Inductive WaitOrCtx {E} (now : Z) (done_at : option (Z * E)) (wait : Z) : option E -> Prop :=
  | WaitCtx t e : done_at = Some (t, e) -> (t <= fires_at now wait)%Z ->
      WaitOrCtx now done_at wait (Some e)
  | WaitTimer : (forall t e, done_at = Some (t, e) -> (fires_at now wait <= Z.max now t)%Z) ->
      WaitOrCtx now done_at wait None.

Lemma GoRecover_never_panics {S} done (fn : S -> S * outcome unit) s :
  exists s' e, GoRecover done fn s = (s', e) /\ (done = true -> s' = s).
Proof.
  unfold GoRecover. destruct done; [eauto|].
  destruct (fn s) as [s' [|]]; by eexists _, _.
Qed.
End Runtime.

(** ** Properties *)

(** C26: [SortedDifference] always returns: whatever the two slices (sorted or not, of
    any ordered type), the loop ends within [len(base)+len(exclude)] iterations, no index
    or slice expression panics, and the result is a subsequence of [base]. *)
Theorem SortedDifference_terminates (T : Type) (ltb : T -> T -> bool) (base exclude : list T) :
  exists r, Difference.SortedDifference ltb base exclude = Some (Returned r) /\ r `sublist_of` base.
Proof.
  eexists. split; [apply Difference.SortedDifference_eq|apply Difference.difference_sublist].
Qed.

(** C25: on ascending slices [SortedDifference] computes the multiset difference: the
    result is ascending and every value occurs in it as often as in [base] less its
    occurrences in [exclude] (never below zero), so no value of [base] that [exclude] does not mention is lost. *)
Theorem SortedDifference_multiset (T : Type) (Heq : EqDecision T) (ltb : T -> T -> bool)
    (Hord : Difference.StrictTotal ltb) (base exclude : list T)
    (Hb : Difference.ascending ltb base) (He : Difference.ascending ltb exclude) :
  exists r, Difference.SortedDifference ltb base exclude = Some (Returned r)
    /\ Difference.ascending ltb r
    /\ forall x, Difference.occurrences x r = Difference.occurrences x base - Difference.occurrences x exclude.
Proof.
  eexists. split; [apply Difference.SortedDifference_eq|]. split.
  - eapply StronglySorted_sublist; [apply Difference.difference_sublist|done].
  - intros x. by apply Difference.difference_occurrences.
Qed.

Lemma SortedDifference_multiset_witness :
  exists r, Difference.SortedDifference Z.ltb [1; 2; 2; 3; 5]%Z [2; 4; 5]%Z = Some (Returned r)
    /\ Difference.ascending Z.ltb r
    /\ forall x, Difference.occurrences x r
         = Difference.occurrences x [1; 2; 2; 3; 5]%Z - Difference.occurrences x [2; 4; 5]%Z.
Proof.
  apply (SortedDifference_multiset Z _ Z.ltb Difference.Z_strict_total);
    unfold Difference.ascending; repeat constructor.
Defined.

Example SortedDifference_run :
  Difference.SortedDifference Z.ltb [1; 2; 2; 3; 5]%Z [2; 4; 5]%Z = Some (Returned [1; 2; 3]%Z).
Proof. reflexivity. Qed.

(** [Distinct] keeps exactly the first occurrence of every element, in the order of
    the source: the result has no duplicates, the same elements as the source, is a
    subsequence of it, and applying [Distinct] again changes nothing. *)
Theorem Distinct_first_occurrences (T : Type) (Heq : EqDecision T) (Hc : Countable T) (src : list T) :
  Slices.Distinct src = Slices.first_occurrences src
  /\ NoDup (Slices.Distinct src)
  /\ (forall x, x ∈ Slices.Distinct src <-> x ∈ src)
  /\ Slices.Distinct src `sublist_of` src
  /\ Slices.Distinct (Slices.Distinct src) = Slices.Distinct src.
Proof.
  rewrite !Slices.Distinct_eq. split_and!; [done|apply Slices.NoDup_first_occurrences| | |].
  - intros x. apply Slices.elem_of_first_occurrences.
  - apply Slices.first_occurrences_sublist.
  - apply Slices.first_occurrences_NoDup_id, Slices.NoDup_first_occurrences.
Qed.

Example Distinct_run : Slices.Distinct [3; 1; 3; 2; 1]%Z = [3; 1; 2]%Z.
Proof. reflexivity. Qed.
