(* ===== verification/Bytes.v ===== *)
(** Byte slices: [[]byte] as lists of bytes ([nil] and the empty slice are the same
    list), [cloneBytes], and [bytes.Compare] as a strict total order. *)
From S2P Require Import Prelude.
From stdpp Require Import base tactics list countable orders.
From Stdlib Require Import ZArith Lia.
From Stdlib Require Strings.Byte.

Notation byte := Byte.byte.
Notation bytes := (list Byte.byte).

#[export] Instance byte_eq_dec : EqDecision byte := Byte.byte_eq_dec.

#[export] Program Instance byte_countable : Countable byte :=
  inj_countable Byte.to_N Byte.of_N _.
Next Obligation. intros x. apply Byte.of_to_N. Qed.

(** [cloneBytes] of btree_bytes.go: a fresh copy; [nil] for an empty source. *)
Definition cloneBytes (src : bytes) : bytes :=
  if (length src =? 0)%nat then [] else src.

(** [bytes.Compare]: lexicographic on the byte values. *)
Fixpoint Compare (a b : bytes) : Z :=
  match a, b with
  | [], [] => 0
  | [], _ :: _ => -1
  | _ :: _, [] => 1
  | x :: a, y :: b =>
    if (Byte.to_N x <? Byte.to_N y)%N then -1
    else if (Byte.to_N y <? Byte.to_N x)%N then 1
    else Compare a b
  end.

Definition bytes_lt (a b : bytes) : Prop := (Compare a b < 0)%Z.

(** ** The order *)

Lemma to_N_inj x y : Byte.to_N x = Byte.to_N y -> x = y.
Proof. intros E. apply (f_equal Byte.of_N) in E. rewrite !Byte.of_to_N in E. congruence. Qed.

Lemma cloneBytes_id src : cloneBytes src = src.
Proof. by destruct src. Qed.

Ltac compare_bytes :=
  simpl; repeat match goal with
  | |- context [(?x <? ?y)%N] => destruct (N.ltb_spec x y)
  | H : context [(?x <? ?y)%N] |- _ => destruct (N.ltb_spec x y)
  end; try lia.

Lemma Compare_refl a : Compare a a = 0%Z.
Proof. induction a as [|x a IH]; compare_bytes; done. Qed.

Lemma Compare_antisym a b : Compare b a = (- Compare a b)%Z.
Proof. revert b. induction a as [|x a IH]; intros [|y b]; compare_bytes; auto. Qed.

Lemma Compare_eq a b : Compare a b = 0%Z -> a = b.
Proof.
  revert b. induction a as [|x a IH]; intros [|y b]; compare_bytes; try done.
  intros E. f_equal; [apply to_N_inj; lia|auto].
Qed.

Lemma Compare_lt_trans a b c :
  (Compare a b < 0 -> Compare b c < 0 -> Compare a c < 0)%Z.
Proof.
  revert b c. induction a as [|x a IH]; intros [|y b] [|z c]; compare_bytes; eauto.
Qed.

#[export] Instance bytes_lt_strict : StrictOrder bytes_lt.
Proof.
  split.
  - intros a. unfold complement, bytes_lt. rewrite Compare_refl. lia.
  - intros a b c. apply Compare_lt_trans.
Qed.

Lemma Compare_trichotomy a b :
  bytes_lt a b \/ a = b \/ bytes_lt b a.
Proof.
  unfold bytes_lt. rewrite (Compare_antisym a b).
  destruct (Z.lt_trichotomy (Compare a b) 0) as [?|[?|?]];
    [by left|right; left; by apply Compare_eq|right; right; lia].
Qed.
