(* ===== verification/Context.v ===== *)
(** Go's package [context] as far as the code uses it, and [src/utils/custom_context.go]. A context is known by what
    its methods show: when and why it is done (a cancellation of the context or of a parent, at whatever time it comes,
    is part of it), the deadline it reports, its values. Instants are nanoseconds. *)
From S2P Require Import Prelude GoTime.
From stdpp Require Import base tactics list sorting strings.
From Stdlib Require Import ZArith Lia.
Local Open Scope Z_scope.

Inductive ctx_error := Canceled | DeadlineExceeded.

(** A key is compared with its type: keys of two packages never meet. *)
Record ctx_key := mkKey { key_type : string; key_name : string }.

#[export] Instance ctx_key_eq_dec : EqDecision ctx_key.
Proof. solve_decision. Defined.

Record context := mkCtx { done : option (Z * ctx_error); deadline : option Z; values : list (ctx_key * string) }.

Definition Background : context := mkCtx None None [].

(** Of two reasons to be done, the earlier one. *)
Definition earlier (a b : option (Z * ctx_error)) : option (Z * ctx_error) :=
  match a, b with
  | Some (ta, ea), Some (tb, eb) => if ta <=? tb then Some (ta, ea) else Some (tb, eb)
  | None, b => b
  | a, None => a
  end.

(** [WithTimeout]: a parent that is due earlier keeps its own deadline; one that is due already is done at once. *)
Definition WithTimeout (parent : context) (now d : Z) : context :=
  let own := mkCtx (earlier (done parent) (Some (Z.max now (now + d), DeadlineExceeded))) (Some (now + d)) (values parent) in
  match deadline parent with
  | Some p => if p <? now + d then parent else own
  | None => own
  end.

(** The function [cancel], called at [t]. *)
Definition cancelled_at (c : context) (t : Z) : context :=
  mkCtx (earlier (done c) (Some (t, Canceled))) (deadline c) (values c).

Definition WithValue (parent : context) (k : ctx_key) (v : string) : context :=
  mkCtx (done parent) (deadline parent) ((k, v) :: values parent).

(** [Err] (and [Done], which is closed when it is not nil) at the time [t]. *)
Definition Err_ (c : context) (t : Z) : option ctx_error :=
  match done c with Some (t0, e) => if t0 <=? t then Some e else None | None => None end.

Fixpoint lookup_value (k : ctx_key) (l : list (ctx_key * string)) : option string :=
  match l with
  | [] => None
  | (k', v) :: l => if decide (k' = k) then Some v else lookup_value k l
  end.

Definition Value (c : context) (k : ctx_key) : option string := lookup_value k (values c).

(** [noDeadlineCtx] embeds a context and overrides [Deadline]. *)
Definition noDeadlineCtx (c : context) : context := mkCtx (done c) None (values c).

Definition TimeoutNoDeadline (parent : context) (now d : Z) : context := noDeadlineCtx (WithTimeout parent now d).

(** ** Lemmas *)

Lemma earlier_le_l a b t e : a = Some (t, e) -> exists t' e', earlier a b = Some (t', e') /\ t' <= t.
Proof.
  intros ->. destruct b as [[tb eb]|]; simpl; [|by exists t, e; split; [|lia] ].
  destruct (Z.leb_spec t tb); do 2 eexists; (split; [reflexivity|lia]).
Qed.

Lemma earlier_le_r a b t e : b = Some (t, e) -> exists t' e', earlier a b = Some (t', e') /\ t' <= t.
Proof.
  intros ->. destruct a as [[ta ea]|]; simpl; [|by exists t, e; split; [|lia] ].
  destruct (Z.leb_spec ta t); do 2 eexists; (split; [reflexivity|lia]).
Qed.

(** A context created by the time [now] is done no later than the deadline it reports, unless that was past. *)
Definition ctx_wf (now : Z) (c : context) : Prop :=
  forall dl, deadline c = Some dl -> exists t e, done c = Some (t, e) /\ t <= Z.max dl now.

Lemma WithTimeout_done now p d :
  ctx_wf now p -> exists t e, done (WithTimeout p now d) = Some (t, e) /\ t <= Z.max now (now + d).
Proof.
  intros Hp. unfold WithTimeout. destruct (deadline p) as [dl|] eqn:E.
  - destruct (Z.ltb_spec dl (now + d)).
    + destruct (Hp dl E) as (t & e & ? & ?). exists t, e. split; [assumption|lia].
    + cbn [done]. by eapply earlier_le_r.
  - cbn [done]. by eapply earlier_le_r.
Qed.

(** A child is done no later than its parent. *)
Lemma WithTimeout_no_later now p d t e :
  done p = Some (t, e) -> exists t' e', done (WithTimeout p now d) = Some (t', e') /\ t' <= t.
Proof.
  intros E. unfold WithTimeout.
  destruct (deadline p) as [dl|]; [destruct (dl <? now + d); [by exists t, e; split; [|lia]|]|]; by eapply earlier_le_l.
Qed.

Lemma WithTimeout_values p now d : values (WithTimeout p now d) = values p.
Proof. unfold WithTimeout. destruct (deadline p); [destruct (_ <? _)|]; reflexivity. Qed.

Lemma Err_done c t e t0 : done c = Some (t0, e) -> t0 <= t -> Err_ c t = Some e.
Proof. intros E H. unfold Err_. rewrite E. by destruct (Z.leb_spec t0 t); [|lia]. Qed.

(** ** Properties *)

(** C33: [TimeoutNoDeadline] hides the deadline and nothing else. The context it makes reports no
    deadline, has the values of its parent and is done at the same time and for the same reason as the one of
    [context.WithTimeout]; so it is done after [d] at the latest, and a further timeout of [d2] on it
    reports a deadline of its own, while it is still done when the hidden one is reached. *)
Theorem TimeoutNoDeadline_hides_only_the_deadline (parent : context) (now d now2 d2 : Z) (Hp : ctx_wf now parent) :
  let c := TimeoutNoDeadline parent now d in
  deadline c = None
  /\ (forall t, Err_ c t = Err_ (WithTimeout parent now d) t)
  /\ (forall k, Value c k = Value parent k)
  /\ Err_ c (Z.max now (now + d)) <> None
  /\ deadline (WithTimeout c now2 d2) = Some (now2 + d2)
  /\ Err_ (WithTimeout c now2 d2) (Z.max now (now + d)) <> None.
Proof.
  intros c. destruct (WithTimeout_done now parent d Hp) as (t & e & E & Ht).
  assert (done c = Some (t, e)) as Ec by exact E.
  split_and!; [reflexivity|reflexivity| | |reflexivity|].
  - intros k. unfold Value, c. cbn [TimeoutNoDeadline noDeadlineCtx values]. by rewrite WithTimeout_values.
  - by rewrite (Err_done c _ e t).
  - destruct (earlier_le_l (done c) (Some (Z.max now2 (now2 + d2), DeadlineExceeded)) t e Ec) as (t' & e' & E' & Ht').
    rewrite (Err_done _ _ e' t'); [done| |lia]. exact E'.
Qed.

Lemma TimeoutNoDeadline_hides_only_the_deadline_witness :
  let c := TimeoutNoDeadline Background 0 (2 * Second) in
  deadline c = None
  /\ (forall t, Err_ c t = Err_ (WithTimeout Background 0 (2 * Second)) t)
  /\ (forall k, Value c k = Value Background k)
  /\ Err_ c (Z.max 0 (0 + 2 * Second)) <> None
  /\ deadline (WithTimeout c Second (60 * Second)) = Some (Second + 60 * Second)
  /\ Err_ (WithTimeout c Second (60 * Second)) (Z.max 0 (0 + 2 * Second)) <> None.
Proof. apply (TimeoutNoDeadline_hides_only_the_deadline Background 0 (2 * Second) Second (60 * Second)). intros dl [=]. Defined.
