(* ===== verification/BTree.v ===== *)
(** [src/database/in_memory_storage/btree/btree_bytes.go]: the ordered TTL storage
    [ByteKeyBTree] over the third-party tree [github.com/google/btree], which is a
    parameter ([BTreeLib]) with its documented contract ([BTreeLaws]).
    The detailed operations are refined to a finite map from keys to items. *)
From S2P Require Import Prelude GoTime Bytes.
From stdpp Require Import base tactics list sorting gmap fin_maps strings.
From Stdlib Require Import ZArith Lia.

(** ** Items *)

(** The two implementations of the interface [Item]; a [nil] item is [None] of
    [option Item] where the code accepts one. *)
Inductive Item :=
  | ValueNodeItem (valueBytes keyBytes : bytes) (timestampUnixSeconds : Z)
  | FilterNodeItem (keyBytes : bytes) (timestampUnixSeconds : Z).

#[export] Instance Item_eq_dec : EqDecision Item.
Proof. solve_decision. Defined.

Definition NewValueNodeItem (key value : bytes) (expiration : Time) : Item :=
  ValueNodeItem (cloneBytes value) (cloneBytes key) (Unix expiration).

Definition NewFilterNodeItem (key : bytes) (expiration : Time) : Item :=
  FilterNodeItem (cloneBytes key) (Unix expiration).

Definition Key (i : Item) : bytes :=
  match i with ValueNodeItem _ k _ => k | FilterNodeItem k _ => k end.

Definition Value (i : Item) : bytes :=
  match i with ValueNodeItem v _ _ => v | FilterNodeItem _ _ => [] end.

Definition GetExpirationTime (i : Item) : Z :=
  match i with ValueNodeItem _ _ t => t | FilterNodeItem _ t => t end.

Definition Less (a b : Item) : bool := (Compare (Key a) (Key b) <? 0)%Z.

(** ** The third-party tree *)

Class BTreeLib (tree : Type) := {
  lib_New : Z -> Z -> outcome tree;
  lib_ReplaceOrInsert : tree -> Item -> tree * option Item;
  lib_Delete : tree -> Item -> tree * option Item;
  lib_Get : tree -> Item -> option Item;
  lib_Len : tree -> Z;
  lib_Clear : tree -> bool -> tree;
  lib_Ascend : forall {S : Type}, tree -> (S -> Item -> S * bool) -> S -> S
}.

(** Two items are equal for the tree when neither is less than the other. *)
Definition same_item (a b : Item) : Prop := Less a b = false /\ Less b a = false.

Definition item_lt (a b : Item) : Prop := Less a b = true.

(** What the documentation of google/btree promises of its operations, through the
    list of the items a tree holds. *)
Class BTreeLaws (tree : Type) `{!BTreeLib tree} (items : tree -> list Item) : Prop := {
  law_sorted t : StronglySorted item_lt (items t);
  law_New degree cap : (2 <= degree)%Z -> (0 <= cap)%Z ->
    exists t, lib_New degree cap = Returned t /\ items t = [];
  law_Replace_items t x y :
    y ∈ items (lib_ReplaceOrInsert t x).1 <-> y = x \/ y ∈ items t /\ ~ same_item y x;
  law_Replace_old t x y :
    (lib_ReplaceOrInsert t x).2 = Some y <-> y ∈ items t /\ same_item y x;
  law_Delete_items t x y :
    y ∈ items (lib_Delete t x).1 <-> y ∈ items t /\ ~ same_item y x;
  law_Delete_old t x y : (lib_Delete t x).2 = Some y <-> y ∈ items t /\ same_item y x;
  law_Get t x y : lib_Get t x = Some y <-> y ∈ items t /\ same_item y x;
  law_Len t : lib_Len t = Z.of_nat (length (items t));
  law_Clear t b : items (lib_Clear t b) = [];
  law_Ascend {S} t (f : S -> Item -> S * bool) s : lib_Ascend t f s = iter_while f (items t) s
}.

(** ** ByteKeyBTree *)

Record Options := { Degree : Z; FreeListCapacity : Z }.

Section operations.
Context {tree : Type} `{!BTreeLib tree}.
Local Open Scope Z_scope.

Definition NewByteKeyBTree (opts : Options) : outcome tree :=
  let degree := if Degree opts <=? 0 then 32 else Degree opts in
  let capacity := if FreeListCapacity opts <=? 0 then 80000 else FreeListCapacity opts in
  lib_New degree capacity.

Definition has_key (item : Item) : bool := negb (length (Key item) =? 0)%nat.

Definition Upsert (b : tree) (item : option Item) : tree * bool :=
  match item with
  | None => (b, false)
  | Some item =>
    if negb (has_key item) then (b, false)
    else let (b', prev) := lib_ReplaceOrInsert b item in
         (b', match prev with None => true | Some _ => false end)
  end.

Fixpoint upsert_loop (b : tree) (items : list (option Item)) (added : Z) : tree * Z :=
  match items with
  | [] => (b, added)
  | None :: items => upsert_loop b items added
  | Some item :: items =>
    if negb (has_key item) then upsert_loop b items added
    else let (b', prev) := lib_ReplaceOrInsert b item in
         upsert_loop b' items (match prev with None => added + 1 | Some _ => added end)
  end.

Definition UpsertMany (b : tree) (items : list (option Item)) : tree * Z :=
  if (length items =? 0)%nat then (b, 0) else upsert_loop b items 0.

Definition Delete (b : tree) (item : option Item) : tree * bool :=
  match item with
  | None => (b, false)
  | Some item =>
    if negb (has_key item) then (b, false)
    else let (b', old) := lib_Delete b item in
         (b', match old with None => false | Some _ => true end)
  end.

Fixpoint delete_loop (b : tree) (items : list (option Item)) (deleted : Z) : tree * Z :=
  match items with
  | [] => (b, deleted)
  | None :: items => delete_loop b items deleted
  | Some item :: items =>
    if negb (has_key item) then delete_loop b items deleted
    else let (b', old) := lib_Delete b item in
         delete_loop b' items (match old with None => deleted | Some _ => deleted + 1 end)
  end.

Definition DeleteMany (b : tree) (items : list (option Item)) : tree * Z :=
  if (length items =? 0)%nat then (b, 0) else delete_loop b items 0.

Definition GetNodeItem (b : tree) (item : option Item) : option Item :=
  match item with
  | None => None
  | Some item => if negb (has_key item) then None else lib_Get b item
  end.

Definition Has (b : tree) (item : option Item) : bool :=
  match item with
  | None => false
  | Some item =>
    if negb (has_key item) then false
    else match lib_Get b item with None => false | Some _ => true end
  end.

(** Unlike the other readers it has no test for an empty key. *)
Definition GetLastWriteUnix (b : tree) (item : option Item) : Z * bool :=
  match item with
  | None => (0, false)
  | Some item =>
    match lib_Get b item with
    | None => (0, false)
    | Some res => (GetExpirationTime res, true)
    end
  end.

(** The callback threads a state of its own; it gets a copy of the key. *)
Definition ForEach {S} (b : tree) (callback : option (S -> bytes -> Z -> S * bool)) (s : S)
    : S * option string :=
  match callback with
  | None => (s, Some "nil callback"%string)
  | Some callback =>
    (lib_Ascend b (fun s it => callback s (cloneBytes (Key it)) (GetExpirationTime it)) s, None)
  end.

Definition Size (b : tree) : Z := lib_Len b.

Definition Reset (b : tree) : tree := lib_Clear b true.

(** The iterator both TTL operations pass to [Ascend]. *)
Definition collect_expired (cutoff limit : Z) (acc : list Item) (it : Item) : list Item * bool :=
  if GetExpirationTime it <=? cutoff then
    let acc' := acc ++ [it] in
    (acc', negb ((0 <? limit) && (limit <=? Z.of_nat (length acc'))))
  else (acc, true).

Definition cutoff_unix (now : Time) (ttl : Z) : Z := Unix (GoTime.Add now (int64 (- ttl))).

(** First critical section of [PurgeExpiredAt] (read lock): the items to delete. *)
Definition purge_collect (b : tree) (now : Time) (ttl maxToDelete : Z) : list Item :=
  lib_Ascend b (collect_expired (cutoff_unix now ttl) maxToDelete) [].

(** Second critical section (write lock): delete them by key. *)
Fixpoint purge_delete (b : tree) (itemsToDelete : list Item) (deleted : Z) : tree * Z :=
  match itemsToDelete with
  | [] => (b, deleted)
  | item :: items =>
    let (b', old) := lib_Delete b item in
    purge_delete b' items (match old with None => deleted | Some _ => deleted + 1 end)
  end.

(** [PurgeExpiredAt] when [b_locked] is the tree found at the second lock: other
    goroutines may have run between the two critical sections. *)
Definition purge_between (b_read b_locked : tree) (now : Time) (ttl maxToDelete : Z) : tree * Z :=
  if ttl <=? 0 then (b_locked, 0)
  else let itemsToDelete := purge_collect b_read now ttl maxToDelete in
       if (length itemsToDelete =? 0)%nat then (b_locked, 0)
       else purge_delete b_locked itemsToDelete 0.

Definition PurgeExpiredAt (b : tree) (now : Time) (ttl maxToDelete : Z) : tree * Z :=
  purge_between b b now ttl maxToDelete.

(** [None] is the [nil] slice. *)
Definition ListExpiredAt (b : tree) (now : Time) (ttl maxCount : Z) : option (list Item) :=
  if ttl <=? 0 then None
  else Some (lib_Ascend b (collect_expired (cutoff_unix now ttl) maxCount) []).
End operations.

(** ** Calls of the interface [TtlBTree] as data *)

(** A callback of [ForEach] is represented by the decision it takes on the pairs it
    has been given so far, which are also what the call makes observable. *)
Inductive Call :=
  | CallUpsert (item : option Item)
  | CallUpsertMany (items : list (option Item))
  | CallDelete (item : option Item)
  | CallDeleteMany (items : list (option Item))
  | CallHas (item : option Item)
  | CallGetNodeItem (item : option Item)
  | CallGetLastWriteUnix (item : option Item)
  | CallForEach (callback : option (list (bytes * Z) -> bool))
  | CallSize
  | CallReset
  | CallPurgeExpiredAt (now : Time) (ttl maxToDelete : Z)
  | CallListExpiredAt (now : Time) (ttl maxCount : Z).

Inductive Reply :=
  | ReplyBool (b : bool)
  | ReplyInt (n : Z)
  | ReplyItem (i : option Item)
  | ReplyTime (t : Z * bool)
  | ReplyVisited (v : list (bytes * Z)) (err : option string)
  | ReplyItems (l : option (list Item))
  | ReplyUnit.

Definition visit (callback : list (bytes * Z) -> bool) (seen : list (bytes * Z)) (key : bytes) (ts : Z)
    : list (bytes * Z) * bool :=
  let seen' := seen ++ [(key, ts)] in (seen', callback seen').

Section dispatch.
Context {tree : Type} `{!BTreeLib tree}.

Definition call (b : tree) (c : Call) : tree * Reply :=
  match c with
  | CallUpsert i => let (b', r) := Upsert b i in (b', ReplyBool r)
  | CallUpsertMany l => let (b', n) := UpsertMany b l in (b', ReplyInt n)
  | CallDelete i => let (b', r) := Delete b i in (b', ReplyBool r)
  | CallDeleteMany l => let (b', n) := DeleteMany b l in (b', ReplyInt n)
  | CallHas i => (b, ReplyBool (Has b i))
  | CallGetNodeItem i => (b, ReplyItem (GetNodeItem b i))
  | CallGetLastWriteUnix i => (b, ReplyTime (GetLastWriteUnix b i))
  | CallForEach cb => let (v, e) := ForEach b (visit <$> cb) [] in (b, ReplyVisited v e)
  | CallSize => (b, ReplyInt (Size b))
  | CallReset => (Reset b, ReplyUnit)
  | CallPurgeExpiredAt now ttl n => let (b', r) := PurgeExpiredAt b now ttl n in (b', ReplyInt r)
  | CallListExpiredAt now ttl n => (b, ReplyItems (ListExpiredAt b now ttl n))
  end.

Fixpoint calls (b : tree) (cs : list Call) : tree * list Reply :=
  match cs with
  | [] => (b, [])
  | c :: cs => let (b', r) := call b c in let (b'', rs) := calls b' cs in (b'', r :: rs)
  end.
End dispatch.

(** ** The abstract specification: a finite map from keys to items *)

Module Spec.
Definition item_le (a b : Item) : Prop := Less b a = false.
#[global] Instance item_le_dec : RelDecision item_le.
Proof. intros a b. unfold item_le. apply _. Defined.

(** The items of a map in ascending key order. *)
Definition ascending_items (m : gmap bytes Item) : list Item := merge_sort item_le (map_to_list m).*2.

(** An item that is not [nil] and has a key. *)
Definition usable (item : option Item) : option Item :=
  match item with
  | Some i => if has_key i then Some i else None
  | None => None
  end.

Definition upsert (m : gmap bytes Item) (i : Item) : gmap bytes Item := <[Key i := i]> m.

Definition remove (m : gmap bytes Item) (i : Item) : gmap bytes Item := delete (Key i) m.

(** A batch applies a single-item update to every usable item and counts the items
    whose key was absent ([new = true]) or present ([new = false]) when their turn came. *)
Fixpoint batch (upd : gmap bytes Item -> Item -> gmap bytes Item) (new : bool)
    (m : gmap bytes Item) (l : list Item) : gmap bytes Item * Z :=
  match l with
  | [] => (m, 0%Z)
  | i :: l =>
    let (m', n) := batch upd new (upd m i) l in
    (m', ((if bool_decide (m !! Key i = None) then (if new then 1 else 0)
           else (if new then 0 else 1)) + n)%Z)
  end.

Definition expired (cutoff : Z) (i : Item) : Prop := (GetExpirationTime i <= cutoff)%Z.
#[global] Instance expired_dec cutoff i : Decision (expired cutoff i).
Proof. unfold expired. apply _. Defined.

(** The expired items, in key order, cut at the limit. *)
Definition expired_items (m : gmap bytes Item) (now : Time) (ttl limit : Z) : list Item :=
  take_limit limit (filter (expired (cutoff_unix now ttl)) (ascending_items m)).

Definition step (m : gmap bytes Item) (c : Call) : gmap bytes Item * Reply :=
  match c with
  | CallUpsert i =>
    match usable i with
    | Some i => (upsert m i, ReplyBool (bool_decide (m !! Key i = None)))
    | None => (m, ReplyBool false)
    end
  | CallUpsertMany l => let (m', n) := batch upsert true m (omap usable l) in (m', ReplyInt n)
  | CallDelete i =>
    match usable i with
    | Some i => (remove m i, ReplyBool (bool_decide (m !! Key i <> None)))
    | None => (m, ReplyBool false)
    end
  | CallDeleteMany l => let (m', n) := batch remove false m (omap usable l) in (m', ReplyInt n)
  | CallHas i =>
    (m, ReplyBool (match usable i with Some i => bool_decide (m !! Key i <> None) | None => false end))
  | CallGetNodeItem i => (m, ReplyItem (i ← usable i; m !! Key i))
  | CallGetLastWriteUnix i =>
    (m, ReplyTime (match (i ← i; m !! Key i) with
                   | Some res => (GetExpirationTime res, true)
                   | None => (0%Z, false)
                   end))
  | CallForEach None => (m, ReplyVisited [] (Some "nil callback"%string))
  | CallForEach (Some cb) =>
    (m, ReplyVisited (iter_while (fun seen kt => visit cb seen kt.1 kt.2)
                        ((fun i => (Key i, GetExpirationTime i)) <$> ascending_items m) []) None)
  | CallSize => (m, ReplyInt (Z.of_nat (size m)))
  | CallReset => (∅, ReplyUnit)
  | CallPurgeExpiredAt now ttl n =>
    if (ttl <=? 0)%Z then (m, ReplyInt 0)
    else let l := expired_items m now ttl n in
         (foldl remove m l, ReplyInt (Z.of_nat (length l)))
  | CallListExpiredAt now ttl n =>
    (m, ReplyItems (if (ttl <=? 0)%Z then None else Some (expired_items m now ttl n)))
  end.

Fixpoint steps (m : gmap bytes Item) (cs : list Call) : gmap bytes Item * list Reply :=
  match cs with
  | [] => (m, [])
  | c :: cs => let (m', r) := step m c in let (m'', rs) := steps m' cs in (m'', r :: rs)
  end.
End Spec.

(** ** A concrete tree: strictly sorted lists *)

Module SortedTree.
Fixpoint insert (x : Item) (l : list Item) : list Item :=
  match l with
  | [] => [x]
  | y :: l' => if Less x y then x :: l else if Less y x then y :: insert x l' else x :: l'
  end.

Definition same (x y : Item) : bool := negb (Less y x) && negb (Less x y).

Definition same_in (x : Item) (l : list Item) : option Item := List.find (same x) l.

Definition without (x : Item) (l : list Item) : list Item := List.filter (fun y => negb (same x y)) l.

Fixpoint sortedb (l : list Item) : bool :=
  match l with
  | [] => true
  | x :: l => forallb (Less x) l && sortedb l
  end.

(** The representation carries a proof of the boolean test. *)
Record t := mk { elems : list Item; elems_sorted : sortedb elems = true }.

Definition normalize (l : list Item) : t :=
  match bool_dec (sortedb l) true with
  | left p => mk l p
  | right _ => mk [] eq_refl
  end.
End SortedTree.

#[export] Instance SortedTree_lib : BTreeLib SortedTree.t := {
  lib_New degree cap := if (degree <=? 1)%Z then Panicked "bad degree" else Returned (SortedTree.mk [] eq_refl);
  lib_ReplaceOrInsert b x :=
    (SortedTree.normalize (SortedTree.insert x (SortedTree.elems b)), SortedTree.same_in x (SortedTree.elems b));
  lib_Delete b x :=
    (SortedTree.normalize (SortedTree.without x (SortedTree.elems b)), SortedTree.same_in x (SortedTree.elems b));
  lib_Get b x := SortedTree.same_in x (SortedTree.elems b);
  lib_Len b := Z.of_nat (length (SortedTree.elems b));
  lib_Clear _ _ := SortedTree.mk [] eq_refl;
  lib_Ascend S b f s := iter_while f (SortedTree.elems b) s
}.

(** ** Order and identity of items *)

Lemma Less_lt a b : Less a b = true <-> bytes_lt (Key a) (Key b).
Proof. unfold Less, bytes_lt. apply Z.ltb_lt. Qed.

Lemma Less_not a b : Less a b = false <-> ~ bytes_lt (Key a) (Key b).
Proof. rewrite <- Less_lt. by destruct (Less a b). Qed.

#[export] Instance item_lt_strict : StrictOrder item_lt.
Proof.
  unfold item_lt. split.
  - intros a. unfold complement. rewrite Less_lt. apply irreflexivity, _.
  - intros a b c. rewrite !Less_lt. apply transitivity.
Qed.

Lemma same_item_key a b : same_item a b <-> Key a = Key b.
Proof.
  unfold same_item. rewrite !Less_not. split.
  - intros [H1 H2]. destruct (Compare_trichotomy (Key a) (Key b)) as [?|[?|?]]; done.
  - intros ->. split; apply irreflexivity, _.
Qed.

#[export] Instance item_le_total : Total Spec.item_le.
Proof.
  intros a b. unfold Spec.item_le. rewrite !Less_not.
  destruct (Compare_trichotomy (Key a) (Key b)) as [?|[->|?]].
  - left. intros ?. by apply (irreflexivity bytes_lt (Key a)); etrans.
  - left. apply irreflexivity, _.
  - right. intros ?. by apply (irreflexivity bytes_lt (Key a)); etrans.
Qed.

#[export] Instance item_le_trans : Transitive Spec.item_le.
Proof.
  intros a b c. unfold Spec.item_le. rewrite !Less_not. intros H1 H2 H3.
  destruct (Compare_trichotomy (Key b) (Key c)) as [?|[E|?]].
  - apply H1. by etrans.
  - by rewrite E in H1.
  - done.
Qed.

Lemma item_lt_le_strict a b : Spec.item_le a b -> Key a <> Key b -> item_lt a b.
Proof.
  unfold Spec.item_le, item_lt. rewrite Less_not, Less_lt.
  destruct (Compare_trichotomy (Key a) (Key b)) as [?|[?|?]]; done.
Qed.

Lemma item_lt_keys l : StronglySorted item_lt l -> NoDup (Key <$> l).
Proof.
  intros Hl. apply (StronglySorted_strict_NoDup bytes_lt).
  eapply StronglySorted_map; [|exact Hl]. intros x y. apply Less_lt.
Qed.

Lemma NoDup_keys_inj l x y :
  NoDup (Key <$> l) -> x ∈ l -> y ∈ l -> Key x = Key y -> x = y.
Proof.
  intros Hn [i Hi]%list_elem_of_lookup [j Hj]%list_elem_of_lookup E.
  assert (i = j) as ->; [|congruence].
  eapply (NoDup_lookup (Key <$> l)); [done|..]; rewrite list_lookup_fmap, ?Hi, ?Hj; simpl; [done|].
  by rewrite E.
Qed.

(** A list that is ordered by [<=] and has distinct keys is strictly ordered. *)
Lemma item_le_sorted_strict l :
  StronglySorted Spec.item_le l -> NoDup (Key <$> l) -> StronglySorted item_lt l.
Proof.
  induction 1 as [|x l Hl IH Hx]; intros Hn; constructor.
  - apply IH. by inversion Hn.
  - rewrite Forall_forall in Hx |- *. intros y Hy.
    apply item_lt_le_strict; [auto|]. inversion_clear Hn as [|? ? Hnx _].
    intros E. apply Hnx. rewrite E. by apply list_elem_of_fmap_2.
Qed.

(** ** Maps whose entries are stored under their own key *)

Definition keyed (m : gmap bytes Item) : Prop := forall k i, m !! k = Some i -> Key i = k.

Definition map_of (l : list Item) : gmap bytes Item := list_to_map ((fun i => (Key i, i)) <$> l).

Lemma map_of_lookup l k i :
  NoDup (Key <$> l) -> map_of l !! k = Some i <-> i ∈ l /\ Key i = k.
Proof.
  intros Hn. unfold map_of. rewrite <- elem_of_list_to_map.
  - rewrite list_elem_of_fmap. split; [intros (j & [= -> ->] & ?); done|].
    intros [? <-]. by exists i.
  - by rewrite <- list_fmap_compose.
Qed.

Lemma map_of_keyed l : NoDup (Key <$> l) -> keyed (map_of l).
Proof. intros Hn k i Hi. by apply map_of_lookup in Hi as [_ ?]. Qed.

Lemma map_of_size l : NoDup (Key <$> l) -> size (map_of l) = length l.
Proof.
  intros Hn. rewrite <- length_map_to_list. unfold map_of.
  rewrite map_to_list_to_map by by rewrite <- list_fmap_compose.
  by rewrite length_fmap.
Qed.

Lemma elem_of_ascending m i :
  keyed m -> i ∈ Spec.ascending_items m <-> m !! Key i = Some i.
Proof.
  intros Hm. unfold Spec.ascending_items. rewrite (merge_sort_Permutation Spec.item_le).
  rewrite list_elem_of_fmap. split.
  - intros ([k j] & -> & Hj%elem_of_map_to_list). simpl. by rewrite (Hm _ _ Hj).
  - intros Hi. exists (Key i, i). split; [done|]. by apply elem_of_map_to_list.
Qed.

Lemma ascending_sorted m : keyed m -> StronglySorted item_lt (Spec.ascending_items m).
Proof.
  intros Hm. apply item_le_sorted_strict.
  - apply StronglySorted_merge_sort; apply _.
  - unfold Spec.ascending_items. rewrite (merge_sort_Permutation Spec.item_le).
    rewrite <- list_fmap_compose.
    rewrite (list_fmap_ext _ fst); [apply NoDup_fst_map_to_list|].
    intros n [k i] Hi%list_elem_of_lookup_2%elem_of_map_to_list. by apply Hm.
Qed.

(** A strictly sorted list is the ascending enumeration of its map. *)
Lemma ascending_map_of l :
  StronglySorted item_lt l -> Spec.ascending_items (map_of l) = l.
Proof.
  intros Hl. assert (Hn := item_lt_keys l Hl).
  apply (StronglySorted_ext item_lt); [by apply ascending_sorted, map_of_keyed|done|].
  intros i. rewrite elem_of_ascending by by apply map_of_keyed.
  rewrite map_of_lookup by done. naive_solver.
Qed.

(** ** Collecting expired items, batches and their counters *)

Lemma collect_unlimited cutoff limit l acc :
  (limit <= 0)%Z ->
  iter_while (collect_expired cutoff limit) l acc = acc ++ filter (Spec.expired cutoff) l.
Proof.
  intros Hl. revert acc. induction l as [|x l IH]; intros acc; simpl; [by rewrite app_nil_r|].
  unfold collect_expired at 1. rewrite filter_cons.
  destruct (Z.leb_spec (GetExpirationTime x) cutoff).
  - rewrite decide_True by (unfold Spec.expired; lia). destruct (Z.ltb_spec 0 limit); [lia|]. simpl.
    rewrite IH. by rewrite <- app_assoc.
  - rewrite decide_False by (unfold Spec.expired; lia). apply IH.
Qed.

Lemma collect_limited cutoff limit l acc :
  (Z.of_nat (length acc) < limit)%Z ->
  iter_while (collect_expired cutoff limit) l acc
  = acc ++ take (Z.to_nat limit - length acc) (filter (Spec.expired cutoff) l).
Proof.
  revert acc. induction l as [|x l IH]; intros acc Ha; simpl.
  { by rewrite filter_nil, take_nil, app_nil_r. }
  unfold collect_expired at 1. rewrite filter_cons.
  destruct (Z.leb_spec (GetExpirationTime x) cutoff).
  - rewrite decide_True by (unfold Spec.expired; lia). destruct (Z.ltb_spec 0 limit); [|lia].
    rewrite length_app. simpl.
    destruct (Z.leb_spec limit (Z.of_nat (length acc + 1))); simpl.
    + replace (Z.to_nat limit - length acc) with 1 by lia. done.
    + rewrite IH by (rewrite length_app; simpl; lia). rewrite <- app_assoc, length_app. simpl.
      replace (Z.to_nat limit - length acc) with (S (Z.to_nat limit - (length acc + 1))) by lia.
      done.
  - rewrite decide_False by (unfold Spec.expired; lia). by apply IH.
Qed.

Lemma collect_spec cutoff limit l :
  iter_while (collect_expired cutoff limit) l [] = take_limit limit (filter (Spec.expired cutoff) l).
Proof.
  destruct (Z.leb_spec limit 0).
  - by rewrite collect_unlimited, take_limit_nonpos.
  - rewrite collect_limited, take_limit_pos by (simpl; lia). simpl. f_equal. lia.
Qed.

Lemma iter_while_fmap {A B S} (f : S -> B -> S * bool) (g : A -> B) l s :
  iter_while f (g <$> l) s = iter_while (fun s x => f s (g x)) l s.
Proof.
  revert s. induction l as [|x l IH]; intros s; [done|]. simpl.
  destruct (f s (g x)) as [s' []]; auto.
Qed.

Lemma remove_lookup m l k :
  foldl Spec.remove m l !! k = if bool_decide (k ∈ Key <$> l) then None else m !! k.
Proof.
  revert m. induction l as [|x l IH]; intros m; [done|]. simpl. rewrite IH.
  unfold Spec.remove. rewrite lookup_delete.
  repeat case_bool_decide; try case_decide; try done; set_solver.
Qed.

(** ** The operations against the map *)

Section refinement.
Context {tree : Type} `{!BTreeLib tree} (items : tree -> list Item) `{!BTreeLaws tree items}.
Implicit Types b : tree.

Definition abs b : gmap bytes Item := map_of (items b).

Lemma items_keys b : NoDup (Key <$> items b).
Proof. apply item_lt_keys, law_sorted. Qed.

Lemma abs_lookup b k i : abs b !! k = Some i <-> i ∈ items b /\ Key i = k.
Proof. apply map_of_lookup, items_keys. Qed.

Lemma abs_keyed b : keyed (abs b).
Proof. apply map_of_keyed, items_keys. Qed.

Lemma abs_ascending b : Spec.ascending_items (abs b) = items b.
Proof. apply ascending_map_of, law_sorted. Qed.

Lemma abs_Replace b x : abs (lib_ReplaceOrInsert b x).1 = Spec.upsert (abs b) x.
Proof.
  apply map_eq. intros k. apply option_eq. intros i. unfold Spec.upsert.
  rewrite abs_lookup, law_Replace_items, lookup_insert_Some, abs_lookup, same_item_key.
  destruct (decide (Key i = Key x)); naive_solver.
Qed.

Lemma abs_Delete b x : abs (lib_Delete b x).1 = Spec.remove (abs b) x.
Proof.
  apply map_eq. intros k. apply option_eq. intros i. unfold Spec.remove.
  rewrite abs_lookup, law_Delete_items, lookup_delete_Some, abs_lookup, same_item_key.
  naive_solver.
Qed.

Lemma Get_abs b x : lib_Get b x = abs b !! Key x.
Proof. apply option_eq. intros i. by rewrite law_Get, abs_lookup, same_item_key. Qed.

Lemma Replace_old_abs b x : (lib_ReplaceOrInsert b x).2 = abs b !! Key x.
Proof. apply option_eq. intros i. by rewrite law_Replace_old, abs_lookup, same_item_key. Qed.

Lemma Delete_old_abs b x : (lib_Delete b x).2 = abs b !! Key x.
Proof. apply option_eq. intros i. by rewrite law_Delete_old, abs_lookup, same_item_key. Qed.

Lemma abs_Clear b c : abs (lib_Clear b c) = ∅.
Proof. unfold abs. by rewrite law_Clear. Qed.

Lemma Size_abs b : Size b = Z.of_nat (size (abs b)).
Proof. unfold Size. rewrite law_Len. unfold abs. by rewrite map_of_size by apply items_keys. Qed.

Lemma upsert_loop_abs b l n :
  (abs (upsert_loop b l n).1, (upsert_loop b l n).2)
  = (let (m, k) := Spec.batch Spec.upsert true (abs b) (omap Spec.usable l) in (m, (n + k)%Z)).
Proof.
  revert b n. induction l as [|[x|] l IH]; intros b n; csimpl; [f_equal; lia| |by apply IH].
  destruct (has_key x); simpl; [|by apply IH].
  destruct (lib_ReplaceOrInsert b x) as [b' prev] eqn:E.
  assert (abs b' = Spec.upsert (abs b) x) as Eb by by rewrite <- abs_Replace, E.
  assert (prev = abs b !! Key x) as -> by by rewrite <- Replace_old_abs, E.
  rewrite IH, Eb. destruct (Spec.batch _ _ _ _) as [m k].
  destruct (abs b !! Key x); simpl; f_equal; lia.
Qed.

Lemma delete_loop_abs b l n :
  (abs (delete_loop b l n).1, (delete_loop b l n).2)
  = (let (m, k) := Spec.batch Spec.remove false (abs b) (omap Spec.usable l) in (m, (n + k)%Z)).
Proof.
  revert b n. induction l as [|[x|] l IH]; intros b n; csimpl; [f_equal; lia| |by apply IH].
  destruct (has_key x); simpl; [|by apply IH].
  destruct (lib_Delete b x) as [b' old] eqn:E.
  assert (abs b' = Spec.remove (abs b) x) as Eb by by rewrite <- abs_Delete, E.
  assert (old = abs b !! Key x) as -> by by rewrite <- Delete_old_abs, E.
  rewrite IH, Eb. destruct (Spec.batch _ _ _ _) as [m k].
  destruct (abs b !! Key x); simpl; f_equal; lia.
Qed.

(** The deleting loop of a purge counts the collected keys that are still present. *)
Lemma purge_delete_abs b l n :
  NoDup (Key <$> l) ->
  abs (purge_delete b l n).1 = foldl Spec.remove (abs b) l
  /\ (purge_delete b l n).2
     = (n + Z.of_nat (length (filter (fun x => is_Some (abs b !! Key x)) l)))%Z.
Proof.
  revert b n. induction l as [|x l IH]; intros b n Hn; simpl; [split; [done|lia]|].
  inversion_clear Hn as [|? ? Hx Hn'].
  destruct (lib_Delete b x) as [b' old] eqn:E.
  assert (abs b' = Spec.remove (abs b) x) as Eb by by rewrite <- abs_Delete, E.
  assert (old = abs b !! Key x) as -> by by rewrite <- Delete_old_abs, E.
  destruct (IH b' (match abs b !! Key x with Some _ => n + 1 | None => n end)%Z Hn') as [-> ->].
  rewrite Eb. split; [done|].
  rewrite filter_cons.
  replace (filter (fun y => is_Some (Spec.remove (abs b) x !! Key y)) l)
    with (filter (fun y => is_Some (abs b !! Key y)) l).
  - destruct (abs b !! Key x) eqn:Ex.
    + rewrite decide_True by done. simpl. lia.
    + rewrite decide_False by (intros [? ?]; done). lia.
  - apply list_filter_iff'. intros y Hy. unfold Spec.remove.
    rewrite lookup_delete_ne; [done|]. intros Exy. apply Hx. rewrite Exy.
    by apply list_elem_of_fmap_2.
Qed.

Lemma purge_collect_abs b now ttl n :
  purge_collect b now ttl n = Spec.expired_items (abs b) now ttl n.
Proof.
  unfold purge_collect, Spec.expired_items.
  by rewrite law_Ascend, collect_spec, abs_ascending.
Qed.

Lemma ListExpiredAt_abs b now ttl n :
  ListExpiredAt b now ttl n
  = if (ttl <=? 0)%Z then None else Some (Spec.expired_items (abs b) now ttl n).
Proof.
  unfold ListExpiredAt. destruct (ttl <=? 0)%Z; [done|]. f_equal. apply purge_collect_abs.
Qed.

Lemma expired_items_sublist b now ttl n :
  Spec.expired_items (abs b) now ttl n `sublist_of` items b.
Proof.
  unfold Spec.expired_items. rewrite abs_ascending.
  etrans; [apply prefix_sublist, take_limit_prefix|].
  apply (sublist_filter (Spec.expired (cutoff_unix now ttl))).
Qed.

Lemma expired_items_keys b now ttl n : NoDup (Key <$> Spec.expired_items (abs b) now ttl n).
Proof.
  eapply sublist_NoDup; [apply (items_keys b)|].
  apply sublist_fmap, expired_items_sublist.
Qed.

Lemma expired_items_present b now ttl n x :
  x ∈ Spec.expired_items (abs b) now ttl n -> abs b !! Key x = Some x.
Proof.
  intros Hx. apply abs_lookup. split; [|done].
  eapply elem_of_sublist; [done|apply expired_items_sublist].
Qed.

(** A purge between whose two critical sections the tree became [b2]. *)
Lemma purge_between_abs b1 b2 now ttl n :
  (0 < ttl)%Z ->
  let l := Spec.expired_items (abs b1) now ttl n in
  abs (purge_between b1 b2 now ttl n).1 = foldl Spec.remove (abs b2) l
  /\ (purge_between b1 b2 now ttl n).2
     = Z.of_nat (length (filter (fun x => is_Some (abs b2 !! Key x)) l)).
Proof.
  intros Ht l. unfold purge_between. destruct (Z.leb_spec ttl 0); [lia|].
  rewrite purge_collect_abs. fold l.
  destruct (length l =? 0)%nat eqn:E.
  - apply Nat.eqb_eq, length_zero_iff_nil in E. by rewrite E.
  - destruct (purge_delete_abs b2 l 0) as [-> ->]; [apply expired_items_keys|]. done.
Qed.
End refinement.

(** ** The sorted-list tree satisfies the contract *)

Module SortedTreeLaws.
Import SortedTree.

Lemma sortedb_sorted l : sortedb l = true <-> StronglySorted item_lt l.
Proof.
  induction l as [|x l IH]; simpl; [split; [constructor|done]|].
  rewrite andb_true_iff, IH, forallb_forall. split.
  - intros [Hx Hl]. constructor; [done|]. apply Forall_forall.
    intros y Hy. by apply Hx, list_elem_of_In.
  - intros Hs. inversion_clear Hs as [|? ? Hl Hx]. split; [|done].
    rewrite Forall_forall in Hx. intros y Hy%list_elem_of_In. by apply Hx.
Qed.

Lemma same_spec x y : same x y = true <-> same_item y x.
Proof. unfold same, same_item. by rewrite andb_true_iff, !negb_true_iff. Qed.

Lemma elem_of_insert x l y :
  StronglySorted item_lt l -> y ∈ insert x l <-> y = x \/ y ∈ l /\ ~ same_item y x.
Proof.
  induction 1 as [|z l Hl IH Hz]; simpl; [set_solver|].
  rewrite Forall_forall in Hz. setoid_rewrite same_item_key. setoid_rewrite same_item_key in IH.
  destruct (Less x z) eqn:E1; [|destruct (Less z x) eqn:E2].
  - rewrite !elem_of_cons. split; [|naive_solver].
    apply Less_lt in E1. intros [->|[->|Hy]]; [by left|right|right]; (split; [by auto|]); intros Ek.
    + rewrite Ek in E1. by apply (irreflexivity bytes_lt (Key x)).
    + apply Hz, Less_lt in Hy. rewrite Ek in Hy. apply (irreflexivity bytes_lt (Key x)). by etrans.
  - rewrite !elem_of_cons, IH. apply Less_lt in E2. split; [|naive_solver].
    intros [->|[->|[Hy Hk]]]; [right|by left|by right; auto]. split; [by left|].
    intros Ek. rewrite Ek in E2. by apply (irreflexivity bytes_lt (Key x)).
  - assert (Key z = Key x) as Ez by by apply same_item_key.
    rewrite !elem_of_cons. split; [|naive_solver].
    intros [->|Hy]; [by left|right]. split; [by auto|]. intros Ek.
    apply Hz, Less_lt in Hy. rewrite Ek, Ez in Hy. by apply (irreflexivity bytes_lt (Key x)).
Qed.

Lemma insert_sorted x l : StronglySorted item_lt l -> StronglySorted item_lt (insert x l).
Proof.
  intros Hl. assert (Hl0 := Hl). induction Hl as [|z l Hl IH Hz]; simpl.
  { repeat constructor. }
  specialize (IH Hl). rewrite Forall_forall in Hz.
  destruct (Less x z) eqn:E1; [|destruct (Less z x) eqn:E2].
  - constructor; [done|]. rewrite Forall_cons, Forall_forall. split; [exact E1|].
    intros y Hy. etrans; [exact E1|by apply Hz].
  - constructor; [done|]. rewrite Forall_forall.
    intros y [->|[Hy _]]%elem_of_insert; [exact E2|by apply Hz|done].
  - constructor; [done|]. rewrite Forall_forall. intros y Hy. apply Less_lt.
    replace (Key x) with (Key z) by by apply same_item_key. by apply Less_lt, Hz.
Qed.

Lemma elem_of_without x l y : y ∈ without x l <-> y ∈ l /\ ~ same_item y x.
Proof.
  unfold without. rewrite list_elem_of_In, List.filter_In, <- list_elem_of_In, negb_true_iff.
  rewrite <- same_spec. destruct (same x y); naive_solver.
Qed.

Lemma without_sorted x l : StronglySorted item_lt l -> StronglySorted item_lt (without x l).
Proof.
  intros Hl. unfold without. induction Hl as [|z l Hl IH Hz]; simpl; [constructor|].
  destruct (same x z); simpl; [done|]. constructor; [done|].
  rewrite Forall_forall in Hz |- *. intros y Hy. apply Hz.
  by apply elem_of_without in Hy as [? _].
Qed.

Lemma elems_normalize l : StronglySorted item_lt l -> elems (normalize l) = l.
Proof. intros Hl%sortedb_sorted. unfold normalize. by destruct (bool_dec _ _). Qed.

Lemma same_in_spec x l y :
  StronglySorted item_lt l -> same_in x l = Some y <-> y ∈ l /\ same_item y x.
Proof.
  intros Hl. unfold same_in. split.
  - intros [Hy Hs]%List.find_some. by rewrite list_elem_of_In, <- same_spec.
  - intros [Hy Hs]. destruct (List.find (same x) l) as [z|] eqn:E.
    + apply List.find_some in E as [Hz Hzs%same_spec]. apply list_elem_of_In in Hz.
      f_equal. eapply NoDup_keys_inj; [by apply item_lt_keys|done..|].
      apply same_item_key in Hs, Hzs. congruence.
    + apply list_elem_of_In in Hy. apply (List.find_none _ _ E) in Hy.
      apply same_spec in Hs. congruence.
Qed.
End SortedTreeLaws.

#[export] Instance SortedTree_laws : BTreeLaws SortedTree.t SortedTree.elems.
Proof.
  assert (forall b : SortedTree.t, StronglySorted item_lt (SortedTree.elems b)) as Hs.
  { intros b. apply SortedTreeLaws.sortedb_sorted, SortedTree.elems_sorted. }
  split; simpl; intros.
  - apply Hs.
  - destruct (Z.leb_spec degree 1); [lia|]. by eexists.
  - rewrite SortedTreeLaws.elems_normalize by by apply SortedTreeLaws.insert_sorted.
    by apply SortedTreeLaws.elem_of_insert.
  - by apply SortedTreeLaws.same_in_spec.
  - rewrite SortedTreeLaws.elems_normalize by by apply SortedTreeLaws.without_sorted.
    apply SortedTreeLaws.elem_of_without.
  - by apply SortedTreeLaws.same_in_spec.
  - by apply SortedTreeLaws.same_in_spec.
  - done.
  - done.
  - done.
Qed.

(** ** One call, then any sequence of calls *)

Section calls_refinement.
Context {tree : Type} `{!BTreeLib tree} (items : tree -> list Item) `{!BTreeLaws tree items}.
Implicit Types b : tree.

Lemma is_some_bool (o : option Item) :
  match o with None => false | Some _ => true end = bool_decide (o <> None).
Proof. by destruct o. Qed.

Lemma Upsert_abs b i :
  Spec.step (abs items b) (CallUpsert i) = (abs items (Upsert b i).1, ReplyBool (Upsert b i).2).
Proof.
  destruct i as [x|]; simpl; [|done]. destruct (has_key x); simpl; [|done].
  destruct (lib_ReplaceOrInsert b x) as [b' prev] eqn:E. simpl.
  rewrite <- (abs_Replace items), <- (Replace_old_abs items), E. simpl. by destruct prev.
Qed.

Lemma Delete_abs b i :
  Spec.step (abs items b) (CallDelete i) = (abs items (Delete b i).1, ReplyBool (Delete b i).2).
Proof.
  destruct i as [x|]; simpl; [|done]. destruct (has_key x); simpl; [|done].
  destruct (lib_Delete b x) as [b' old] eqn:E. simpl.
  rewrite <- (abs_Delete items), <- (Delete_old_abs items), E. simpl. by destruct old.
Qed.

Lemma UpsertMany_abs b l :
  Spec.step (abs items b) (CallUpsertMany l)
  = (abs items (UpsertMany b l).1, ReplyInt (UpsertMany b l).2).
Proof.
  unfold UpsertMany. destruct (Nat.eqb_spec (length l) 0) as [El|_].
  { by apply length_zero_iff_nil in El as ->. }
  pose proof (upsert_loop_abs items b l 0) as E. cbn [Spec.step].
  destruct (upsert_loop b l 0) as [b' n]. destruct (Spec.batch _ _ _ _) as [m k].
  simpl in *. by simplify_eq.
Qed.

Lemma DeleteMany_abs b l :
  Spec.step (abs items b) (CallDeleteMany l)
  = (abs items (DeleteMany b l).1, ReplyInt (DeleteMany b l).2).
Proof.
  unfold DeleteMany. destruct (Nat.eqb_spec (length l) 0) as [El|_].
  { by apply length_zero_iff_nil in El as ->. }
  pose proof (delete_loop_abs items b l 0) as E. cbn [Spec.step].
  destruct (delete_loop b l 0) as [b' n]. destruct (Spec.batch _ _ _ _) as [m k].
  simpl in *. by simplify_eq.
Qed.

Lemma PurgeExpiredAt_abs b now ttl n :
  Spec.step (abs items b) (CallPurgeExpiredAt now ttl n)
  = (abs items (PurgeExpiredAt b now ttl n).1, ReplyInt (PurgeExpiredAt b now ttl n).2).
Proof.
  simpl. unfold PurgeExpiredAt. destruct (Z.leb_spec ttl 0) as [Ht|Ht].
  { unfold purge_between. by destruct (Z.leb_spec ttl 0); [|lia]. }
  destruct (purge_between_abs items b b now ttl n Ht) as [-> ->].
  do 2 f_equal. rewrite filter_all; [done|]. intros x Hx.
  by rewrite (expired_items_present items b now ttl n x).
Qed.

Lemma ForEach_abs b cb :
  Spec.step (abs items b) (CallForEach cb)
  = (abs items b, ReplyVisited (ForEach b (visit <$> cb) []).1 (ForEach b (visit <$> cb) []).2).
Proof.
  destruct cb as [cb|]; [|done]. simpl.
  rewrite (abs_ascending items), (law_Ascend (items := items)), iter_while_fmap. f_equal. f_equal.
  apply iter_while_ext. intros seen x. simpl. by rewrite cloneBytes_id.
Qed.

Lemma call_abs b c : Spec.step (abs items b) c = (abs items (call b c).1, (call b c).2).
Proof.
  destruct c; simpl call.
  - rewrite Upsert_abs. by destruct (Upsert b item).
  - rewrite UpsertMany_abs. by destruct (UpsertMany b items0).
  - rewrite Delete_abs. by destruct (Delete b item).
  - rewrite DeleteMany_abs. by destruct (DeleteMany b items0).
  - destruct item as [x|]; simpl; [|done]. destruct (has_key x); simpl; [|done].
    by rewrite (Get_abs items), is_some_bool.
  - destruct item as [x|]; simpl; [|done]. destruct (has_key x); simpl; [|done].
    by rewrite (Get_abs items).
  - destruct item as [x|]; simpl; [|done]. by rewrite (Get_abs items).
  - rewrite ForEach_abs. by destruct (ForEach b (visit <$> callback) []).
  - simpl. by rewrite (Size_abs items).
  - simpl. unfold Reset. by rewrite (abs_Clear items).
  - rewrite PurgeExpiredAt_abs. by destruct (PurgeExpiredAt b now ttl maxToDelete).
  - simpl. by rewrite (ListExpiredAt_abs items).
Qed.

Lemma calls_abs b cs : Spec.steps (abs items b) cs = (abs items (calls b cs).1, (calls b cs).2).
Proof.
  revert b. induction cs as [|c cs IH]; intros b; [done|]. simpl.
  rewrite call_abs. destruct (call b c) as [b' r]. simpl.
  rewrite IH. by destruct (calls b' cs).
Qed.

(** Every item of the tree has a key. *)
Definition no_empty_keys (m : gmap bytes Item) : Prop := m !! [] = None.

Lemma usable_key i x : Spec.usable i = Some x -> Key x <> [].
Proof.
  destruct i as [y|]; simpl; [|done]. destruct (has_key y) eqn:E; [|done].
  intros [= <-] Ek. unfold has_key in E. by rewrite Ek in E.
Qed.

Lemma batch_no_empty upd new m l :
  (forall m x, no_empty_keys m -> Key x <> [] -> no_empty_keys (upd m x)) ->
  no_empty_keys m -> (forall x, x ∈ l -> Key x <> []) -> no_empty_keys (Spec.batch upd new m l).1.
Proof.
  intros Hu. revert m. induction l as [|x l IH]; intros m Hm Hl; simpl; [done|].
  destruct (Spec.batch upd new (upd m x) l) as [m' k] eqn:E. simpl.
  replace m' with (Spec.batch upd new (upd m x) l).1 by by rewrite E.
  apply IH; [apply Hu; [done|]|]; set_solver.
Qed.

Lemma remove_no_empty m x : no_empty_keys m -> no_empty_keys (Spec.remove m x).
Proof. unfold no_empty_keys, Spec.remove. rewrite lookup_delete. by case_decide. Qed.

Lemma upsert_no_empty m x : no_empty_keys m -> Key x <> [] -> no_empty_keys (Spec.upsert m x).
Proof. unfold no_empty_keys, Spec.upsert. intros. by rewrite lookup_insert_ne. Qed.

Lemma step_no_empty m c : no_empty_keys m -> no_empty_keys (Spec.step m c).1.
Proof.
  intros Hm. destruct c; simpl; try done.
  - destruct (Spec.usable item) eqn:E; [|done]. apply upsert_no_empty; [done|by eapply usable_key].
  - pose proof (batch_no_empty Spec.upsert true m (omap Spec.usable items0)) as Hb.
    destruct (Spec.batch _ _ _ _). apply Hb; [apply upsert_no_empty|done|].
    intros x (i & _ & Hi)%list_elem_of_omap. by eapply usable_key.
  - destruct (Spec.usable item) eqn:E; [|done]. by apply remove_no_empty.
  - pose proof (batch_no_empty Spec.remove false m (omap Spec.usable items0)) as Hb.
    destruct (Spec.batch _ _ _ _). apply Hb; [by auto using remove_no_empty|done|].
    intros x (i & _ & Hi)%list_elem_of_omap. by eapply usable_key.
  - by destruct callback.
  - destruct (ttl <=? 0)%Z; [done|]. simpl. unfold no_empty_keys. rewrite remove_lookup.
    by case_bool_decide.
Qed.

Lemma steps_no_empty m cs : no_empty_keys m -> no_empty_keys (Spec.steps m cs).1.
Proof.
  revert m. induction cs as [|c cs IH]; intros m Hm; [done|]. simpl.
  pose proof (step_no_empty m c Hm) as Hs. destruct (Spec.step m c) as [m' r].
  specialize (IH m' Hs). by destruct (Spec.steps m' cs).
Qed.
End calls_refinement.

(** ** Properties *)

(** C1: refinement. For every sequence of calls of the interface [TtlBTree] (batch
    operations, traversals with any callback, purges and listings included, with [nil] items,
    empty keys and [nil] callbacks), the storage over a tree that honours the contract of
    google/btree gives reply for reply the results of the abstract map from keys to
    items, and ends in a tree that represents the map the specification ends in. *)
Theorem ByteKeyBTree_refines_map (tree : Type) (L : BTreeLib tree) (items : tree -> list Item)
    (Hlaws : BTreeLaws tree items) (b : tree) (cs : list Call) :
  Spec.steps (abs items b) cs = (abs items (calls b cs).1, (calls b cs).2).
Proof. apply calls_abs, _. Qed.

Definition demo_key (k : byte) (ts : Z) : option Item := Some (NewFilterNodeItem [k] (mkTime ts 0)).

Definition demo_calls : list Call :=
  [CallUpsertMany [demo_key Byte.x62 10; None; demo_key Byte.x61 20; Some (FilterNodeItem [] 1); demo_key Byte.x62 30];
   CallForEach (Some (fun _ => true)); CallPurgeExpiredAt (mkTime 26 0) (5 * Second) 0; CallSize].

Lemma ByteKeyBTree_refines_map_witness :
  Spec.steps (abs SortedTree.elems (SortedTree.normalize [])) demo_calls
  = (abs SortedTree.elems (calls (SortedTree.normalize []) demo_calls).1,
     [ReplyInt 2; ReplyVisited [([Byte.x61], 20%Z); ([Byte.x62], 30%Z)] None; ReplyInt 1; ReplyInt 1]).
Proof.
  apply (ByteKeyBTree_refines_map SortedTree.t _ SortedTree.elems SortedTree_laws
    (SortedTree.normalize []) demo_calls).
Defined.

(** C19: a purge that is not interleaved with other calls deletes exactly what
    [ListExpiredAt] lists at that instant: the items whose timestamp is at most the floor in seconds of
    [now - ttl] (inclusive), in key order, cut at a positive [maxToDelete]; every other
    item stays, the reply is the number of deleted items, and with no limit nothing
    expired is left. *)
Theorem PurgeExpiredAt_exact (tree : Type) (L : BTreeLib tree) (items : tree -> list Item)
    (Hlaws : BTreeLaws tree items) (b : tree) (now : Time) (ttl n : Z)
    (Hnow : Time_wf now) (Httl : (0 < ttl < 2 ^ 63)%Z) :
  let b' := (PurgeExpiredAt b now ttl n).1 in
  exists l,
    ListExpiredAt b now ttl n = Some l
    /\ l = take_limit n (filter (fun i => (GetExpirationTime i <= (UnixNano now - ttl) / Second)%Z) (items b))
    /\ (forall i, i ∈ items b' <-> i ∈ items b /\ i ∉ l)
    /\ (PurgeExpiredAt b now ttl n).2 = Z.of_nat (length l)
    /\ ((n <= 0)%Z -> forall i, i ∈ items b' -> ((UnixNano now - ttl) / Second < GetExpirationTime i)%Z).
Proof.
  intros b'. set (l := Spec.expired_items (abs items b) now ttl n).
  assert (cutoff_unix now ttl = ((UnixNano now - ttl) / Second)%Z) as Ec.
  { unfold cutoff_unix. rewrite int64_id by (unfold is_int64; lia). by rewrite Unix_Add. }
  assert (l = take_limit n
    (filter (fun i => (GetExpirationTime i <= (UnixNano now - ttl) / Second)%Z) (items b))) as El.
  { subst l. unfold Spec.expired_items, Spec.expired. rewrite (abs_ascending items), <- Ec.
    done. }
  destruct (purge_between_abs items b b now ttl n ltac:(lia)) as [Ea En].
  assert (forall i, i ∈ items b' <-> i ∈ items b /\ i ∉ l) as Hi.
  { intros i. transitivity (abs items b' !! Key i = Some i); [rewrite (abs_lookup items); naive_solver|].
    unfold b', PurgeExpiredAt. rewrite Ea, remove_lookup. fold l.
    case_bool_decide as Hk; split; intros Hx.
    - done.
    - destruct Hx as [Hx Hl]. apply list_elem_of_fmap in Hk as (j & Ej & Hj). destruct Hl.
      replace i with j; [done|]. eapply (NoDup_keys_inj (items b)); [by apply items_keys| |done|done].
      eapply elem_of_sublist; [exact Hj|by apply expired_items_sublist].
    - apply (abs_lookup items) in Hx as [Hx _]. split; [done|]. intros Hl. apply Hk.
      by apply list_elem_of_fmap_2.
    - apply (abs_lookup items). by destruct Hx. }
  exists l. split_and!; [|done|done| |].
  - rewrite (ListExpiredAt_abs items). by destruct (Z.leb_spec ttl 0); [lia|].
  - unfold PurgeExpiredAt. rewrite En. fold l. rewrite filter_all; [done|].
    intros x Hx. by rewrite (expired_items_present items b now ttl n x).
  - intros Hn i [Hib Hil]%Hi. rewrite El, take_limit_nonpos in Hil by done.
    rewrite list_elem_of_filter in Hil. destruct (Z.lt_ge_cases ((UnixNano now - ttl) / Second) (GetExpirationTime i)); [done|].
    destruct Hil. split; [lia|done].
Qed.

Definition demo_tree : SortedTree.t :=
  SortedTree.normalize [FilterNodeItem [Byte.x61] 10; FilterNodeItem [Byte.x62] 50; FilterNodeItem [Byte.x63] 20].

Lemma PurgeExpiredAt_exact_witness :
  (PurgeExpiredAt demo_tree (mkTime 25 0) (5 * Second) 0).2 = 2%Z
  /\ exists l, ListExpiredAt demo_tree (mkTime 25 0) (5 * Second) 0 = Some l
    /\ l = take_limit 0 (filter (fun i => (GetExpirationTime i <= (UnixNano (mkTime 25 0) - 5 * Second) / Second)%Z)
             (SortedTree.elems demo_tree))
    /\ (forall i, i ∈ SortedTree.elems (PurgeExpiredAt demo_tree (mkTime 25 0) (5 * Second) 0).1
                  <-> i ∈ SortedTree.elems demo_tree /\ i ∉ l)
    /\ (PurgeExpiredAt demo_tree (mkTime 25 0) (5 * Second) 0).2 = Z.of_nat (length l)
    /\ ((0 <= 0)%Z -> forall i, i ∈ SortedTree.elems (PurgeExpiredAt demo_tree (mkTime 25 0) (5 * Second) 0).1
         -> ((UnixNano (mkTime 25 0) - 5 * Second) / Second < GetExpirationTime i)%Z).
Proof.
  split; [vm_compute; reflexivity|].
  apply (PurgeExpiredAt_exact SortedTree.t _ SortedTree.elems SortedTree_laws demo_tree (mkTime 25 0) (5 * Second) 0).
  - unfold Time_wf. simpl. unfold Second. lia.
  - unfold Second. lia.
Defined.

(** What a purge does when other calls run between its two critical sections. It
    deletes from the tree it finds at the second lock the keys collected at the
    first one, whatever items they now hold, counts the keys that were still there, and touches no other key. *)
Theorem purge_between_deletes_by_key (tree : Type) (L : BTreeLib tree) (items : tree -> list Item)
    (Hlaws : BTreeLaws tree items) (b : tree) (between : list Call) (now : Time) (ttl n : Z)
    (Httl : (0 < ttl)%Z) (l : list Item) (Hl : ListExpiredAt b now ttl n = Some l) :
  let b2 := (calls b between).1 in
  let b3 := (purge_between b b2 now ttl n).1 in
  (forall i, i ∈ items b3 <-> i ∈ items b2 /\ Key i ∉ Key <$> l)
  /\ (purge_between b b2 now ttl n).2
     = Z.of_nat (length (filter (fun i => Key i ∈ Key <$> items b2) l)).
Proof.
  intros b2 b3. rewrite (ListExpiredAt_abs items) in Hl. destruct (Z.leb_spec ttl 0); [lia|].
  injection Hl as Hl. destruct (purge_between_abs items b b2 now ttl n Httl) as [Ea En].
  rewrite Hl in Ea, En. split.
  - intros i. transitivity (abs items b3 !! Key i = Some i); [rewrite (abs_lookup items); naive_solver|].
    unfold b3. rewrite Ea, remove_lookup. case_bool_decide; [naive_solver|].
    rewrite (abs_lookup items). naive_solver.
  - rewrite En. do 2 f_equal. apply list_filter_iff. intros i. split.
    + intros [j [Hj Ej]%(abs_lookup items)]. rewrite <- Ej. by apply list_elem_of_fmap_2.
    + intros (j & Ej & Hj)%list_elem_of_fmap. exists j. by apply (abs_lookup items).
Qed.

Lemma purge_between_deletes_by_key_witness :
  let b2 := (calls demo_tree [CallDelete (demo_key Byte.x61 0)]).1 in
  let b3 := (purge_between demo_tree b2 (mkTime 25 0) (5 * Second) 0).1 in
  let l := [FilterNodeItem [Byte.x61] 10; FilterNodeItem [Byte.x63] 20] in
  (purge_between demo_tree b2 (mkTime 25 0) (5 * Second) 0).2 = 1%Z
  /\ (forall i, i ∈ SortedTree.elems b3 <-> i ∈ SortedTree.elems b2 /\ Key i ∉ Key <$> l)
  /\ (purge_between demo_tree b2 (mkTime 25 0) (5 * Second) 0).2
     = Z.of_nat (length (filter (fun i => Key i ∈ Key <$> SortedTree.elems b2) l)).
Proof.
  intros b2 b3 l. split; [vm_compute; reflexivity|].
  apply (purge_between_deletes_by_key SortedTree.t _ SortedTree.elems SortedTree_laws demo_tree
    [CallDelete (demo_key Byte.x61 0)] (mkTime 25 0) (5 * Second) 0); [unfold Second; lia|].
  vm_compute. reflexivity.
Defined.

(** C40: a purge can delete a fresh item. When a key whose item has expired is written
    again, with a timestamp above the cutoff, between the two critical sections of an unlimited
    [PurgeExpiredAt], the fresh item is in the tree at the second lock and is gone
    after it. *)
Theorem purge_between_loses_refreshed_key (tree : Type) (L : BTreeLib tree) (items : tree -> list Item)
    (Hlaws : BTreeLaws tree items) (b : tree) (old fresh : Item) (now : Time) (ttl : Z)
    (Httl : (0 < ttl)%Z) (Hold : old ∈ items b) (Hkey : Key fresh = Key old) (Hne : has_key fresh = true)
    (Hexp : (GetExpirationTime old <= cutoff_unix now ttl)%Z)
    (Hfresh : (cutoff_unix now ttl < GetExpirationTime fresh)%Z) :
  let b2 := (Upsert b (Some fresh)).1 in
  fresh ∈ items b2 /\ fresh ∉ items (purge_between b b2 now ttl 0).1.
Proof.
  intros b2. assert (abs items b2 = Spec.upsert (abs items b) fresh) as Eb.
  { pose proof (Upsert_abs items b (Some fresh)) as E. unfold b2.
    cbn [Spec.step Spec.usable] in E. rewrite Hne in E. by simplify_eq. }
  split.
  - eapply (abs_lookup items). rewrite Eb. unfold Spec.upsert. apply lookup_insert_eq.
  - intros Hin. destruct (purge_between_abs items b b2 now ttl 0 Httl) as [Ea _].
    assert (abs items (purge_between b b2 now ttl 0).1 !! Key fresh = Some fresh) as E
      by by apply (abs_lookup items).
    rewrite Ea, remove_lookup in E. case_bool_decide as Hk; [done|]. destruct Hk.
    rewrite Hkey. apply list_elem_of_fmap_2. unfold Spec.expired_items.
    rewrite take_limit_nonpos, list_elem_of_filter, (abs_ascending items) by done. done.
Qed.

Lemma purge_between_loses_refreshed_key_witness :
  let b2 := (Upsert demo_tree (Some (FilterNodeItem [Byte.x61] 100))).1 in
  FilterNodeItem [Byte.x61] 100 ∈ SortedTree.elems b2
  /\ FilterNodeItem [Byte.x61] 100 ∉ SortedTree.elems (purge_between demo_tree b2 (mkTime 25 0) (5 * Second) 0).1.
Proof.
  apply (purge_between_loses_refreshed_key SortedTree.t _ SortedTree.elems SortedTree_laws demo_tree
    (FilterNodeItem [Byte.x61] 10) (FilterNodeItem [Byte.x61] 100)); try done. left.
Defined.

(** Whatever calls a storage made by [NewByteKeyBTree] has received, no item in it
    has an empty key; so [GetLastWriteUnix], the one reader without a test for it,
    answers [(0, false)] for an item with an empty key. *)
Theorem GetLastWriteUnix_empty_key (tree : Type) (L : BTreeLib tree) (items : tree -> list Item)
    (Hlaws : BTreeLaws tree items) (opts : Options) (b : tree) (cs : list Call) (probe : Item)
    (Hdeg : Degree opts <> 1%Z) (Hnew : NewByteKeyBTree opts = Returned b) (Hprobe : Key probe = []) :
  (forall i, i ∈ items (calls b cs).1 -> Key i <> [])
  /\ GetLastWriteUnix (calls b cs).1 (Some probe) = (0%Z, false).
Proof.
  assert (items b = []) as Eb.
  { unfold NewByteKeyBTree in Hnew.
    destruct (law_New (items := items) (if (Degree opts <=? 0)%Z then 32%Z else Degree opts)
      (if (FreeListCapacity opts <=? 0)%Z then 80000%Z else FreeListCapacity opts)) as (t & E & Et).
    - case_tests; lia.
    - case_tests; lia.
    - rewrite E in Hnew. by injection Hnew as <-. }
  assert (no_empty_keys (abs items (calls b cs).1)) as He.
  { pose proof (steps_no_empty items (abs items b) cs) as Hs. rewrite (calls_abs items) in Hs. apply Hs.
    unfold no_empty_keys, abs. by rewrite Eb. }
  split.
  - intros i Hi Ek. unfold no_empty_keys in He. apply not_elem_of_dom in He. destruct He.
    apply elem_of_dom. exists i. by apply (abs_lookup items).
  - simpl. rewrite (Get_abs items), Hprobe. by rewrite He.
Qed.

Lemma GetLastWriteUnix_empty_key_witness :
  let b := SortedTree.mk [] eq_refl in
  (forall i, i ∈ SortedTree.elems (calls b demo_calls).1 -> Key i <> [])
  /\ GetLastWriteUnix (calls b demo_calls).1 (Some (FilterNodeItem [] 3)) = (0%Z, false).
Proof.
  intros b.
  apply (GetLastWriteUnix_empty_key SortedTree.t _ SortedTree.elems SortedTree_laws
    {| Degree := 0; FreeListCapacity := 0 |} b demo_calls (FilterNodeItem [] 3)); [|reflexivity|reflexivity].
  simpl. lia.
Defined.
