(* ===== verification/KernelShutdown.v ===== *)
(** The shutdown list of [src/kernel/kernel.go]: [RegisterShutdown] inserts a hook in a
    singly linked list of heap nodes through pointers, [shutdownAllAndDeleteAllCanceled]
    runs and unlinks them. The pointer code is refined to a stable insertion
    in a list of hooks. *)
From S2P Require Import Prelude.
From stdpp Require Import base tactics list gmap strings sorting fin_sets infinite.
From Stdlib Require Import ZArith Lia.

(** ** The heap of list nodes *)

Notation loc := positive.

Definition LowestPriority : Z := 10000.
Definition LowPriority : Z := 1000.
Definition MediumPriority : Z := 500.
Definition HighPriority : Z := 100.
Definition HighestPriority : Z := 50.
Definition CriticalPriority : Z := 20.
Definition ImmediatePriority : Z := 1.

(** A hook: what [RegisterShutdown] is given. *)
Record hook (Fn : Type) := Hook { hook_name : string; hook_fn : Fn; hook_priority : Z }.
Arguments Hook {Fn} _ _ _.
Arguments hook_name {Fn} _.
Arguments hook_fn {Fn} _.
Arguments hook_priority {Fn} _.

(** The struct [shutdown]: a hook and the pointer to the next node. *)
Record shutdown (Fn : Type) := Shutdown { node_hook : hook Fn; next : option loc }.
Arguments Shutdown {Fn} _ _.
Arguments node_hook {Fn} _.
Arguments next {Fn} _.

(** The struct [linkedList] and the nodes reachable through it. *)
Record linkedList (Fn : Type) := LinkedList { heap : gmap loc (shutdown Fn); node : option loc }.
Arguments LinkedList {Fn} _ _.
Arguments heap {Fn} _.
Arguments node {Fn} _.

Section operations.
Context {Fn World : Type}.
Local Open Scope Z_scope.

Definition empty_list : linkedList Fn := LinkedList ∅ None.

Definition node_priority (n : shutdown Fn) : Z := hook_priority (node_hook n).

(** [for current.next != nil && current.next.priority <= priority { current = current.next }];
    [None] is a nil or dangling dereference, or exhausted fuel. *)
Fixpoint advance (fuel : nat) (h : gmap loc (shutdown Fn)) (current : loc) (priority : Z) : option loc :=
  match fuel with
  | O => None
  | S fuel =>
    n ← h !! current;
    match next n with
    | None => Some current
    | Some nx =>
      nn ← h !! nx;
      if node_priority nn <=? priority then advance fuel h nx priority else Some current
    end
  end.

Definition RegisterShutdown (l : linkedList Fn) (name : string) (fn : Fn) (priority : Z)
    : option (linkedList Fn) :=
  let newShutdown := fresh (dom (heap l)) in
  let new := Hook name fn priority in
  let push := Some (LinkedList (<[newShutdown := Shutdown new (node l)]> (heap l)) (Some newShutdown)) in
  match node l with
  | None => push
  | Some first =>
    n ← heap l !! first;
    if priority <? node_priority n then push
    else
      current ← advance (S (size (heap l))) (heap l) first priority;
      c ← heap l !! current;
      let h := <[newShutdown := Shutdown new (next c)]> (heap l) in
      Some (LinkedList (<[current := Shutdown (node_hook c) (Some newShutdown)]> h) (node l))
  end.

Fixpoint RegisterAll (l : linkedList Fn) (hs : list (hook Fn)) : option (linkedList Fn) :=
  match hs with
  | [] => Some l
  | x :: hs => l' ← RegisterShutdown l (hook_name x) (hook_fn x) (hook_priority x); RegisterAll l' hs
  end.

(** Running a hook may change the world and may panic. *)
Context (run : Fn -> World -> World * outcome unit).

Fixpoint shutdown_loop (fuel : nat) (l : linkedList Fn) (w : World)
    : option (linkedList Fn * World * outcome unit) :=
  match fuel with
  | O => None
  | S fuel =>
    match node l with
    | None => Some (l, w, Returned ())
    | Some a =>
      n ← heap l !! a;
      match run (hook_fn (node_hook n)) w with
      | (w', Panicked r) => Some (l, w', Panicked r)
      | (w', Returned _) => shutdown_loop fuel (LinkedList (heap l) (next n)) w'
      end
    end
  end.

Definition shutdownAllAndDeleteAllCanceled (l : linkedList Fn) (w : World)
    : option (linkedList Fn * World * outcome unit) :=
  shutdown_loop (S (size (heap l))) l w.

(** ** The abstract list of hooks *)

(** Before the first hook of a strictly larger priority: hooks of equal priority keep
    their registration order. *)
Fixpoint stable_insert (x : hook Fn) (l : list (hook Fn)) : list (hook Fn) :=
  match l with
  | [] => [x]
  | y :: l' => if hook_priority y <=? hook_priority x then y :: stable_insert x l' else x :: l
  end.

(** Hooks are run in order until one panics; that one and the later ones remain. *)
Fixpoint run_hooks (l : list (hook Fn)) (w : World) : list (hook Fn) * World * outcome unit :=
  match l with
  | [] => ([], w, Returned ())
  | x :: l' =>
    match run (hook_fn x) w with
    | (w', Panicked r) => (l, w', Panicked r)
    | (w', Returned _) => run_hooks l' w'
    end
  end.
End operations.

(** ** Chains of nodes *)

Section chains.
Context {Fn : Type}.
Implicit Types h : gmap loc (shutdown Fn).
Implicit Types ns : list (loc * hook Fn).

(** The nodes [ns] are linked from [p] to [q]. *)
Fixpoint seg h (p : option loc) ns (q : option loc) : Prop :=
  match ns with
  | [] => p = q
  | (a, x) :: ns => p = Some a /\ exists nx, h !! a = Some (Shutdown x nx) /\ seg h nx ns q
  end.

(** A linked list represents a list of hooks. *)
Definition represents (l : linkedList Fn) (hs : list (hook Fn)) : Prop :=
  exists ns, ns.*2 = hs /\ NoDup ns.*1 /\ seg (heap l) (node l) ns None.

Lemma seg_app h p q ns1 ns2 :
  seg h p (ns1 ++ ns2) q <-> exists m, seg h p ns1 m /\ seg h m ns2 q.
Proof.
  revert p. induction ns1 as [|[a x] ns1 IH]; intros p; simpl.
  - naive_solver.
  - setoid_rewrite IH. naive_solver.
Qed.

Lemma seg_update h p q ns a n :
  a ∉ ns.*1 -> seg h p ns q -> seg (<[a := n]> h) p ns q.
Proof.
  revert p. induction ns as [|[b x] ns IH]; intros p; simpl; [done|].
  intros Ha [-> (nx & Hb & Hs)]. split; [done|]. exists nx.
  rewrite lookup_insert_ne by set_solver. split; [done|]. apply IH; set_solver.
Qed.

Lemma seg_dom h p q ns a : seg h p ns q -> a ∈ ns.*1 -> a ∈ dom h.
Proof.
  revert p. induction ns as [|[b x] ns IH]; intros p; simpl; [set_solver|].
  intros [_ (nx & Hb & Hs)] [->|Ha]%elem_of_cons; [|by eauto]. by apply elem_of_dom.
Qed.

Lemma seg_length h p q ns : NoDup ns.*1 -> seg h p ns q -> length ns <= size h.
Proof.
  intros Hn Hs. rewrite <- (length_fmap fst), <- (size_list_to_set (C := gset loc)) by done.
  rewrite <- size_dom. apply subseteq_size. intros a Ha%elem_of_list_to_set. by eapply seg_dom.
Qed.

(** The cursor stops on the last node whose priority is at most the new one. *)
Lemma advance_spec h prio fuel a x ns p :
  seg h p ((a, x) :: ns) None -> length ns < fuel -> (hook_priority x <= prio)%Z ->
  exists pre c xc post, (a, x) :: ns = pre ++ (c, xc) :: post
    /\ advance fuel h a prio = Some c
    /\ forall y, hook_priority y = prio ->
         stable_insert y ((a, x) :: ns).*2 = pre.*2 ++ xc :: y :: post.*2.
Proof.
  revert a x ns p. induction fuel as [|fuel IH]; intros a x ns p Hs Hf Hx; [lia|].
  destruct Hs as [-> (nx & Ha & Hs)]. simpl. rewrite Ha. simpl.
  destruct ns as [|[b z] ns].
  { simpl in Hs. subst nx. exists [], a, x, []. split_and!; [done..|].
    intros y <-. simpl. by destruct (Z.leb_spec (hook_priority x) (hook_priority y)); [|lia]. }
  assert (Hs' := Hs). destruct Hs' as [-> (nx' & Hb & _)]. rewrite Hb. simpl.
  unfold node_priority. simpl. destruct (Z.leb_spec (hook_priority z) prio) as [Hz|Hz].
  - destruct (IH b z ns (Some b) Hs) as (pre & c & xc & post & E & -> & Hi); [simpl in Hf; lia|done|].
    exists ((a, x) :: pre), c, xc, post. split_and!; [by rewrite E|done|].
    intros y Hy. specialize (Hi y Hy). simpl in Hi |- *.
    destruct (Z.leb_spec (hook_priority x) (hook_priority y)); [|lia]. by rewrite Hi.
  - exists [], a, x, ((b, z) :: ns). split_and!; [done..|]. intros y <-. simpl.
    destruct (Z.leb_spec (hook_priority x) (hook_priority y)); [|lia].
    by destruct (Z.leb_spec (hook_priority z) (hook_priority y)); [lia|].
Qed.

#[local] Arguments advance : simpl never.

Lemma represents_empty : represents empty_list [].
Proof. exists []. split_and!; [done|constructor|done]. Qed.

Lemma represents_push (l : linkedList Fn) hs x :
  represents l hs ->
  represents (LinkedList (<[fresh (dom (heap l)) := Shutdown x (node l)]> (heap l)) (Some (fresh (dom (heap l)))))
    (x :: hs).
Proof.
  intros (ns & <- & Hn & Hs). set (a := fresh (dom (heap l))).
  assert (a ∉ ns.*1) as Ha.
  { intros Ha. by apply (is_fresh (dom (heap l))), (seg_dom _ _ _ _ _ Hs). }
  exists ((a, x) :: ns). split_and!; [done|by constructor|]. simpl. split; [done|].
  exists (node l). rewrite lookup_insert_eq. split; [done|]. by apply seg_update.
Qed.

(** Linking a fresh node after node [c]. *)
Lemma represents_link h p pre c xc post x a :
  NoDup (pre ++ (c, xc) :: post).*1 -> seg h p (pre ++ (c, xc) :: post) None -> a ∉ dom h ->
  exists nx, h !! c = Some (Shutdown xc nx)
    /\ represents (LinkedList (<[c := Shutdown xc (Some a)]> (<[a := Shutdown x nx]> h)) p)
         (pre.*2 ++ xc :: x :: post.*2).
Proof.
  intros Hn Hs Ha. assert (a ∉ (pre ++ (c, xc) :: post).*1) as Hfresh.
  { intros Hin. by apply Ha, (seg_dom _ _ _ _ _ Hs). }
  rewrite fmap_app in Hn, Hfresh. simpl in Hn, Hfresh.
  apply NoDup_app in Hn as (Hn1 & Hd & Hn2). inversion_clear Hn2 as [|? ? Hc Hn3].
  apply seg_app in Hs as (m & Hs1 & [-> (nx & Hx & Hs2)]). exists nx. split; [done|].
  exists (pre ++ (c, xc) :: (a, x) :: post). split_and!.
  - by rewrite fmap_app.
  - rewrite fmap_app. simpl. apply NoDup_app. split_and!; [done|set_solver|].
    constructor; [set_solver|]. constructor; [set_solver|done].
  - simpl. apply seg_app. exists (Some c). split.
    + apply seg_update; [set_solver|]. apply seg_update; [set_solver|done].
    + simpl. split; [done|]. exists (Some a). rewrite lookup_insert_eq. split; [done|].
      split; [done|]. exists nx. rewrite lookup_insert_ne by set_solver. rewrite lookup_insert_eq.
      split; [done|]. apply seg_update; [set_solver|]. apply seg_update; [set_solver|done].
Qed.

(** [RegisterShutdown] never dereferences nil and is a stable insertion. *)
Lemma RegisterShutdown_spec (l : linkedList Fn) hs x :
  represents l hs ->
  exists l', RegisterShutdown l (hook_name x) (hook_fn x) (hook_priority x) = Some l'
    /\ represents l' (stable_insert x hs).
Proof.
  intros Hr. assert (Hp := represents_push l hs x Hr). destruct Hr as (ns & <- & Hn & Hs).
  unfold RegisterShutdown. destruct x as [nm fn prio]; simpl in *.
  destruct ns as [|[a y] ns].
  - simpl in *. rewrite Hs in *. by eexists.
  - assert (Hl := seg_length _ _ _ _ Hn Hs). assert (Hs' := Hs).
    destruct Hs' as [E (nx & Ha & _)]. rewrite E in *. rewrite Ha.
    simpl. unfold node_priority at 1. simpl.
    destruct (Z.ltb_spec prio (hook_priority y)).
    + eexists. split; [reflexivity|]. simpl in *. by destruct (Z.leb_spec (hook_priority y) prio); [lia|].
    + destruct (advance_spec (heap l) prio (S (size (heap l))) a y ns (Some a) Hs)
        as (pre & c & xc & post & Ens & Eadv & Hi); [simpl in Hl; lia|done|].
      rewrite Eadv. cbn [mbind option_bind]. rewrite Ens in Hn, Hs.
      destruct (represents_link (heap l) (Some a) pre c xc post (Hook nm fn prio) (fresh (dom (heap l))) Hn Hs)
        as (nxc & Hc & Hrep); [apply is_fresh|].
      rewrite Hc. cbn [mbind option_bind]. eexists. split; [done|].
      specialize (Hi (Hook nm fn prio) eq_refl). simpl in Hi. by rewrite Hi.
Qed.

Lemma RegisterAll_spec (l : linkedList Fn) hs xs :
  represents l hs ->
  exists l', RegisterAll l xs = Some l' /\ represents l' (foldl (fun acc x => stable_insert x acc) hs xs).
Proof.
  revert l hs. induction xs as [|x xs IH]; intros l hs Hr; simpl; [by eexists|].
  destruct (RegisterShutdown_spec l hs x Hr) as (l' & -> & Hr'). simpl. by apply IH.
Qed.
End chains.

(** ** Running the hooks *)

Section running.
Context {Fn World : Type} (run : Fn -> World -> World * outcome unit).

Lemma shutdown_loop_spec fuel (l : linkedList Fn) ns w :
  NoDup ns.*1 -> seg (heap l) (node l) ns None -> length ns < fuel ->
  exists l', represents l' (run_hooks run ns.*2 w).1.1
    /\ shutdown_loop run fuel l w
       = Some (l', (run_hooks run ns.*2 w).1.2, (run_hooks run ns.*2 w).2).
Proof.
  revert l ns w. induction fuel as [|fuel IH]; intros l ns w Hn Hs Hf; [lia|].
  destruct ns as [|[a x] ns]; simpl.
  - simpl in Hs. rewrite Hs. exists l. split; [|done]. exists []. by split_and!.
  - assert (Hs' := Hs). destruct Hs' as [-> (nx & Ha & Hs')]. rewrite Ha. simpl.
    destruct (run (hook_fn x) w) as [w' [[]|r]].
    + apply (IH (LinkedList (heap l) nx) ns w'); [by inversion Hn|done|simpl in Hf; lia].
    + exists l. split; [|done]. simpl. destruct l as [h p]. simpl in *.
      exists ((a, x) :: ns). split_and!; [done..|]. simpl. naive_solver.
Qed.

Lemma shutdownAll_spec (l : linkedList Fn) hs w :
  represents l hs ->
  exists l', represents l' (run_hooks run hs w).1.1
    /\ shutdownAllAndDeleteAllCanceled run l w
       = Some (l', (run_hooks run hs w).1.2, (run_hooks run hs w).2).
Proof.
  intros (ns & <- & Hn & Hs). apply shutdown_loop_spec; [done..|].
  pose proof (seg_length _ _ _ _ Hn Hs). lia.
Qed.
End running.

(** ** Stable sorting by repeated insertion *)

Section stable.
Context {Fn : Type}.
Implicit Types l : list (hook Fn).

Definition by_priority (x y : hook Fn) : Prop := (hook_priority x <= hook_priority y)%Z.

Lemma stable_insert_permutation x l : stable_insert x l ≡ₚ x :: l.
Proof.
  induction l as [|y l IH]; simpl; [done|].
  destruct (_ <=? _)%Z; [|done]. rewrite IH. by rewrite Permutation_swap.
Qed.

Lemma stable_insert_sorted x l :
  StronglySorted by_priority l -> StronglySorted by_priority (stable_insert x l).
Proof.
  unfold by_priority. induction 1 as [|y l Hl IH Hy]; simpl; [repeat constructor|].
  destruct (Z.leb_spec (hook_priority y) (hook_priority x)).
  - constructor; [done|]. by rewrite stable_insert_permutation, Forall_cons.
  - constructor; [by constructor|]. rewrite Forall_cons. split; [lia|].
    eapply Forall_impl; [done|]. simpl. lia.
Qed.

(** A hook is placed after all the hooks of its own priority. *)
Lemma stable_insert_class p x l :
  StronglySorted by_priority l ->
  filter (fun y => hook_priority y = p) (stable_insert x l)
  = filter (fun y => hook_priority y = p) (l ++ [x]).
Proof.
  induction 1 as [|y l Hl IH Hy]; simpl; [done|].
  destruct (Z.leb_spec (hook_priority y) (hook_priority x)).
  - rewrite !filter_cons, IH. done.
  - rewrite filter_cons. case_decide as Hp; simpl.
    + change (y :: l ++ [x]) with ((y :: l) ++ [x]). rewrite filter_app.
      rewrite filter_singleton_True by done.
      rewrite (filter_none _ (y :: l)); [done|]. intros z Hz. apply elem_of_cons in Hz.
      rewrite Forall_forall in Hy. unfold by_priority in Hy. intros ?.
      destruct Hz as [->|Hz]; [lia|]. apply Hy in Hz. lia.
    + change (y :: l ++ [x]) with ((y :: l) ++ [x]).
      by rewrite filter_app, filter_singleton_False, app_nil_r by done.
Qed.

Definition register_order (hs xs : list (hook Fn)) : list (hook Fn) :=
  foldl (fun acc x => stable_insert x acc) hs xs.

Lemma register_order_spec hs xs :
  StronglySorted by_priority hs ->
  let out := register_order hs xs in
  StronglySorted by_priority out /\ out ≡ₚ hs ++ xs
  /\ forall p, filter (fun y => hook_priority y = p) out
             = filter (fun y => hook_priority y = p) (hs ++ xs).
Proof.
  unfold register_order. revert hs. induction xs as [|x xs IH]; intros hs Hs; simpl.
  { by rewrite app_nil_r. }
  destruct (IH (stable_insert x hs)) as (H1 & H2 & H3); [by apply stable_insert_sorted|].
  split_and!; [done| |].
  - rewrite H2, stable_insert_permutation. simpl. by rewrite Permutation_middle.
  - intros p. change (x :: xs) with ([x] ++ xs).
    rewrite H3, !filter_app, stable_insert_class, filter_app by done. by rewrite app_assoc.
Qed.
End stable.

(** ** Properties *)

(** On every well-formed list [RegisterShutdown] finds its place without a nil
    dereference, within one pass over the nodes, and the list it leaves represents
    the same hooks with the new one inserted before the first hook of strictly larger priority. *)
Theorem RegisterShutdown_refines_stable_insert (Fn : Type) (l : linkedList Fn) (hs : list (hook Fn))
    (name : string) (fn : Fn) (priority : Z) (Hrep : represents l hs) :
  exists l', RegisterShutdown l name fn priority = Some l'
    /\ represents l' (stable_insert (Hook name fn priority) hs).
Proof. apply (RegisterShutdown_spec l hs (Hook name fn priority) Hrep). Qed.

Lemma RegisterShutdown_refines_stable_insert_witness :
  exists l', RegisterShutdown (empty_list (Fn := nat)) "http" 7 HighPriority = Some l'
    /\ represents l' (stable_insert (Hook "http" 7 HighPriority) []).
Proof. apply (RegisterShutdown_refines_stable_insert nat empty_list []), represents_empty. Defined.

(** C6: the shutdown of a kernel. For hooks registered in any order, from an empty list,
    the registrations and the shutdown loop terminate without a nil dereference, and
    there is one order, sorted by ascending priority and first-registered first within a
    priority, containing every registered hook once, in which the hooks run; if none
    panics the list is empty afterwards, and if one panics the panic leaves the loop and that hook and
    the later ones are still in the list. *)
Theorem shutdown_runs_in_stable_priority_order (Fn World : Type) (run : Fn -> World -> World * outcome unit)
    (regs : list (hook Fn)) (w : World) :
  exists l order l',
    RegisterAll empty_list regs = Some l
    /\ order ≡ₚ regs
    /\ StronglySorted by_priority order
    /\ (forall p, filter (fun y => hook_priority y = p) order = filter (fun y => hook_priority y = p) regs)
    /\ shutdownAllAndDeleteAllCanceled run l w
       = Some (l', (run_hooks run order w).1.2, (run_hooks run order w).2)
    /\ represents l' (run_hooks run order w).1.1
    /\ ((run_hooks run order w).2 = Returned () -> node l' = None).
Proof.
  destruct (RegisterAll_spec empty_list [] regs represents_empty) as (l & El & Hl).
  fold (register_order [] regs) in Hl.
  destruct (shutdownAll_spec run l _ w Hl) as (l' & Hl' & Es).
  destruct (register_order_spec [] regs) as (H1 & H2 & H3); [constructor|].
  exists l, (register_order [] regs), l'. split_and!; [done..|].
  intros Hret. assert ((run_hooks run (register_order [] regs) w).1.1 = []) as E0.
  { clear -Hret. revert w Hret. generalize (register_order [] regs) as hs.
    induction hs as [|x hs IH]; intros w; [done|]. simpl.
    destruct (run (hook_fn x) w) as [w' [|]]; [apply IH|done]. }
  rewrite E0 in Hl'. destruct Hl' as ([|] & Ens & _ & Hs); [done|]. done.
Qed.

(** Hooks that write their name in a log; the hook ["bad"] panics. *)
Definition log_hook (fn : string) (log : list string) : list string * outcome unit :=
  if bool_decide (fn = "bad"%string) then (log, Panicked "boom") else (log ++ [fn], Returned ()).

Example shutdown_run :
  (l ← RegisterAll empty_list [Hook "a" "a" 100; Hook "b" "b" 1; Hook "c" "c" 100; Hook "d" "d" 50];
   r ← shutdownAllAndDeleteAllCanceled log_hook l []; Some r.1.2)
  = Some ["b"; "d"; "a"; "c"]%string.
Proof. vm_compute. reflexivity. Qed.
