(* ===== verification/Locker.v ===== *)
(** [src/locker]: the lease lock [RedisLocker] and its three Lua scripts over a Redis
    server. The server is a parameter ([RedisServer]) with the documented meaning of SET NX PX, GET,
    DEL and PEXPIRE ([RedisLaws]). The locker is refined to an abstract table of leases,
    the interface ([LockerContract]) the leader election is proved against. *)
From S2P Require Import Prelude GoTime.
From stdpp Require Import base tactics list gmap strings functions.
From Stdlib Require Import ZArith Lia.
Local Open Scope Z_scope.

(** ** The Redis server (times in milliseconds) *)

Inductive redis_reply :=
  | ReplyOK
  | ReplyNil
  | ReplyInteger (n : Z)
  | ReplyBulk (s : string)
  | ReplyError (msg : string).

Class RedisServer (db : Type) := {
  cmd_SET_NX_PX : db -> Z -> string -> string -> Z -> db * redis_reply;
  cmd_GET : db -> Z -> string -> db * redis_reply;
  cmd_DEL : db -> Z -> string -> db * redis_reply;
  cmd_PEXPIRE : db -> Z -> string -> Z -> db * redis_reply
}.

(** [value_at d t k]: the value stored under [k] at time [t] if no command changes the
    database [d] before; a command at time [t] fixes it for the times from [t] on. *)
Class RedisLaws (db : Type) `{!RedisServer db} (value_at : db -> Z -> string -> option string) : Prop := {
  law_SET_free d t k v px : value_at d t k = None -> 0 < px ->
    (cmd_SET_NX_PX d t k v px).2 = ReplyOK
    /\ forall t', t <= t' ->
         value_at (cmd_SET_NX_PX d t k v px).1 t' k = (if t' <? t + px then Some v else None);
  law_SET_taken d t k v px w : value_at d t k = Some w -> 0 < px ->
    (cmd_SET_NX_PX d t k v px).2 = ReplyNil
    /\ forall t', t <= t' -> value_at (cmd_SET_NX_PX d t k v px).1 t' k = value_at d t' k;
  law_SET_expire d t k v px : px <= 0 ->
    (exists msg, (cmd_SET_NX_PX d t k v px).2 = ReplyError msg)
    /\ forall t', t <= t' -> value_at (cmd_SET_NX_PX d t k v px).1 t' k = value_at d t' k;
  law_SET_other d t k v px k' t' : k <> k' -> t <= t' ->
    value_at (cmd_SET_NX_PX d t k v px).1 t' k' = value_at d t' k';
  law_GET d t k :
    (cmd_GET d t k).2 = (match value_at d t k with Some v => ReplyBulk v | None => ReplyNil end)
    /\ forall t' k', t <= t' -> value_at (cmd_GET d t k).1 t' k' = value_at d t' k';
  law_DEL d t k w : value_at d t k = Some w ->
    (cmd_DEL d t k).2 = ReplyInteger 1
    /\ forall t', t <= t' -> value_at (cmd_DEL d t k).1 t' k = None;
  law_DEL_other d t k k' t' : k <> k' -> t <= t' ->
    value_at (cmd_DEL d t k).1 t' k' = value_at d t' k';
  (** PEXPIRE with a timeout that is not positive deletes the key. *)
  law_PEXPIRE d t k px w : value_at d t k = Some w ->
    (cmd_PEXPIRE d t k px).2 = ReplyInteger 1
    /\ forall t', t <= t' ->
         value_at (cmd_PEXPIRE d t k px).1 t' k = (if t' <? t + px then Some w else None);
  law_PEXPIRE_other d t k px k' t' : k <> k' -> t <= t' ->
    value_at (cmd_PEXPIRE d t k px).1 t' k' = value_at d t' k'
}.

(** ** The scripts and the client *)

Definition lockKeyPrefix : string :=
  "gitlab.wildberries.ru/whs-ai/whs-ai/github.com/PavelAgarkov/service-pkg-block-prefix-".

(** What becomes of a request: it is served, it is lost on the way to the server, or
    the server runs it and the reply is lost. *)
Inductive transport := Delivered | RequestLost | ReplyLost.

Section redis_locker.
Context {db : Type} `{!RedisServer db}.

(** [redis.call("SET", KEYS[1], ARGV[1], "NX", "PX", ARGV[2]) and 1 or 0]: a status
    reply is true in Lua, a nil reply is false, an error reply aborts the script. *)
Definition lockScript (d : db) (now : Z) (key value : string) (px : Z) : db * redis_reply :=
  let (d', r) := cmd_SET_NX_PX d now key value px in
  (d', match r with
       | ReplyError msg => ReplyError msg
       | ReplyNil => ReplyInteger 0
       | _ => ReplyInteger 1
       end).

Definition get_equals (r : redis_reply) (value : string) : bool :=
  match r with ReplyBulk s => bool_decide (s = value) | _ => false end.

Definition unlockScript (d : db) (now : Z) (key value : string) : db * redis_reply :=
  let (d', r) := cmd_GET d now key in
  if get_equals r value then cmd_DEL d' now key else (d', ReplyInteger 0).

Definition extendTTLScript (d : db) (now : Z) (key value : string) (px : Z) : db * redis_reply :=
  let (d', r) := cmd_GET d now key in
  if get_equals r value then cmd_PEXPIRE d' now key px else (d', ReplyInteger 0).

(** [Eval(...).Int()]: the integer of the reply, or the error of the client. *)
Definition eval (tr : transport) (d : db) (script : db -> db * redis_reply) : db * result string Z :=
  match tr with
  | RequestLost => (d, Err "network")
  | ReplyLost => let (d', _) := script d in (d', Err "network")
  | Delivered =>
    let (d', r) := script d in
    (d', match r with
         | ReplyInteger n => Ok n
         | ReplyError msg => Err msg
         | _ => Err "unexpected type"
         end)
  end.

(** The [(bool, error)] the three methods return. *)
Definition eval_result (r : result string Z) : bool * option string :=
  match r with
  | Err e => (false, Some ("eval: " +:+ e))
  | Ok n => (n =? 1, None)
  end.

Definition Lock (tr : transport) (d : db) (now : Z) (key value : string) (expiration : Z)
    : db * (bool * option string) :=
  let (d', r) := eval tr d (fun d => lockScript d now (lockKeyPrefix +:+ key) value (Milliseconds expiration)) in
  (d', eval_result r).

Definition Unlock (tr : transport) (d : db) (now : Z) (key value : string) : db * (bool * option string) :=
  let (d', r) := eval tr d (fun d => unlockScript d now (lockKeyPrefix +:+ key) value) in
  (d', eval_result r).

Definition ExtendLockTTL (tr : transport) (d : db) (now : Z) (key value : string) (expiration : Z)
    : db * (bool * option string) :=
  let (d', r) := eval tr d (fun d => extendTTLScript d now (lockKeyPrefix +:+ key) value (Milliseconds expiration)) in
  (d', eval_result r).
End redis_locker.

(** ** Leases: the abstract lock *)

(** The owner's value and the first instant at which it has expired. *)
Notation lease := (option (string * Z)).

Inductive lock_op :=
  | OpLock (value : string) (expiration : Z)
  | OpUnlock (value : string)
  | OpExtend (value : string) (expiration : Z).

Definition holder (l : lease) (t : Z) : option string :=
  match l with Some (v, e) => if t <? e then Some v else None | None => None end.

(** One operation on a lease: the lease it leaves, and whether it reports success. *)
Definition lease_step (l : lease) (now : Z) (op : lock_op) : lease * bool :=
  match op with
  | OpLock v exp =>
    match holder l now with
    | Some _ => (l, false)
    | None => if 0 <? Milliseconds exp then (Some (v, now + Milliseconds exp), true) else (l, false)
    end
  | OpUnlock v =>
    if bool_decide (holder l now = Some v) then (None, true) else (l, false)
  | OpExtend v exp =>
    if bool_decide (holder l now = Some v) then (Some (v, now + Milliseconds exp), true) else (l, false)
  end.

(** A lost request changes nothing; a lost reply hides the success from the caller. *)
Definition lease_call (tr : transport) (l : lease) (now : Z) (op : lock_op) : lease * bool :=
  match tr with
  | Delivered => lease_step l now op
  | RequestLost => (l, false)
  | ReplyLost => ((lease_step l now op).1, false)
  end.

(** ** The interface [Locker] *)

Class LockerOps (st : Type) := locker_call : transport -> st -> Z -> string -> lock_op -> st * (bool * option string).

(** [leases s t L]: at time [t] the state [s] amounts to the table [L] of leases. *)
Class LockerContract (st : Type) `{!LockerOps st} (leases : st -> Z -> (string -> lease) -> Prop) : Prop := {
  contract_later s t t' L : leases s t L -> t <= t' -> leases s t' L;
  contract_call tr s t L key op :
    leases s t L ->
    leases (locker_call tr s t key op).1 t (<[key := (lease_call tr (L key) t op).1]> L)
    /\ (locker_call tr s t key op).2.1 = (lease_call tr (L key) t op).2
}.

#[export] Instance redis_locker_ops {db} `{!RedisServer db} : LockerOps db :=
  fun tr d now key op =>
    match op with
    | OpLock v exp => Lock tr d now key v exp
    | OpUnlock v => Unlock tr d now key v
    | OpExtend v exp => ExtendLockTTL tr d now key v exp
    end.

Definition redis_leases {db} (value_at : db -> Z -> string -> option string)
    (d : db) (t : Z) (L : string -> lease) : Prop :=
  forall t' key, t <= t' -> value_at d t' (lockKeyPrefix +:+ key) = holder (L key) t'.

(** A run of several calls at given instants. *)
Fixpoint locker_calls {st} `{!LockerOps st} (s : st) (cs : list (transport * Z * string * lock_op))
    : st * list bool :=
  match cs with
  | [] => (s, [])
  | (tr, t, key, op) :: cs =>
    let (s', r) := locker_call tr s t key op in
    let (s'', rs) := locker_calls s' cs in (s'', r.1 :: rs)
  end.

Fixpoint lease_calls (L : string -> lease) (cs : list (transport * Z * string * lock_op))
    : (string -> lease) * list bool :=
  match cs with
  | [] => (L, [])
  | (tr, t, key, op) :: cs =>
    let (l, r) := lease_call tr (L key) t op in
    let (L', rs) := lease_calls (<[key := l]> L) cs in (L', r :: rs)
  end.

(** Instants that do not go back, from [t] on. *)
Fixpoint in_time_order (t : Z) (cs : list (transport * Z * string * lock_op)) : Prop :=
  match cs with
  | [] => True
  | (_, t', _, _) :: cs => t <= t' /\ in_time_order t' cs
  end.

(** ** A concrete server *)

Module DemoRedis.
(** Values with the instant at which they expire. *)
Notation db := (gmap string (string * Z)).

Definition value_at (d : db) (t : Z) (k : string) : option string := holder (d !! k) t.

#[global] Instance server : RedisServer db := {
  cmd_SET_NX_PX d t k v px :=
    if px <=? 0 then (d, ReplyError "ERR invalid expire time in 'set' command")
    else match value_at d t k with
         | Some _ => (d, ReplyNil)
         | None => (<[k := (v, t + px)]> d, ReplyOK)
         end;
  cmd_GET d t k := (d, match value_at d t k with Some v => ReplyBulk v | None => ReplyNil end);
  cmd_DEL d t k :=
    match value_at d t k with Some _ => (delete k d, ReplyInteger 1) | None => (d, ReplyInteger 0) end;
  cmd_PEXPIRE d t k px :=
    match value_at d t k with
    | Some v => (<[k := (v, t + px)]> d, ReplyInteger 1)
    | None => (d, ReplyInteger 0)
    end
}.

#[global] Instance laws : RedisLaws db value_at.
Proof.
  split; simpl; intros.
  - destruct (Z.leb_spec px 0); [lia|]. rewrite H. split; [done|].
    intros t' Ht. unfold value_at. simpl. by rewrite lookup_insert_eq.
  - destruct (Z.leb_spec px 0); [lia|]. by rewrite H.
  - destruct (Z.leb_spec px 0); [|lia]. by eauto.
  - destruct (px <=? 0); [done|]. destruct (value_at d t k); [done|].
    unfold value_at. simpl. by rewrite lookup_insert_ne.
  - by destruct (value_at d t k).
  - rewrite H. split; [done|]. intros. unfold value_at. simpl. by rewrite lookup_delete_eq.
  - destruct (value_at d t k); [|done]. unfold value_at. simpl. by rewrite lookup_delete_ne.
  - rewrite H. split; [done|]. intros. unfold value_at. simpl. by rewrite lookup_insert_eq.
  - destruct (value_at d t k); [|done]. unfold value_at. simpl. by rewrite lookup_insert_ne.
Qed.
End DemoRedis.

(** ** The locker implements the contract *)

Lemma prefix_inj (k k' : string) : lockKeyPrefix +:+ k = lockKeyPrefix +:+ k' -> k = k'.
Proof. apply (inj (String.app lockKeyPrefix)). Qed.

Section contract.
Context {db : Type} `{!RedisServer db} (value_at : db -> Z -> string -> option string).
Context `{!RedisLaws db value_at}.

(** The effect of one script on its key, on the other keys, and its reply. *)
Definition script_meets (d : db) (t : Z) (k : string) (l : lease) (op : lock_op) (out : db * redis_reply) : Prop :=
  (forall t', t <= t' -> value_at out.1 t' k = holder (lease_step l t op).1 t')
  /\ (forall t' k', k <> k' -> t <= t' -> value_at out.1 t' k' = value_at d t' k')
  /\ match out.2 with
     | ReplyInteger n => (n =? 1) = (lease_step l t op).2
     | ReplyError _ => (lease_step l t op).2 = false
     | _ => False
     end.

Lemma lockScript_meets d t k l v exp :
  (forall t', t <= t' -> value_at d t' k = holder l t') ->
  script_meets d t k l (OpLock v exp) (lockScript d t k v (Milliseconds exp)).
Proof.
  intros Hl. unfold script_meets, lockScript.
  pose proof (law_SET_other d t k v (Milliseconds exp)) as Hother.
  assert (value_at d t k = holder l t) as E by by apply Hl.
  pose proof (law_SET_free d t k v (Milliseconds exp)) as Hfree.
  pose proof (law_SET_taken d t k v (Milliseconds exp)) as Htaken.
  pose proof (law_SET_expire d t k v (Milliseconds exp)) as Hexp.
  destruct (cmd_SET_NX_PX d t k v (Milliseconds exp)) as [d' r]. simpl in *.
  destruct (Z.ltb_spec 0 (Milliseconds exp)) as [Hpx|Hpx].
  - rewrite E in Hfree, Htaken. destruct (holder l t) as [w|] eqn:Eh.
    + destruct (Htaken w) as [-> H]; [done..|]. simpl. split_and!; [|by eauto|done].
      intros t' Ht. by rewrite H, Hl.
    + destruct Hfree as [-> H]; [done..|]. simpl. split_and!; [|by eauto|done].
      intros t' Ht. by rewrite H.
  - destruct Hexp as [[msg ->] H]; [done|].
    assert (forall t', t <= t' -> value_at d' t' k = holder l t') as Hsame.
    { intros t' Ht. by rewrite H, Hl. }
    destruct (holder l t); simpl; split_and!; eauto.
Qed.

Lemma get_equals_holder (d : db) t k l v :
  (forall t', t <= t' -> value_at d t' k = holder l t') ->
  get_equals (cmd_GET d t k).2 v = bool_decide (holder l t = Some v)
  /\ forall t' k', t <= t' -> value_at (cmd_GET d t k).1 t' k' = value_at d t' k'.
Proof.
  intros Hl. destruct (law_GET d t k) as [-> H]. split; [|done].
  rewrite Hl by lia. destruct (holder l t) as [w|]; simpl; [|done].
  apply bool_decide_ext. naive_solver.
Qed.

Lemma unlockScript_meets d t k l v :
  (forall t', t <= t' -> value_at d t' k = holder l t') ->
  script_meets d t k l (OpUnlock v) (unlockScript d t k v).
Proof.
  intros Hl. unfold script_meets, unlockScript.
  destruct (get_equals_holder d t k l v Hl) as [Eq Hsame].
  destruct (cmd_GET d t k) as [d1 r]. simpl in *. rewrite Eq. case_bool_decide as Hh; simpl.
  - destruct (law_DEL d1 t k v) as [Er Hd]; [by rewrite Hsame, Hl|].
    pose proof (law_DEL_other d1 t k) as Ho.
    destruct (cmd_DEL d1 t k) as [d2 r2]. simpl in *. subst r2. split_and!; [by eauto| |done].
    intros t' k' Hk Ht. rewrite Ho by done. by apply Hsame.
  - split_and!; [|by eauto|done]. intros t' Ht. by rewrite Hsame, Hl.
Qed.

Lemma extendTTLScript_meets d t k l v exp :
  (forall t', t <= t' -> value_at d t' k = holder l t') ->
  script_meets d t k l (OpExtend v exp) (extendTTLScript d t k v (Milliseconds exp)).
Proof.
  intros Hl. unfold script_meets, extendTTLScript.
  destruct (get_equals_holder d t k l v Hl) as [Eq Hsame].
  destruct (cmd_GET d t k) as [d1 r]. simpl in *. rewrite Eq. case_bool_decide as Hh; simpl.
  - destruct (law_PEXPIRE d1 t k (Milliseconds exp) v) as [Er Hd]; [by rewrite Hsame, Hl|].
    pose proof (law_PEXPIRE_other d1 t k (Milliseconds exp)) as Ho.
    destruct (cmd_PEXPIRE d1 t k (Milliseconds exp)) as [d2 r2]. simpl in *. subst r2.
    split_and!; [by eauto| |done].
    intros t' k' Hk Ht. rewrite Ho by done. by apply Hsame.
  - split_and!; [|by eauto|done]. intros t' Ht. by rewrite Hsame, Hl.
Qed.

(** From a script to a call through the network. *)
Lemma eval_meets tr d t key L op (script : db -> db * redis_reply) :
  redis_leases value_at d t L ->
  script_meets d t (lockKeyPrefix +:+ key) (L key) op (script d) ->
  redis_leases value_at (eval tr d script).1 t (<[key := (lease_call tr (L key) t op).1]> L)
  /\ (eval_result (eval tr d script).2).1 = (lease_call tr (L key) t op).2.
Proof.
  intros HL (Hk & Ho & Hr).
  assert (forall d', d' = (script d).1 ->
    redis_leases value_at d' t (<[key := (lease_step (L key) t op).1]> L)) as Hnew.
  { intros d' -> t' key' Ht. destruct (decide (key = key')) as [<-|Hne].
    - rewrite fn_lookup_insert. by apply Hk.
    - rewrite fn_lookup_insert_ne by done. rewrite Ho; [by apply HL| |done].
      intros ?%prefix_inj. done. }
  assert (redis_leases value_at d t (<[key := L key]> L)) as Hsame.
  { intros t' key' Ht. destruct (decide (key = key')) as [<-|Hne].
    - rewrite fn_lookup_insert. by apply HL.
    - rewrite fn_lookup_insert_ne by done. by apply HL. }
  destruct tr; simpl; [|by split|].
  - destruct (script d) as [d' r]. simpl in *. split; [by apply Hnew|].
    by destruct r.
  - destruct (script d) as [d' r]. simpl in *. split; [by apply Hnew|done].
Qed.

#[global] Instance redis_locker_contract : LockerContract db (redis_leases value_at).
Proof.
  split.
  - intros s t t' L HL Ht t2 key Ht2. apply HL. lia.
  - intros tr d t L key op HL. unfold locker_call, redis_locker_ops.
    assert (forall t', t <= t' -> value_at d t' (lockKeyPrefix +:+ key) = holder (L key) t') as Hk
      by (intros; by apply HL).
    destruct op as [v exp|v|v exp]; unfold Lock, Unlock, ExtendLockTTL.
    + destruct (eval_meets tr d t key L (OpLock v exp)
        (fun d => lockScript d t (lockKeyPrefix +:+ key) v (Milliseconds exp)) HL) as [H1 H2];
        [by apply lockScript_meets|]. by destruct (eval tr d _).
    + destruct (eval_meets tr d t key L (OpUnlock v)
        (fun d => unlockScript d t (lockKeyPrefix +:+ key) v) HL) as [H1 H2];
        [by apply unlockScript_meets|]. by destruct (eval tr d _).
    + destruct (eval_meets tr d t key L (OpExtend v exp)
        (fun d => extendTTLScript d t (lockKeyPrefix +:+ key) v (Milliseconds exp)) HL) as [H1 H2];
        [by apply extendTTLScript_meets|]. by destruct (eval tr d _).
Qed.
End contract.

Section calls.
Context {st : Type} `{!LockerOps st} (leases : st -> Z -> (string -> lease) -> Prop) `{!LockerContract st leases}.

Lemma locker_calls_refine s t L cs :
  leases s t L -> in_time_order t cs ->
  (locker_calls s cs).2 = (lease_calls L cs).2
  /\ exists t', t <= t' /\ leases (locker_calls s cs).1 t' (lease_calls L cs).1.
Proof.
  revert s t L. induction cs as [|[[[tr t1] key] op] cs IH]; intros s t L HL Ht; simpl.
  { split; [done|]. exists t. split; [lia|done]. }
  destruct Ht as [Ht Hts]. assert (leases s t1 L) as HL1 by by eapply contract_later.
  destruct (contract_call tr s t1 L key op HL1) as [HL2 Hr].
  destruct (locker_call tr s t1 key op) as [s' r]. destruct (lease_call tr (L key) t1 op) as [l b].
  simpl in *. destruct (IH s' t1 _ HL2 Hts) as [Ers (t' & Ht' & HL')].
  destruct (locker_calls s' cs) as [s'' rs]. destruct (lease_calls _ cs) as [L' bs]. simpl in *.
  split; [congruence|]. exists t'. split; [lia|done].
Qed.
End calls.

(** ** Properties *)

(** C5: refinement. Over any Redis server that honours the documented commands, the
    three methods of [RedisLocker], called at any instants that do not go back, on any keys
    and under any mixture of lost requests and lost replies, return the booleans of the
    abstract table of leases (a lease per election name, taken only when free, extended and released only
    by its owner, expiring by itself), and leave a database that amounts to that table: the prefixed keys of
    different names never interfere. *)
Theorem RedisLocker_refines_leases (db : Type) (S : RedisServer db)
    (value_at : db -> Z -> string -> option string) (Hlaws : RedisLaws db value_at)
    (d : db) (t : Z) (L : string -> lease) (cs : list (transport * Z * string * lock_op))
    (Hd : redis_leases value_at d t L) (Ht : in_time_order t cs) :
  (locker_calls d cs).2 = (lease_calls L cs).2
  /\ exists t', t <= t' /\ redis_leases value_at (locker_calls d cs).1 t' (lease_calls L cs).1.
Proof. by apply locker_calls_refine; [apply _|..]. Qed.

Definition demo_lock_calls : list (transport * Z * string * lock_op) :=
  [(Delivered, 0, "cron"%string, OpLock "a" (3 * Second)); (Delivered, 10, "cron"%string, OpLock "b" (3 * Second));
   (Delivered, 20, "other"%string, OpLock "b" (3 * Second)); (ReplyLost, 2000, "cron"%string, OpExtend "a" (3 * Second));
   (Delivered, 4000, "cron"%string, OpLock "b" (3 * Second)); (Delivered, 5000, "cron"%string, OpLock "b" (3 * Second));
   (Delivered, 5001, "cron"%string, OpUnlock "a")].

Lemma RedisLocker_refines_leases_witness :
  (locker_calls (∅ : DemoRedis.db) demo_lock_calls).2 = [true; false; true; false; false; true; false]
  /\ exists t', 0 <= t' /\ redis_leases DemoRedis.value_at (locker_calls (∅ : DemoRedis.db) demo_lock_calls).1 t'
                   (lease_calls (fun _ => None) demo_lock_calls).1.
Proof.
  apply (RedisLocker_refines_leases DemoRedis.db _ DemoRedis.value_at DemoRedis.laws ∅ 0 (fun _ => None) demo_lock_calls).
  - intros t' key _. reflexivity.
  - simpl. lia.
Defined.

(** An expiration below one millisecond is truncated to zero. [Lock] then always
    fails with an error and takes nothing, but [ExtendLockTTL] by the current owner
    reports success while the lock is gone: the same instant the key is free for anybody. *)
Theorem sub_millisecond_expiration (db : Type) (S : RedisServer db)
    (value_at : db -> Z -> string -> option string) (Hlaws : RedisLaws db value_at)
    (d : db) (now : Z) (key owner : string) (expiration : Z) (Hexp : 0 <= expiration < Millisecond) :
  (exists e, (Lock Delivered d now key owner expiration).2 = (false, Some e))
  /\ (value_at d now (lockKeyPrefix +:+ key) = Some owner ->
      (ExtendLockTTL Delivered d now key owner expiration).2 = (true, None)
      /\ value_at (ExtendLockTTL Delivered d now key owner expiration).1 now (lockKeyPrefix +:+ key) = None).
Proof.
  assert (Milliseconds expiration = 0) as E0 by by apply Milliseconds_sub.
  unfold Lock, ExtendLockTTL, eval, lockScript, extendTTLScript. rewrite E0. split.
  - destruct (law_SET_expire d now (lockKeyPrefix +:+ key) owner 0) as [[msg E] _]; [done|].
    destruct (cmd_SET_NX_PX _ _ _ _ _) as [d' r]. simpl in *. subst r. by eexists.
  - intros Hv. destruct (law_GET d now (lockKeyPrefix +:+ key)) as [Er Hsame].
    destruct (cmd_GET d now _) as [d1 r]. simpl in *. rewrite Hv in Er. subst r. simpl.
    rewrite bool_decide_true by done.
    destruct (law_PEXPIRE d1 now (lockKeyPrefix +:+ key) 0 owner) as [Er Hd];
      [rewrite Hsame by lia; done|].
    destruct (cmd_PEXPIRE d1 now _ 0) as [d2 r2]. simpl in *. subst r2. simpl. split; [done|].
    rewrite Hd by lia. destruct (Z.ltb_spec now (now + 0)); [lia|done].
Qed.

Lemma sub_millisecond_expiration_witness :
  let d : DemoRedis.db := {[ (lockKeyPrefix +:+ "cron") := ("a"%string, 1000) ]} in
  (exists e, (Lock Delivered d 10 "cron" "a" 500000).2 = (false, Some e))
  /\ (ExtendLockTTL Delivered d 10 "cron" "a" 500000).2 = (true, None)
  /\ DemoRedis.value_at (ExtendLockTTL Delivered d 10 "cron" "a" 500000).1 10 (lockKeyPrefix +:+ "cron") = None.
Proof.
  intros d.
  destruct (sub_millisecond_expiration DemoRedis.db _ DemoRedis.value_at DemoRedis.laws d 10 "cron" "a" 500000)
    as [H1 H2]; [unfold Millisecond; lia|].
  split; [exact H1|]. apply H2. vm_compute. reflexivity.
Defined.
