(* ===== verification/Watchdog.v ===== *)
(** [src/watchdog]: the goroutine of [RedisWatchdogLeader.Elect] as a step relation,
    first alone, over any [Locker], then several of them on one lease through the
    interface [LockerContract]. *)
From S2P Require Import Prelude GoTime Locker.
From stdpp Require Import base tactics list relations strings functions.
From Stdlib Require Import ZArith Lia.
Local Open Scope Z_scope.

(** ** Constants, configuration, jitter *)

Definition DefaultLeaderExpiration : Z := 30 * Second.
Definition LostAcquire : Z := 1.
Definition TakenAcquire : Z := 2.

Record Config := { ElectionName : string; Expiration : Z }.

(** [rand.Int63n]: some number of [0, n); it panics when [n <= 0]. *)
Definition Int63n (draw n : Z) : outcome Z :=
  if n <=? 0 then Panicked "invalid argument to Int63n" else Returned (draw mod n).

(** The part of [Elect] that runs before the goroutine is started. *)
Definition elect_config (cfg : Config) : outcome Config :=
  if bool_decide (ElectionName cfg = ""%string) then Panicked "ElectionName is empty"
  else if Expiration cfg <=? 0 then
    Returned {| ElectionName := ElectionName cfg; Expiration := DefaultLeaderExpiration |}
  else Returned cfg.

Definition renewIntervalJitter (expiration draw : Z) : outcome Z :=
  match Int63n draw (Z.quot expiration 10) with
  | Returned r => Returned (int64 (Z.quot expiration 3 + r))
  | Panicked m => Panicked m
  end.

(** ** The goroutine *)

(** What follows a call of [send]. *)
Inductive after_send := ToSelect | ToReturn.

(** Program points: the three calls of the locker (before the call and with the
    [ok] it returned), [send], the [select] of the loop, and the end. *)
Inductive point :=
  | AtLock | LockReply (ok : bool)
  | AtExtend | ExtendReply (ok : bool)
  | AtUnlock | UnlockReply
  | Sending (event : Z) (k : after_send)
  | Selecting
  | Returned_.

(** [ctx_done] is the context of the watchdog; [watcher] is the buffer of the channel;
    [sent] records every event put into it. *)
Record goroutine := mkG {
  pc : point; isLeader : bool; ctx_done : bool;
  watcher : list Z; closed : bool; sent : list Z
}.

Definition watcher_cap : nat := 8.

Definition goroutine_start : goroutine := mkG AtLock false false [] false [].

Definition with_pc (p : point) (g : goroutine) : goroutine :=
  mkG p (isLeader g) (ctx_done g) (watcher g) (closed g) (sent g).
Definition with_leader (p : point) (b : bool) (g : goroutine) : goroutine :=
  mkG p b (ctx_done g) (watcher g) (closed g) (sent g).
Definition cancelled (g : goroutine) : goroutine :=
  mkG (pc g) (isLeader g) true (watcher g) (closed g) (sent g).

(** [if ok { isLeader = true; send(TakenAcquire) }] after both calls of [Lock]. *)
Definition after_lock (ok : bool) (g : goroutine) : goroutine :=
  if ok then with_leader (Sending TakenAcquire ToSelect) true g else with_pc Selecting g.

Definition after_extend (ok : bool) (g : goroutine) : goroutine :=
  if ok then with_pc Selecting g else with_leader (Sending LostAcquire ToSelect) false g.

Definition after_unlock (g : goroutine) : goroutine :=
  with_leader (Sending LostAcquire ToReturn) false g.

(** [return] runs the deferred [close(watcher)]. *)
Definition continue (k : after_send) (g : goroutine) : goroutine :=
  match k with
  | ToSelect => with_pc Selecting g
  | ToReturn => mkG Returned_ (isLeader g) (ctx_done g) (watcher g) true (sent g)
  end.

Definition push (event : Z) (g : goroutine) : goroutine :=
  mkG (pc g) (isLeader g) (ctx_done g) (watcher g ++ [event]) (closed g) (sent g ++ [event]).

(** The [case <-ctx.Done()] of the loop: only a leader leaves it. *)
Definition on_done (g : goroutine) : goroutine :=
  if isLeader g then with_pc AtUnlock g else with_pc Selecting g.

(** The [case <-ticker.C]. *)
Definition on_tick (g : goroutine) : goroutine :=
  if isLeader g then with_pc AtExtend g else with_pc AtLock g.

(** Steps that involve neither the locker nor the outside. *)
Inductive local_step : goroutine -> goroutine -> Prop :=
  | StepLockReply g ok : pc g = LockReply ok -> local_step g (after_lock ok g)
  | StepExtendReply g ok : pc g = ExtendReply ok -> local_step g (after_extend ok g)
  | StepUnlockReply g : pc g = UnlockReply -> local_step g (after_unlock g)
  | StepSend g e k : pc g = Sending e k -> (length (watcher g) < watcher_cap)%nat ->
      local_step g (continue k (push e g))
  | StepSendCancelled g e k : pc g = Sending e k -> ctx_done g = true -> local_step g (continue k g)
  | StepDone g : pc g = Selecting -> ctx_done g = true -> local_step g (on_done g)
  | StepTick g : pc g = Selecting -> local_step g (on_tick g).

(** The calls of the locker, with the reply as a label. *)
Inductive call_step : bool -> goroutine -> goroutine -> Prop :=
  | CallLock g ok : pc g = AtLock -> call_step ok g (with_pc (LockReply ok) g)
  | CallExtend g ok : pc g = AtExtend -> call_step ok g (with_pc (ExtendReply ok) g)
  | CallUnlock g ok : pc g = AtUnlock -> call_step ok g (with_pc UnlockReply g).

(** What the outside does: the context is cancelled, the consumer takes an event. *)
Inductive outside_step : goroutine -> goroutine -> Prop :=
  | Cancel g : outside_step g (cancelled g)
  | Receive g e w : watcher g = e :: w ->
      outside_step g (mkG (pc g) (isLeader g) (ctx_done g) w (closed g) (sent g)).

(** Any behaviour of the locker. *)
Inductive g_step (g g' : goroutine) : Prop :=
  | GLocal : local_step g g' -> g_step g g'
  | GCall ok : call_step ok g g' -> g_step g g'
  | GOutside : outside_step g g' -> g_step g g'.

(** A locker that fails on a cancelled context, as a client of Redis documents: the calls of
    [Lock] and [ExtendLockTTL] with it return false ([Unlock] uses another context). *)
Inductive cancelled_step (g g' : goroutine) : Prop :=
  | CLocal : local_step g g' -> cancelled_step g g'
  | CCall ok : call_step ok g g' -> (pc g <> AtUnlock -> ok = false) -> cancelled_step g g'
  | COutside : outside_step g g' -> cancelled_step g g'.

(** Taken, Lost, Taken, ... starting with [TakenAcquire] when [leader] is false. *)
Fixpoint alternates (leader : bool) (l : list Z) : bool :=
  match l with
  | [] => true
  | e :: l => (e =? (if leader then LostAcquire else TakenAcquire)) && alternates (negb leader) l
  end.

(** The leadership a consumer that reads all the events believes in. *)
Definition told (l : list Z) : bool := Nat.odd (length l).

(** ** Several watchdogs on one election *)

(** A participant: its goroutine, its uuid, and three instants the code does not keep. [asked] is when its last
    [Lock] or [ExtendLockTTL] was made and [heard] when the last one was made whose answer the goroutine has acted on,
    whatever the answers were; they are for the statements. [lease_until] is when the lease it was last granted runs
    out, and is for the proofs only. *)
Record member := mkM {
  gor : goroutine; value : string; expiration : Z; lease_until : Z; asked : Z; heard : Z
}.

Definition px (m : member) : Z := Milliseconds (expiration m).

Record system (st : Type) := mkSys { now : Z; server : st; members : nat -> member }.
Arguments mkSys {st} _ _ _.
Arguments now {st} _.
Arguments server {st} _.
Arguments members {st} _.

Definition with_gor (m : member) (g : goroutine) : member :=
  mkM g (value m) (expiration m) (lease_until m) (asked m) (heard m).

(** A step of the goroutine itself: acting on an answer is where it hears of it. *)
Definition answered (g : goroutine) : bool :=
  match pc g with LockReply _ | ExtendReply _ => true | _ => false end.

Definition moved (m : member) (g : goroutine) : member :=
  mkM g (value m) (expiration m) (lease_until m) (asked m) (if answered (gor m) then asked m else heard m).

(** A call of [Lock] or [ExtendLockTTL] at [t]; a granted lease runs [px] milliseconds from the instant of the
    call. *)
Definition called (ok : bool) (t : Z) (m : member) (g : goroutine) : member :=
  mkM g (value m) (expiration m) (if ok then t + px m else lease_until m) t (heard m).

Section election.
Context {st : Type} `{!LockerOps st} (name : string).

Inductive sys_step : system st -> system st -> Prop :=
  | SysTime s t : now s <= t -> sys_step s (mkSys t (server s) (members s))
  | SysLocal s i g' : local_step (gor (members s i)) g' ->
      sys_step s (mkSys (now s) (server s) (<[i := moved (members s i) g']> (members s)))
  | SysOutside s i g' : outside_step (gor (members s i)) g' ->
      sys_step s (mkSys (now s) (server s) (<[i := with_gor (members s i) g']> (members s)))
  | SysLock s i tr :
      let m := members s i in
      let out := locker_call tr (server s) (now s) name (OpLock (value m) (expiration m)) in
      pc (gor m) = AtLock ->
      sys_step s (mkSys (now s) out.1
        (<[i := called out.2.1 (now s) m (with_pc (LockReply out.2.1) (gor m))]> (members s)))
  | SysExtend s i tr :
      let m := members s i in
      let out := locker_call tr (server s) (now s) name (OpExtend (value m) (expiration m)) in
      pc (gor m) = AtExtend ->
      sys_step s (mkSys (now s) out.1
        (<[i := called out.2.1 (now s) m (with_pc (ExtendReply out.2.1) (gor m))]> (members s)))
  | SysUnlock s i tr :
      let m := members s i in
      let out := locker_call tr (server s) (now s) name (OpUnlock (value m)) in
      pc (gor m) = AtUnlock ->
      sys_step s (mkSys (now s) out.1 (<[i := with_gor m (with_pc UnlockReply (gor m))]> (members s))).

(** A watchdog leads at [t] when its own flag says so, it has not given the lock back, and less than an expiration
    has passed since the call whose answer it acted on last. *)
Definition leads (m : member) (t : Z) : Prop :=
  isLeader (gor m) = true /\ pc (gor m) <> UnlockReply /\ t < heard m + px m.

(** For the proofs: it leads or has just been granted the lock, and the lease it was granted has not run out. *)
Definition leading (g : goroutine) : Prop :=
  (isLeader g = true \/ pc g = LockReply true) /\ pc g <> UnlockReply.

Definition holds_grant (m : member) (t : Z) : Prop := leading (gor m) /\ t < lease_until m.

(** The member a process is when it starts. *)
Definition fresh_member (v : string) (expiration : Z) (t : Z) : member := mkM goroutine_start v expiration t t t.

Definition fresh_system (t : Z) (srv : st) (ms : nat -> string * Z) : system st :=
  mkSys t srv (fun i => fresh_member (ms i).1 (ms i).2 t).

(** ** Executable steps *)

Inductive action :=
  | DoReply (i : nat) | DoSend (i : nat) | DoDrop (i : nat) | DoDone (i : nat) | DoTick (i : nat)
  | DoCancel (i : nat) | DoCall (i : nat) (tr : transport) | DoWait (d : Z).

Definition local_run (s : system st) (i : nat) (g' : goroutine) : system st :=
  mkSys (now s) (server s) (<[i := moved (members s i) g']> (members s)).

Definition outside_run (s : system st) (i : nat) (g' : goroutine) : system st :=
  mkSys (now s) (server s) (<[i := with_gor (members s i) g']> (members s)).

Definition run_action (s : system st) (a : action) : option (system st) :=
  match a with
  | DoReply i =>
    let g := gor (members s i) in
    match pc g with
    | LockReply ok => Some (local_run s i (after_lock ok g))
    | ExtendReply ok => Some (local_run s i (after_extend ok g))
    | UnlockReply => Some (local_run s i (after_unlock g))
    | _ => None
    end
  | DoSend i =>
    let g := gor (members s i) in
    match pc g with
    | Sending e k =>
      if (length (watcher g) <? watcher_cap)%nat then Some (local_run s i (continue k (push e g))) else None
    | _ => None
    end
  | DoDrop i =>
    let g := gor (members s i) in
    match pc g with Sending e k => if ctx_done g then Some (local_run s i (continue k g)) else None | _ => None end
  | DoDone i =>
    let g := gor (members s i) in
    match pc g with Selecting => if ctx_done g then Some (local_run s i (on_done g)) else None | _ => None end
  | DoTick i =>
    let g := gor (members s i) in
    match pc g with Selecting => Some (local_run s i (on_tick g)) | _ => None end
  | DoCancel i => Some (outside_run s i (cancelled (gor (members s i))))
  | DoCall i tr =>
    let m := members s i in
    match pc (gor m) with
    | AtLock =>
      let out := locker_call tr (server s) (now s) name (OpLock (value m) (expiration m)) in
      Some (mkSys (now s) out.1
        (<[i := called out.2.1 (now s) m (with_pc (LockReply out.2.1) (gor m))]> (members s)))
    | AtExtend =>
      let out := locker_call tr (server s) (now s) name (OpExtend (value m) (expiration m)) in
      Some (mkSys (now s) out.1
        (<[i := called out.2.1 (now s) m (with_pc (ExtendReply out.2.1) (gor m))]> (members s)))
    | AtUnlock =>
      let out := locker_call tr (server s) (now s) name (OpUnlock (value m)) in
      Some (mkSys (now s) out.1 (<[i := with_gor m (with_pc UnlockReply (gor m))]> (members s)))
    | _ => None
    end
  | DoWait d => if 0 <=? d then Some (mkSys (now s + d) (server s) (members s)) else None
  end.

Lemma run_action_sound s a s' : run_action s a = Some s' -> sys_step s s'.
Proof.
  destruct a; simpl; intros H; repeat case_match; simplify_eq; bool_to_prop.
  - by apply SysLocal, StepLockReply.
  - by apply SysLocal, StepExtendReply.
  - by apply SysLocal, StepUnlockReply.
  - apply SysLocal, StepSend; [done|by apply Nat.ltb_lt].
  - by eapply SysLocal, StepSendCancelled.
  - by apply SysLocal, StepDone.
  - by apply SysLocal, StepTick.
  - apply SysOutside, Cancel.
  - by apply SysLock.
  - by apply SysExtend.
  - by apply SysUnlock.
  - apply SysTime. lia.
Qed.

Lemma election_run_sound l s s' : run_all run_action s l = Some s' -> rtc sys_step s s'.
Proof.
  intros H. eapply rtc_subrel; [|by eapply run_all_sound]. intros s1 s2 [a Ha]. by eapply run_action_sound.
Qed.

(** A run of actions reaches a state with the properties found by evaluating it. *)
Lemma run_actions_reaches l s (P : system st -> Prop) :
  match run_all run_action s l with Some s' => P s' | None => False end -> exists s', rtc sys_step s s' /\ P s'.
Proof.
  destruct (run_all run_action s l) as [s'|] eqn:E; [|done]. intros Hp. exists s'.
  split; [by eapply election_run_sound|done].
Qed.

(** ** The lease invariant *)

(** What the lease [l] must say at time [t] about a member. *)
Definition accounted (l : lease) (t : Z) (m : member) : Prop :=
  lease_until m <= t + Z.max 0 (px m)
  /\ (holds_grant m t -> exists e, l = Some (value m, e) /\ lease_until m <= e).

Definition members_ok (L : string -> lease) (t : Z) (ms : nat -> member) : Prop :=
  (forall i j, i <> j -> value (ms i) <> value (ms j)) /\ forall i, accounted (L name) t (ms i).

Lemma local_step_leading g g' : local_step g g' -> leading g' -> leading g.
Proof.
  unfold leading. destruct 1; simpl; intros [Hl Hu];
    match goal with H : pc _ = _ |- _ => rewrite H end.
  - destruct ok; simpl in *; naive_solver.
  - destruct ok; simpl in *; naive_solver.
  - naive_solver.
  - destruct k; simpl in *; naive_solver.
  - destruct k; simpl in *; naive_solver.
  - unfold on_done in *. destruct (isLeader g) eqn:E; simpl in *; rewrite E in *; naive_solver.
  - unfold on_tick in *. destruct (isLeader g) eqn:E; simpl in *; rewrite E in *; naive_solver.
Qed.

Lemma outside_step_leading g g' : outside_step g g' -> leading g' -> leading g.
Proof. destruct 1; done. Qed.

Lemma grant_holder l t m : accounted l t m -> holds_grant m t -> holder l t = Some (value m).
Proof.
  intros [_ Ha] Hl. destruct (Ha Hl) as (e & -> & He). destruct Hl as [_ Ht]. simpl.
  destruct (Z.ltb_spec t e); [done|lia].
Qed.

(** A step of one member that leaves the lease and what is granted alone. *)
Lemma members_ok_gor L t ms i m' :
  value m' = value (ms i) -> expiration m' = expiration (ms i) -> lease_until m' = lease_until (ms i) ->
  (leading (gor m') -> leading (gor (ms i))) ->
  members_ok L t ms -> members_ok L t (<[i := m']> ms).
Proof.
  intros Hv He Hu Hg [Hd Ha]. split.
  - intros j k Hjk. specialize (Hd j k Hjk).
    destruct (decide (i = j)) as [<-|]; destruct (decide (i = k)) as [<-|];
      rewrite ?fn_lookup_insert, ?fn_lookup_insert_ne, ?Hv by done; done.
  - intros j. destruct (decide (i = j)) as [<-|].
    + rewrite fn_lookup_insert. destruct (Ha i) as [H1 H2]. unfold accounted, holds_grant, px in *.
      rewrite Hv, He, Hu. split; [done|]. intros [Hl Ht]. apply H2. split; [by apply Hg|done].
    + rewrite fn_lookup_insert_ne by done. apply Ha.
Qed.

(** A call of the locker by member [i]: the new lease accounts for [i], and it is the old
    one unless nobody else was leading. *)
Lemma members_ok_call L t ms i l' m' :
  value m' = value (ms i) -> accounted l' t m' ->
  (forall j, j <> i -> holds_grant (ms j) t -> l' = L name) ->
  members_ok L t ms -> members_ok (<[name := l']> L) t (<[i := m']> ms).
Proof.
  intros Hv Hm Hothers [Hd Ha]. split.
  - intros j k Hjk. specialize (Hd j k Hjk).
    destruct (decide (i = j)) as [<-|]; destruct (decide (i = k)) as [<-|];
      rewrite ?fn_lookup_insert, ?fn_lookup_insert_ne, ?Hv by done; done.
  - intros j. rewrite fn_lookup_insert. destruct (decide (i = j)) as [<-|].
    + by rewrite fn_lookup_insert.
    + rewrite fn_lookup_insert_ne by done. destruct (Ha j) as [H1 H2]. split; [done|].
      intros Hj. rewrite (Hothers j) by done. by apply H2.
Qed.

(** What each operation does to the lease as its caller sees it. *)
Lemma lease_call_lock tr l t v e :
  let out := lease_call tr l t (OpLock v e) in
  (out.2 = true -> out.1 = Some (v, t + Milliseconds e))
  /\ (forall w, holder l t = Some w -> out = (l, false)).
Proof.
  destruct tr; simpl; destruct (holder l t); simpl; split; try done; intros;
    destruct (0 <? Milliseconds e); naive_solver.
Qed.

Lemma lease_call_extend tr l t v e :
  let out := lease_call tr l t (OpExtend v e) in
  (out.2 = true -> out.1 = Some (v, t + Milliseconds e))
  /\ (out.1 = l \/ holder l t = Some v /\ out.1 = Some (v, t + Milliseconds e)).
Proof. destruct tr; simpl; try case_bool_decide; simpl; naive_solver. Qed.

Lemma lease_call_unlock tr l t v :
  (lease_call tr l t (OpUnlock v)).1 = l \/ holder l t = Some v.
Proof. destruct tr; simpl; try case_bool_decide; simpl; naive_solver. Qed.

(** A leading member holds the lease, so the others do not. *)
Lemma grant_exclusive L t ms i j :
  members_ok L t ms -> holder (L name) t = Some (value (ms i)) -> holds_grant (ms j) t -> i = j.
Proof.
  intros [Hd Ha] Hi Hj. pose proof (grant_holder _ _ _ (Ha j) Hj) as E.
  destruct (decide (i = j)) as [|Hne]; [done|]. destruct (Hd i j Hne). congruence.
Qed.

Section invariant.
Context (leases : st -> Z -> (string -> lease) -> Prop) `{!LockerContract st leases}.

(** What ties the instants to the flag of the goroutine, so to what it does with the answers. *)
Definition linked (t : Z) (m : member) : Prop :=
  heard m <= asked m <= t
  /\ (pc (gor m) = AtLock \/ (exists ok, pc (gor m) = LockReply ok) -> isLeader (gor m) = false)
  /\ (isLeader (gor m) = true -> pc (gor m) <> UnlockReply -> heard m + px m <= lease_until m)
  /\ (pc (gor m) = LockReply true \/ pc (gor m) = ExtendReply true -> lease_until m = asked m + px m).

Lemma linked_later t t' m : t <= t' -> linked t m -> linked t' m.
Proof. intros Ht (H1 & H2 & H3 & H4). split_and!; [lia|lia|done..]. Qed.

Lemma linked_local t m g' : local_step (gor m) g' -> linked t m -> linked t (moved m g').
Proof.
  unfold linked, moved, answered, px. intros Hs (H1 & H2 & H3 & H4). simpl.
  destruct Hs as [g ok E|g ok E|g E|g e k E Hlen|g e k E Hd|g E Hd|g E]; rewrite E in *; simpl.
  - destruct ok; simpl; (split_and!; [lia|lia| | |]); try naive_solver lia.
    rewrite H2 by (right; by eexists). naive_solver.
  - destruct ok; simpl; (split_and!; [lia|lia| | |]); naive_solver lia.
  - split_and!; [lia|lia|naive_solver..].
  - destruct k; simpl; (split_and!; [lia|lia|naive_solver..]).
  - destruct k; simpl; (split_and!; [lia|lia|naive_solver..]).
  - unfold on_done. destruct (isLeader g) eqn:El; simpl; rewrite El; (split_and!; [lia|lia|naive_solver..]).
  - unfold on_tick. destruct (isLeader g) eqn:El; simpl; rewrite El; (split_and!; [lia|lia|naive_solver..]).
Qed.

Lemma linked_outside t m g' : outside_step (gor m) g' -> linked t m -> linked t (with_gor m g').
Proof. unfold linked, with_gor, px. destruct 1; done. Qed.

Lemma linked_lock t ok m : pc (gor m) = AtLock -> linked t m -> linked t (called ok t m (with_pc (LockReply ok) (gor m))).
Proof.
  unfold linked, called, px. intros E (H1 & H2 & H3 & H4). simpl. rewrite H2 by by left.
  split_and!; [lia|lia|done|done|]. intros [[= ->]|[=]]. done.
Qed.

Lemma linked_extend t ok m :
  pc (gor m) = AtExtend -> linked t m -> linked t (called ok t m (with_pc (ExtendReply ok) (gor m))).
Proof.
  unfold linked, called, px. intros E (H1 & H2 & H3 & H4). simpl. rewrite E in *.
  split_and!; [lia|lia|naive_solver| |]; [|intros [[=]|[= ->]]; done].
  intros Hl _. specialize (H3 Hl ltac:(done)). destruct ok; lia.
Qed.

Lemma linked_unlock t m : linked t m -> linked t (with_gor m (with_pc UnlockReply (gor m))).
Proof. unfold linked, px. intros (H1 & H2 & H3 & H4). simpl. split_and!; [lia|lia|naive_solver..]. Qed.

(** A watchdog that leads holds what it was granted. *)
Lemma leads_holds_grant t m : linked t m -> leads m t -> holds_grant m t.
Proof.
  intros (_ & _ & H3 & _) (Hl & Hpc & Ht). split; [split; [by left|done]|]. specialize (H3 Hl Hpc). lia.
Qed.

Lemma linked_insert t (ms : nat -> member) i m' : (forall j, linked t (ms j)) -> linked t m' -> forall j, linked t ((<[i := m']> ms) j).
Proof.
  intros H Hm j. destruct (decide (i = j)) as [<-|]; [by rewrite fn_lookup_insert|by rewrite fn_lookup_insert_ne].
Qed.

Definition election_inv (s : system st) : Prop :=
  (exists L, leases (server s) (now s) L /\ members_ok L (now s) (members s))
  /\ forall i, linked (now s) (members s i).

Lemma election_inv_lock s i tr :
  pc (gor (members s i)) = AtLock ->
  forall L, leases (server s) (now s) L -> members_ok L (now s) (members s) ->
  let m := members s i in
  let out := lease_call tr (L name) (now s) (OpLock (value m) (expiration m)) in
  members_ok (<[name := out.1]> L) (now s)
    (<[i := called out.2 (now s) m (with_pc (LockReply out.2) (gor m))]> (members s)).
Proof.
  intros Hpc L HL Hok m out. destruct (lease_call_lock tr (L name) (now s) (value m) (expiration m)) as [H1 H2].
  fold out in H1, H2. apply members_ok_call; [done| | |done].
  - destruct Hok as [_ Ha]. destruct (Ha i) as [Hu Hlead]. fold m in Hu, Hlead. destruct out.2 eqn:Eo.
    + split; simpl; [unfold px; simpl; lia|]. intros _. exists (now s + px m). rewrite H1 by done. split; [done|lia].
    + split; [done|]. intros [[Hl _] Ht]. simpl in *. assert (holds_grant m (now s)) as Hm.
      { split; [|done]. split; [naive_solver|]. unfold m. by rewrite Hpc. }
      rewrite (H2 (value m)); [by apply Hlead|]. by apply grant_holder.
  - intros j Hj Hl. destruct Hok as [_ Ha]. rewrite (H2 (value (members s j))); [done|].
    by apply grant_holder.
Qed.

Lemma election_inv_extend s i tr :
  pc (gor (members s i)) = AtExtend ->
  forall L, leases (server s) (now s) L -> members_ok L (now s) (members s) ->
  let m := members s i in
  let out := lease_call tr (L name) (now s) (OpExtend (value m) (expiration m)) in
  members_ok (<[name := out.1]> L) (now s)
    (<[i := called out.2 (now s) m (with_pc (ExtendReply out.2) (gor m))]> (members s)).
Proof.
  intros Hpc L HL Hok m out. destruct (lease_call_extend tr (L name) (now s) (value m) (expiration m)) as [H1 H2].
  fold out in H1, H2. apply members_ok_call; [done| | |done].
  - destruct Hok as [_ Ha]. destruct (Ha i) as [Hu Hlead]. fold m in Hu, Hlead. destruct out.2 eqn:Eo.
    + split; simpl; [unfold px; simpl; lia|]. intros _. exists (now s + px m). rewrite H1 by done. split; [done|lia].
    + split; [done|]. intros [[Hl _] Ht]. simpl in *. assert (holds_grant m (now s)) as Hm.
      { split; [|done]. split; [naive_solver|]. unfold m. by rewrite Hpc. }
      destruct H2 as [->|[_ ->]]; [by apply Hlead|]. exists (now s + px m). split; [done|].
      destruct (Z.max_spec 0 (px m)) as [[? E]|[? E]]; rewrite E in Hu; [lia|].
      simpl in Ht. lia.
  - intros j Hj Hl. destruct H2 as [->|[Hh _]]; [done|]. destruct Hj.
    by rewrite (grant_exclusive L (now s) (members s) i j).
Qed.

Lemma election_inv_unlock s i tr :
  forall L, leases (server s) (now s) L -> members_ok L (now s) (members s) ->
  let m := members s i in
  let out := lease_call tr (L name) (now s) (OpUnlock (value m)) in
  members_ok (<[name := out.1]> L) (now s) (<[i := with_gor m (with_pc UnlockReply (gor m))]> (members s)).
Proof.
  intros L HL Hok m out. apply members_ok_call; [done| | |done].
  - destruct Hok as [_ Ha]. destruct (Ha i) as [Hu _]. split; [done|]. intros [[_ Hl] _]. done.
  - intros j Hj Hl. destruct (lease_call_unlock tr (L name) (now s) (value m)) as [?|Hh]; [done|].
    destruct Hj. by rewrite (grant_exclusive L (now s) (members s) i j).
Qed.

Lemma election_inv_step s s' : election_inv s -> sys_step s s' -> election_inv s'.
Proof.
  intros [(L & HL & Hok) Hlk].
  destruct 1 as [s t Ht|s i g' Hg|s i g' Hg|s i tr m out Hpc|s i tr m out Hpc|s i tr m out Hpc]; split.
  - exists L. simpl. split; [by eapply contract_later|]. destruct Hok as [Hd Ha]. split; [done|].
    intros i. destruct (Ha i) as [H1 H2]. split; [lia|]. intros [Hl Hlt]. apply H2. split; [done|lia].
  - intros i. simpl. by eapply linked_later.
  - exists L. split; [done|]. apply members_ok_gor; [done..|by apply local_step_leading|done].
  - apply linked_insert; [done|by apply linked_local].
  - exists L. split; [done|]. apply members_ok_gor; [done..|by apply outside_step_leading|done].
  - apply linked_insert; [done|by apply linked_outside].
  - destruct (contract_call tr (server s) (now s) L name (OpLock (value m) (expiration m)) HL) as [H1 H2].
    eexists. split; [exact H1|]. unfold out. rewrite H2. by apply (election_inv_lock s i tr).
  - apply linked_insert; [done|apply linked_lock; [exact Hpc|apply Hlk] ].
  - destruct (contract_call tr (server s) (now s) L name (OpExtend (value m) (expiration m)) HL) as [H1 H2].
    eexists. split; [exact H1|]. unfold out. rewrite H2. by apply (election_inv_extend s i tr).
  - apply linked_insert; [done|apply linked_extend; [exact Hpc|apply Hlk] ].
  - destruct (contract_call tr (server s) (now s) L name (OpUnlock (value m)) HL) as [H1 H2].
    eexists. split; [exact H1|]. by apply (election_inv_unlock s i tr).
  - apply linked_insert; [done|apply linked_unlock, Hlk].
Qed.

Lemma election_inv_fresh t srv ms L :
  leases srv t L -> (forall i j, i <> j -> (ms i).1 <> (ms j).1) -> election_inv (fresh_system t srv ms).
Proof.
  intros HL Hd. split.
  - exists L. split; [done|]. split; [done|]. intros i. split; simpl; [lia|].
    intros [[[?|?] _] _]; done.
  - intros i. split_and!; simpl; [lia|lia|done|done|]. by intros [?|?].
Qed.

Lemma reachable_election_inv t srv ms L s :
  leases srv t L -> (forall i j, i <> j -> (ms i).1 <> (ms j).1) ->
  rtc sys_step (fresh_system t srv ms) s -> election_inv s.
Proof.
  intros HL Hd Hr. eapply (rtc_invariant sys_step); [|exact Hr|by eapply election_inv_fresh].
  intros s1 s2 H1 H2. by eapply election_inv_step.
Qed.
End invariant.
End election.

(** ** One goroutine: events and termination *)

Lemma alternates_snoc b l e :
  alternates b (l ++ [e])
  = alternates b l && (e =? (if xorb b (Nat.odd (length l)) then LostAcquire else TakenAcquire)).
Proof.
  revert b. induction l as [|x l IH]; intros b; simpl.
  - rewrite xorb_false_r. by destruct b, (e =? _).
  - rewrite IH, Nat.odd_succ, <- Nat.negb_odd, andb_assoc.
    by destruct b, (Nat.odd (length l)).
Qed.

Lemma told_snoc l e : told (l ++ [e]) = negb (told l).
Proof. unfold told. rewrite length_app, Nat.add_1_r, Nat.odd_succ. by rewrite Nat.negb_odd. Qed.

(** The events sent so far and the local flag, at each program point, while the
    context is not cancelled. *)
Definition point_ok (p : point) (leader : bool) (sent : list Z) : Prop :=
  match p with
  | AtLock | LockReply _ => leader = false /\ told sent = false
  | AtExtend | ExtendReply _ => leader = true /\ told sent = true
  | Sending e k => k = ToSelect /\ leader = negb (told sent) /\ e = (if told sent then LostAcquire else TakenAcquire)
  | Selecting => leader = told sent
  | AtUnlock | UnlockReply | Returned_ => False
  end.

Definition events_ok (g : goroutine) : Prop :=
  (length (watcher g) <= watcher_cap)%nat
  /\ (exists read, sent g = read ++ watcher g)
  /\ (ctx_done g = false -> alternates false (sent g) = true /\ closed g = false /\ point_ok (pc g) (isLeader g) (sent g)).

Lemma events_ok_local g g' : local_step g g' -> events_ok g -> events_ok g'.
Proof.
  intros Hs (Hb & [r Hr] & Hp). destruct Hs as [g ok E|g ok E|g E|g e k E Hlen|g e k E Hd|g E Hd|g E].
  1-2: unfold events_ok; rewrite E in Hp; destruct ok; simpl; (split_and!; [done|by eexists|]);
    intros Hc; destruct (Hp Hc) as (? & ? & Hl & Ht); rewrite ?Ht, ?Hl; done.
  - rewrite E in Hp. unfold events_ok; simpl. split_and!; [done|by eexists|].
    intros Hc. by destruct (Hp Hc) as (? & ? & ?).
  - rewrite E in Hp. assert (watcher (continue k (push e g)) = watcher g ++ [e]) as Ew by by destruct k.
    assert (sent (continue k (push e g)) = sent g ++ [e]) as Es by by destruct k.
    unfold events_ok. rewrite Ew, Es, length_app. split_and!; [simpl; lia|exists r; by rewrite Hr, app_assoc|].
    intros Hc. destruct (Hp ltac:(by destruct k)) as (Ha & Hcl & -> & Hl & He). simpl.
    rewrite alternates_snoc, told_snoc, Ha. simpl. split_and!; [|done|done].
    unfold told in He. rewrite He. destruct (Nat.odd (length (sent g))); done.
  - unfold events_ok. replace (ctx_done (continue k g)) with true by (destruct k; done).
    destruct k; simpl; (split_and!; [done|by eexists|done]).
  - unfold events_ok, on_done. destruct (isLeader g); simpl; rewrite Hd; (split_and!; [done|by eexists|done]).
  - rewrite E in Hp. unfold events_ok, on_tick. destruct (isLeader g) eqn:El; simpl; rewrite ?El;
      (split_and!; [done|by eexists|]); intros Hc; destruct (Hp Hc) as (? & ? & ?); done.
Qed.

Lemma events_ok_step g g' : events_ok g -> g_step g g' -> events_ok g'.
Proof.
  intros Hok [Hs|ok Hs|Hs]; [by eapply events_ok_local|..]; destruct Hok as (Hb & [r Hr] & Hp).
  - destruct Hs as [g ok E|g ok E|g ok E]; rewrite E in Hp; unfold events_ok; simpl;
      (split_and!; [done|by eexists|]); intros Hc; destruct (Hp Hc) as (? & ? & ?); done.
  - destruct Hs as [g|g e w E]; unfold events_ok; simpl.
    + split_and!; [done|by eexists|done].
    + rewrite E in Hb, Hr. split_and!; [simpl in Hb; lia|exists (r ++ [e]); by rewrite <- app_assoc|done].
Qed.

(** A cancelled follower: no program point from which it could return. *)
Definition stuck_follower (g : goroutine) : Prop :=
  ctx_done g = true /\ isLeader g = false /\ closed g = false
  /\ (pc g = Selecting \/ pc g = AtLock \/ pc g = LockReply false).

Lemma stuck_follower_step g g' : stuck_follower g -> cancelled_step g g' -> stuck_follower g'.
Proof.
  unfold stuck_follower. intros (Hd & Hl & Hc & Hp) [Hs|ok Hs Hf|Hs].
  - destruct Hs as [g ok E|g ok E|g E|g e k E Hlen|g e k E Hd'|g E Hd'|g E]; rewrite E in Hp.
    + destruct ok; simpl; naive_solver.
    + naive_solver.
    + naive_solver.
    + naive_solver.
    + naive_solver.
    + unfold on_done. rewrite Hl. simpl. naive_solver.
    + unfold on_tick. rewrite Hl. simpl. naive_solver.
  - destruct Hs as [g ok E|g ok E|g ok E]; rewrite E in Hp, Hf; [|naive_solver..].
    rewrite Hf by done. simpl. naive_solver.
  - destruct Hs; simpl; naive_solver.
Qed.

(** ** Properties *)

(** C2: mutual exclusion. Any number of watchdogs with pairwise different uuids run [Elect]
    on one name over a locker that honours [LockerContract] (the Redis locker does), with
    arbitrary delays between their steps, lost requests, lost replies, ticks and
    cancellations. A watchdog leads when its own [isLeader] is true, it has not given the lock back, and less than one
    expiration has passed since the call of [Lock] or [ExtendLockTTL] whose answer it acted on last, whatever that answer
    was. In every reachable state a watchdog that leads is the owner of the lease, and two watchdogs that lead are the
    same one: so [isLeader] is set only by a granted lock and kept only by granted renewals. *)
Theorem election_mutual_exclusion (st : Type) (ops : LockerOps st)
    (leases : st -> Z -> (string -> lease) -> Prop) (Hlocker : LockerContract st leases)
    (name : string) (t : Z) (srv : st) (L : string -> lease) (ms : nat -> string * Z) (s : system st)
    (Hsrv : leases srv t L) (Huuid : forall i j, i <> j -> (ms i).1 <> (ms j).1)
    (Hreach : rtc (sys_step name) (fresh_system t srv ms) s) :
  (forall i, leads (members s i) (now s) ->
     exists L', leases (server s) (now s) L' /\ holder (L' name) (now s) = Some (value (members s i)))
  /\ forall i j, leads (members s i) (now s) -> leads (members s j) (now s) -> i = j.
Proof.
  assert (election_inv name leases s) as [(L' & HL' & Hok) Hlk] by by eapply reachable_election_inv.
  split.
  - intros i Hi. exists L'. split; [done|]. apply grant_holder; [apply Hok|by apply leads_holds_grant].
  - intros i j Hi Hj. eapply grant_exclusive; [exact Hok| |by apply leads_holds_grant].
    apply grant_holder; [apply Hok|by apply leads_holds_grant].
Qed.

Fixpoint demo_uuid (i : nat) : string :=
  match i with O => EmptyString | S i => "x" +:+ demo_uuid i end.

Definition demo_members (i : nat) : string * Z := (demo_uuid i, 3 * Second).

Lemma demo_members_distinct i j : i <> j -> (demo_members i).1 <> (demo_members j).1.
Proof.
  simpl. revert j. induction i as [|i IH]; intros [|j] Hij; simpl; try done.
  intros E. injection E as E. apply (IH j); [by intros ->|exact E].
Qed.

(** The first member takes the lock and reads the answer. *)
Lemma demo_leader :
  exists s, rtc (sys_step "cron") (fresh_system 0 (∅ : DemoRedis.db) demo_members) s
    /\ isLeader (gor (members s 0)) = true /\ pc (gor (members s 0)) = Sending TakenAcquire ToSelect
    /\ now s = 1000 /\ heard (members s 0) + px (members s 0) = 3000.
Proof.
  apply (run_actions_reaches "cron" [DoCall 0 Delivered; DoReply 0; DoWait 1000]). vm_compute. split_and!; reflexivity.
Qed.

Lemma election_mutual_exclusion_witness :
  exists s, leads (members s 0) (now s)
  /\ (forall i, leads (members s i) (now s) ->
     exists L', redis_leases DemoRedis.value_at (server s) (now s) L'
       /\ holder (L' "cron"%string) (now s) = Some (value (members s i)))
  /\ forall i j, leads (members s i) (now s) -> leads (members s j) (now s) -> i = j.
Proof.
  destruct demo_leader as (s & Hr & Hl & Hpc & Hnow & Hh). exists s. split.
  { split; [exact Hl|]. split; [rewrite Hpc; discriminate|]. rewrite Hnow, Hh. reflexivity. }
  apply (election_mutual_exclusion DemoRedis.db _ (redis_leases DemoRedis.value_at) _ "cron" 0 ∅
    (fun _ => None) demo_members s); [intros t' key _; reflexivity|apply demo_members_distinct|exact Hr].
Defined.



(** C24: the events on the channel of [Elect]. For any behaviour of the locker, of the
    ticker and of the consumer, the buffer never holds more than its 8 events, and as
    long as the context is not cancelled the events sent are [TakenAcquire], [LostAcquire],
    [TakenAcquire], ... strictly alternating, none of them is skipped, the channel is open, and whenever the goroutine is back at its
    [select] its [isLeader] flag is what the last event said. *)
Theorem Elect_events_alternate (g : goroutine) (Hreach : rtc g_step goroutine_start g) :
  (length (watcher g) <= watcher_cap)%nat
  /\ (exists read, sent g = read ++ watcher g)
  /\ (ctx_done g = false ->
      alternates false (sent g) = true /\ closed g = false /\ (pc g = Selecting -> isLeader g = told (sent g))).
Proof.
  assert (events_ok g) as (H1 & H2 & H3).
  { eapply (rtc_invariant g_step); [intros; by eapply events_ok_step|exact Hreach|].
    split_and!; [simpl; lia|by exists []|done]. }
  split_and!; [done..|]. intros Hc. destruct (H3 Hc) as (Ha & Hcl & Hp). split_and!; [done..|].
  intros E. by rewrite E in Hp.
Qed.

Lemma g_step_reply g ok : pc g = LockReply ok -> g_step g (after_lock ok g).
Proof. intros E. apply GLocal. by constructor. Qed.

Lemma Elect_events_alternate_witness :
  let g := mkG Selecting true false [TakenAcquire] false [TakenAcquire] in
  (length (watcher g) <= watcher_cap)%nat
  /\ (exists read, sent g = read ++ watcher g)
  /\ (ctx_done g = false ->
      alternates false (sent g) = true /\ closed g = false /\ (pc g = Selecting -> isLeader g = told (sent g))).
Proof.
  intros g. apply (Elect_events_alternate g).
  eapply rtc_l; [apply (GCall _ _ true), CallLock; reflexivity|].
  eapply rtc_l; [apply (g_step_reply _ true); reflexivity|].
  apply rtc_once, GLocal.
  apply (StepSend (mkG (Sending TakenAcquire ToSelect) true false [] false []) TakenAcquire ToSelect);
    [reflexivity|simpl; unfold watcher_cap; lia].
Defined.

(** The goroutine of a follower never ends. When the context of a watchdog that is
    not the leader is cancelled, and the locker fails on the cancelled context, no sequence of
    steps makes the goroutine return or close its channel; its [select] can always take the
    [ctx.Done()] case again and come back to the same state, a busy loop. *)
Theorem cancelled_follower_never_returns (g g' : goroutine)
    (Hdone : ctx_done g = true) (Hfollower : isLeader g = false) (Hopen : closed g = false) (Hpc : pc g = Selecting)
    (Hreach : rtc cancelled_step g g') :
  pc g' <> Returned_ /\ closed g' = false /\ local_step g g.
Proof.
  assert (stuck_follower g') as (_ & _ & Hc & Hp).
  { eapply (rtc_invariant cancelled_step); [apply stuck_follower_step|exact Hreach|].
    unfold stuck_follower. naive_solver. }
  split_and!; [by destruct Hp as [E|[E|E] ]; rewrite E|done|].
  pose proof (StepDone g Hpc Hdone) as Hs. unfold on_done in Hs. rewrite Hfollower in Hs.
  unfold with_pc in Hs. rewrite <- Hpc in Hs. by destruct g.
Qed.

Lemma cancelled_follower_never_returns_witness :
  let g := mkG Selecting false true [] false [] in
  let g' := mkG (LockReply false) false true [] false [] in
  pc g' <> Returned_ /\ closed g' = false /\ local_step g g.
Proof.
  intros g g'. apply (cancelled_follower_never_returns g g'); try reflexivity.
  eapply rtc_l; [apply CLocal, StepTick; reflexivity|].
  apply rtc_once. apply (CCall _ _ false); [|reflexivity].
  apply (CallLock (mkG AtLock false true [] false []) false). reflexivity.
Defined.

(** The renewal interval. For an effective expiration of at least ten nanoseconds
    that fits a [Duration], the jittered interval is computed without panic or overflow,
    is positive (so [time.NewTicker] accepts it), at least a third of the expiration, and
    two intervals are shorter than the expiration: a renewal may fail once and still be retried before
    the lease runs out. Below ten nanoseconds [rand.Int63n] panics. *)
Theorem renewIntervalJitter_bounds (e draw : Z) (He : 0 < e < 2 ^ 63) :
  (10 <= e -> exists r, renewIntervalJitter e draw = Returned r
     /\ 0 < r /\ Z.quot e 3 <= r < Z.quot e 3 + Z.quot e 10 /\ 2 * r < e)
  /\ (e < 10 -> exists m, renewIntervalJitter e draw = Panicked m).
Proof.
  unfold renewIntervalJitter, Int63n. rewrite !Z.quot_div_nonneg by lia. split.
  - intros H10. assert (1 <= e / 10) as Hq by (apply Z.div_le_lower_bound; lia).
    destruct (Z.leb_spec (e / 10) 0); [lia|].
    pose proof (Z.mod_pos_bound draw (e / 10) ltac:(lia)) as Hm.
    pose proof (Z.div_mod e 10 ltac:(lia)). pose proof (Z.mod_pos_bound e 10 ltac:(lia)).
    pose proof (Z.div_mod e 3 ltac:(lia)). pose proof (Z.mod_pos_bound e 3 ltac:(lia)).
    eexists. split; [done|]. rewrite int64_id by (unfold is_int64; lia). lia.
  - intros H10. rewrite Z.div_small by lia. by eexists.
Qed.

Lemma renewIntervalJitter_bounds_witness :
  exists r, renewIntervalJitter DefaultLeaderExpiration 12345678901 = Returned r
     /\ 0 < r /\ Z.quot DefaultLeaderExpiration 3 <= r < Z.quot DefaultLeaderExpiration 3 + Z.quot DefaultLeaderExpiration 10
     /\ 2 * r < DefaultLeaderExpiration.
Proof.
  apply (renewIntervalJitter_bounds DefaultLeaderExpiration 12345678901);
    unfold DefaultLeaderExpiration, Second; lia.
Defined.

(** The lock is released before the leader's consumer is told. There is a run of two
    watchdogs on one Redis, with no failure of the network, in which the first one, cancelled, has
    already given the lock back while the last event its consumer was sent is [TakenAcquire], and the second
    one has taken the lock and has told its consumer so: both consumers hold a [TakenAcquire]. *)
Theorem handover_before_leader_stops :
  exists s, rtc (sys_step "cron") (fresh_system 0 (∅ : DemoRedis.db) demo_members) s
    /\ pc (gor (members s 0)) = UnlockReply /\ isLeader (gor (members s 0)) = true
    /\ sent (gor (members s 0)) = [TakenAcquire]
    /\ isLeader (gor (members s 1)) = true /\ sent (gor (members s 1)) = [TakenAcquire]
    /\ DemoRedis.value_at (server s) (now s) (lockKeyPrefix +:+ "cron") = Some (value (members s 1)).
Proof.
  apply (run_actions_reaches "cron"
    [DoCall 0 Delivered; DoReply 0; DoSend 0; DoCancel 0; DoDone 0; DoCall 0 Delivered;
     DoCall 1 Delivered; DoReply 1; DoSend 1]).
  vm_compute. split_and!; reflexivity.
Qed.
