(* ===== verification/KernelSupervisors.v ===== *)
(** The leader supervisors of [src/kernel/kernel.go]: registration, the goroutine that
    follows the events of a watchdog ([StartWatchdogsLeadership]) and the part of
    [Kernel.Stop] that stops a supervisor, as steps of a state machine on one supervisor; and what
    a panic of the user's functions does to its mutex. *)
From S2P Require Import Prelude Watchdog.
From stdpp Require Import base tactics list relations strings.
From Stdlib Require Import ZArith Lia.

(** ** State *)

(** The goroutine: not launched, at its [select], holding an event it has received and
    not yet locked the mutex for, chosen [supervisor.ctx.Done()], returned. *)
Inductive point :=
  | NotLaunched
  | Selecting
  | Received (res : Z)
  | OwnContextDone
  | Finished.

Inductive user_call := Started | Stopped.

(** [kernel_ctx] and [own_ctx] say whether the two contexts have been cancelled (the own
    one is a child of the kernel's); [user_calls] records the calls of [Start] and [Stop];
    [stop_ran] says that [Kernel.Stop] has treated this supervisor. *)
Record LeaderSupervisor := mkSup {
  at_ : point; kernel_ctx : bool; own_ctx : bool;
  Watcher : list Z; Watcher_closed : bool;
  Working : bool; user_calls : list user_call; stop_ran : bool
}.

Definition set_point (p : point) (s : LeaderSupervisor) : LeaderSupervisor :=
  mkSup p (kernel_ctx s) (own_ctx s) (Watcher s) (Watcher_closed s) (Working s) (user_calls s) (stop_ran s).

Definition set_working (b : bool) (s : LeaderSupervisor) : LeaderSupervisor :=
  mkSup (at_ s) (kernel_ctx s) (own_ctx s) (Watcher s) (Watcher_closed s) b (user_calls s) (stop_ran s).

Definition record_call (c : user_call) (s : LeaderSupervisor) : LeaderSupervisor :=
  mkSup (at_ s) (kernel_ctx s) (own_ctx s) (Watcher s) (Watcher_closed s) (Working s)
    (user_calls s ++ [c]) (stop_ran s).

(** [RegisterWatchdogsLeadership]: a [nil] supervisor is refused; another one gets a context of
    its own under the kernel's. *)
Definition RegisterWatchdogsLeadership (kernel_done : bool) (sups : list LeaderSupervisor)
    (supervisor : option (list Z * bool)) : list LeaderSupervisor :=
  match supervisor with
  | None => sups
  | Some (events, is_closed) =>
    sups ++ [mkSup NotLaunched kernel_done false events is_closed false [] false]
  end.

(** [supervisor.ctx.Done()] is closed when either context is cancelled. *)
Definition own_done (s : LeaderSupervisor) : bool := kernel_ctx s || own_ctx s.

(** Launching through [GoRecover], which skips the function on a cancelled context. *)
Definition launch (s : LeaderSupervisor) : LeaderSupervisor :=
  set_point (if kernel_ctx s then Finished else Selecting) s.

Definition StartWatchdogsLeadership (sups : list LeaderSupervisor) : list LeaderSupervisor :=
  if (length sups =? 0)%nat then sups else launch <$> sups.

(** The handling of an event under the mutex: the two [if]s in a row. *)
Definition on_lost (s : LeaderSupervisor) : LeaderSupervisor :=
  if Working s then set_working false (record_call Stopped s) else s.

Definition on_taken (s : LeaderSupervisor) : LeaderSupervisor :=
  if negb (Working s) then set_working true (record_call Started s) else s.

Definition handle_event (res : Z) (s : LeaderSupervisor) : LeaderSupervisor :=
  let s1 := if (res =? LostAcquire)%Z then on_lost s else s in
  if (res =? TakenAcquire)%Z then on_taken s1 else s1.

(** The body of the loop of [Kernel.Stop], under the mutex. *)
Definition stop_supervisor (s : LeaderSupervisor) : LeaderSupervisor :=
  let s1 := mkSup (at_ s) (kernel_ctx s) true (Watcher s) (Watcher_closed s) (Working s) (user_calls s) true in
  if Working s1 then set_working false (record_call Stopped s1) else s1.

(** ** Steps *)

Inductive action :=
  | TakeKernelDone | TakeOwnDone | LockAfterOwnDone
  | TakeEvent | TakeClosed | Handle
  | KernelStop | CancelKernel | SendEvent (e : Z) | CloseWatcher.

(** The four cases of the [select] are enabled independently of each other: when several are
    ready the runtime may take any of them. *)
Definition run_action (s : LeaderSupervisor) (a : action) : option LeaderSupervisor :=
  match a with
  | TakeKernelDone =>
    match at_ s with Selecting => if kernel_ctx s then Some (set_point Finished s) else None | _ => None end
  | TakeOwnDone =>
    match at_ s with Selecting => if own_done s then Some (set_point OwnContextDone s) else None | _ => None end
  | LockAfterOwnDone =>
    match at_ s with OwnContextDone => Some (set_point Finished (set_working false s)) | _ => None end
  | TakeEvent =>
    match at_ s, Watcher s with
    | Selecting, e :: w =>
      Some (mkSup (Received e) (kernel_ctx s) (own_ctx s) w (Watcher_closed s) (Working s) (user_calls s) (stop_ran s))
    | _, _ => None
    end
  | TakeClosed =>
    match at_ s, Watcher s with
    | Selecting, [] => if Watcher_closed s then Some (set_point Finished s) else None
    | _, _ => None
    end
  | Handle =>
    match at_ s with Received e => Some (set_point Selecting (handle_event e s)) | _ => None end
  | KernelStop => Some (stop_supervisor s)
  | CancelKernel =>
    Some (mkSup (at_ s) true (own_ctx s) (Watcher s) (Watcher_closed s) (Working s) (user_calls s) (stop_ran s))
  | SendEvent e =>
    if Watcher_closed s then None
    else Some (mkSup (at_ s) (kernel_ctx s) (own_ctx s) (Watcher s ++ [e]) false (Working s) (user_calls s) (stop_ran s))
  | CloseWatcher =>
    if Watcher_closed s then None
    else Some (mkSup (at_ s) (kernel_ctx s) (own_ctx s) (Watcher s) true (Working s) (user_calls s) (stop_ran s))
  end.

Definition step : LeaderSupervisor -> LeaderSupervisor -> Prop := acts_step run_action.

Notation run_actions := (run_all run_action).

(** *** Panics of the user's functions

    The mutex is unlocked without [defer]: when [Start] or [Stop] panics it stays locked. A panic on the goroutine is
    recovered by [GoRecover], which ends the goroutine; one in [Kernel.Stop] leaves it. Either way the flag has not been
    written yet. *)
Record guarded := mkGuarded { sup_ : LeaderSupervisor; mu_held : bool }.

Inductive guarded_action := Runs (a : action) | HandlePanics | KernelStopPanics.

Definition needs_mutex (a : action) : bool :=
  match a with Handle | LockAfterOwnDone | KernelStop => true | _ => false end.

Definition calls_made (s s' : LeaderSupervisor) : list user_call := drop (length (user_calls s)) (user_calls s').

Definition run_guarded (g : guarded) (x : guarded_action) : option guarded :=
  let s := sup_ g in
  match x with
  | Runs a =>
    if mu_held g && needs_mutex a then None
    else match run_action s a with Some s' => Some (mkGuarded s' (mu_held g)) | None => None end
  | HandlePanics =>
    match mu_held g, at_ s with
    | false, Received e =>
      let s' := handle_event e s in
      match calls_made s s' with
      | [] => None
      | _ => Some (mkGuarded (set_point Finished (set_working (Working s) s')) true)
      end
    | _, _ => None
    end
  | KernelStopPanics =>
    if negb (mu_held g) && Working s then Some (mkGuarded (set_working true (stop_supervisor s)) true) else None
  end.

Definition guarded_step : guarded -> guarded -> Prop := acts_step run_guarded.

(** A supervisor registered on a live kernel and launched. *)
Definition launched : LeaderSupervisor := launch (mkSup NotLaunched false false [] false false [] false).

(** Start, Stop, Start, ... *)
Fixpoint calls_alternate (working : bool) (l : list user_call) : bool :=
  match l with
  | [] => true
  | Started :: l => negb working && calls_alternate true l
  | Stopped :: l => working && calls_alternate false l
  end.

(** Whether the user's job is running after these calls. *)
Fixpoint job_running (working : bool) (l : list user_call) : bool :=
  match l with
  | [] => working
  | Started :: l => job_running true l
  | Stopped :: l => job_running false l
  end.

(** ** The invariant *)

Lemma calls_alternate_snoc b l c :
  calls_alternate b (l ++ [c])
  = calls_alternate b l && match c with Started => negb (job_running b l) | Stopped => job_running b l end.
Proof.
  revert b. induction l as [|[] l IH]; intros b; simpl.
  - destruct c, b; done.
  - by rewrite IH, andb_assoc.
  - by rewrite IH, andb_assoc.
Qed.

Lemma job_running_snoc b l c :
  job_running b (l ++ [c]) = match c with Started => true | Stopped => false end.
Proof. revert b. induction l as [|[] l IH]; intros b; simpl; [by destruct c|done..]. Qed.

(** [Working] follows the job, except that a goroutine that has returned may have
    cleared it without stopping the job. *)
Definition sup_inv (s : LeaderSupervisor) : Prop :=
  calls_alternate false (user_calls s) = true
  /\ (Working s = true -> job_running false (user_calls s) = true)
  /\ (at_ s <> Finished -> Working s = job_running false (user_calls s)).

Lemma sup_inv_stop s : sup_inv s -> sup_inv (stop_supervisor s).
Proof.
  unfold sup_inv, stop_supervisor. simpl. intros (Ha & Hw & Hp). destruct (Working s) eqn:E; simpl.
  - rewrite calls_alternate_snoc, job_running_snoc, Ha, Hw by done. naive_solver.
  - naive_solver.
Qed.

Lemma sup_inv_handle e s : at_ s = Received e -> sup_inv s -> sup_inv (set_point Selecting (handle_event e s)).
Proof.
  intros E (Ha & Hw & Hp). rewrite E in Hp. specialize (Hp ltac:(done)).
  unfold handle_event, on_lost, on_taken, sup_inv.
  destruct (e =? LostAcquire)%Z, (e =? TakenAcquire)%Z, (Working s) eqn:Ew; simpl;
    rewrite ?Ew; simpl; rewrite ?calls_alternate_snoc, ?job_running_snoc, ?Ha, <- ?Hp; naive_solver.
Qed.

Lemma sup_inv_step s s' : sup_inv s -> step s s' -> sup_inv s'.
Proof.
  intros Hinv [a Ha]. assert (Hinv' := Hinv). destruct Hinv' as (Hc & Hw & Hp).
  destruct a; simpl in Ha; repeat case_match; simplify_eq;
    try (by apply sup_inv_stop); try (by apply sup_inv_handle);
    unfold sup_inv; simpl; naive_solver.
Qed.

Lemma reachable_inv s : rtc step launched s -> sup_inv s.
Proof. intros Hr. eapply (rtc_invariant step); [apply sup_inv_step|done|]. by split_and!. Qed.

(** While neither the kernel's context nor the own one is cancelled, the goroutine cannot
    have cleared [Working] by itself. *)
Definition live_inv (s : LeaderSupervisor) : Prop :=
  kernel_ctx s = false -> own_ctx s = false ->
  stop_ran s = false /\ at_ s <> OwnContextDone /\ Working s = job_running false (user_calls s).

Lemma handle_event_frame e s :
  kernel_ctx (handle_event e s) = kernel_ctx s /\ own_ctx (handle_event e s) = own_ctx s
  /\ stop_ran (handle_event e s) = stop_ran s.
Proof.
  unfold handle_event, on_lost, on_taken.
  destruct (e =? LostAcquire)%Z, (e =? TakenAcquire)%Z, (Working s) eqn:E; simpl; rewrite ?E; done.
Qed.

Lemma handle_event_channel e s :
  Watcher (handle_event e s) = Watcher s /\ Watcher_closed (handle_event e s) = Watcher_closed s.
Proof.
  unfold handle_event, on_lost, on_taken.
  destruct (e =? LostAcquire)%Z, (e =? TakenAcquire)%Z, (Working s) eqn:E; simpl; rewrite ?E; done.
Qed.

Lemma stop_supervisor_own_ctx s : own_ctx (stop_supervisor s) = true.
Proof. unfold stop_supervisor. simpl. by destruct (Working s). Qed.

Lemma live_inv_step s s' : sup_inv s -> live_inv s -> step s s' -> live_inv s'.
Proof.
  intros Hinv Hl Hs. assert (sup_inv s') as (_ & _ & Hp) by by eapply sup_inv_step.
  destruct Hs as [a Ha]. unfold live_inv. intros Hk Ho.
  destruct a; simpl in Ha; repeat case_match; simplify_eq; simpl in *.
  - congruence.
  - unfold own_done in *. by rewrite Hk, Ho in *.
  - by destruct (Hl Hk Ho) as (_ & ? & _).
  - by destruct (Hl Hk Ho) as (? & _ & ?).
  - by destruct (Hl Hk Ho) as (? & _ & ?).
  - destruct (handle_event_frame res s) as (E1 & E2 & E3). rewrite E1 in Hk. rewrite E2 in Ho.
    rewrite E3. destruct (Hl Hk Ho) as (? & _ & _). split_and!; [done|done|by apply Hp].
  - by rewrite stop_supervisor_own_ctx in Ho.
  - by destruct (Hl Hk Ho) as (? & ? & ?).
  - by destruct (Hl Hk Ho) as (? & ? & ?).
Qed.

Lemma launched_live s : rtc step launched s -> live_inv s.
Proof.
  intros Hr. eapply (rtc_invariant_under step sup_inv live_inv);
    [apply sup_inv_step|by apply live_inv_step|exact Hr|by split_and!|by intros _ _; split_and!].
Qed.

(** Once it has stopped the supervisor's goroutine for good, nothing but another
    [Kernel.Stop] is left, and that does nothing when [Working] is false. *)
Definition abandoned (s : LeaderSupervisor) : Prop :=
  at_ s = Finished /\ Working s = false /\ user_calls s = [Started].

Lemma abandoned_step s s' : abandoned s -> step s s' -> abandoned s'.
Proof.
  unfold abandoned. intros (Hp & Hw & Hc) [a Ha]. destruct a; simpl in Ha; rewrite ?Hp in Ha; try done;
    repeat case_match; simplify_eq; simpl; try done.
  unfold stop_supervisor. simpl. rewrite Hw. done.
Qed.

(** With panics: the calls alternate, and until one the flag follows the job. *)
Definition guarded_inv (g : guarded) : Prop :=
  calls_alternate false (user_calls (sup_ g)) = true /\ (mu_held g = false -> sup_inv (sup_ g)).

(** A held mutex is never given back and nothing that needs it happens. *)
Definition locked_as (g0 g : guarded) : Prop :=
  mu_held g = true /\ user_calls (sup_ g) = user_calls (sup_ g0) /\ stop_ran (sup_ g) = stop_ran (sup_ g0).

Lemma locked_step g0 g g' : locked_as g0 g -> guarded_step g g' -> locked_as g0 g'.
Proof.
  intros (Hm & Hc & Hs) [x Hx]. destruct x as [a| |]; simpl in Hx; rewrite Hm in Hx; try done. simpl in Hx.
  destruct (needs_mutex a) eqn:Ea; [done|]. destruct (run_action (sup_ g) a) as [s'|] eqn:Er; [|done].
  injection Hx as <-. unfold locked_as. simpl. rewrite <- Hc, <- Hs.
  destruct a; try done; simpl in Er; repeat case_match; by simplify_eq.
Qed.

Lemma guarded_inv_step g g' : guarded_inv g -> guarded_step g g' -> guarded_inv g'.
Proof.
  intros [Hc Hi] Hs. destruct (mu_held g) eqn:Hm.
  { destruct (locked_step g g g') as (Hm' & Hc' & _); [by split_and!|done|]. split; [by rewrite Hc'|congruence]. }
  specialize (Hi eq_refl). destruct Hs as [x Hx]. destruct x as [a| |]; simpl in Hx; rewrite Hm in Hx; simpl in Hx.
  - destruct (run_action (sup_ g) a) as [s'|] eqn:Er; [|done]. injection Hx as <-.
    assert (sup_inv s') as Hs' by (eapply sup_inv_step; [exact Hi|by exists a]). split; [apply Hs'|done].
  - destruct (at_ (sup_ g)) as [| |e| |] eqn:E; try done. destruct (calls_made _ _); [done|]. injection Hx as <-.
    split; [|done]. apply (sup_inv_handle e (sup_ g) E Hi).
  - destruct (Working (sup_ g)); [|done]. injection Hx as <-. split; [apply (sup_inv_stop (sup_ g) Hi)|done].
Qed.

(** ** Properties *)

(** C20: in every run of a registered and launched supervisor (any events in any order, any
    choices of its [select], cancellations, [Kernel.Stop] at any moment), the user's functions
    are called in strict alternation, [Start] first: [Start] is never called while the job runs and [Stop] never
    without a started job; and the flag [Working] is never set without the job running. *)
Theorem supervisor_calls_alternate (s : LeaderSupervisor) (Hreach : rtc step launched s) :
  calls_alternate false (user_calls s) = true
  /\ (Working s = true -> job_running false (user_calls s) = true).
Proof. destruct (reachable_inv s Hreach) as (H1 & H2 & _). by split. Qed.

Lemma supervisor_calls_alternate_witness :
  calls_alternate false [Started; Stopped; Started] = true
  /\ (true = true -> job_running false [Started; Stopped; Started] = true).
Proof.
  apply (supervisor_calls_alternate (mkSup Selecting false false [] false true [Started; Stopped; Started] false)).
  apply (run_all_sound run_action [SendEvent TakenAcquire; SendEvent LostAcquire; SendEvent TakenAcquire;
    TakeEvent; Handle; TakeEvent; Handle; TakeEvent; Handle]).
  reflexivity.
Defined.

(** [Kernel.Stop] on a kernel whose context is not cancelled leaves no job running: the
    supervisor is marked as not working, its context is cancelled, and every [Start] has been
    matched by a [Stop] at that moment. *)
Theorem Stop_on_live_kernel_balances (s : LeaderSupervisor) (Hreach : rtc step launched s)
    (Hlive : kernel_ctx s = false) (Hfirst : own_ctx s = false) :
  Working (stop_supervisor s) = false
  /\ own_ctx (stop_supervisor s) = true
  /\ job_running false (user_calls (stop_supervisor s)) = false.
Proof.
  destruct (launched_live s Hreach Hlive Hfirst) as (_ & _ & Hw).
  split_and!; [|apply stop_supervisor_own_ctx|]; unfold stop_supervisor; simpl;
    destruct (Working s) eqn:E; simpl; rewrite ?job_running_snoc; done.
Qed.

Lemma Stop_on_live_kernel_balances_witness :
  let s := mkSup Selecting false false [] false true [Started] false in
  Working (stop_supervisor s) = false
  /\ own_ctx (stop_supervisor s) = true
  /\ job_running false (user_calls (stop_supervisor s)) = false.
Proof.
  intros s. apply (Stop_on_live_kernel_balances s); [|reflexivity|reflexivity].
  apply (run_all_sound run_action [SendEvent TakenAcquire; TakeEvent; Handle]). reflexivity.
Defined.



(** A cancelled kernel can leave a job running for ever. When the kernel's context is
    cancelled the goroutine may choose the [supervisor.ctx.Done()] case, which clears
    [Working] without calling [Stop]; from then on no step, [Kernel.Stop] included, ever calls it: the
    job has been started once and stays running. *)
Theorem cancelled_kernel_never_stops_job :
  exists s, run_actions launched
      [SendEvent TakenAcquire; TakeEvent; Handle; CancelKernel; TakeOwnDone; LockAfterOwnDone; KernelStop] = Some s
    /\ stop_ran s = true /\ Working s = false
    /\ forall s', rtc step s s' -> user_calls s' = [Started].
Proof.
  eexists. split; [reflexivity|]. split_and!; [done..|]. intros s' Hr.
  eapply (rtc_invariant step abandoned); [apply abandoned_step|exact Hr|done].
Qed.

(** A supervisor can be started after it was stopped for good. If [Kernel.Stop] runs
    while the goroutine holds a [TakenAcquire] it has received, the goroutine still calls [Start]
    afterwards: the kernel has stopped this supervisor and its job runs. *)
Theorem Start_after_Kernel_Stop :
  exists s, run_actions launched [SendEvent TakenAcquire; TakeEvent; KernelStop; Handle] = Some s
    /\ stop_ran s = true /\ Working s = true /\ job_running false (user_calls s) = true.
Proof. eexists. split; [reflexivity|]. by split_and!. Qed.
