(* ===== verification/KernelElection.v ===== *)
(** The composition of [src/watchdog] and [src/kernel]: the channel [Elect] returns is the [Watcher]
    of a leader supervisor. One process is a watchdog's goroutine and a supervisor sharing that
    channel; a cluster is any number of processes on one election, over any [Locker]. *)
From S2P Require Import Prelude GoTime Locker Watchdog KernelSupervisors.
From stdpp Require Import base tactics list relations strings functions.
From Stdlib Require Import ZArith Lia.
Local Open Scope Z_scope.

(** ** One process *)

Record process := mkProc { dog : goroutine; sup : LeaderSupervisor }.

(** The channel is one object: both sides of a process see the same buffer and the same end. *)
Definition attach (g : goroutine) (s : LeaderSupervisor) : LeaderSupervisor :=
  mkSup (at_ s) (kernel_ctx s) (own_ctx s) (watcher g) (closed g) (Working s) (user_calls s) (stop_ran s).

Definition drained_to (w : list Z) (g : goroutine) : goroutine :=
  mkG (pc g) (isLeader g) (ctx_done g) w (closed g) (sent g).

Definition connected (p : process) : Prop :=
  Watcher (sup p) = watcher (dog p) /\ Watcher_closed (sup p) = closed (dog p).

(** The supervisor only receives from the channel. *)
Definition own_action (a : action) : bool :=
  match a with SendEvent _ | CloseWatcher => false | _ => true end.

(** Steps of the watchdog's side: its own, the calls of the locker with any reply, and the
    cancellation of its context; receiving is the supervisor's. *)
Inductive dog_step (g g' : goroutine) : Prop :=
  | DogLocal : local_step g g' -> dog_step g g'
  | DogCall ok : call_step ok g g' -> dog_step g g'
  | DogCancel : g' = cancelled g -> dog_step g g'.

Inductive proc_step (p : process) : process -> Prop :=
  | ProcDog g' : dog_step (dog p) g' -> proc_step p (mkProc g' (attach g' (sup p)))
  | ProcSup a s' : own_action a = true -> run_action (sup p) a = Some s' ->
      proc_step p (mkProc (drained_to (Watcher s') (dog p)) s').

Definition process_start : process := mkProc goroutine_start launched.

(** ** A cluster on one election *)

Record cluster (st : Type) := mkC { sys : system st; sups : nat -> LeaderSupervisor }.
Arguments mkC {st} _ _.
Arguments sys {st} _.
Arguments sups {st} _.

Inductive cluster_action :=
  | DogAct (a : Watchdog.action)
  | SupAct (i : nat) (a : action).

Section cluster.
Context {st : Type} `{!LockerOps st} (name : string).

Definition proc_of (c : cluster st) (i : nat) : process := mkProc (gor (members (sys c) i)) (sups c i).

Definition run_cluster_action (c : cluster st) (x : cluster_action) : option (cluster st) :=
  match x with
  | DogAct a =>
    match Watchdog.run_action name (sys c) a with
    | Some s' => Some (mkC s' (fun i => attach (gor (members s' i)) (sups c i)))
    | None => None
    end
  | SupAct i a =>
    if own_action a then
      match run_action (sups c i) a with
      | Some s' =>
        Some (mkC (outside_run (sys c) i (drained_to (Watcher s') (gor (members (sys c) i)))) (<[i := s']> (sups c)))
      | None => None
      end
    else None
  end.

Definition cluster_step : cluster st -> cluster st -> Prop := acts_step run_cluster_action.

Definition fresh_cluster (t : Z) (srv : st) (ms : nat -> string * Z) : cluster st :=
  mkC (fresh_system t srv ms) (fun _ => launched).
End cluster.

(** ** What a process holds *)

Definition event_of (c : user_call) : Z := match c with Started => TakenAcquire | Stopped => LostAcquire end.

(** The event the supervisor has received and not yet handled. *)
Definition in_hand (s : LeaderSupervisor) : list Z :=
  match at_ s with Received e => [e] | _ => [] end.

Definition uncancelled (p : process) : Prop :=
  ctx_done (dog p) = false /\ kernel_ctx (sup p) = false /\ own_ctx (sup p) = false.

(** Every event sent has been turned into the call it asks for, is in hand, or is in the buffer. *)
Definition followed (p : process) : Prop :=
  sent (dog p) = (event_of <$> user_calls (sup p)) ++ in_hand (sup p) ++ watcher (dog p).

(** ** The projections of a step *)

(** The channel after a step of the watchdog: at most one more event, closed only on the return. *)
Definition open_until_return (g : goroutine) : Prop := closed g = true -> pc g = Returned_.

Ltac idle_channel := exists []; rewrite !app_nil_r; simpl; split_and!; auto; try (by intros []); try congruence.

Lemma dog_step_channel g g' :
  open_until_return g -> dog_step g g' ->
  open_until_return g'
  /\ exists new, watcher g' = watcher g ++ new /\ sent g' = sent g ++ new /\ (length new <= 1)%nat
     /\ (new <> [] -> closed g = false) /\ (closed g = true -> closed g' = true).
Proof.
  unfold open_until_return. intros Ho [Hs|ok Hs| ->].
  - destruct Hs as [g ok E|g ok E|g E|g e k E Hlen|g e k E Hd|g E Hd|g E];
      assert (closed g = false) as Hc by (destruct (closed g); [by rewrite Ho in E|done]).
    + split; [by destruct ok; simpl; rewrite Hc|]. destruct ok; idle_channel.
    + split; [by destruct ok; simpl; rewrite Hc|]. destruct ok; idle_channel.
    + split; [by simpl; rewrite Hc|]. idle_channel.
    + split; [by destruct k; simpl; rewrite ?Hc|]. exists [e]. destruct k; simpl; split_and!; auto; congruence.
    + split; [by destruct k; simpl; rewrite ?Hc|]. destruct k; idle_channel.
    + unfold on_done. destruct (isLeader g); simpl; (split; [by rewrite Hc|idle_channel]).
    + unfold on_tick. destruct (isLeader g); simpl; (split; [by rewrite Hc|idle_channel]).
  - destruct Hs as [g ok E|g ok E|g ok E]; (split; [simpl; intros Hc; by rewrite Ho in E|idle_channel]).
  - split; [done|idle_channel].
Qed.

Lemma dog_step_g_step g g' : dog_step g g' -> g_step g g'.
Proof. intros [?|ok ?| ->]; [by apply GLocal|by eapply GCall|apply GOutside, Watchdog.Cancel]. Qed.

(** What the supervisor sees of a step of the watchdog is a run of its own machine. *)
Lemma attach_steps g g' s :
  open_until_return g -> dog_step g g' -> Watcher s = watcher g -> Watcher_closed s = closed g ->
  rtc step s (attach g' s).
Proof.
  intros Ho Hs Hw Hc. destruct (dog_step_channel g g' Ho Hs) as (_ & new & Ew & _ & Hl & Hopen & Hmono).
  destruct s as [p k o w cl wk calls ran]; simpl in *; subst w cl. unfold attach; simpl. rewrite Ew.
  destruct new as [|e [|? ?] ]; [| |simpl in Hl; lia].
  - rewrite app_nil_r. destruct (closed g) eqn:Eg; [rewrite Hmono by done; constructor|].
    destruct (closed g'); [|constructor]. apply rtc_once. by exists CloseWatcher.
  - rewrite Hopen by done. eapply rtc_l; [by exists (SendEvent e)|]. simpl.
    destruct (closed g'); [|constructor]. apply rtc_once. by exists CloseWatcher.
Qed.

(** The buffer after a step of the supervisor. *)
Lemma own_action_channel s a s' :
  own_action a = true -> run_action s a = Some s' ->
  Watcher_closed s' = Watcher_closed s
  /\ (Watcher s' = Watcher s \/ exists e, a = TakeEvent /\ Watcher s = e :: Watcher s').
Proof.
  destruct a; simpl; intros Ho Ha; try done; repeat case_match; simplify_eq; simpl; try (by auto);
    try (by split; [done|right; eexists]).
  - destruct (handle_event_channel res s) as [-> ->]. auto.
  - unfold stop_supervisor; simpl. destruct (Working s); simpl; auto.
Qed.

Definition wired (p : process) : Prop := connected p /\ open_until_return (dog p).

Lemma drained_to_same g : drained_to (watcher g) g = g.
Proof. by destruct g. Qed.

(** The simulation: a step of the process is a run of the watchdog's goroutine alone and a run
    of the supervisor's machine alone. *)
Lemma proc_step_project p p' :
  wired p -> proc_step p p' ->
  wired p' /\ rtc g_step (dog p) (dog p') /\ rtc step (sup p) (sup p').
Proof.
  intros [ [Hw Hc] Ho] [g' Hs|a s' Hown Ha]; simpl.
  - split_and!; [by split_and!; [..|by eapply dog_step_channel]|by apply rtc_once, dog_step_g_step|].
    by apply (attach_steps (dog p)).
  - destruct (own_action_channel _ _ _ Hown Ha) as [Ec Hch].
    split_and!; [by split; [split; [done|simpl; congruence]|exact Ho]| |by apply rtc_once; exists a].
    destruct Hch as [E|(e & _ & E)].
    + rewrite E, Hw, drained_to_same. constructor.
    + apply rtc_once, GOutside, (Receive _ e). congruence.
Qed.

(** What holds of every reachable process. *)
Definition proc_inv (p : process) : Prop :=
  wired p /\ events_ok (dog p) /\ sup_inv (sup p) /\ live_inv (sup p).

Lemma events_ok_steps g g' : rtc g_step g g' -> events_ok g -> events_ok g'.
Proof. apply rtc_invariant. intros; by eapply events_ok_step. Qed.

Lemma proc_inv_step p p' : proc_inv p -> proc_step p p' -> proc_inv p'.
Proof.
  intros (Hw & He & Hs & Hl) Hstep. destruct (proc_step_project p p' Hw Hstep) as (Hw' & Hg & Hp).
  split_and!; [done|by eapply events_ok_steps| |].
  - eapply (rtc_invariant step); [apply sup_inv_step|exact Hp|done].
  - eapply (rtc_invariant_under step sup_inv live_inv); [apply sup_inv_step|apply live_inv_step|exact Hp|done..].
Qed.

Lemma proc_inv_start : proc_inv process_start.
Proof.
  split_and!; [by split|split_and!; [simpl; lia|by exists []|done]|by split_and!|by intros _ _; split_and!].
Qed.

(** Cancellation is for ever. *)
Lemma uncancelled_step p p' : proc_step p p' -> uncancelled p' -> uncancelled p.
Proof.
  unfold uncancelled. intros [g' Hs|a s' Hown Ha]; simpl; intros (Hd & Hk & Ho).
  - split_and!; [|done..]. destruct Hs as [Hs|ok Hs| ->]; [|by destruct Hs|done].
    destruct Hs as [? ok ?|? ok ?|?|?|?|g|g]; try (by destruct ok); try (by destruct k);
      unfold on_done, on_tick in Hd; by destruct (isLeader g).
  - split; [done|]. destruct a as [| | | | | | | |e|]; simpl in Hown, Ha; try done; repeat case_match; simplify_eq; try done.
    + simpl in Hk. congruence.
    + simpl in Hk, Ho. by destruct (handle_event_frame res (sup p)) as (<- & <- & _).
    + by rewrite stop_supervisor_own_ctx in Ho.
Qed.

(** ** Following the events *)

Lemma next_event b l e r :
  alternates b ((event_of <$> l) ++ e :: r) = true ->
  e = (if job_running b l then LostAcquire else TakenAcquire).
Proof.
  revert b. induction l as [|c l IH]; intros b; simpl.
  - intros [H%Z.eqb_eq _]%andb_true_iff. by destruct b.
  - intros [H%Z.eqb_eq Ha]%andb_true_iff. destruct c, b; try done; by apply IH in Ha.
Qed.

Lemma told_calls b l :
  calls_alternate b l = true -> job_running b l = xorb b (told (event_of <$> l)).
Proof.
  unfold told. rewrite length_fmap. revert b. induction l as [|c l IH]; intros b; simpl.
  - intros _. by rewrite xorb_false_r.
  - intros H. rewrite Nat.odd_succ, <- Nat.negb_odd. destruct c, b; simpl in H; try done; rewrite IH by done;
      by destruct (Nat.odd (length l)).
Qed.

Definition follows (p : process) : Prop :=
  uncancelled p -> followed p /\ (at_ (sup p) = Selecting \/ exists e, at_ (sup p) = Received e).

(** Handling the next event makes the call it asks for. *)
Lemma handle_next_event s e r :
  sup_inv s -> at_ s = Received e -> alternates false ((event_of <$> user_calls s) ++ e :: r) = true ->
  event_of <$> user_calls (handle_event e s) = (event_of <$> user_calls s) ++ [e].
Proof.
  intros (_ & _ & Hw) Hat He%next_event. rewrite Hat in Hw. specialize (Hw ltac:(done)).
  unfold handle_event, on_lost, on_taken. subst e. destruct (job_running false (user_calls s)); simpl;
    rewrite Hw; simpl; by rewrite fmap_app.
Qed.

Lemma follows_step p p' : proc_inv p -> follows p -> proc_step p p' -> follows p'.
Proof.
  intros Hinv Hf Hstep Hu. pose proof (uncancelled_step _ _ Hstep Hu) as Hu0.
  destruct (Hf Hu0) as [Hsent Hat]. destruct Hu0 as (Hd & Hk & Ho).
  destruct Hinv as ((Hconn & Hopen) & (_ & _ & He) & Hsup & Hlive). destruct (He Hd) as (Halt & Hcl & _).
  destruct (Hlive Hk Ho) as (_ & Hnot & _). unfold followed in *.
  destruct Hstep as [g' Hs|a s' Hown Ha]; simpl in *.
  - destruct (dog_step_channel _ _ Hopen Hs) as (_ & new & -> & -> & _). split; [|done].
    rewrite Hsent, <- !app_assoc. done.
  - destruct Hconn as [Hw Hc].
    destruct a; simpl in Hown, Ha; try done; unfold own_done in *; rewrite ?Hk, ?Ho in Ha; simpl in Ha;
      repeat case_match; simplify_eq; simpl in *.
    + rewrite Hsent, <- Hw. unfold in_hand. rewrite H. split; [done|]. right. by eexists.
    + congruence.
    + assert (sent (dog p) = (event_of <$> user_calls (sup p)) ++ res :: watcher (dog p)) as E.
      { rewrite Hsent. unfold in_hand. by rewrite H. }
      rewrite E in Halt. split; [|by left].
      rewrite (proj1 (handle_event_channel res (sup p))), Hw.
      rewrite (handle_next_event _ _ _ Hsup H Halt), E, <- app_assoc. done.
    + unfold uncancelled in Hu. simpl in Hu. rewrite stop_supervisor_own_ctx in Hu. naive_solver.
    + unfold uncancelled in Hu. simpl in Hu. naive_solver.
Qed.

Definition proc_ok (p : process) : Prop := proc_inv p /\ follows p.

Lemma proc_ok_step p p' : proc_ok p -> proc_step p p' -> proc_ok p'.
Proof. intros [Hi Hf] Hs. split; [by eapply proc_inv_step|by eapply follows_step]. Qed.

Lemma proc_ok_start : proc_ok process_start.
Proof. split; [apply proc_inv_start|]. intros _. split; [done|by left]. Qed.

Lemma reachable_proc_ok p : rtc proc_step process_start p -> proc_ok p.
Proof. intros Hr. eapply (rtc_invariant proc_step); [apply proc_ok_step|exact Hr|apply proc_ok_start]. Qed.

(** ** Catching up *)

(** The steps the supervisor takes by itself to follow the channel. *)
Definition follow_step (p p' : process) : Prop :=
  exists a s', (a = TakeEvent \/ a = Handle) /\ run_action (sup p) a = Some s'
    /\ p' = mkProc (drained_to (Watcher s') (dog p)) s'.

Lemma follow_step_proc p p' : follow_step p p' -> proc_step p p'.
Proof. intros (a & s' & Ha & Hr & ->). apply (ProcSup p a s'); [by destruct Ha as [-> | ->]|done]. Qed.

(** The rest of the watchdog's state and the cancellations are left alone. *)
Definition same_dog (p p' : process) : Prop :=
  sent (dog p') = sent (dog p) /\ pc (dog p') = pc (dog p) /\ isLeader (dog p') = isLeader (dog p)
  /\ (uncancelled p -> uncancelled p').

Lemma follow_step_same p p' : follow_step p p' -> same_dog p p'.
Proof.
  intros (a & s' & Ha & Hr & ->). unfold same_dog, uncancelled. split_and!; [done..|]. intros (Hd & Hk & Ho).
  split; [done|]. destruct Ha as [-> | ->]; simpl in Hr; repeat case_match; simplify_eq; [done|].
  simpl. by destruct (handle_event_frame res (sup p)) as (-> & -> & _).
Qed.

Lemma follow_run_same p p' : rtc follow_step p p' -> same_dog p p'.
Proof.
  induction 1 as [|p p1 p' Hs _ IH]; [by split_and!|].
  destruct (follow_step_same _ _ Hs) as (E1 & E2 & E3 & E4). destruct IH as (F1 & F2 & F3 & F4).
  split_and!; [congruence..|auto].
Qed.

Lemma handle_in_hand p :
  proc_ok p -> uncancelled p ->
  exists p', rtc follow_step p p' /\ at_ (sup p') = Selecting /\ watcher (dog p') = watcher (dog p).
Proof.
  intros [Hinv Hf] Hu. destruct (Hf Hu) as [_ [E|[e E] ] ]; [by exists p|].
  exists (mkProc (drained_to (Watcher (sup p)) (dog p)) (set_point Selecting (handle_event e (sup p)))).
  destruct Hinv as ([[Hw _] _] & _). split; [|by simpl].
  apply rtc_once. exists Handle. eexists. split; [by right|]. simpl. rewrite E. split; [done|].
  do 2 f_equal. symmetry. apply (handle_event_channel e (sup p)).
Qed.

Lemma catch_up n p :
  length (watcher (dog p)) = n -> proc_ok p -> uncancelled p ->
  exists p', rtc follow_step p p' /\ at_ (sup p') = Selecting /\ watcher (dog p') = [].
Proof.
  revert p. induction n as [|n IH]; intros p Hn Hok Hu;
    destruct (handle_in_hand p Hok Hu) as (p1 & Hr1 & Hat & Hw1);
    destruct (watcher (dog p)) as [|e w] eqn:Ew; simpl in Hn; try lia; [by exists p1|].
  assert (rtc proc_step p p1) as Hr1' by (eapply rtc_subrel; [apply follow_step_proc|done]).
  assert (proc_ok p1) as Hok1 by by eapply (rtc_invariant proc_step); [apply proc_ok_step|exact Hr1'|].
  assert (uncancelled p1) as Hu1 by by apply (follow_run_same p p1).
  destruct Hok1 as [ ([[Hc1 Hc2] _] & _) _].
  assert (exists p2, follow_step p1 p2 /\ watcher (dog p2) = w) as (p2 & Hs2 & Hw2).
  { eexists. split; [exists TakeEvent; eexists; split; [by left|]; simpl; rewrite Hat, Hc1, Hw1; done|done]. }
  assert (proc_step p1 p2) as Hs2' by by apply follow_step_proc.
  assert (rtc proc_step p p2) as Hr2 by by eapply rtc_r.
  destruct (IH p2) as (p3 & Hr3 & ?).
  - rewrite Hw2. lia.
  - by eapply (rtc_invariant proc_step); [apply proc_ok_step|exact Hr2|].
  - by apply (follow_step_same p1 p2).
  - exists p3. split; [|done]. etransitivity; [exact Hr1|]. by eapply rtc_l.
Qed.

(** ** From the cluster to its processes *)

Section cluster_lemmas.
Context {st : Type} `{!LockerOps st} (name : string).
Implicit Types c : cluster st.

Lemma dog_action_members (s s' : system st) a i :
  Watchdog.run_action name s a = Some s' ->
  gor (members s' i) = gor (members s i) \/ dog_step (gor (members s i)) (gor (members s' i)).
Proof.
  intros Ha. destruct a as [j|j|j|j|j|j|j tr|d]; simpl in Ha; repeat case_match; simplify_eq; simpl; try (by left);
    (destruct (decide (j = i)) as [<-|]; [|rewrite fn_lookup_insert_ne by done; by left]);
    rewrite fn_lookup_insert; right; simpl.
  all: first [ by apply DogCancel
             | by apply (DogCall _ _ true); constructor
             | by eapply DogCall; constructor
             | by apply DogLocal; constructor
             | apply DogLocal; constructor; [done|by apply Nat.ltb_lt]
             | by apply DogLocal; eapply StepSendCancelled ].
Qed.

Lemma attach_same p : connected p -> attach (dog p) (sup p) = sup p.
Proof. intros [Hw Hc]. destruct p as [g []]; simpl in *. unfold attach; simpl. by rewrite <- Hw, <- Hc. Qed.

Lemma cluster_step_process c c' i :
  wired (proc_of c i) -> cluster_step name c c' ->
  proc_of c' i = proc_of c i \/ proc_step (proc_of c i) (proc_of c' i).
Proof.
  intros [Hc _] [ [a|j a] Hx]; simpl in Hx.
  - destruct (Watchdog.run_action name (sys c) a) as [s'|] eqn:Ha; [|done]. simplify_eq.
    unfold proc_of; simpl. destruct (dog_action_members _ _ _ i Ha) as [E|Hs].
    + left. rewrite E. f_equal. by apply (attach_same (proc_of c i)).
    + right. by apply (ProcDog (proc_of c i)).
  - destruct (own_action a) eqn:Ho; [|done]. destruct (run_action (sups c j) a) as [s'|] eqn:Ha; [|done]. simplify_eq.
    unfold proc_of; simpl. destruct (decide (j = i)) as [<-|].
    + rewrite !fn_lookup_insert. right. by apply (ProcSup (proc_of c j) a).
    + rewrite !fn_lookup_insert_ne by done. by left.
Qed.

Lemma reachable_processes c t srv ms i :
  rtc (cluster_step name) (fresh_cluster t srv ms) c -> rtc proc_step process_start (proc_of c i).
Proof.
  assert (forall c0, rtc (cluster_step name) c0 c -> rtc proc_step process_start (proc_of c0 i) ->
    rtc proc_step process_start (proc_of c i)) as H; [|by intros Hr; apply (H _ Hr)].
  induction 1 as [|c0 c1 c2 Hs _ IH]; [done|]. intros Hr. apply IH.
  destruct (reachable_proc_ok _ Hr) as [ (Hw & _) _].
  destruct (cluster_step_process c0 c1 i Hw Hs) as [->|Hs']; [done|by eapply rtc_r].
Qed.

Lemma cluster_election_inv leases `{!LockerContract st leases} c c' :
  election_inv name leases (sys c) -> cluster_step name c c' -> election_inv name leases (sys c').
Proof.
  intros Hinv [ [a|j a] Hx]; simpl in Hx; repeat case_match; simplify_eq; simpl.
  - eapply (election_inv_step name leases); [done|]. by eapply Watchdog.run_action_sound.
  - destruct Hinv as [(L & HL & Hok) Hlk]. split.
    + exists L. split; [done|]. by apply members_ok_gor.
    + apply linked_insert; [apply Hlk|exact (Hlk j)].
Qed.
End cluster_lemmas.

(** ** Properties *)

(** Events on their way to the supervisor: in its hand, in the buffer, being sent. *)
Definition on_the_way (p : process) : list Z :=
  in_hand (sup p) ++ watcher (dog p) ++ match pc (dog p) with Sending e _ => [e] | _ => [] end.

Lemma alternates_app b l1 l2 :
  alternates b (l1 ++ l2) = alternates b l1 && alternates (xorb b (told l1)) l2.
Proof.
  unfold told. revert b. induction l1 as [|e l1 IH]; intros b; simpl; [by rewrite xorb_false_r|].
  rewrite IH, andb_assoc, Nat.odd_succ, <- Nat.negb_odd. by destruct b, (Nat.odd (length l1)).
Qed.

(** A job that runs while no loss is on its way belongs to a goroutine that believes it leads. *)
Lemma working_leads p :
  proc_ok p -> uncancelled p -> Working (sup p) = true -> LostAcquire ∉ on_the_way p ->
  isLeader (dog p) = true /\ pc (dog p) <> UnlockReply.
Proof.
  intros [Hinv Hf] Hu Hw Hno. destruct (Hf Hu) as [Hsent Hat]. destruct Hu as (Hd & _).
  destruct Hinv as (_ & (_ & _ & He) & (Hc & _ & Hj) & _). destruct (He Hd) as (Halt & _ & Hp).
  assert (at_ (sup p) <> Finished) as Hnf by (destruct Hat as [->|[? ->] ]; done).
  rewrite (Hj Hnf), told_calls in Hw by done. unfold followed in Hsent. rewrite xorb_false_l in Hw.
  rewrite Hsent, alternates_app, xorb_false_l, Hw in Halt. apply andb_true_iff in Halt as [_ Halt].
  unfold on_the_way in Hno. rewrite app_assoc in Hno.
  destruct (in_hand (sup p) ++ watcher (dog p)) as [|e l].
  - rewrite app_nil_r in Hsent. rewrite Hsent in Hp. unfold leading.
    destruct (pc (dog p)) as [|ok| |ok| | |e k| |] eqn:Epc; simpl in Hp; rewrite ?Hw in Hp; try naive_solver.
    destruct Hp as (_ & _ & ->). set_solver.
  - simpl in Halt. apply andb_true_iff in Halt as [->%Z.eqb_eq _]. set_solver.
Qed.

(** C4: a supervisor follows the election. In every reachable state of a process (any replies of the
    locker, ticks, choices of the two [select]s), while nothing is cancelled, the events the watchdog
    has sent are exactly the calls the supervisor has made ([TakenAcquire] a [Start], [LostAcquire] a [Stop]),
    followed by the event in its hand and by the buffer: none is lost, repeated or answered by the wrong call.
    It is at most nine events behind; and when it is not behind and the watchdog is at its [select],
    [Working], which says whether the job runs, is the watchdog's [isLeader]. *)
Theorem supervisor_follows_election (p : process)
    (Hreach : rtc proc_step process_start p) (Hlive : uncancelled p) :
  sent (dog p) = (event_of <$> user_calls (sup p)) ++ in_hand (sup p) ++ watcher (dog p)
  /\ (length (in_hand (sup p) ++ watcher (dog p)) <= S watcher_cap)%nat
  /\ Working (sup p) = job_running false (user_calls (sup p))
  /\ (in_hand (sup p) ++ watcher (dog p) = [] -> pc (dog p) = Watchdog.Selecting ->
      Working (sup p) = isLeader (dog p)).
Proof.
  destruct (reachable_proc_ok p Hreach) as [Hinv Hf]. destruct (Hf Hlive) as [Hsent Hat].
  destruct Hlive as (Hd & _). destruct Hinv as (_ & (Hcap & _ & He) & (Hc & _ & Hj) & _).
  assert (at_ (sup p) <> Finished) as Hnf by (destruct Hat as [->|[? ->] ]; done).
  split_and!; [done| |by apply Hj|].
  - rewrite length_app. unfold in_hand. destruct (at_ (sup p)); simpl; lia.
  - intros E Hpc. destruct (He Hd) as (_ & _ & Hp). rewrite Hpc in Hp. simpl in Hp.
    unfold followed in Hsent. rewrite E, app_nil_r in Hsent.
    by rewrite Hp, (Hj Hnf), told_calls, Hsent by done.
Qed.

Lemma supervisor_follows_election_witness :
  let s := mkSup Selecting false false [] false true [Started] false in
  let p := mkProc (mkG Watchdog.Selecting true false [] false [TakenAcquire]) s in
  sent (dog p) = (event_of <$> user_calls (sup p)) ++ in_hand (sup p) ++ watcher (dog p)
  /\ (length (in_hand (sup p) ++ watcher (dog p)) <= S watcher_cap)%nat
  /\ Working (sup p) = job_running false (user_calls (sup p))
  /\ (in_hand (sup p) ++ watcher (dog p) = [] -> pc (dog p) = Watchdog.Selecting ->
      Working (sup p) = isLeader (dog p)).
Proof.
  intros s p. apply (supervisor_follows_election p); [|by split_and!].
  eapply rtc_l; [apply (ProcDog _ (with_pc (LockReply true) goroutine_start)), (DogCall _ _ true), CallLock; reflexivity|].
  eapply rtc_l; [apply (ProcDog _ (mkG (Sending TakenAcquire ToSelect) true false [] false [])), DogLocal;
    apply (StepLockReply (with_pc (LockReply true) goroutine_start) true); reflexivity|].
  eapply rtc_l; [apply (ProcDog _ (mkG Watchdog.Selecting true false [TakenAcquire] false [TakenAcquire])), DogLocal;
    apply (StepSend (mkG (Sending TakenAcquire ToSelect) true false [] false []) TakenAcquire ToSelect);
    [reflexivity|unfold watcher_cap; simpl; lia]|].
  set (g := mkG Watchdog.Selecting true false [TakenAcquire] false [TakenAcquire]).
  set (s0 := mkSup Selecting false false [TakenAcquire] false false [] false).
  set (s1 := mkSup (Received TakenAcquire) false false [] false false [] false).
  eapply rtc_l; [apply (ProcSup (mkProc g s0) TakeEvent s1); reflexivity|].
  apply rtc_once. apply (ProcSup (mkProc (drained_to [] g) s1) Handle s); reflexivity.
Defined.

(** C21: a supervisor can always catch up. From every reachable state in which nothing is cancelled, the
    supervisor's own steps (receiving and handling) lead to a state in which the buffer is
    empty, the calls made are exactly the events sent, the job runs if and only if the last
    event was [TakenAcquire], and the watchdog's goroutine has not moved. *)
Theorem supervisor_catches_up (p : process) (Hreach : rtc proc_step process_start p) (Hlive : uncancelled p) :
  exists p', rtc follow_step p p'
    /\ at_ (sup p') = Selecting /\ watcher (dog p') = []
    /\ event_of <$> user_calls (sup p') = sent (dog p)
    /\ Working (sup p') = told (sent (dog p))
    /\ pc (dog p') = pc (dog p) /\ isLeader (dog p') = isLeader (dog p).
Proof.
  assert (proc_ok p) as Hok by by apply reachable_proc_ok.
  destruct (catch_up _ p eq_refl Hok Hlive) as (p' & Hr & Hat & Hw). exists p'.
  destruct (follow_run_same p p' Hr) as (Es & Ep & El & Hu).
  assert (proc_ok p') as [Hinv Hf].
  { eapply (rtc_invariant proc_step); [apply proc_ok_step| |exact Hok].
    eapply rtc_subrel; [apply follow_step_proc|exact Hr]. }
  destruct (Hf (Hu Hlive)) as [Hsent _]. unfold followed, in_hand in Hsent. rewrite Hat, Hw, app_nil_r in Hsent.
  destruct Hinv as (_ & _ & (Hc & _ & Hj) & _). rewrite Hat in Hj.
  split_and!; [done..|by rewrite <- Hsent| |done|done].
  by rewrite (Hj ltac:(done)), told_calls, <- Es, Hsent by done.
Qed.

Lemma supervisor_catches_up_witness :
  exists p', rtc follow_step process_start p'
    /\ at_ (sup p') = Selecting /\ watcher (dog p') = []
    /\ event_of <$> user_calls (sup p') = []
    /\ Working (sup p') = false
    /\ pc (dog p') = AtLock /\ isLeader (dog p') = false.
Proof. apply (supervisor_catches_up process_start); [apply rtc_refl|by split_and!]. Defined.

(** C3: running jobs exclude each other. In a cluster over a locker that honours [LockerContract], with
    pairwise different uuids, in every reachable state: a job that runs in a process where nothing is
    cancelled, to which no [LostAcquire] is on its way (in hand, buffered or being sent), less than one
    expiration after the call of the locker whose answer its watchdog acted on last (whatever it was), runs under the
    lease: its watchdog owns it; so two such jobs are the same one. *)
Theorem running_jobs_exclude (st : Type) (ops : LockerOps st)
    (leases : st -> Z -> (string -> lease) -> Prop) (Hlocker : LockerContract st leases)
    (name : string) (t : Z) (srv : st) (L : string -> lease) (ms : nat -> string * Z) (c : cluster st)
    (Hsrv : leases srv t L) (Huuid : forall i j, i <> j -> (ms i).1 <> (ms j).1)
    (Hreach : rtc (cluster_step name) (fresh_cluster t srv ms) c) :
  let owns i := uncancelled (proc_of c i) /\ Working (sups c i) = true
    /\ LostAcquire ∉ on_the_way (proc_of c i)
    /\ now (sys c) < heard (members (sys c) i) + px (members (sys c) i) in
  (forall i, owns i -> exists L', leases (server (sys c)) (now (sys c)) L'
     /\ holder (L' name) (now (sys c)) = Some (value (members (sys c) i)))
  /\ forall i j, owns i -> owns j -> i = j.
Proof.
  intros owns.
  assert (election_inv name leases (sys c)) as [(L' & HL' & Hok) Hlk].
  { eapply (rtc_invariant (cluster_step name) (fun c => election_inv name leases (sys c))); [|exact Hreach|].
    - intros c1 c2 H1 H2. by eapply cluster_election_inv.
    - by eapply election_inv_fresh. }
  assert (forall i, owns i -> holds_grant (members (sys c) i) (now (sys c))) as Hlead.
  { intros i (Hu & Hw & Hno & Ht). apply leads_holds_grant; [apply Hlk|].
    destruct (working_leads (proc_of c i)) as [Hl Hpc]; [by eapply reachable_proc_ok, reachable_processes|done..|].
    by split_and!. }
  split.
  - intros i Hi. exists L'. split; [done|]. apply grant_holder; [apply Hok|by apply Hlead].
  - intros i j Hi Hj. eapply grant_exclusive; [exact Hok| |by apply Hlead].
    apply grant_holder; [apply Hok|by apply Hlead].
Qed.

(** The first process takes the lock and starts its job. *)
Definition demo_start : cluster DemoRedis.db := fresh_cluster 0 ∅ demo_members.

Definition first_job : list cluster_action :=
  [DogAct (DoCall 0 Delivered); DogAct (DoReply 0); DogAct (DoSend 0); SupAct 0 TakeEvent; SupAct 0 Handle].

Definition second_job : list cluster_action :=
  [DogAct (DoCall 1 Delivered); DogAct (DoReply 1); DogAct (DoSend 1); SupAct 1 TakeEvent; SupAct 1 Handle].

(** A run of actions of the demonstration cluster reaches a state found by evaluating it. *)
Lemma demo_reaches l (P : cluster DemoRedis.db -> Prop) :
  match run_all (run_cluster_action "cron") demo_start l with Some c => P c | None => False end ->
  exists c, rtc (cluster_step "cron") demo_start c /\ P c.
Proof.
  destruct (run_all _ demo_start l) as [c|] eqn:E; [|done]. intros Hp. exists c. split; [|done].
  by eapply run_all_sound.
Qed.

Lemma running_jobs_exclude_witness :
  exists c, let owns i := uncancelled (proc_of c i) /\ Working (sups c i) = true
       /\ LostAcquire ∉ on_the_way (proc_of c i)
       /\ now (sys c) < heard (members (sys c) i) + px (members (sys c) i) in
     owns 0%nat
     /\ (forall i, owns i -> exists L', redis_leases DemoRedis.value_at (server (sys c)) (now (sys c)) L'
        /\ holder (L' "cron"%string) (now (sys c)) = Some (value (members (sys c) i)))
     /\ forall i j, owns i -> owns j -> i = j.
Proof.
  destruct (demo_reaches first_job (fun c => uncancelled (proc_of c 0) /\ Working (sups c 0) = true
      /\ on_the_way (proc_of c 0) = [] /\ now (sys c) = 0 /\ heard (members (sys c) 0) + px (members (sys c) 0) = 3000))
    as (c & Hr & Hu & Hw & Hway & Ht & Hh); [vm_compute; by split_and!|].
  exists c. split.
  { split; [exact Hu|]. split; [exact Hw|]. rewrite Hway, Ht, Hh. split; [apply not_elem_of_nil|reflexivity]. }
  apply (running_jobs_exclude DemoRedis.db _ (redis_leases DemoRedis.value_at) _ "cron" 0 ∅
    (fun _ => None) demo_members c); [intros t' key _; reflexivity|apply demo_members_distinct|exact Hr].
Defined.

(** A supervisor's goroutine that has returned with its job running: only [Kernel.Stop] can stop it. *)
Definition orphaned (p : process) : Prop :=
  pc (dog p) = Returned_ /\ at_ (sup p) = Finished /\ Working (sup p) = true /\ user_calls (sup p) = [Started].

Definition is_kernel_stop (x : cluster_action) : bool :=
  match x with SupAct _ KernelStop => true | _ => false end.

Definition unstopped_step (c c' : cluster DemoRedis.db) : Prop :=
  exists x, is_kernel_stop x = false /\ run_cluster_action "cron" c x = Some c'.

Lemma returned_dog_step g g' : pc g = Returned_ -> dog_step g g' -> pc g' = Returned_.
Proof. intros E [Hs|ok Hs| ->]; [by destruct Hs; congruence|by destruct Hs; congruence|done]. Qed.

Lemma orphaned_step c c' i :
  orphaned (proc_of c i) -> unstopped_step c c' -> orphaned (proc_of c' i).
Proof.
  intros (Hp & Hat & Hw & Hc) ([a|j a] & Hk & Hx); simpl in Hx.
  - destruct (Watchdog.run_action "cron" (sys c) a) as [s'|] eqn:Ha; [|done]. simplify_eq.
    split_and!; [|done..]. simpl. destruct (dog_action_members _ _ _ _ i Ha) as [->|Hs]; [done|].
    by eapply returned_dog_step.
  - destruct (own_action a) eqn:Ho; [|done]. destruct (run_action (sups c j) a) as [s'|] eqn:Ha; [|done]. simplify_eq.
    unfold orphaned, proc_of; simpl. destruct (decide (j = i)) as [<-|]; [|by rewrite !fn_lookup_insert_ne by done].
    rewrite !fn_lookup_insert. simpl in *. split; [done|]. clear Hp.
    destruct a; simpl in Ha, Hk, Ho; rewrite ?Hat in Ha; try done; by simplify_eq.
Qed.

(** C37: stopping a leading watchdog can leave its job running for ever. After [RedisWatchdogLeader.Stop] the
    final [send] may choose its [ctx.Done()] case: the [LostAcquire] is dropped and the channel is closed, and
    the supervisor's goroutine returns on the closed channel without calling [Stop]. The lock has been given back and
    another process runs its job, and whatever happens next, as long as [Kernel.Stop] is not called, the first job is never stopped. *)
Theorem stopped_watchdog_orphans_job :
  exists c, rtc (cluster_step "cron") demo_start c
    /\ Working (sups c 1) = true
    /\ holder (Some (value (members (sys c) 1), lease_until (members (sys c) 1))) (now (sys c))
       = DemoRedis.value_at (server (sys c)) (now (sys c)) (lockKeyPrefix +:+ "cron")
    /\ forall c', rtc unstopped_step c c' -> Working (sups c' 0) = true /\ user_calls (sups c' 0) = [Started].
Proof.
  destruct (demo_reaches (first_job ++ [DogAct (DoCancel 0); DogAct (DoDone 0); DogAct (DoCall 0 Delivered);
      DogAct (DoReply 0); DogAct (DoDrop 0); SupAct 0 TakeClosed] ++ second_job)
    (fun c => Working (sups c 1) = true
      /\ holder (Some (value (members (sys c) 1), lease_until (members (sys c) 1))) (now (sys c))
         = DemoRedis.value_at (server (sys c)) (now (sys c)) (lockKeyPrefix +:+ "cron")
      /\ orphaned (proc_of c 0))) as (c & Hr & Hw & Hh & Ho).
  { vm_compute. split_and!; reflexivity. }
  exists c. split_and!; [done..|]. intros c' Hr'.
  eapply (rtc_invariant unstopped_step (fun c => orphaned (proc_of c 0))) in Ho;
    [|intros; by eapply orphaned_step|exact Hr'].
  by destruct Ho as (_ & _ & ? & ?).
Qed.

(** [Kernel.Stop] does not stop the watchdog: the supervisor's [Watchdog] is never used. A
    kernel whose supervisor has been stopped and whose job does not run keeps the lock, renewing it as
    a leader: a second process that asks for it after four seconds, when the first lease, of three seconds, would have
    run out, is refused. *)
Theorem stopped_kernel_keeps_lease :
  exists c, rtc (cluster_step "cron") demo_start c
    /\ stop_ran (sups c 0) = true /\ at_ (sups c 0) = Finished
    /\ job_running false (user_calls (sups c 0)) = false
    /\ now (sys c) = 4000
    /\ isLeader (gor (members (sys c) 0)) = true /\ now (sys c) < lease_until (members (sys c) 0)
    /\ pc (gor (members (sys c) 1)) = LockReply false.
Proof.
  apply (demo_reaches (first_job ++ [SupAct 0 KernelStop; SupAct 0 TakeOwnDone; SupAct 0 LockAfterOwnDone;
    DogAct (DoWait 2000); DogAct (DoTick 0); DogAct (DoCall 0 Delivered); DogAct (DoReply 0);
    DogAct (DoWait 2000); DogAct (DoCall 1 Delivered)])).
  vm_compute. split_and!; reflexivity.
Qed.
