(* ===== verification/KernelRun.v ===== *)
(** The life cycle of [src/kernel/kernel.go]: options, [NewDefaultKernel], [Kernel.Stop] and the
    control flow of [RunKernel] with its deferred calls, over the shutdown list of
    [KernelShutdown] and the supervisors of [KernelSupervisors]. *)
From S2P Require Import Prelude KernelShutdown KernelSupervisors.
From stdpp Require Import base tactics list strings gmap.
From Stdlib Require Import ZArith Lia.
Local Open Scope Z_scope.

(** ** Configuration *)

Record KernelConfig := { KernelId : string; Cores : Z; HeapOverflow : Z }.

(** What the execution function given to [RunKernel] does. *)
Inductive execution_end :=
  | ExecOk
  | ExecError (e : string)
  | ExecPanic (reason : string).

(** The mutable part of a kernel: shutdown list and registered supervisors. *)
Record Kernel_state (Fn : Type) := mkState { shutdown_list : linkedList Fn; leaderSupervisors : list LeaderSupervisor }.
Arguments mkState {Fn} _ _.
Arguments shutdown_list {Fn} _.
Arguments leaderSupervisors {Fn} _.

(** Settings of the Go runtime made by [setUp]: the percentage of [debug.SetGCPercent], and
    the explicit [GOMAXPROCS], or automatic. *)
Record runtime_settings := { gc_percent : Z; gomaxprocs : option Z }.

Section kernel.
Context {Fn World : Type} (run : Fn -> World -> World * outcome unit).

Definition execution_fn : Type := Kernel_state Fn -> World -> Kernel_state Fn * World * execution_end.

Record Kernel := mkKernel {
  id : string; config : KernelConfig; execution : option execution_fn; kstate : Kernel_state Fn
}.

Definition newKernel : Kernel :=
  mkKernel "" {| KernelId := ""; Cores := 0; HeapOverflow := 0 |} None (mkState empty_list []).

(** [NewDefaultKernel] with the identifier [uuid.New] returned. *)
Definition NewDefaultKernel (uuid : string) (cores heapOverflow : Z) : Kernel * runtime_settings :=
  let heapOverflow := if heapOverflow =? 0 then 100 else heapOverflow in
  (mkKernel uuid {| KernelId := ""; Cores := 0; HeapOverflow := 0 |} None (mkState empty_list []),
   {| gc_percent := heapOverflow; gomaxprocs := Some cores |}).

Inductive Option_ :=
  | WithConfigs (c : KernelConfig)
  | WithExecution (e : execution_fn).

Definition apply_option (k : Kernel) (o : Option_) : Kernel :=
  match o with
  | WithConfigs c =>
    mkKernel (if bool_decide (KernelId c = ""%string) then id k else KernelId c) c (execution k) (kstate k)
  | WithExecution e => mkKernel (id k) (config k) (Some e) (kstate k)
  end.

(** The statements of [RunKernel] between the options and [setUp]. *)
Definition default_execution : execution_fn := fun s w => (s, w, ExecOk).

Definition with_defaults (uuid : string) (k : Kernel) : Kernel :=
  let e := match execution k with Some e => e | None => default_execution end in
  let c := config k in
  let heap := if HeapOverflow c =? 0 then 100 else HeapOverflow c in
  mkKernel (if bool_decide (KernelId c = ""%string) then uuid else id k)
    {| KernelId := KernelId c; Cores := Cores c; HeapOverflow := heap |} (Some e) (kstate k).

Definition setUp (k : Kernel) : runtime_settings :=
  {| gc_percent := HeapOverflow (config k);
     gomaxprocs := if 0 <? Cores (config k) then Some (Cores (config k)) else None |}.

(** How the turn of a supervisor in [Kernel.Stop] goes: its mutex is held and never given back; it is taken, and the
    user's [Stop], called if the job works, returns, panics (with the mutex held), or never returns. *)
Inductive turn_end := TurnReturns | TurnPanics (reason : string) | TurnHangs | MutexHeld.

(** How [Kernel.Stop] ends. *)
Inductive stop_end := Ended (r : outcome unit) | NeverEnds.

(** A call of the user's [Stop] that does not return: the own context is cancelled, the flag is still set. *)
Definition unfinished_turn (s : LeaderSupervisor) : LeaderSupervisor := set_working true (stop_supervisor s).

(** The loop of [Kernel.Stop] over the supervisors, in order, the [k]th having the turn [turn k]; [None] when it reaches the
    end. *)
Fixpoint stop_loop (turn : nat -> turn_end) (sups : list LeaderSupervisor)
    : list LeaderSupervisor * option stop_end :=
  match sups with
  | [] => ([], None)
  | s :: l =>
    let go_on := let (l', e) := stop_loop (fun k => turn (S k)) l in (stop_supervisor s :: l', e) in
    match turn O with
    | TurnReturns => go_on
    | TurnPanics reason => if Working s then (unfinished_turn s :: l, Some (Ended (Panicked reason))) else go_on
    | TurnHangs => if Working s then (unfinished_turn s :: l, Some NeverEnds) else go_on
    | MutexHeld => (s :: l, Some NeverEnds)
    end
  end.

(** [Kernel.Stop]: every supervisor in order, then the shutdown hooks, unless the loop does not reach its end; [None]
    would be a nil dereference in the list. (A hook returns or panics.) *)
Definition Stop (turn : nat -> turn_end) (s : Kernel_state Fn) (w : World)
    : option (Kernel_state Fn * World * stop_end) :=
  match stop_loop turn (leaderSupervisors s) with
  | (sups, Some e) => Some (mkState (shutdown_list s) sups, w, e)
  | (sups, None) =>
    match shutdownAllAndDeleteAllCanceled run (shutdown_list s) w with
    | Some (l, w', r) => Some (mkState l sups, w', Ended r)
    | None => None
    end
  end.

(** How the wait for the end of the process goes: [Run] waits for the context, which the
    signal goroutine cancels. *)
Inductive wait_end := SignalReceived | StillWaiting.

(** How the recovery of [RegisterRecovers] goes: it sends SIGTERM to the channel of signals, and blocks for ever when the
    channel is full and nobody reads it any more (see [KernelSignals]). *)
Inductive send_end := Sent | SendBlocks.

(** The result of [RunKernel]: it is blocked in [Run], in the recovery or in [Stop], or it returns or panics. *)
Inductive blocked_at := InRun | InRecovery | InStop (s : Kernel_state Fn) (w : World).
Inductive run_result :=
  | Blocked (p : blocked_at)
  | Done (s : Kernel_state Fn) (w : World) (r : outcome unit).

(** What the end of the deferred [Stop] makes of [RunKernel]. *)
Definition stop_result (r : option (Kernel_state Fn * World * stop_end)) : option run_result :=
  match r with
  | Some (s', w', Ended r) => Some (Done s' w' r)
  | Some (s', w', NeverEnds) => Some (Blocked (InStop s' w'))
  | None => None
  end.

(** [RunKernel]: an error of the execution becomes a panic; the deferred calls are, in this
    order, the recovery and [Stop]. [progress] is what the supervisors' goroutines do between the execution and
    [Stop]; [turn] is how their turns in [Stop] go. *)
Definition RunKernel (uuid : string) (options : list Option_) (wait : wait_end) (send : send_end)
    (turn : nat -> turn_end) (progress : list LeaderSupervisor -> list LeaderSupervisor) (w : World)
    : Kernel * runtime_settings * option run_result :=
  let k := with_defaults uuid (foldl apply_option newKernel options) in
  let exec := match execution k with Some e => e | None => default_execution end in
  let '(s, w1, e) := exec (kstate k) w in
  let stop_now := stop_result (Stop turn (mkState (shutdown_list s) (progress (leaderSupervisors s))) w1) in
  (k, setUp k,
   match e with
   | ExecOk => match wait with SignalReceived => stop_now | StillWaiting => Some (Blocked InRun) end
   | ExecError _ | ExecPanic _ => match send with Sent => stop_now | SendBlocks => Some (Blocked InRecovery) end
   end).
End kernel.

Arguments Kernel : clear implicits.
Arguments Option_ : clear implicits.
Arguments InRun {Fn World}.
Arguments InRecovery {Fn World}.
Arguments InStop {Fn World} _ _.
Arguments Blocked {Fn World} _.
Arguments Done {Fn World} _ _ _.

(** ** Lemmas *)

Section kernel_lemmas.
Context {Fn World : Type} (run : Fn -> World -> World * outcome unit).

(** The configuration the options leave: the last one given. *)
Fixpoint last_config (c : KernelConfig) (os : list (Option_ Fn World)) : KernelConfig :=
  match os with
  | [] => c
  | WithConfigs c' :: os => last_config c' os
  | WithExecution _ :: os => last_config c os
  end.

Lemma foldl_option_config (k : Kernel Fn World) os :
  config (foldl apply_option k os) = last_config (config k) os.
Proof. revert k. induction os as [|[c|e] os IH]; intros k; simpl; [done|by rewrite IH..]. Qed.

Lemma foldl_option_id (k : Kernel Fn World) os :
  (KernelId (config k) <> ""%string -> id k = KernelId (config k)) ->
  KernelId (config (foldl apply_option k os)) <> ""%string ->
  id (foldl apply_option k os) = KernelId (config (foldl apply_option k os)).
Proof.
  revert k. induction os as [|[c|e] os IH]; intros k Hk; simpl; [done|..]; apply IH; simpl; [|done].
  intros Hc. by rewrite bool_decide_false.
Qed.

Lemma foldl_option_kstate (k : Kernel Fn World) os : kstate (foldl apply_option k os) = kstate k.
Proof. revert k. induction os as [|[c|e] os IH]; intros k; simpl; [done|by rewrite IH..]. Qed.

(** A turn that ends: the loop goes on after it. *)
Definition turn_ends (t : turn_end) (s : LeaderSupervisor) : bool :=
  match t with TurnReturns => true | TurnPanics _ | TurnHangs => negb (Working s) | MutexHeld => false end.

Definition all_end (turn : nat -> turn_end) (sups : list LeaderSupervisor) : Prop :=
  forall k s, sups !! k = Some s -> turn_ends (turn k) s = true.

Lemma all_end_cons turn s sups :
  all_end turn (s :: sups) -> turn_ends (turn O) s = true /\ all_end (fun k => turn (S k)) sups.
Proof. intros H. split; [by apply (H O)|]. intros k x Hx. by apply (H (S k)). Qed.

Lemma stop_loop_all turn sups : all_end turn sups -> stop_loop turn sups = (stop_supervisor <$> sups, None).
Proof.
  revert turn. induction sups as [|s l IH]; [done|]. intros turn [Hs Hl]%all_end_cons. simpl. rewrite (IH _ Hl).
  revert Hs. unfold turn_ends. by destruct (turn O), (Working s).
Qed.

(** The first turn that does not end: the loop leaves what follows as it is. *)
Lemma stop_loop_unfinished turn pre x post :
  all_end turn pre -> turn_ends (turn (length pre)) x = false ->
  exists x', stop_loop turn (pre ++ x :: post) = ((stop_supervisor <$> pre) ++ x' :: post,
    Some (match turn (length pre) with TurnPanics reason => Ended (Panicked reason) | _ => NeverEnds end)).
Proof.
  revert turn. induction pre as [|s l IH]; intros turn Hpre Hx; simpl in *.
  - exists (match turn O with MutexHeld => x | _ => unfinished_turn x end). revert Hx. unfold turn_ends.
    by destruct (turn O), (Working x).
  - apply all_end_cons in Hpre as [Hs Hl]. destruct (IH (fun k => turn (S k)) Hl Hx) as (x' & ->). exists x'.
    revert Hs. unfold turn_ends. by destruct (turn O), (Working s).
Qed.

(** [RunKernel] with a given execution function. *)
Lemma RunKernel_result uuid (options : list (Option_ Fn World)) exec wait send turn progress w s w1 e :
  exec (mkState empty_list []) w = (s, w1, e) ->
  (RunKernel run uuid (options ++ [WithExecution exec]) wait send turn progress w).2 =
  let stop_now := stop_result (Stop run turn (mkState (shutdown_list s) (progress (leaderSupervisors s))) w1) in
  match e with
  | ExecOk => match wait with SignalReceived => stop_now | StillWaiting => Some (Blocked InRun) end
  | ExecError _ | ExecPanic _ => match send with Sent => stop_now | SendBlocks => Some (Blocked InRecovery) end
  end.
Proof.
  intros Hexec. unfold RunKernel. rewrite foldl_app. simpl. rewrite foldl_option_kstate. simpl. by rewrite Hexec.
Qed.

(** When every turn ends, the hooks run. *)
Lemma Stop_spec turn (s : Kernel_state Fn) hs w :
  all_end turn (leaderSupervisors s) -> represents (shutdown_list s) hs ->
  exists s', Stop run turn s w = Some (s', (run_hooks run hs w).1.2, Ended (run_hooks run hs w).2)
    /\ represents (shutdown_list s') (run_hooks run hs w).1.1
    /\ leaderSupervisors s' = stop_supervisor <$> leaderSupervisors s.
Proof.
  intros Ht Hr. unfold Stop. rewrite (stop_loop_all _ _ Ht).
  destruct (shutdownAll_spec run _ hs w Hr) as (l & Hl & ->). by eexists.
Qed.
End kernel_lemmas.

(** ** Properties *)

(** The effective configuration of [RunKernel]: the identifier is the one of the last
    [WithConfigs] if it is not empty and a fresh uuid otherwise (never one of an earlier
    [WithConfigs]), the GC percentage is the configured one or 100 when it is zero, and
    [GOMAXPROCS] is set explicitly exactly when [Cores] is positive. *)
Theorem RunKernel_configuration (Fn World : Type) (run : Fn -> World -> World * outcome unit)
    (uuid : string) (options : list (Option_ Fn World)) (wait : wait_end) (send : send_end)
    (turn : nat -> turn_end) (progress : list LeaderSupervisor -> list LeaderSupervisor) (w : World) :
  let c := last_config {| KernelId := ""; Cores := 0; HeapOverflow := 0 |} options in
  let k := (RunKernel run uuid options wait send turn progress w).1.1 in
  let rt := (RunKernel run uuid options wait send turn progress w).1.2 in
  id k = (if bool_decide (KernelId c = ""%string) then uuid else KernelId c)
  /\ gc_percent rt = (if HeapOverflow c =? 0 then 100 else HeapOverflow c)
  /\ gc_percent rt <> 0
  /\ gomaxprocs rt = (if 0 <? Cores c then Some (Cores c) else None).
Proof.
  intros c k rt. set (k0 := foldl apply_option (newKernel (Fn := Fn) (World := World)) options).
  assert (k = with_defaults uuid k0) as Ek.
  { unfold k, RunKernel. fold k0. by destruct (match execution (with_defaults uuid k0) with Some e => e
      | None => default_execution end (kstate (with_defaults uuid k0)) w) as [[s w1] e]. }
  assert (rt = setUp k) as Er.
  { unfold rt, k, RunKernel. fold k0. by destruct (match execution (with_defaults uuid k0) with Some e => e
      | None => default_execution end (kstate (with_defaults uuid k0)) w) as [[s w1] e]. }
  assert (config k0 = c) as Ec by apply foldl_option_config.
  assert (KernelId (config k0) <> ""%string -> id k0 = KernelId (config k0)) as Hid
    by by apply foldl_option_id.
  rewrite Er, Ek. clearbody k0. unfold setUp, with_defaults. simpl. rewrite Ec in *.
  split_and!; [|done| |done].
  - case_bool_decide; [done|by apply Hid].
  - destruct (HeapOverflow c =? 0) eqn:E; [done|]. by apply Z.eqb_neq in E.
Qed.

(** C22: how [RunKernel] ends, for every execution function (that returns or panics) and every way its surroundings behave. When the execution
    succeeds and no signal comes, it stays in [Run]; when the execution fails or panics and the recovery's send finds the
    signal channel full with no reader, it stays there, and [Stop] is not called. Otherwise [Stop] is called once, and the error or panic of
    the execution does not leave [RunKernel]: if every supervisor's turn ends, all supervisors are stopped and the hooks
    run in the list's order, up to and including the first that panics, whose panic leaves [RunKernel] with the later hooks
    not run; if not, the supervisors before the first turn that does not end are stopped, those after it and all the
    hooks are left as they were, and [RunKernel] panics with that turn or never returns. (Hooks here return or panic.) *)
Theorem RunKernel_stops_or_blocks (Fn World : Type) (run : Fn -> World -> World * outcome unit)
    (uuid : string) (options : list (Option_ Fn World)) (exec : execution_fn) (wait : wait_end) (send : send_end)
    (turn : nat -> turn_end) (progress : list LeaderSupervisor -> list LeaderSupervisor) (w w1 : World)
    (s : Kernel_state Fn) (e : execution_end) (hs : list (hook Fn))
    (Hexec : exec (mkState empty_list []) w = (s, w1, e)) (Hhooks : represents (shutdown_list s) hs) :
  let res := (RunKernel run uuid (options ++ [WithExecution exec]) wait send turn progress w).2 in
  let sups := progress (leaderSupervisors s) in
  (e = ExecOk -> wait = StillWaiting -> res = Some (Blocked InRun))
  /\ (e <> ExecOk -> send = SendBlocks -> res = Some (Blocked InRecovery))
  /\ ((e = ExecOk -> wait = SignalReceived) -> (e <> ExecOk -> send = Sent) ->
      (all_end turn sups ->
        exists s', res = Some (Done s' (run_hooks run hs w1).1.2 (run_hooks run hs w1).2)
          /\ leaderSupervisors s' = stop_supervisor <$> sups
          /\ represents (shutdown_list s') (run_hooks run hs w1).1.1)
      /\ (forall pre x post, sups = pre ++ x :: post ->
          all_end turn pre -> turn_ends (turn (length pre)) x = false ->
        exists s' x', leaderSupervisors s' = (stop_supervisor <$> pre) ++ x' :: post
          /\ shutdown_list s' = shutdown_list s
          /\ res = Some (match turn (length pre) with
                         | TurnPanics reason => Done s' w1 (Panicked reason) | _ => Blocked (InStop s' w1) end))).
Proof.
  intros res sups. subst res. rewrite (RunKernel_result _ _ _ _ _ _ _ _ _ _ _ _ Hexec). fold sups.
  split_and!; [by intros -> ->|intros He ->; by destruct e|].
  intros Hw Hs.
  replace (match e with ExecOk => _ | _ => _ end) with
    (stop_result (Stop run turn (mkState (shutdown_list s) sups) w1))
    by (destruct e; [by rewrite Hw|by rewrite Hs..]).
  split.
  - intros Ht. destruct (Stop_spec run turn (mkState (shutdown_list s) sups) hs w1 Ht Hhooks) as (s' & -> & Hr & Hl).
    by exists s'.
  - intros pre x post -> Hpre Hx.
    destruct (stop_loop_unfinished turn pre x post Hpre Hx) as (x' & Hl). unfold Stop. simpl. rewrite Hl.
    exists (mkState (shutdown_list s) ((stop_supervisor <$> pre) ++ x' :: post)), x'.
    revert Hx. unfold turn_ends. by destruct (turn (length pre)).
Qed.

(** An execution that registers two hooks and then fails. *)
Definition demo_execution : execution_fn (Fn := string) (World := list string) := fun s w =>
  match RegisterAll (shutdown_list s) [Hook "http" "http" HighPriority; Hook "db" "db" LowPriority] with
  | Some l => (mkState l (leaderSupervisors s), w, ExecError "no database")
  | None => (s, w, ExecOk)
  end.

Lemma demo_hooks : represents (shutdown_list (demo_execution (mkState empty_list []) []).1.1)
  [Hook "http" "http" HighPriority; Hook "db" "db" LowPriority].
Proof.
  destruct (RegisterAll_spec empty_list [] [Hook "http" "http" HighPriority; Hook "db" "db" LowPriority] represents_empty)
    as (l & E & Hl). unfold demo_execution. cbn [shutdown_list]. by rewrite E.
Qed.

Lemma RunKernel_stops_or_blocks_witness :
  let res := (RunKernel log_hook "u" ([] ++ [WithExecution demo_execution]) StillWaiting Sent (fun _ => TurnReturns)
    (fun l => l) []).2 in
  exists s', res = Some (Done s' ["http"; "db"]%string (Returned ()))
    /\ leaderSupervisors s' = stop_supervisor <$> leaderSupervisors (demo_execution (mkState empty_list []) []).1.1
    /\ represents (shutdown_list s') [].
Proof.
  refine (proj1 (proj2 (proj2 (RunKernel_stops_or_blocks string (list string) log_hook "u" [] demo_execution StillWaiting
    Sent (fun _ => TurnReturns) (fun l => l) [] [] (demo_execution (mkState empty_list []) []).1.1
    (ExecError "no database") [Hook "http" "http" HighPriority; Hook "db" "db" LowPriority] _ demo_hooks)) _ _) _).
  - vm_compute. reflexivity.
  - intros H. discriminate H.
  - reflexivity.
  - intros k s _. reflexivity.
Defined.
