(* ===== verification/KernelSignals.v ===== *)
(** The life of a process under [src/kernel/kernel.go]: the signal channel of [Kernel.Start] and its goroutine,
    [Run], the recovery of [RegisterRecovers] and the deferred [Stop], as the steps of one state
    machine. [RunKernel] and a main function that uses [NewDefaultKernel] both run it. *)
From S2P Require Import Prelude KernelShutdown KernelSupervisors KernelRun.
From stdpp Require Import base tactics list relations strings.
From Stdlib Require Import ZArith Lia.

(** ** State *)

(** The signals [Start] asks to be notified of. *)
Inductive signal := SIGTERM | SIGINT | SIGQUIT.

(** The goroutine of [Start]: not scheduled yet, waiting for the channel, has received, has called [cancel],
    has run its deferred [signal.Stop] and returned; or skipped by [GoRecover], which does not run
    it when the context is already cancelled. *)
Inductive listener_point := Unscheduled | Waiting | Received_ | Cancelled_ | Gone | Skipped.

(** The main goroutine: in the execution, in [Run], in the deferred recovery before its send,
    in the deferred [Stop], in a [Stop] that never ends, out of [RunKernel]. *)
Inductive main_point := Executing | InRun | Recovering | Stopping | StuckInStop | Exited.

(** [sig] is the channel, of capacity one; [notified] says whether [signal.Notify] is in force, and without it
    a signal has its default action, the end of the process ([killed]). [delivered] counts the signals
    of the operating system and [failed] says that the execution has ended with an error or a
    panic; both are for the statements only. *)
Record life := mkLife {
  sig : option signal; notified : bool; listener : listener_point; ctx_done : bool;
  main : main_point; killed : bool; delivered : nat; failed : bool
}.

(** [Start]: [signal.Notify], then the goroutine through [GoRecover]; [done] says whether the kernel was given
    a context that is already cancelled. *)
Definition Start (done : bool) : life := mkLife None true Unscheduled done Executing false 0 false.

Definition with_main (p : main_point) (s : life) : life :=
  mkLife (sig s) (notified s) (listener s) (ctx_done s) p (killed s) (delivered s) (failed s).

(** A signal of the operating system: [os/signal] sends without blocking, so a full channel drops it. *)
Definition os_signal (x : signal) (s : life) : life :=
  let s1 := mkLife (sig s) (notified s) (listener s) (ctx_done s) (main s) (killed s) (S (delivered s)) (failed s) in
  if notified s then
    mkLife (match sig s with None => Some x | y => y end) true (listener s) (ctx_done s) (main s) (killed s)
      (S (delivered s)) (failed s)
  else mkLife (sig s1) false (listener s1) (ctx_done s1) (main s1) true (delivered s1) (failed s1).

Inductive action :=
  | OsSignal (x : signal)
  | ListenerStarts | ListenerReceives | ListenerCancels | ListenerReturns
  | ExecutionEnds (e : execution_end)
  | RunReturns | RecoverySends
  | StopEnds (e : stop_end)
  | ParentCancelled.

(** The steps; a killed process makes none. [RegisterRecovers] sends SIGTERM to the kernel's own channel
    and blocks while it is full. What [Stop] does and how it ends (it returns, it panics, it never ends) is the matter of [KernelRun]:
    its end is a step of the environment here. *)
Definition run_action (s : life) (a : action) : option life :=
  if killed s then None
  else match a with
  | OsSignal x => Some (os_signal x s)
  | ListenerStarts =>
    match listener s with
    | Unscheduled =>
      Some (mkLife (sig s) (notified s) (if ctx_done s then Skipped else Waiting) (ctx_done s) (main s) (killed s)
        (delivered s) (failed s))
    | _ => None
    end
  | ListenerReceives =>
    match listener s, sig s with
    | Waiting, Some _ =>
      Some (mkLife None (notified s) Received_ (ctx_done s) (main s) (killed s) (delivered s) (failed s))
    | _, _ => None
    end
  | ListenerCancels =>
    match listener s with
    | Received_ => Some (mkLife (sig s) (notified s) Cancelled_ true (main s) (killed s) (delivered s) (failed s))
    | _ => None
    end
  | ListenerReturns =>
    match listener s with
    | Cancelled_ => Some (mkLife (sig s) false Gone (ctx_done s) (main s) (killed s) (delivered s) (failed s))
    | _ => None
    end
  | ExecutionEnds e =>
    match main s with
    | Executing =>
      match e with
      | ExecOk => Some (with_main InRun s)
      | ExecError _ | ExecPanic _ =>
        Some (mkLife (sig s) (notified s) (listener s) (ctx_done s) Recovering (killed s) (delivered s) true)
      end
    | _ => None
    end
  | RunReturns => match main s with InRun => if ctx_done s then Some (with_main Stopping s) else None | _ => None end
  | RecoverySends =>
    match main s, sig s with
    | Recovering, None =>
      Some (mkLife (Some SIGTERM) (notified s) (listener s) (ctx_done s) Stopping (killed s) (delivered s) (failed s))
    | _, _ => None
    end
  | StopEnds e =>
    match main s with
    | Stopping => Some (with_main (match e with Ended _ => Exited | NeverEnds => StuckInStop end) s)
    | _ => None
    end
  | ParentCancelled =>
    Some (mkLife (sig s) (notified s) (listener s) true (main s) (killed s) (delivered s) (failed s))
  end.

Definition step : life -> life -> Prop := acts_step run_action.

(** In [RunKernel] nobody but the goroutine of [Start] has the function that cancels the context. *)
Definition own_step (s s' : life) : Prop := exists a, a <> ParentCancelled /\ run_action s a = Some s'.

(** The steps of the kernel's own code, without any signal from outside, and without the ends of the execution
    and of [Stop], which may never come. *)
Definition internal (a : action) : bool :=
  match a with OsSignal _ | ParentCancelled | ExecutionEnds _ | StopEnds _ => false | _ => true end.

Definition internal_step (s s' : life) : Prop := exists a, internal a = true /\ run_action s a = Some s'.

(** ** Invariants *)

Definition listening (s : life) : bool :=
  match listener s with Unscheduled | Waiting | Skipped => true | _ => false end.

Definition leaving (s : life) : bool := match main s with Stopping | StuckInStop | Exited => true | _ => false end.

(** Of every process: the end of the listener comes after the context is cancelled the context, only a failed execution recovers,
    and the process leaves for a reason. *)
Definition life_inv (s : life) : Prop :=
  (listener s = Cancelled_ \/ listener s = Gone \/ listener s = Skipped -> ctx_done s = true)
  /\ (main s = Recovering -> failed s = true)
  /\ (leaving s = true -> failed s = true \/ ctx_done s = true).

(** Of [RunKernel], where only the listener cancels the context: *)
Definition cause_inv (s : life) : Prop :=
  failed s = false -> listening s = false \/ sig s <> None \/ ctx_done s = true -> 1 <= delivered s.

Ltac life_case s a Ha :=
  destruct s as [sg n l d m k del f]; unfold run_action in Ha; simpl in Ha; destruct k; [done|];
  destruct a; unfold os_signal, with_main in Ha; simpl in Ha;
  repeat match type of Ha with context [match ?x with _ => _ end] => destruct x; try discriminate Ha end;
  injection Ha as <-; simpl in *.

Lemma life_inv_step s s' : life_inv s -> step s s' -> life_inv s'.
Proof.
  unfold life_inv, leaving. intros (H1 & H2 & H3) [a Ha]. life_case s a Ha;
    (split_and!; [clear H2 H3|clear H1 H3|clear H1]); naive_solver.
Qed.

(** The first signal delivered is never lost. *)
Definition first_kept (s : life) : Prop := 1 <= delivered s -> sig s <> None \/ listening s = false.

(** As long as the kernel has not sent a signal to itself, it has at most those delivered. *)
Definition none_invented (s : life) : Prop :=
  leaving s = false ->
  (if listening s then 0 else 1) + (match sig s with None => 0 | Some _ => 1 end) <= delivered s.

Definition stopped_listening (s : life) : Prop := notified s = false -> listening s = false.

Lemma stopped_listening_step s s' : stopped_listening s -> step s s' -> stopped_listening s'.
Proof. unfold stopped_listening. intros H [a Ha]. life_case s a Ha; auto. Qed.

Lemma first_kept_step s s' : stopped_listening s -> first_kept s -> step s s' -> first_kept s'.
Proof.
  unfold first_kept, stopped_listening. intros H3 H1 [a Ha]. life_case s a Ha; auto; intros _; left; congruence.
Qed.

Lemma none_invented_step s s' : none_invented s -> step s s' -> none_invented s'.
Proof.
  unfold none_invented, leaving, listening. intros H [a Ha].
  life_case s a Ha; intros Hl; try done; specialize (H ltac:(done)); simpl in H; try lia; destruct l; lia.
Qed.

Lemma cause_inv_step s s' : life_inv s -> cause_inv s -> own_step s s' -> cause_inv s'.
Proof.
  unfold life_inv, cause_inv. intros (_ & H2 & _) H (a & Hne & Ha). life_case s a Ha; unfold listening in *; simpl in *; naive_solver lia.
Qed.

(** Under [RunKernel] the listener is never skipped. *)
Definition never_skipped (s : life) : Prop :=
  (ctx_done s = true -> listener s = Cancelled_ \/ listener s = Gone) /\ listener s <> Skipped.

Lemma never_skipped_step s s' : never_skipped s -> own_step s s' -> never_skipped s'.
Proof. unfold never_skipped. intros [H1 H2] (a & Hne & Ha). life_case s a Ha; naive_solver. Qed.

Lemma own_step_step s s' : own_step s s' -> step s s'.
Proof. intros (a & _ & Ha). by exists a. Qed.

(** Everything that holds of a process run by [RunKernel]. *)
Definition runkernel_inv (s : life) : Prop :=
  life_inv s /\ stopped_listening s /\ first_kept s /\ none_invented s /\ cause_inv s /\ never_skipped s.

Lemma runkernel_inv_step s s' : runkernel_inv s -> own_step s s' -> runkernel_inv s'.
Proof.
  intros (H1 & H2 & H3 & H4 & H5 & H6) Hs. pose proof (own_step_step _ _ Hs) as Hs'. split_and!.
  - by eapply life_inv_step.
  - by eapply stopped_listening_step.
  - by eapply first_kept_step.
  - by eapply none_invented_step.
  - by eapply cause_inv_step.
  - by eapply never_skipped_step.
Qed.

Lemma reachable_runkernel_inv s : rtc own_step (Start false) s -> runkernel_inv s.
Proof.
  intros Hr. eapply (rtc_invariant own_step); [apply runkernel_inv_step|exact Hr|].
  split_and!; unfold life_inv, stopped_listening, first_kept, none_invented, cause_inv, never_skipped; simpl; naive_solver lia.
Qed.

Lemma internal_run l s s' :
  forallb internal l = true -> run_all run_action s l = Some s' -> rtc internal_step s s'.
Proof.
  revert s. induction l as [|a l IH]; simpl; intros s Hl H; [by simplify_eq|].
  apply andb_true_iff in Hl as [Ha Hl]. destruct (run_action s a) as [s1|] eqn:E; [|done].
  eapply rtc_l; [by exists a|by apply IH].
Qed.

Lemma internal_reaches l s (P : life -> Prop) :
  forallb internal l = true ->
  match run_all run_action s l with Some s' => P s' | None => False end -> exists s', rtc internal_step s s' /\ P s'.
Proof.
  intros Hl. destruct (run_all run_action s l) as [s'|] eqn:E; [|done]. intros Hp. exists s'.
  split; [by eapply internal_run|done].
Qed.

Lemma internal_own_step s s' : internal_step s s' -> own_step s s'.
Proof. intros (a & Hi & Ha). exists a. split; [by intros ->|done]. Qed.

(** How many steps the kernel's own code can make. *)
Definition steps_left (s : life) : nat :=
  match listener s with Unscheduled => 4 | Waiting => 3 | Received_ => 2 | Cancelled_ => 1 | Gone | Skipped => 0 end
  + match main s with InRun | Recovering => 1 | _ => 0 end.

Lemma internal_step_decreases s s' : internal_step s s' -> steps_left s' < steps_left s.
Proof. unfold steps_left. intros (a & Hi & Ha). life_case s a Ha; done || lia. Qed.

Lemma internal_steps_bounded k s s' : nsteps internal_step k s s' -> k + steps_left s' <= steps_left s.
Proof.
  induction 1 as [s|k s1 s2 s3 Hs _ IH]; [lia|]. apply internal_step_decreases in Hs. lia.
Qed.

(** The process has a reason to stop and can act on it. *)
Definition must_stop (s : life) : Prop :=
  main s = InRun /\ 1 <= delivered s \/ main s = Recovering /\ delivered s <= 1.

Lemma must_stop_step s s' :
  killed s = false -> must_stop s \/ main s = Stopping -> internal_step s s' ->
  killed s' = false /\ (must_stop s' \/ main s' = Stopping).
Proof. unfold must_stop. intros Hk H (a & Hi & Ha). life_case s a Ha; split; try done; naive_solver. Qed.

Lemma must_stop_steps k s s' :
  nsteps internal_step k s s' -> killed s = false -> must_stop s \/ main s = Stopping ->
  killed s' = false /\ (must_stop s' \/ main s' = Stopping) /\ rtc own_step s s'.
Proof.
  induction 1 as [s|k s1 s2 s3 Hs _ IH]; [done|]. intros Hk Hm.
  destruct (must_stop_step _ _ Hk Hm Hs) as [Hk2 Hm2]. destruct (IH Hk2 Hm2) as (? & ? & ?). split_and!; [done..|].
  eapply rtc_l; [by apply internal_own_step|done].
Qed.

Lemma must_stop_reaches s :
  rtc own_step (Start false) s -> killed s = false -> must_stop s -> exists s', rtc internal_step s s' /\ main s' = Stopping.
Proof.
  intros Hreach Halive Hpoint.
  destruct (reachable_runkernel_inv s Hreach) as ((Hl1 & _) & _ & Hf & Hn & _ & Hs1 & Hs2).
  unfold must_stop, first_kept, none_invented, leaving, listening in *.
  destruct s as [sg n l d m k del f]; simpl in *; subst k.
  destruct Hpoint as [[-> Hd]|[-> Hd] ].
  - specialize (Hf Hd). destruct l.
    + destruct d; [naive_solver|]. destruct sg; [|naive_solver].
      by apply (internal_reaches [ListenerStarts; ListenerReceives; ListenerCancels; RunReturns]).
    + destruct sg; [|naive_solver]. by apply (internal_reaches [ListenerReceives; ListenerCancels; RunReturns]).
    + by apply (internal_reaches [ListenerCancels; RunReturns]).
    + rewrite Hl1 by auto. by apply (internal_reaches [RunReturns]).
    + rewrite Hl1 by auto. by apply (internal_reaches [RunReturns]).
    + done.
  - specialize (Hn eq_refl). destruct sg as [x|]; [|by apply (internal_reaches [RecoverySends])].
    destruct l; simpl in Hn; try lia; [destruct d; [naive_solver|]| |done].
    + by apply (internal_reaches [ListenerStarts; ListenerReceives; RecoverySends]).
    + by apply (internal_reaches [ListenerReceives; RecoverySends]).
Qed.

(** The recovery waits for a channel nobody reads any more. *)
Definition blocked (s : life) : Prop :=
  main s = Recovering /\ sig s <> None
  /\ (listener s = Skipped \/ listener s = Received_ \/ listener s = Cancelled_ \/ listener s = Gone).

Lemma blocked_step s s' : blocked s -> step s s' -> blocked s'.
Proof. unfold blocked. intros (H1 & H2 & H3) [a Ha]. life_case s a Ha; naive_solver. Qed.

Lemma blocked_forever s s' : blocked s -> rtc step s s' -> main s' = Recovering.
Proof. intros Hb Hr. eapply (rtc_invariant step) in Hb as [? _]; [done|apply blocked_step|exact Hr]. Qed.

(** A skipped listener: the signals are taken from their default action and nobody looks at them. *)
Definition deaf (s : life) : Prop := listener s = Skipped /\ notified s = true /\ killed s = false.

Lemma deaf_step s s' : deaf s -> step s s' -> deaf s'.
Proof. unfold deaf. intros (H1 & H2 & H3) [a Ha]. life_case s a Ha; naive_solver. Qed.

(** ** Properties *)

(** C7: a process under [RunKernel] comes to call its deferred [Stop]. In every reachable state of the signal channel, its
    goroutine and the main goroutine (any signals at any moment), if the process has not been
    killed and it is in [Run] and one signal has been delivered (the first signal is never lost), or it recovers from a
    failed execution and at most one signal has been delivered, then the kernel's own steps lead to the call of [Stop], they
    are at most five in whatever order they come, and when none is left the process is in that call. Whether the call
    ends is not said here (see [RunKernel_stops_or_blocks]). *)
Theorem RunKernel_reaches_Stop (s : life) (Hreach : rtc own_step (Start false) s) (Halive : killed s = false)
    (Hpoint : main s = InRun /\ 1 <= delivered s \/ main s = Recovering /\ delivered s <= 1) :
  (exists s', rtc internal_step s s' /\ main s' = Stopping)
  /\ (forall k s', nsteps internal_step k s s' -> k <= 5 /\ (nf internal_step s' -> main s' = Stopping)).
Proof.
  split; [by apply must_stop_reaches|]. intros k s' Hk. split.
  - apply internal_steps_bounded in Hk. unfold steps_left in *. destruct (listener s), (main s); lia.
  - intros Hnf. destruct (must_stop_steps _ _ _ Hk Halive (or_introl Hpoint)) as (Ha & [Hm|?] & Hr); [|done].
    destruct (must_stop_reaches s') as (s2 & Hr2 & Hs2); [by etransitivity|done..|].
    destruct (rtc_inv _ _ Hr2) as [<-|(y & Hy & _)]; [done|]. exfalso. apply Hnf. by exists y.
Qed.

Lemma RunKernel_reaches_Stop_witness :
  exists s', rtc internal_step (mkLife (Some SIGINT) true Waiting false InRun false 1 false) s' /\ main s' = Stopping.
Proof.
  apply RunKernel_reaches_Stop; [|reflexivity|left; split; [reflexivity|simpl; lia]].
  eapply rtc_l; [exists ListenerStarts; split; [discriminate|reflexivity]|].
  eapply rtc_l; [exists (OsSignal SIGINT); split; [discriminate|reflexivity]|].
  apply rtc_once. exists (ExecutionEnds ExecOk). split; [discriminate|reflexivity].
Defined.

(** C23: the kernel never stops by itself. Under [RunKernel], in every reachable state, the
    context is cancelled only after a signal has been delivered or the execution has failed, and the
    process is in [Stop], or past it, only then. *)
Theorem RunKernel_stops_for_a_reason (s : life) (Hreach : rtc own_step (Start false) s) :
  (ctx_done s = true -> failed s = true \/ 1 <= delivered s)
  /\ (main s = Stopping \/ main s = StuckInStop \/ main s = Exited -> failed s = true \/ 1 <= delivered s).
Proof.
  destruct (reachable_runkernel_inv s Hreach) as ((_ & _ & Hl) & _ & _ & _ & Hc & _). unfold cause_inv in Hc.
  assert (ctx_done s = true -> failed s = true \/ 1 <= delivered s) as H.
  { intros Hd. destruct (failed s); [by left|right]. auto. }
  split; [done|]. intros Hm. destruct (Hl ltac:(unfold leaving; by destruct Hm as [-> |[-> | ->] ])); auto.
Qed.

Lemma RunKernel_stops_for_a_reason_witness :
  let s := mkLife None true Cancelled_ true Stopping false 1 false in
  (ctx_done s = true -> failed s = true \/ 1 <= delivered s)
  /\ (main s = Stopping \/ main s = StuckInStop \/ main s = Exited -> failed s = true \/ 1 <= delivered s).
Proof.
  intros s. apply RunKernel_stops_for_a_reason.
  eapply rtc_l; [exists ListenerStarts; split; [discriminate|reflexivity]|].
  eapply rtc_l; [exists (OsSignal SIGINT); split; [discriminate|reflexivity]|].
  eapply rtc_l; [exists ListenerReceives; split; [discriminate|reflexivity]|].
  eapply rtc_l; [exists ListenerCancels; split; [discriminate|reflexivity]|].
  eapply rtc_l; [exists (ExecutionEnds ExecOk); split; [discriminate|reflexivity]|].
  apply rtc_once. exists RunReturns. split; [discriminate|reflexivity].
Defined.

(** C39: the recovery can block for ever. [RegisterRecovers] sends to the channel of signals: when
    a second signal has arrived after the goroutine of [Start] has received the first and before
    its [signal.Stop], and the execution then fails (as it may when its context is cancelled), nobody will
    ever empty the channel: in all that can happen next the process stays in the recovery and [Stop] never runs. *)
Theorem recovery_can_block_forever :
  exists s, rtc own_step (Start false) s /\ failed s = true /\ killed s = false /\ delivered s = 2
    /\ forall s', rtc step s s' -> main s' = Recovering.
Proof.
  exists (mkLife (Some SIGTERM) false Gone true Recovering false 2 true). split_and!; [|done..|].
  - eapply rtc_l; [exists ListenerStarts; split; [discriminate|reflexivity]|].
    eapply rtc_l; [exists (OsSignal SIGTERM); split; [discriminate|reflexivity]|].
    eapply rtc_l; [exists ListenerReceives; split; [discriminate|reflexivity]|].
    eapply rtc_l; [exists (OsSignal SIGTERM); split; [discriminate|reflexivity]|].
    eapply rtc_l; [exists ListenerCancels; split; [discriminate|reflexivity]|].
    eapply rtc_l; [exists ListenerReturns; split; [discriminate|reflexivity]|].
    apply rtc_once. exists (ExecutionEnds (ExecError "context canceled")). split; [discriminate|reflexivity].
  - intros s' Hr. eapply blocked_forever; [|exact Hr]. split_and!; naive_solver.
Qed.

(** On a context that is already cancelled the process goes deaf. [GoRecover] skips the
    goroutine of [Start] while [signal.Notify] stays in force, so no signal ever ends the process
    or cancels anything; and if one has been delivered when the execution fails, the recovery blocks for ever. *)
Theorem Start_on_cancelled_context :
  exists s, run_action (Start true) ListenerStarts = Some s
    /\ (forall s', rtc step s s' -> notified s' = true /\ killed s' = false /\ listener s' = Skipped)
    /\ exists s2, rtc step s s2 /\ forall s', rtc step s2 s' -> main s' = Recovering /\ killed s' = false.
Proof.
  eexists. split; [reflexivity|]. set (s := mkLife _ _ _ _ _ _ _ _).
  assert (forall s', rtc step s s' -> deaf s') as Hdeaf.
  { intros s' Hr. eapply (rtc_invariant step); [apply deaf_step|exact Hr|done]. }
  split; [intros s' Hr; by destruct (Hdeaf s' Hr) as (? & ? & ?)|].
  assert (rtc step s (mkLife (Some SIGTERM) true Skipped true Recovering false 1 true)) as Hr2.
  { apply (run_all_sound run_action [OsSignal SIGTERM; ExecutionEnds (ExecPanic "boom")]). reflexivity. }
  eexists. split; [exact Hr2|]. intros s' Hr. split.
  - eapply blocked_forever; [|exact Hr]. split_and!; naive_solver.
  - destruct (Hdeaf s') as (_ & _ & ?); [by etransitivity|done].
Qed.
