(* ===== verification/Barrier.v ===== *)
(** [src/readiness_barrier]: the barrier as a state machine whose steps are the atomic
    actions of its methods, with any number of calls of [Start], [Stop] and
    [SendSignalCtx] in flight and the listener goroutines they leave. *)
From S2P Require Import Prelude.
From stdpp Require Import base tactics list relations strings gmap.
From Stdlib Require Import ZArith Lia.

(** ** State *)

Definition ReadySignalToggle : string := "ready".
Definition NotReadySignalToggle : string := "not_ready".

Definition signals_cap : nat := 4.

(** A call of [Start] or [Stop] in flight, by its next atomic action. *)
Inductive control :=
  | StartCas | StartSetCancel | StartSpawn (c : nat)
  | StopCas | StopCancel | StopWait | StopDrain | StopClear.

(** A goroutine running [listen] with the context [c], before its [select] or with a signal
    it has received. *)
Inductive listener := Listening (c : nat) | Holding (c : nat) (sig : string).

(** A call of [SendSignalCtx] in flight. *)
Inductive sender := SendCheck (sig : string) | SendSelect (sig : string).

(** Contexts are numbered from [0]; those below [next_ctx] exist and [ctx_cancelled] lists the cancelled
    ones. [accepted] records the signals put in the channel. *)
Record ReadinessBarrier := mkB {
  running : bool; readinessFlag : bool; signals : list string;
  runCancel : option nat; ctx_cancelled : list nat; next_ctx : nat; parent_done : bool; wg : nat;
  controls : list control; listeners : list listener; senders : list sender; accepted : list string
}.

Definition NewReadinessBarrier : ReadinessBarrier :=
  mkB false false [] None [] 0 false 0 [] [] [] [].

Definition IsReady (b : ReadinessBarrier) : bool := readinessFlag b.

Definition set_running (x : bool) (b : ReadinessBarrier) : ReadinessBarrier :=
  mkB x (readinessFlag b) (signals b) (runCancel b) (ctx_cancelled b) (next_ctx b) (parent_done b) (wg b)
    (controls b) (listeners b) (senders b) (accepted b).
Definition set_flag (x : bool) (b : ReadinessBarrier) : ReadinessBarrier :=
  mkB (running b) x (signals b) (runCancel b) (ctx_cancelled b) (next_ctx b) (parent_done b) (wg b)
    (controls b) (listeners b) (senders b) (accepted b).
Definition set_signals (x : list string) (b : ReadinessBarrier) : ReadinessBarrier :=
  mkB (running b) (readinessFlag b) x (runCancel b) (ctx_cancelled b) (next_ctx b) (parent_done b) (wg b)
    (controls b) (listeners b) (senders b) (accepted b).
Definition set_controls (x : list control) (b : ReadinessBarrier) : ReadinessBarrier :=
  mkB (running b) (readinessFlag b) (signals b) (runCancel b) (ctx_cancelled b) (next_ctx b) (parent_done b) (wg b)
    x (listeners b) (senders b) (accepted b).
Definition set_listeners (n : nat) (x : list listener) (b : ReadinessBarrier) : ReadinessBarrier :=
  mkB (running b) (readinessFlag b) (signals b) (runCancel b) (ctx_cancelled b) (next_ctx b) (parent_done b) n
    (controls b) x (senders b) (accepted b).
Definition set_senders (x : list sender) (b : ReadinessBarrier) : ReadinessBarrier :=
  mkB (running b) (readinessFlag b) (signals b) (runCancel b) (ctx_cancelled b) (next_ctx b) (parent_done b) (wg b)
    (controls b) (listeners b) x (accepted b).

(** [context.WithCancel] and the assignment of [runCancel] under the mutex. *)
Definition new_run (b : ReadinessBarrier) : ReadinessBarrier :=
  mkB (running b) (readinessFlag b) (signals b) (Some (next_ctx b)) (ctx_cancelled b) (S (next_ctx b)) (parent_done b)
    (wg b) (controls b) (listeners b) (senders b) (accepted b).

(** [if r.runCancel != nil { r.runCancel(); r.runCancel = nil }] under the mutex. *)
Definition cancel_run (b : ReadinessBarrier) : ReadinessBarrier :=
  mkB (running b) (readinessFlag b) (signals b) None
    (match runCancel b with Some c => c :: ctx_cancelled b | None => ctx_cancelled b end)
    (next_ctx b) (parent_done b) (wg b) (controls b) (listeners b) (senders b) (accepted b).

Definition accept (sig : string) (b : ReadinessBarrier) : ReadinessBarrier :=
  mkB (running b) (readinessFlag b) (signals b ++ [sig]) (runCancel b) (ctx_cancelled b) (next_ctx b) (parent_done b)
    (wg b) (controls b) (listeners b) (senders b) (accepted b ++ [sig]).

Definition cancel_parent (b : ReadinessBarrier) : ReadinessBarrier :=
  mkB (running b) (readinessFlag b) (signals b) (runCancel b) (ctx_cancelled b) (next_ctx b) true
    (wg b) (controls b) (listeners b) (senders b) (accepted b).

(** The [switch] of [listen]: any other signal is ignored. *)
Definition apply_signal (sig : string) (b : ReadinessBarrier) : ReadinessBarrier :=
  if bool_decide (sig = ReadySignalToggle) then set_flag true b
  else if bool_decide (sig = NotReadySignalToggle) then set_flag false b
  else b.

Definition ctx_done (c : nat) (b : ReadinessBarrier) : bool :=
  parent_done b || bool_decide (c ∈ ctx_cancelled b).

(** ** Atomic actions *)

(** The next action of a [Start] or [Stop]: the new state of the barrier and what is left of the
    call ([None] when it has returned); [None] outside when it is blocked. *)
Definition control_action (b : ReadinessBarrier) (k : control) : option (ReadinessBarrier * option control) :=
  match k with
  | StartCas => if running b then Some (b, None) else Some (set_running true b, Some StartSetCancel)
  | StartSetCancel => Some (new_run b, Some (StartSpawn (next_ctx b)))
  | StartSpawn c => Some (set_listeners (S (wg b)) (listeners b ++ [Listening c]) b, None)
  | StopCas => if running b then Some (set_running false b, Some StopCancel) else Some (b, None)
  | StopCancel => Some (cancel_run b, Some StopWait)
  | StopWait => if (wg b =? 0)%nat then Some (b, Some StopDrain) else None
  | StopDrain =>
    match signals b with
    | _ :: l => Some (set_signals l b, Some StopDrain)
    | [] => Some (b, Some StopClear)
    end
  | StopClear => Some (set_flag false b, None)
  end.

Inductive action :=
  | CallStart | CallStop | CallSend (sig : string) | ParentCancel
  | RunControl (i : nat)
  | ListenerExit (i : nat) | ListenerTake (i : nat) | ListenerApply (i : nat)
  | SenderCheck (i : nat) | SenderPut (i : nat) | SenderGiveUp (i : nat).

Definition run_action (b : ReadinessBarrier) (a : action) : option ReadinessBarrier :=
  match a with
  | CallStart => Some (set_controls (controls b ++ [StartCas]) b)
  | CallStop => Some (set_controls (controls b ++ [StopCas]) b)
  | CallSend sig => Some (set_senders (senders b ++ [SendCheck sig]) b)
  | ParentCancel => Some (cancel_parent b)
  | RunControl i =>
    k ← controls b !! i;
    r ← control_action b k;
    Some (set_controls (put i r.2 (controls b)) r.1)
  | ListenerExit i =>
    match listeners b !! i with
    | Some (Listening c) =>
      if ctx_done c b then Some (set_listeners (wg b - 1) (delete i (listeners b)) b) else None
    | _ => None
    end
  | ListenerTake i =>
    match listeners b !! i, signals b with
    | Some (Listening c), sig :: l =>
      Some (set_signals l (set_listeners (wg b) (<[i := Holding c sig]> (listeners b)) b))
    | _, _ => None
    end
  | ListenerApply i =>
    match listeners b !! i with
    | Some (Holding c sig) =>
      Some (apply_signal sig (set_listeners (wg b) (<[i := Listening c]> (listeners b)) b))
    | _ => None
    end
  | SenderCheck i =>
    match senders b !! i with
    | Some (SendCheck sig) =>
      Some (set_senders (put i (if running b then Some (SendSelect sig) else None) (senders b)) b)
    | _ => None
    end
  | SenderPut i =>
    match senders b !! i with
    | Some (SendSelect sig) =>
      if (length (signals b) <? signals_cap)%nat then Some (accept sig (set_senders (delete i (senders b)) b)) else None
    | _ => None
    end
  | SenderGiveUp i =>
    match senders b !! i with
    | Some (SendSelect sig) => Some (set_senders (delete i (senders b)) b)
    | _ => None
    end
  end.

Definition step : ReadinessBarrier -> ReadinessBarrier -> Prop := acts_step run_action.

Notation run_actions := (run_all run_action).

(** Steps of a program whose calls of [Start] and [Stop] do not overlap. *)
Definition is_control_call (a : action) : bool := match a with CallStart | CallStop => true | _ => false end.

Definition idle (b : ReadinessBarrier) : bool := match controls b with [] => true | _ => false end.

Definition serial_step : ReadinessBarrier -> ReadinessBarrier -> Prop := serial_acts_step run_action is_control_call idle.

Lemma idle_controls b : idle b = true -> controls b = [].
Proof. unfold idle. by destruct (controls b). Qed.

(** ** Invariants of all interleavings *)

Definition holds (sig : string) (l : listener) : Prop :=
  match l with Holding _ s => s = sig | Listening _ => False end.

(** The wait group counts the listeners (so it never goes below zero), the channel
    respects its capacity, and a ready flag comes from an accepted ready signal. *)
Definition barrier_inv (b : ReadinessBarrier) : Prop :=
  wg b = length (listeners b)
  /\ (length (signals b) <= signals_cap)%nat
  /\ (forall s, s ∈ signals b -> s ∈ accepted b)
  /\ (forall l s, l ∈ listeners b -> holds s l -> s ∈ accepted b)
  /\ (readinessFlag b = true -> ReadySignalToggle ∈ accepted b).

Lemma apply_signal_frame sig b :
  wg (apply_signal sig b) = wg b /\ listeners (apply_signal sig b) = listeners b
  /\ signals (apply_signal sig b) = signals b /\ accepted (apply_signal sig b) = accepted b
  /\ controls (apply_signal sig b) = controls b /\ running (apply_signal sig b) = running b
  /\ runCancel (apply_signal sig b) = runCancel b /\ ctx_cancelled (apply_signal sig b) = ctx_cancelled b
  /\ next_ctx (apply_signal sig b) = next_ctx b.
Proof. unfold apply_signal. by repeat case_bool_decide. Qed.

Lemma apply_signal_flag sig b :
  readinessFlag (apply_signal sig b) = true -> sig = ReadySignalToggle \/ readinessFlag b = true.
Proof. unfold apply_signal. repeat case_bool_decide; simpl; auto. done. Qed.

Lemma control_action_inv b k r : barrier_inv b -> control_action b k = Some r -> barrier_inv r.1.
Proof.
  intros (Hw & Hc & Hs & Hl & Hf). destruct k; simpl; intros E; repeat case_match; simplify_eq/=;
    unfold barrier_inv; simpl; repeat match goal with E : signals b = _ |- context [signals b] => rewrite E end;
    try by split_and!.
  - rewrite length_app. simpl. split_and!; [lia|done..| |done].
    intros l s [Hin|Hin]%elem_of_app Hh; [by eapply Hl|].
    apply list_elem_of_singleton in Hin as ->. done.
  - simpl in Hc. split_and!; [done|lia| |done..].
    intros x Hx. apply Hs. by right.
Qed.

Lemma barrier_inv_step b b' : barrier_inv b -> step b b' -> barrier_inv b'.
Proof.
  intros Hinv [a Ha]. assert (Hinv' := Hinv). destruct Hinv' as (Hw & Hc & Hs & Hl & Hf).
  destruct a; simpl in Ha.
  1-4: simplify_eq; unfold barrier_inv; simpl; by split_and!.
  - destruct (controls b !! i) as [k|]; [|done]. simpl in Ha.
    destruct (control_action b k) as [r|] eqn:E; [|done]. simplify_eq/=.
    by apply (control_action_inv b k r Hinv) in E.
  - repeat case_match; simplify_eq. unfold barrier_inv. simpl.
    rewrite (length_delete_lookup i (Listening c)) by done. split_and!; [lia|done..| |done].
    intros l s Hin. apply Hl. eapply elem_of_sublist; [exact Hin|apply sublist_delete].
  - repeat case_match; simplify_eq. unfold barrier_inv. simpl. rewrite length_insert.
    simpl in Hc. split_and!; [done|lia| | |done].
    + intros x Hx. apply Hs. by right.
    + intros l1 s1 Hin Hh. apply (elem_of_put i (Some (Holding c s))) in Hin as [[= <-]|Hin]; [|by eapply Hl].
      simpl in Hh. subst s1. apply Hs. left.
  - repeat case_match; simplify_eq. unfold barrier_inv.
    set (b1 := set_listeners _ _ b).
    destruct (apply_signal_frame sig b1) as (-> & -> & -> & -> & _). simpl. rewrite length_insert.
    split_and!; [done..| |].
    + intros l1 s1 Hin Hh. apply (elem_of_put i (Some (Listening c))) in Hin as [[= <-]|Hin]; [done|by eapply Hl].
    + intros [->|Hfl]%apply_signal_flag; [|by apply Hf].
      eapply Hl; [by eapply list_elem_of_lookup_2|done].
  - repeat case_match; simplify_eq; unfold barrier_inv; simpl; by split_and!.
  - repeat case_match; simplify_eq. unfold barrier_inv. simpl. apply Nat.ltb_lt in H1.
    rewrite length_app. simpl. split_and!; [done|lia|set_solver|set_solver|].
    intros Hfl. apply elem_of_app. left. by apply Hf.
  - repeat case_match; simplify_eq; unfold barrier_inv; simpl; by split_and!.
Qed.

(** ** Calls of [Start] and [Stop] that do not overlap *)

Definition ctx_of (l : listener) : nat := match l with Listening c => c | Holding c _ => c end.

(** What holds between the actions of the one call in flight, if any: [r] is the running flag, [fl]
    the readiness flag, [rc] the cancel function, [cc] the cancelled contexts, [ls] the listeners. *)
Definition phase (ks : list control) (r fl : bool) (rc : option nat) (cc : list nat) (ls : list listener) : Prop :=
  match ks with
  | [] | [StartCas] | [StopCas] =>
    if r then length ls <= 1 /\ (forall l, l ∈ ls -> rc = Some (ctx_of l)) else ls = [] /\ fl = false
  | [StartSetCancel] => r = true /\ ls = [] /\ fl = false
  | [StartSpawn c] => r = true /\ ls = [] /\ fl = false /\ rc = Some c
  | [StopCancel] => r = false /\ length ls <= 1 /\ (forall l, l ∈ ls -> rc = Some (ctx_of l))
  | [StopWait] => r = false /\ length ls <= 1 /\ (forall l, l ∈ ls -> ctx_of l ∈ cc)
  | [StopDrain] | [StopClear] => r = false /\ ls = []
  | _ => False
  end.

Definition serial_inv (b : ReadinessBarrier) : Prop :=
  phase (controls b) (running b) (readinessFlag b) (runCancel b) (ctx_cancelled b) (listeners b).

(** A listener that goes away, or changes its point but not its context. *)
Lemma phase_listeners ks r fl fl' rc cc (ls ls' : list listener) :
  phase ks r fl rc cc ls ->
  length ls' <= length ls -> (forall l, l ∈ ls' -> exists l0, l0 ∈ ls /\ ctx_of l0 = ctx_of l) ->
  (ls = [] -> fl' = fl) -> phase ks r fl' rc cc ls'.
Proof.
  intros Hp Hlen Hctx Hfl.
  assert (ls = [] -> ls' = []) as Hnil by (intros ->; destruct ls'; [done|simpl in Hlen; lia]).
  assert (forall P : nat -> Prop, (forall l, l ∈ ls -> P (ctx_of l)) -> forall l, l ∈ ls' -> P (ctx_of l)) as Hall.
  { intros P HP l Hl. destruct (Hctx l Hl) as (l0 & Hl0 & <-). by apply HP. }
  unfold phase in *. destruct ks as [|[] [|]]; try done; try destruct r;
    repeat match goal with H : _ /\ _ |- _ => destruct H end;
    split_and!; try done; try lia; try (by apply Hnil); try (by rewrite Hfl);
    try (apply (Hall (fun c => rc = Some c)); done); try (apply (Hall (fun c => c ∈ cc)); done).
Qed.

Lemma ctx_of_put (l : list listener) i x y :
  l !! i = Some x -> ctx_of y = ctx_of x ->
  forall z, z ∈ <[i := y]> l -> exists z0, z0 ∈ l /\ ctx_of z0 = ctx_of z.
Proof.
  intros Hi Hc z [[= ->]|Hz]%(elem_of_put i (Some y)); [|by exists z].
  exists x. split; [by eapply list_elem_of_lookup_2|done].
Qed.

(** The action of the only call in flight. *)
Lemma serial_control b k r :
  barrier_inv b -> controls b = [k] -> serial_inv b -> control_action b k = Some r ->
  phase (put 0 r.2 [k]) (running r.1) (readinessFlag r.1) (runCancel r.1) (ctx_cancelled r.1) (listeners r.1).
Proof.
  intros (Hw & _) Hk Hp E. unfold serial_inv in Hp. rewrite Hk in Hp.
  destruct k; simpl in E; repeat case_match; simplify_eq/=;
    repeat match goal with H : running b = _ |- _ => rewrite H in * end; try naive_solver.
  - destruct Hp as (Hr & Hl & Hf & Hc). rewrite Hr, Hl. simpl. split; [lia|].
    intros l Hin. apply list_elem_of_singleton in Hin as ->. done.
  - destruct Hp as (Hr & Hl & Hc). split_and!; [done..|]. intros l Hin.
    rewrite (Hc l Hin). left.
  - destruct Hp as (Hr & Hl & Hc). split; [done|]. apply Nat.eqb_eq in H.
    apply length_zero_iff_nil. congruence.
  - destruct Hp as (Hr & Hl). by rewrite Hr.
Qed.

Lemma serial_inv_step b b' : barrier_inv b -> serial_inv b -> serial_step b b' -> serial_inv b'.
Proof.
  intros Hinv Hp (a & Ha & Hserial). assert (Hp' := Hp). unfold serial_inv in Hp'. destruct a; simpl in Ha.
  - assert (controls b = []) as E by (by apply idle_controls, Hserial). simplify_eq. unfold serial_inv. simpl. by rewrite E in Hp' |- *.
  - assert (controls b = []) as E by (by apply idle_controls, Hserial). simplify_eq. unfold serial_inv. simpl. by rewrite E in Hp' |- *.
  - by simplify_eq.
  - by simplify_eq.
  - destruct (controls b !! i) as [k|] eqn:Ek; [|done]. simpl in Ha.
    destruct (control_action b k) as [r|] eqn:E; [|done]. simplify_eq/=.
    destruct (controls b) as [|k0 [|k1 ks]] eqn:Eks; [done| |by destruct k0].
    destruct i; [|done]. simpl in Ek. simplify_eq. unfold serial_inv. simpl.
    by apply (serial_control b k r).
  - repeat case_match; simplify_eq. unfold serial_inv. simpl. eapply phase_listeners; [exact Hp'| | |done].
    + rewrite (length_delete_lookup i (Listening c)) by done. lia.
    + intros l Hl. exists l. split; [|done]. eapply elem_of_sublist; [exact Hl|apply sublist_delete].
  - repeat case_match; simplify_eq. unfold serial_inv. simpl. eapply phase_listeners; [exact Hp'| | |done].
    + by rewrite length_insert.
    + by eapply ctx_of_put.
  - repeat case_match; simplify_eq. unfold serial_inv. set (b1 := set_listeners _ _ b).
    destruct (apply_signal_frame sig b1) as (_ & -> & _ & _ & -> & -> & -> & -> & _). simpl.
    eapply phase_listeners; [exact Hp'|by rewrite length_insert|by eapply ctx_of_put|].
    intros E. rewrite E in *. done.
  - repeat case_match; simplify_eq; done.
  - repeat case_match; simplify_eq; done.
  - repeat case_match; simplify_eq; done.
Qed.

Lemma new_barrier_inv : barrier_inv NewReadinessBarrier.
Proof. unfold barrier_inv. simpl. split_and!; try done; try lia; intros; set_solver. Qed.

Lemma serial_reachable b : rtc serial_step NewReadinessBarrier b -> barrier_inv b /\ serial_inv b.
Proof.
  intros Hr. eapply (rtc_invariant serial_step (fun b => barrier_inv b /\ serial_inv b)); [|exact Hr|].
  - intros b1 b2 [H1 H2] Hs. split; [|by eapply serial_inv_step].
    eapply barrier_inv_step; [exact H1|by eapply serial_acts_step_step].
  - split; [apply new_barrier_inv|done].
Qed.

(** ** A stop can complete *)

Definition stopped (b : ReadinessBarrier) : Prop :=
  controls b = [] /\ running b = false /\ readinessFlag b = false /\ signals b = [].

Lemma drain_completes n b :
  length (signals b) = n -> controls b = [StopDrain] -> running b = false ->
  exists b', rtc serial_step b b' /\ stopped b'.
Proof.
  revert b. induction n as [|n IH]; intros b Hn Hk Hr.
  - destruct (signals b) eqn:Es; [|done]. eexists. split.
    + apply (run_serially_sound run_action is_control_call idle [RunControl 0; RunControl 0]).
      simpl. rewrite Hk. simpl. rewrite Es. simpl. reflexivity.
    + by split_and!.
  - destruct (signals b) as [|s l] eqn:Es; [done|].
    destruct (IH (set_controls [StopDrain] (set_signals l b))) as (b' & Hb' & Hst); [by simpl in *; lia|done|done|].
    exists b'. split; [|done]. eapply rtc_l; [|exact Hb'].
    exists (RunControl 0). split; [|done]. simpl. rewrite Hk. simpl. by rewrite Es.
Qed.

Lemma listeners_leave b :
  barrier_inv b -> serial_inv b -> controls b = [StopWait] ->
  exists b', rtc serial_step b b' /\ controls b' = [StopWait] /\ running b' = false /\ wg b' = 0.
Proof.
  intros (Hw & _) Hp Hk. unfold serial_inv in Hp. rewrite Hk in Hp. destruct Hp as (Hr & Hl & Hc).
  destruct (listeners b) as [|l [|l2 ls]] eqn:El; simpl in *; [| |lia].
  { exists b. by split_and!. }
  assert (ctx_of l ∈ ctx_cancelled b) as Hin by (apply Hc; left).
  destruct l as [c|c sig]; simpl in Hin.
  - eexists. split.
    + apply (run_serially_sound run_action is_control_call idle [ListenerExit 0]). simpl.
      rewrite El. simpl. unfold ctx_done. rewrite bool_decide_true, orb_true_r by done. reflexivity.
    + simpl. rewrite Hw. by split_and!.
  - set (b1 := apply_signal sig (set_listeners (wg b) [Listening c] b)).
    destruct (apply_signal_frame sig (set_listeners (wg b) [Listening c] b))
      as (E1 & E2 & _ & _ & E3 & E4 & _ & E5 & _). fold b1 in E1, E2, E3, E4, E5. simpl in *.
    exists (set_listeners (wg b1 - 1) [] b1). split.
    + apply (run_serially_sound run_action is_control_call idle [ListenerApply 0; ListenerExit 0]). simpl.
      rewrite El. simpl. fold b1. rewrite E2. simpl. unfold ctx_done.
      rewrite E5, bool_decide_true, orb_true_r by done. reflexivity.
    + simpl. rewrite E1, E3, E4, Hw. by split_and!.
Qed.

(** ** Properties *)

(** C12: all interleavings. With any number of [Start], [Stop] and [SendSignalCtx] calls in
    flight, the channel never holds more than its four signals, the wait group counts exactly the
    listener goroutines (so [Done] never takes it below zero), and the barrier is ready only if a
    ["ready"] signal was accepted: no interleaving makes it ready by itself. *)
Theorem barrier_interleavings_safe (b : ReadinessBarrier) (Hreach : rtc step NewReadinessBarrier b) :
  (length (signals b) <= signals_cap)%nat
  /\ wg b = length (listeners b)
  /\ (IsReady b = true -> ReadySignalToggle ∈ accepted b).
Proof.
  assert (barrier_inv b) as (H1 & H2 & _ & _ & H3); [|by split_and!].
  eapply (rtc_invariant step); [apply barrier_inv_step|exact Hreach|apply new_barrier_inv].
Qed.

Definition demo_start : list action := [CallStart; RunControl 0; RunControl 0; RunControl 0].
Definition demo_send (s : string) : list action := [CallSend s; SenderCheck 0; SenderPut 0].

Lemma barrier_interleavings_safe_witness :
  exists b, run_actions NewReadinessBarrier
      (demo_start ++ demo_send "ready" ++ [ListenerTake 0; ListenerApply 0]) = Some b
  /\ IsReady b = true
  /\ (length (signals b) <= signals_cap)%nat
  /\ wg b = length (listeners b)
  /\ (IsReady b = true -> ReadySignalToggle ∈ accepted b).
Proof.
  eexists. split; [vm_compute; reflexivity|]. split; [reflexivity|].
  apply barrier_interleavings_safe.
  apply (run_all_sound run_action (demo_start ++ demo_send "ready" ++ [ListenerTake 0; ListenerApply 0])).
  vm_compute. reflexivity.
Defined.

(** C13: when the calls of [Start] and [Stop] do not overlap (senders may do anything), there
    is never more than one listener, and a barrier that is ready is running or in the middle
    of a [Stop]: once [Stop] has returned the barrier is not ready, has no listener, and stays so until the
    next [Start]. *)
Theorem serial_ready_implies_running (b : ReadinessBarrier) (Hreach : rtc serial_step NewReadinessBarrier b) :
  length (listeners b) <= 1
  /\ (IsReady b = true -> running b = true
      \/ controls b = [StopCancel] \/ controls b = [StopWait] \/ controls b = [StopDrain] \/ controls b = [StopClear])
  /\ (controls b = [] -> running b = false -> IsReady b = false /\ listeners b = [] /\ wg b = 0).
Proof.
  destruct (serial_reachable b Hreach) as [(Hw & _) Hp]. unfold serial_inv, IsReady in *.
  destruct (controls b) as [|k [|]] eqn:Ek; [|destruct k|by destruct k];
    simpl in Hp; try destruct (running b) eqn:Er;
    repeat match goal with H : _ /\ _ |- _ => destruct H end;
    repeat match goal with H : listeners b = [] |- _ => rewrite H in * end; simpl in *;
    split_and!; try lia; try done; try (intros; congruence); try naive_solver.
Qed.

Definition demo_ready : list action := demo_start ++ demo_send "ready" ++ [ListenerTake 0; ListenerApply 0].

Lemma serial_ready_implies_running_witness :
  exists b, run_actions NewReadinessBarrier demo_ready = Some b /\ IsReady b = true
  /\ length (listeners b) <= 1
  /\ (IsReady b = true -> running b = true
      \/ controls b = [StopCancel] \/ controls b = [StopWait] \/ controls b = [StopDrain] \/ controls b = [StopClear])
  /\ (controls b = [] -> running b = false -> IsReady b = false /\ listeners b = [] /\ wg b = 0).
Proof.
  eexists. split; [vm_compute; reflexivity|]. split; [reflexivity|]. apply serial_ready_implies_running.
  apply (run_serially_sound run_action is_control_call idle demo_ready). vm_compute. reflexivity.
Defined.

(** C14: [Stop] is never stuck: in every state reached by non-overlapping calls in which
    [Stop] waits for its listener, the listener (whatever it is doing, its context being
    cancelled) can leave, and the call can go on, empty the channel of any number of signals and
    return, leaving a barrier that is stopped, not ready and without a pending signal. *)
Theorem Stop_can_complete (b : ReadinessBarrier) (Hreach : rtc serial_step NewReadinessBarrier b)
    (Hwait : controls b = [StopWait]) :
  exists b', rtc serial_step b b' /\ stopped b'.
Proof.
  destruct (serial_reachable b Hreach) as [Hi Hp].
  destruct (listeners_leave b Hi Hp Hwait) as (b1 & H1 & Hk & Hr & Hw).
  destruct (drain_completes (length (signals b1)) (set_controls [StopDrain] b1)) as (b2 & H2 & Hs); [done..|].
  exists b2. split; [|done]. etrans; [exact H1|]. eapply rtc_l; [|exact H2].
  exists (RunControl 0). split; [|done]. simpl. rewrite Hk. simpl. by rewrite Hw.
Qed.

Definition demo_stopping : list action :=
  demo_start ++ demo_send "ready" ++ [ListenerTake 0; CallStop; RunControl 0; RunControl 0].

Lemma Stop_can_complete_witness :
  exists b, run_actions NewReadinessBarrier demo_stopping = Some b /\ controls b = [StopWait]
    /\ exists b', rtc serial_step b b' /\ stopped b'.
Proof.
  eexists. split; [vm_compute; reflexivity|]. split; [reflexivity|]. apply Stop_can_complete; [|reflexivity].
  apply (run_serially_sound run_action is_control_call idle demo_stopping). vm_compute. reflexivity.
Defined.

(** A signal can outlive the run it was sent to. After a complete [Start] and [Stop], a
    sender that had passed the running check puts its signal in the channel of the stopped
    barrier and gets no error; the next run takes it and the barrier becomes ready although no signal
    was sent since it was started. *)
Theorem stale_signal_after_Stop :
  exists b, run_actions NewReadinessBarrier
      (demo_start ++ [CallSend "ready"; SenderCheck 0; CallStop; RunControl 0; RunControl 0; ListenerExit 0;
        RunControl 0; RunControl 0; RunControl 0; SenderPut 0]) = Some b
    /\ controls b = [] /\ running b = false /\ signals b = ["ready"%string]
    /\ exists b', run_actions b (demo_start ++ [ListenerTake 0; ListenerApply 0]) = Some b' /\ IsReady b' = true.
Proof.
  eexists. split; [vm_compute; reflexivity|]. split_and!; [done..|].
  eexists. split; [vm_compute; reflexivity|done].
Qed.

(** A [Stop] that overlaps a [Start] leaks a listener. If [Stop] runs after the
    compare-and-swap of [Start] and before [runCancel] is set, it returns with nothing to cancel
    and nothing to wait for, and then [Start] leaves a listener on a barrier that is not running and whose
    context nobody has cancelled; a second [Start] makes two listeners on one channel. *)
Theorem overlapping_Stop_leaks_listener :
  exists b, run_actions NewReadinessBarrier
      [CallStart; RunControl 0; CallStop; RunControl 1; RunControl 1; RunControl 1; RunControl 1; RunControl 1;
       RunControl 0; RunControl 0] = Some b
    /\ controls b = [] /\ running b = false /\ listeners b = [Listening 0] /\ ctx_done 0 b = false
    /\ exists b', run_actions b demo_start = Some b' /\ listeners b' = [Listening 0; Listening 1].
Proof.
  eexists. split; [vm_compute; reflexivity|]. split_and!; [done..|].
  eexists. split; [vm_compute; reflexivity|done].
Qed.
