(* ===== verification/Scheduler.v ===== *)
(** [src/scheduler]: the job scheduler (scheduler.go) and the task supervisor. [exec] is a function of what
    the job does; [Add], [Start], [Stop] and the goroutines of the jobs are the steps of a state machine, with
    any number of calls in flight. *)
From S2P Require Import Prelude.
From stdpp Require Import base tactics list relations strings gmap.
From Stdlib Require Import ZArith Lia.

(** ** Jobs *)

Definition StopImmediate : Z := 0.
Definition StopGraceful : Z := 1.

(** The contexts a job function is given: a timeout under the job's own context, or under
    [context.Background()]. *)
Inductive job_context := UnderJob (timeout : Z) | UnderBackground (timeout : Z).

(** How a call of the job function ends. *)
Inductive job_end := JobReturns (err : option string) | JobPanics (reason : string).

Record JobConfiguration := {
  Name : string; Func : job_context -> job_end; Tick : Z; Deadline : Z; StopMode : Z
}.

(** [exec] once it holds a slot of the rate limiter: [ctx_err] is the error of the job's context. The
    calls of the job function are returned with the error; a panic is recovered into an error. *)
Definition exec (cfg : JobConfiguration) (ctx_err : option string) : list job_context * option string :=
  let call c :=
    ([c], match Func cfg c with
          | JobReturns err => err
          | JobPanics r => Some ("panic in job: " +:+ r)
          end) in
  match ctx_err with
  | Some e => ([], Some e)
  | None =>
    if (StopMode cfg =? StopImmediate)%Z then call (UnderJob (Deadline cfg))
    else if (StopMode cfg =? StopGraceful)%Z then call (UnderBackground (Deadline cfg))
    else ([], None)
  end.

(** Whether the context the job runs with is cancelled by the cancellation of the job. *)
Definition follows_stop (c : job_context) : bool :=
  match c with UnderJob _ => true | UnderBackground _ => false end.

(** Whether the job function is called, with which context, and with which error: at most once and only under a
    live context; a graceful job survives the cancellation of its own context, an immediate one does not; a
    panic is an error. *)
Lemma exec_outcomes cfg ctx_err :
  (length (exec cfg ctx_err).1 <= 1)%nat
  /\ (forall e, ctx_err = Some e -> exec cfg ctx_err = ([], Some e))
  /\ (forall c, c ∈ (exec cfg ctx_err).1 -> follows_stop c = (StopMode cfg =? StopImmediate)%Z)
  /\ (forall c r, (exec cfg ctx_err).1 = [c] -> Func cfg c = JobPanics r ->
        (exec cfg ctx_err).2 = Some ("panic in job: " +:+ r)).
Proof.
  unfold exec. destruct ctx_err as [e|].
  { split_and!; [simpl; lia|by intros e' [= ->]|by intros c Hc%elem_of_nil|done]. }
  destruct (Z.eqb_spec (StopMode cfg) StopImmediate); simpl.
  { split_and!; [lia|done|by intros c ->%list_elem_of_singleton|]. by intros c r [= <-] ->. }
  destruct (Z.eqb_spec (StopMode cfg) StopGraceful); simpl.
  { split_and!; [lia|done|by intros c ->%list_elem_of_singleton|]. by intros c r [= <-] ->. }
  split_and!; [lia|done|by intros c Hc%elem_of_nil|done].
Qed.

(** ** State *)

(** A context of a job: the context it was derived from (the argument of [Start]) and its own number. *)
Definition context : Type := nat * nat.

(** A job: its configuration, its current context ([None] before the first [Start]: [ctx] and [cancel] are
    nil), its wait group, and whether its lock [rmu] is held by a call that panicked. *)
Record job := mkJob { cfg : JobConfiguration; jctx : option context; wg : nat; rmu_stuck : bool }.

(** A goroutine of a job: not yet scheduled (it was given the context [p]), at the top of the loop of [run],
    at the [select] with the context it has read, asking for a slot in [exec], holding one, running the
    function. *)
Inductive run_point := Launched (p : nat) | Top | Waiting (c : context) | Acquiring (c : context) | Holding | Running.

(** A call in flight. [Start] sets up the remaining jobs one by one; [Stop] waits for the remaining ones;
    [StopBlocked] waits for the lock of a job that is never released. *)
Inductive control :=
  | StartLock (p : nat) | StartJobs (p : nat) (names : list string)
  | StopLock | StopWait (names : list string) | StopBlocked.

(** [parents_done], [cancelled]: the cancelled contexts, given to [Start] and of jobs; [mu_stuck]: the mutex
    is held by a call that will not release it. *)
Record JobScheduler := mkS {
  started : bool; goroutines : gmap string job; rate : nat; rate_used : nat;
  cancelled : list nat; next_ctx : nat; parents_done : list nat; mu_stuck : bool;
  controls : list control; runners : list (string * run_point)
}.

Definition NewJobScheduler (r : Z) : JobScheduler :=
  mkS false ∅ (Z.to_nat (if (r <=? 0)%Z then 1 else r)) 0 [] 0 [] false [] [].

(** ** Atomic actions *)

Definition set_jobs (m : gmap string job) (s : JobScheduler) : JobScheduler :=
  mkS (started s) m (rate s) (rate_used s) (cancelled s) (next_ctx s) (parents_done s) (mu_stuck s) (controls s) (runners s).
Definition set_controls (l : list control) (s : JobScheduler) : JobScheduler :=
  mkS (started s) (goroutines s) (rate s) (rate_used s) (cancelled s) (next_ctx s) (parents_done s) (mu_stuck s) l (runners s).
Definition set_runners (used : nat) (l : list (string * run_point)) (s : JobScheduler) : JobScheduler :=
  mkS (started s) (goroutines s) (rate s) used (cancelled s) (next_ctx s) (parents_done s) (mu_stuck s) (controls s) l.
Definition set_locked (b : bool) (cs : list nat) (stuck : bool) (s : JobScheduler) : JobScheduler :=
  mkS b (goroutines s) (rate s) (rate_used s) cs (next_ctx s) (parents_done s) stuck (controls s) (runners s).
Definition cancel_parent (p : nat) (s : JobScheduler) : JobScheduler :=
  mkS (started s) (goroutines s) (rate s) (rate_used s) (cancelled s) (next_ctx s) (p :: parents_done s) (mu_stuck s) (controls s) (runners s).

Definition Add (s : JobScheduler) (c : JobConfiguration) : JobScheduler * option string :=
  if started s then (s, Some ("scheduler.Add(" +:+ Name c +:+ "): already started"))
  else match goroutines s !! Name c with
       | Some _ => (s, Some ("scheduler.Add(" +:+ Name c +:+ "): job already exists"))
       | None => (set_jobs (<[Name c := mkJob c None 0 false]> (goroutines s)) s, None)
       end.

Definition job_names (s : JobScheduler) : list string := (map_to_list (goroutines s)).*1.

(** The first critical section of [Start]. *)
Definition start_lock (s : JobScheduler) (p : nat) : JobScheduler * option control :=
  if started s then (s, None) else (set_locked true (cancelled s) (mu_stuck s) s, Some (StartJobs p (job_names s))).

(** One iteration of the second loop of [Start] under the lock of the job: the context, the ticker, the wait
    group, then the goroutine. [time.NewTicker] panics on a period that is not positive ([false]): the
    context is set and the lock of the job is not released. *)
Definition start_job (s : JobScheduler) (p : nat) (name : string) (j : job) : JobScheduler * bool :=
  let ok := (0 <? Tick (cfg j))%Z in
  (mkS (started s)
     (<[name := mkJob (cfg j) (Some (p, next_ctx s)) (if ok then S (wg j) else wg j) (negb ok)]> (goroutines s))
     (rate s) (rate_used s) (cancelled s) (S (next_ctx s)) (parents_done s) (mu_stuck s) (controls s)
     (if ok then runners s ++ [(name, Launched p)] else runners s), ok).

(** The first loop of [Stop], over the jobs in the order of the iteration: [j.cancel()] panics when it is nil
    ([None]), and the lock of the job is taken to stop its ticker ([Some StopBlocked] when it is stuck). *)
Fixpoint cancel_jobs (m : gmap string job) (order all : list string) (done : list nat) : list nat * option control :=
  match order with
  | [] => (done, Some (StopWait all))
  | n :: order =>
    match m !! n ≫= (fun j => c ← jctx j; Some (c.2, rmu_stuck j)) with
    | Some (c, false) => cancel_jobs m order all (c :: done)
    | Some (c, true) => (c :: done, Some StopBlocked)
    | None => (done, None)
    end
  end.

(** The critical section of [Stop]; [order] is the order of the iteration over the jobs. *)
Definition stop_lock (s : JobScheduler) (order : list string) : JobScheduler * option control :=
  if started s then
    let (done, k) := cancel_jobs (goroutines s) order order (cancelled s) in
    (set_locked false done (match k with Some (StopWait _) => mu_stuck s | _ => true end) s, k)
  else (s, None).

Definition ctx_done (s : JobScheduler) (c : context) : bool :=
  bool_decide (c.1 ∈ parents_done s) || bool_decide (c.2 ∈ cancelled s).

(** [j.ctx], read under no lock or under the read lock of the job. *)
Definition job_ctx (s : JobScheduler) (name : string) : option context := goroutines s !! name ≫= jctx.

Inductive action :=
  | CallAdd (c : JobConfiguration) | CallStart (p : nat) | CallStop | ParentCancel (p : nat)
  | Lock (i : nat) (order : list string)
  | StartNext (i k : nat) | StartReturn (i : nat)
  | StopNext (i k : nat) | StopReturn (i : nat)
  | GoLaunch (i : nat) | GoTop (i : nat) | GoDone (i : nat) | GoTick (i : nat)
  | GoGiveUp (i : nat) | GoAcquire (i : nat) | GoCheck (i : nat) | GoFinish (i : nat).

Definition done_job (name : string) (m : gmap string job) : gmap string job :=
  alter (fun j => mkJob (cfg j) (jctx j) (wg j - 1) (rmu_stuck j)) name m.

(** The goroutine [i] goes to the point [q], or ends. *)
Definition goto (i : nat) (name : string) (used : nat) (q : run_point) (s : JobScheduler) : option JobScheduler :=
  Some (set_runners used (<[i := (name, q)]> (runners s)) s).

(** The steps of a job's goroutine number [i] for the job [name], at the point [p]. *)
Definition runner_action (s : JobScheduler) (i : nat) (name : string) (p : run_point) (a : action) : option JobScheduler :=
  match a, p with
  (** [GoRecover] does not call the function when the context is already cancelled. *)
  | GoLaunch _, Launched q =>
    if bool_decide (q ∈ parents_done s) then Some (set_runners (rate_used s) (delete i (runners s)) s)
    else goto i name (rate_used s) Top s
  | GoTop _, Top =>
    j ← goroutines s !! name; c ← (if rmu_stuck j then None else jctx j);
    goto i name (rate_used s) (Waiting c) s
  (** [case <-ctx.Done(): return], with the deferred [wg.Done]. *)
  | GoDone _, Waiting c =>
    if ctx_done s c then
      Some (set_jobs (done_job name (goroutines s)) (set_runners (rate_used s) (delete i (runners s)) s))
    else None
  | GoTick _, Waiting _ => c ← job_ctx s name; goto i name (rate_used s) (Acquiring c) s
  | GoGiveUp _, Acquiring c => if ctx_done s c then goto i name (rate_used s) Top s else None
  | GoAcquire _, Acquiring _ =>
    if (rate_used s <? rate s)%nat then goto i name (S (rate_used s)) Holding s else None
  | GoCheck _, Holding =>
    c ← job_ctx s name;
    if ctx_done s c then goto i name (rate_used s - 1) Top s else goto i name (rate_used s) Running s
  | GoFinish _, Running => goto i name (rate_used s - 1) Top s
  | _, _ => None
  end.

Definition runner_of (a : action) : option nat :=
  match a with
  | GoLaunch i | GoTop i | GoDone i | GoTick i | GoGiveUp i | GoAcquire i | GoCheck i | GoFinish i => Some i
  | _ => None
  end.

Definition sched_action (s : JobScheduler) (a : action) : option JobScheduler :=
  match a with
  | CallAdd c => if mu_stuck s then None else Some (Add s c).1
  | CallStart p => Some (set_controls (controls s ++ [StartLock p]) s)
  | CallStop => Some (set_controls (controls s ++ [StopLock]) s)
  | ParentCancel p => Some (cancel_parent p s)
  | Lock i order =>
    if mu_stuck s || negb (bool_decide (order ≡ₚ job_names s)) then None
    else match controls s !! i with
         | Some (StartLock p) => let (s', k) := start_lock s p in Some (set_controls (put i k (controls s)) s')
         | Some StopLock => let (s', k) := stop_lock s order in Some (set_controls (put i k (controls s)) s')
         | _ => None
         end
  | StartNext i k =>
    match controls s !! i with
    | Some (StartJobs p names) =>
      name ← names !! k; j ← goroutines s !! name;
      if rmu_stuck j then None
      else let (s', ok) := start_job s p name j in
           Some (set_controls (put i (if ok then Some (StartJobs p (delete k names)) else None) (controls s)) s')
    | _ => None
    end
  | StartReturn i =>
    match controls s !! i with
    | Some (StartJobs _ []) => Some (set_controls (delete i (controls s)) s)
    | _ => None
    end
  | StopNext i k =>
    match controls s !! i with
    | Some (StopWait names) =>
      name ← names !! k; j ← goroutines s !! name;
      if (wg j =? 0)%nat then Some (set_controls (<[i := StopWait (delete k names)]> (controls s)) s) else None
    | _ => None
    end
  | StopReturn i =>
    match controls s !! i with
    | Some (StopWait []) => Some (set_controls (delete i (controls s)) s)
    | _ => None
    end
  | _ => i ← runner_of a; r ← runners s !! i; runner_action s i r.1 r.2 a
  end.

Definition step : JobScheduler -> JobScheduler -> Prop := acts_step sched_action.

Notation run_actions := (run_all sched_action).

(** Calls of [Start] and [Stop] that do not overlap. *)
Definition is_control_call (a : action) : bool := match a with CallStart _ | CallStop => true | _ => false end.

Definition idle (s : JobScheduler) : bool := match controls s with [] => true | _ => false end.

Definition serial_step : JobScheduler -> JobScheduler -> Prop := serial_acts_step sched_action is_control_call idle.

Lemma no_call_in_flight s : idle s = true -> controls s = [].
Proof. unfold idle. by destruct (controls s). Qed.

(** ** TaskSupervisor *)

(** The interface [JobSchedulerInterface], as effects on a world. *)
Record JobSchedulerInterface (World : Type) := { iStart : World -> World; iStop : World -> World }.
Arguments iStart {World} _.
Arguments iStop {World} _.

Definition TaskSupervisor_Start {World} (schedulers : list (JobSchedulerInterface World)) (w : World) : World :=
  foldl (fun w s => iStart s w) w schedulers.

Definition TaskSupervisor_Stop {World} (schedulers : list (JobSchedulerInterface World)) (w : World) : World :=
  foldl (fun w s => iStop s w) w schedulers.

#[local] Arguments start_job : simpl never.
#[local] Arguments start_lock : simpl never.
#[local] Arguments stop_lock : simpl never.
#[local] Arguments Add : simpl never.
#[local] Arguments runner_action : simpl never.

(** ** What a step of a goroutine changes *)

(** It holds a slot of the rate limiter. *)
Definition busy (r : string * run_point) : bool := match r.2 with Holding | Running => true | _ => false end.
Definition executes (r : string * run_point) : bool := match r.2 with Running => true | _ => false end.
Definition named (n : string) (r : string * run_point) : bool := bool_decide (r.1 = n).

(** The context a goroutine has read. *)
Definition read_ctx (p : run_point) : option context :=
  match p with Waiting c | Acquiring c => Some c | _ => None end.

(** It goes on, it is not run because its context was cancelled first, or it ends. *)
Inductive runner_step (s : JobScheduler) (i : nat) (n : string) (p : run_point) : JobScheduler -> Prop :=
  | RunnerGoes q used :
      used + Nat.b2n (busy (n, p)) = rate_used s + Nat.b2n (busy (n, q)) \/ (used = rate_used s - 1 /\ busy (n, p) = true /\ busy (n, q) = false) ->
      used <= rate_used s \/ used <= rate s ->
      read_ctx q = None \/ read_ctx q = job_ctx s n ->
      runner_step s i n p (set_runners used (<[i := (n, q)]> (runners s)) s)
  | RunnerSkipped q : p = Launched q -> q ∈ parents_done s ->
      runner_step s i n p (set_runners (rate_used s) (delete i (runners s)) s)
  | RunnerEnds c : p = Waiting c -> ctx_done s c = true ->
      runner_step s i n p
        (set_jobs (done_job n (goroutines s)) (set_runners (rate_used s) (delete i (runners s)) s)).

Lemma runner_action_step s i n p a s' : runner_action s i n p a = Some s' -> runner_step s i n p s'.
Proof.
  assert (forall c, job_ctx s n = Some c -> Some c = job_ctx s n) by done.
  destruct a, p; unfold runner_action, goto; simpl; try done; intros E.
  - case_bool_decide; simplify_eq; [by eapply RunnerSkipped|]. apply RunnerGoes; simpl; auto.
  - destruct (goroutines s !! n) as [j|] eqn:Ej; [|done]. simpl in E.
    destruct (rmu_stuck j); [done|]. simpl in E. destruct (jctx j) as [c|] eqn:Ec; [|done]. simplify_eq/=.
    apply RunnerGoes; simpl; auto. right. unfold job_ctx. by rewrite Ej.
  - case_match; simplify_eq. by eapply RunnerEnds.
  - destruct (job_ctx s n) as [c'|] eqn:Ec; [|done]. simplify_eq/=. apply RunnerGoes; simpl; auto.
  - case_match; simplify_eq. apply RunnerGoes; simpl; auto.
  - destruct (Nat.ltb_spec (rate_used s) (rate s)); [|done]. simplify_eq.
    apply RunnerGoes; simpl; auto; lia.
  - destruct (job_ctx s n) as [c'|] eqn:Ec; [|done]. simpl in E.
    case_match; simplify_eq; apply RunnerGoes; simpl; auto; lia.
  - simplify_eq. apply RunnerGoes; simpl; auto; lia.
Qed.

(** A step is a call, or a step of one goroutine. *)
Lemma sched_action_runner s a s' :
  sched_action s a = Some s' ->
  match runner_of a with
  | Some i => exists n p, runners s !! i = Some (n, p) /\ runner_step s i n p s'
  | None => True
  end.
Proof.
  destruct (runner_of a) as [i|] eqn:Ea; [|done]. intros E.
  assert (exists r, runners s !! i = Some r /\ runner_action s i r.1 r.2 a = Some s') as (r & Hr & Hs).
  { destruct a; try done; simpl in Ea; simplify_eq; cbn [sched_action runner_of mbind option_bind] in E;
      (destruct (runners s !! i) as [r|] eqn:Ei; [|done]); by exists r. }
  destruct r as [n p]. exists n, p. split; [done|by eapply runner_action_step].
Qed.

(** ** Invariants of all interleavings *)

(** A slot of the rate limiter per goroutine that executes; the goroutines of a job are counted by its
    wait group, and the job has a context. *)
Definition sched_inv (s : JobScheduler) : Prop :=
  rate_used s = countb busy (runners s)
  /\ rate_used s <= rate s
  /\ (forall n p, (n, p) ∈ runners s -> is_Some (job_ctx s n))
  /\ (forall n j, goroutines s !! n = Some j -> countb (named n) (runners s) <= wg j).

Lemma named_refl n p : named n (n, p) = true.
Proof. by apply bool_decide_eq_true. Qed.

Lemma runner_step_inv s i n p s' :
  runners s !! i = Some (n, p) -> runner_step s i n p s' -> sched_inv s -> sched_inv s'.
Proof.
  intros Hi Hs (Hu & Hr & Hd & Hw). destruct Hs as [q used Hused Hle _|q -> _|c -> _]; unfold sched_inv; simpl.
  - pose proof (countb_insert busy (runners s) i _ (n, q) Hi) as Hb.
    split_and!; [|lia| |].
    + destruct Hused as [?|(-> & H1 & H2)]; [lia|]. rewrite H1, H2 in Hb. simpl in Hb. lia.
    + intros m q' [[= <- <-]|Hin]%(elem_of_put i (Some (n, q))); [|by eapply Hd].
      eapply Hd. by eapply list_elem_of_lookup_2.
    + intros m j Hj. pose proof (countb_insert (named m) (runners s) i _ (n, q) Hi) as Hc.
      specialize (Hw m j Hj). unfold named in *. simpl in *. lia.
  - pose proof (countb_delete busy (runners s) i _ Hi) as Hb. simpl in Hb. split_and!; [lia|done| |].
    + intros m q' Hin. eapply Hd, elem_of_sublist; [exact Hin|apply sublist_delete].
    + intros m j Hj. pose proof (countb_delete (named m) (runners s) i _ Hi) as Hc.
      specialize (Hw m j Hj). lia.
  - pose proof (countb_delete busy (runners s) i _ Hi) as Hb. simpl in Hb. split_and!; [lia|done| |].
    + intros m q' Hin. destruct (Hd m q') as [c' Hc'].
      { eapply elem_of_sublist; [exact Hin|apply sublist_delete]. }
      unfold job_ctx, done_job in *. simpl. destruct (decide (m = n)) as [->|Hne].
      * rewrite lookup_alter_eq. destruct (goroutines s !! n); [|done]. simpl in *. by eexists.
      * rewrite lookup_alter_ne by done. by eexists.
    + intros m j Hj. pose proof (countb_delete (named m) (runners s) i _ Hi) as Hc.
      unfold done_job in Hj. destruct (decide (m = n)) as [->|Hne].
      * rewrite lookup_alter_eq in Hj. apply fmap_Some in Hj as (j0 & Hj0 & ->). simpl.
        specialize (Hw n j0 Hj0). rewrite named_refl in Hc. simpl in Hc. lia.
      * rewrite lookup_alter_ne in Hj by done. specialize (Hw m j Hj). lia.
Qed.

(** The calls keep the goroutines and the slots; only [Start] and [Add] write jobs. *)
Lemma sched_inv_frame s s' :
  goroutines s' = goroutines s -> runners s' = runners s -> rate_used s' = rate_used s -> rate s' = rate s ->
  sched_inv s -> sched_inv s'.
Proof. unfold sched_inv, job_ctx. intros -> -> -> ->. done. Qed.

Lemma start_job_inv s p n j s' ok :
  goroutines s !! n = Some j -> start_job s p n j = (s', ok) -> sched_inv s -> sched_inv s'.
Proof.
  unfold start_job. intros Hj [= <- <-] (Hu & Hr & Hd & Hw). unfold sched_inv, job_ctx in *. simpl.
  set (ok := (0 <? Tick (cfg j))%Z).
  assert (forall f, countb f (if ok then runners s ++ [(n, Launched p)] else runners s)
    = countb f (runners s) + (if ok then Nat.b2n (f (n, Launched p)) else 0)) as Hc.
  { intros f. destruct ok; [rewrite countb_app; simpl; lia|lia]. }
  split_and!; [rewrite Hc; destruct ok; simpl; lia|done| |].
  - intros m q Hin. destruct (decide (m = n)) as [->|Hne].
    { rewrite lookup_insert_eq. simpl. by eexists. }
    rewrite lookup_insert_ne by done. apply (Hd m q). destruct ok; [|done].
    apply elem_of_app in Hin as [Hin|Hin]; [done|]. apply list_elem_of_singleton in Hin. by simplify_eq.
  - intros m j' Hj'. rewrite Hc. apply lookup_insert_Some in Hj' as [[<- <-]|[Hne Hj']].
    + specialize (Hw n j Hj). rewrite named_refl. destruct ok; simpl; lia.
    + specialize (Hw m j' Hj'). unfold named at 2. simpl. rewrite bool_decide_false by done.
      destruct ok; simpl; lia.
Qed.

Lemma add_inv s c : sched_inv s -> sched_inv (Add s c).1.
Proof.
  intros Hinv. unfold Add. destruct (started s); [done|].
  destruct (goroutines s !! Name c) as [j|] eqn:Ej; [done|]. simpl.
  destruct Hinv as (Hu & Hr & Hd & Hw). unfold sched_inv, job_ctx in *. simpl.
  assert (forall n p, (n, p) ∈ runners s -> n <> Name c) as Hnew.
  { intros n p Hin ->. destruct (Hd _ _ Hin) as [? H]. rewrite Ej in H. done. }
  split_and!; [done|done| |].
  - intros n p Hin. rewrite lookup_insert_ne by (by apply not_eq_sym, (Hnew n p)). by apply (Hd n p).
  - intros n j Hj. apply lookup_insert_Some in Hj as [[<- <-]|[Hne Hj]]; [|by apply Hw].
    simpl. destruct (countb (named (Name c)) (runners s)) eqn:E; [lia|]. exfalso.
    assert (forall l : list (string * run_point), (forall n p, (n, p) ∈ l -> n <> Name c) -> countb (named (Name c)) l = 0) as Hz.
    { induction l as [|[m q] l IH]; intros Hl; [done|]. simpl. unfold named. simpl.
      rewrite bool_decide_false by (apply (Hl m q); left). simpl. apply IH.
      intros n' p' Hin. apply (Hl n' p'). by right. }
    rewrite Hz in E by done. done.
Qed.

Lemma start_lock_frame s p s' k :
  start_lock s p = (s', k) ->
  goroutines s' = goroutines s /\ runners s' = runners s /\ rate_used s' = rate_used s /\ rate s' = rate s
  /\ parents_done s' = parents_done s /\ cancelled s' = cancelled s.
Proof. unfold start_lock. intros E. case_match; by simplify_eq. Qed.

Lemma stop_lock_frame s order s' k :
  stop_lock s order = (s', k) ->
  goroutines s' = goroutines s /\ runners s' = runners s /\ rate_used s' = rate_used s /\ rate s' = rate s
  /\ parents_done s' = parents_done s.
Proof.
  unfold stop_lock. intros E. destruct (started s); [|by simplify_eq].
  destruct (cancel_jobs _ _ _ _) as [done' k']. by simplify_eq.
Qed.

Lemma sched_inv_step s s' : sched_inv s -> step s s' -> sched_inv s'.
Proof.
  intros Hinv [a Ha]. pose proof (sched_action_runner s a s' Ha) as Hrun.
  destruct (runner_of a) as [i|] eqn:Er.
  { destruct Hrun as (n & p & Hi & Hs). by eapply runner_step_inv. }
  destruct a; try done; simpl in Ha.
  - destruct (mu_stuck s); [done|]. simplify_eq. by apply add_inv.
  - simplify_eq. apply (sched_inv_frame s); simpl; try done; congruence.
  - simplify_eq. apply (sched_inv_frame s); simpl; try done; congruence.
  - simplify_eq. apply (sched_inv_frame s); simpl; try done; congruence.
  - destruct (mu_stuck s || _); [done|]. destruct (controls s !! i) as [[]|]; try done.
    + destruct (start_lock s p) as [s1 k] eqn:E. simplify_eq.
      apply start_lock_frame in E as (?&?&?&?&_). apply (sched_inv_frame s); simpl; try done; congruence.
    + destruct (stop_lock s order) as [s1 k] eqn:E. simplify_eq.
      apply stop_lock_frame in E as (?&?&?&?&_). apply (sched_inv_frame s); simpl; try done; congruence.
  - destruct (controls s !! i) as [[]|]; try done.
    destruct (names !! k) as [n|]; [|done]. simpl in Ha.
    destruct (goroutines s !! n) as [j|] eqn:Ej; [|done]. simpl in Ha.
    destruct (rmu_stuck j); [done|]. injection Ha as <-.
    apply (sched_inv_frame (start_job s p n j).1); [done..|].
    eapply start_job_inv; [exact Ej|apply surjective_pairing|done].
  - destruct (controls s !! i) as [[| ? [] | | |]|]; try done. simplify_eq. apply (sched_inv_frame s); simpl; try done; congruence.
  - destruct (controls s !! i) as [[]|]; try done.
    destruct (names !! k) as [n|]; [|done]. simpl in Ha.
    destruct (goroutines s !! n) as [j|] eqn:Ej; [|done]. simpl in Ha.
    case_match; simplify_eq. apply (sched_inv_frame s); simpl; try done; congruence.
  - destruct (controls s !! i) as [[| | | [] |]|]; try done. simplify_eq. apply (sched_inv_frame s); simpl; try done; congruence.
Qed.

Lemma new_sched_inv r : sched_inv (NewJobScheduler r).
Proof. unfold sched_inv. simpl. split_and!; [done|lia|set_solver|set_solver]. Qed.

Lemma sched_reachable r s : rtc step (NewJobScheduler r) s -> sched_inv s.
Proof. intros H. eapply (rtc_invariant step); [apply sched_inv_step|exact H|apply new_sched_inv]. Qed.

(** ** A goroutine that was skipped *)

(** The wait group of [n] counts a goroutine that does not exist. *)
Definition leaked (n : string) (s : JobScheduler) : Prop :=
  exists j, goroutines s !! n = Some j /\ countb (named n) (runners s) < wg j.

Lemma leaked_runner_step n s i m p s' :
  runners s !! i = Some (m, p) -> runner_step s i m p s' -> leaked n s -> leaked n s'.
Proof.
  intros Hi Hs (j & Hj & Hlt). destruct Hs as [q used _ _ _|q _ _|c _ _].
  - exists j. simpl. split; [done|].
    pose proof (countb_insert (named n) (runners s) i _ (m, q) Hi) as Hc. unfold named in *. simpl in *. lia.
  - exists j. simpl. split; [done|]. pose proof (countb_delete (named n) (runners s) i _ Hi). lia.
  - unfold leaked, done_job. simpl. pose proof (countb_delete (named n) (runners s) i _ Hi) as Hc.
    destruct (decide (n = m)) as [<-|Hne].
    + eexists. rewrite lookup_alter_eq, Hj. simpl. split; [done|]. simpl.
      rewrite named_refl in Hc. simpl in Hc. lia.
    + exists j. rewrite lookup_alter_ne by done. split; [done|]. lia.
Qed.

Lemma leaked_step n s s' : leaked n s -> step s s' -> leaked n s'.
Proof.
  intros Hl [a Ha]. pose proof (sched_action_runner s a s' Ha) as Hrun.
  destruct (runner_of a) as [i|] eqn:Er.
  { destruct Hrun as (m & p & Hi & Hs). by eapply leaked_runner_step. }
  destruct Hl as (j & Hj & Hlt). destruct a; try done; simpl in Ha.
  - destruct (mu_stuck s); [done|]. injection Ha as <-. exists j. unfold Add.
    destruct (started s); [done|]. destruct (goroutines s !! Name c) eqn:En; [done|]. simpl.
    rewrite lookup_insert_ne; [done|congruence].
  - injection Ha as <-. by exists j.
  - injection Ha as <-. by exists j.
  - injection Ha as <-. by exists j.
  - destruct (mu_stuck s || _); [done|]. destruct (controls s !! i) as [[]|]; try done.
    + destruct (start_lock s p) as [s1 k] eqn:E. injection Ha as <-.
      apply start_lock_frame in E as (E1&E2&_). exists j. simpl. by rewrite E1, E2.
    + destruct (stop_lock s order) as [s1 k] eqn:E. injection Ha as <-.
      apply stop_lock_frame in E as (E1&E2&_). exists j. simpl. by rewrite E1, E2.
  - destruct (controls s !! i) as [[]|]; try done.
    destruct (names !! k) as [m|]; [|done]. simpl in Ha.
    destruct (goroutines s !! m) as [j'|] eqn:Ej; [|done]. simpl in Ha.
    destruct (rmu_stuck j'); [done|]. injection Ha as <-. unfold leaked. simpl.
    destruct (decide (n = m)) as [<-|Hne].
    + eexists. rewrite lookup_insert_eq. split; [done|]. simpl. simplify_eq.
      destruct (0 <? Tick (cfg j))%Z; [|done]. rewrite countb_app. simpl. rewrite named_refl. simpl. lia.
    + exists j. rewrite lookup_insert_ne by done. split; [done|].
      destruct (0 <? Tick (cfg j'))%Z; [|done]. rewrite countb_app. simpl. unfold named at 2. simpl.
      rewrite bool_decide_false by done. simpl. lia.
  - destruct (controls s !! i) as [[| ? [] | | |]|]; try done. injection Ha as <-. by exists j.
  - destruct (controls s !! i) as [[]|]; try done.
    destruct (names !! k) as [m|]; [|done]. simpl in Ha.
    destruct (goroutines s !! m) as [j'|] eqn:Ej; [|done]. simpl in Ha.
    case_match; simplify_eq. by exists j.
  - destruct (controls s !! i) as [[| | | [] |]|]; try done. injection Ha as <-. by exists j.
Qed.

(** ** Calls that do not overlap *)

Definition all_idle (s : JobScheduler) : Prop := forall n j, goroutines s !! n = Some j -> wg j = 0.

(** What holds between the actions of the one call in flight, if any. *)
Definition phase (s : JobScheduler) : Prop :=
  match controls s with
  | [] | [StartLock _] | [StopLock] => mu_stuck s = true \/ started s = true \/ all_idle s
  | [StartJobs _ names] =>
    started s = true /\ NoDup names
    /\ forall n j, n ∈ names -> goroutines s !! n = Some j -> wg j = 0
  | [StopWait names] =>
    started s = false
    /\ (forall n, n ∈ names -> is_Some (goroutines s !! n))
    /\ (forall n j, goroutines s !! n = Some j -> n ∉ names -> wg j = 0)
    /\ (forall n j c, goroutines s !! n = Some j -> jctx j = Some c -> c.2 ∈ cancelled s /\ rmu_stuck j = false)
  | [StopBlocked] => mu_stuck s = true
  | _ => False
  end.

Definition serial_inv (s : JobScheduler) : Prop :=
  (forall n p c, (n, p) ∈ runners s -> read_ctx p = Some c -> job_ctx s n = Some c)
  /\ (parents_done s = [] -> forall n j, goroutines s !! n = Some j -> wg j = countb (named n) (runners s))
  /\ phase s.

(** A goroutine's step changes nothing of a job but its wait group. *)
Lemma runner_step_frame s i n p s' :
  runner_step s i n p s' ->
  controls s' = controls s /\ started s' = started s /\ mu_stuck s' = mu_stuck s
  /\ cancelled s' = cancelled s /\ parents_done s' = parents_done s
  /\ (forall m, is_Some (goroutines s !! m) -> is_Some (goroutines s' !! m))
  /\ forall m j', goroutines s' !! m = Some j' ->
       exists j, goroutines s !! m = Some j /\ jctx j' = jctx j /\ rmu_stuck j' = rmu_stuck j /\ wg j' <= wg j.
Proof.
  intros [q used _ _ _|q _ _|c _ _]; simpl; split_and!; try done.
  1-2: intros m j' Hj'; exists j'; split_and!; [done..|lia].
  - intros m. unfold done_job. by rewrite lookup_alter_is_Some.
  - intros m j' Hj'. unfold done_job in Hj'. destruct (decide (m = n)) as [->|Hne].
    + rewrite lookup_alter_eq in Hj'. apply fmap_Some in Hj' as (j & Hj & ->).
      exists j. split_and!; [done..|simpl; lia].
    + rewrite lookup_alter_ne in Hj' by done. exists j'. split_and!; [done..|lia].
Qed.

Lemma phase_runner_step s i n p s' : runner_step s i n p s' -> phase s -> phase s'.
Proof.
  intros (E1 & E2 & E3 & E4 & _ & Hd & Hj)%runner_step_frame. unfold phase. rewrite E1, E2, E3, E4.
  assert (all_idle s -> all_idle s') as Hidle.
  { intros Hi m j' (j & Hm & _ & _ & Hle)%Hj. specialize (Hi m j Hm). lia. }
  destruct (controls s) as [|[] [|]]; try done; try (intros [?|[?|?] ]; auto; fail).
  - intros (H1 & H2 & H3). split_and!; [done..|]. intros m j' Hin (j & Hm & _ & _ & Hle)%Hj.
    specialize (H3 m j Hin Hm). lia.
  - intros (H1 & H2 & H3 & H4). split_and!; [done|by auto| |].
    + intros m j' (j & Hm & _ & _ & Hle)%Hj Hin. specialize (H3 m j Hm Hin). lia.
    + intros m j' c (j & Hm & -> & -> & _)%Hj. exact (H4 m j c Hm).
Qed.

Lemma serial_runner_step s i n p s' :
  sched_inv s -> runners s !! i = Some (n, p) -> runner_step s i n p s' -> serial_inv s -> serial_inv s'.
Proof.
  intros (_ & _ & _ & Hw) Hi Hs (HA & HB & HC). assert (phase s') as HC' by (by eapply phase_runner_step).
  destruct Hs as [q used _ _ Hq|q _ Hq|c _ _]; split_and!; try done; simpl.
  - intros m r c [[= <- <-]|Hin]%(elem_of_put i (Some (n, q))) Hr; [|by eapply HA].
    destruct Hq as [Hq|Hq]; [congruence|]. unfold job_ctx in *. simpl. congruence.
  - intros Hp m j Hj. rewrite (HB Hp m j Hj).
    pose proof (countb_insert (named m) (runners s) i _ (n, q) Hi). unfold named in *. simpl in *. lia.
  - intros m r c Hin Hr. eapply HA; [|done]. eapply elem_of_sublist; [exact Hin|apply sublist_delete].
  - intros Hp. rewrite Hp in Hq. by apply elem_of_nil in Hq.
  - intros m r c' Hin Hr. assert (job_ctx s m = Some c') as Hc.
    { eapply HA; [|done]. eapply elem_of_sublist; [exact Hin|apply sublist_delete]. }
    unfold job_ctx, done_job in *. simpl. destruct (decide (m = n)) as [->|Hne].
    + rewrite lookup_alter_eq. by destruct (goroutines s !! n).
    + by rewrite lookup_alter_ne.
  - intros Hp m j Hj. pose proof (countb_delete (named m) (runners s) i _ Hi) as Hc. unfold done_job in Hj.
    destruct (decide (m = n)) as [->|Hne].
    + rewrite lookup_alter_eq in Hj. apply fmap_Some in Hj as (j0 & Hj0 & ->). simpl.
      rewrite (HB Hp n j0 Hj0). rewrite named_refl in Hc. simpl in Hc. lia.
    + rewrite lookup_alter_ne in Hj by done. rewrite (HB Hp m j Hj).
      unfold named at 2 in Hc. simpl in Hc. rewrite bool_decide_false in Hc by done. simpl in Hc. lia.
Qed.

Lemma cancel_jobs_spec m order all done done' k :
  cancel_jobs m order all done = (done', k) ->
  (forall c, c ∈ done -> c ∈ done') /\
  match k with
  | Some (StopWait l) => l = all /\ forall n, n ∈ order ->
      exists j c, m !! n = Some j /\ jctx j = Some c /\ c.2 ∈ done' /\ rmu_stuck j = false
  | Some StopBlocked | None => True
  | _ => False
  end.
Proof.
  revert done. induction order as [|n order IH]; simpl; intros done E.
  - simplify_eq. split; [done|]. split; [done|]. intros n Hn. by apply elem_of_nil in Hn.
  - destruct (m !! n) as [j|] eqn:Ej; simpl in E; [|by simplify_eq].
    destruct (jctx j) as [c|] eqn:Ec; simpl in E; [|by simplify_eq].
    destruct (rmu_stuck j) eqn:Es; [simplify_eq; split; [|done]; intros; by right|].
    apply IH in E as [Hm Hk]. split; [intros; apply Hm; by right|].
    destruct k as [[]|]; try done. destruct Hk as [-> Hk]. split; [done|].
    intros n' [->|Hn']%elem_of_cons; [|by apply Hk]. exists j, c. split_and!; try done. apply Hm. left.
Qed.

Lemma elem_of_job_names s n : n ∈ job_names s <-> is_Some (goroutines s !! n).
Proof.
  unfold job_names. rewrite list_elem_of_fmap. split.
  - intros ([n' j] & -> & Hin). exists j. by apply elem_of_map_to_list.
  - intros [j Hj]. exists (n, j). split; [done|]. by apply elem_of_map_to_list.
Qed.

Lemma phase_lock_start s p s' k order :
  controls s = [StartLock p] -> phase s -> mu_stuck s = false -> start_lock s p = (s', k) ->
  order ≡ₚ job_names s -> phase (set_controls (put 0 k (controls s)) s').
Proof.
  intros Hk Hp Hm E _. unfold phase in *. rewrite Hk in *. unfold start_lock in E.
  destruct Hp as [?|Hp]; [congruence|].
  destruct (started s) eqn:Est; simplify_eq; simpl; [by auto|].
  split_and!; [done|apply NoDup_fst_map_to_list|]. destruct Hp as [?|Hp]; [done|].
  intros n j _ Hj. by eapply Hp.
Qed.

Lemma phase_lock_stop s s' k order :
  controls s = [StopLock] -> phase s -> mu_stuck s = false -> stop_lock s order = (s', k) ->
  order ≡ₚ job_names s -> phase (set_controls (put 0 k (controls s)) s').
Proof.
  intros Hk Hp Hm E Ho. unfold phase in *. rewrite Hk in *. unfold stop_lock in E.
  destruct Hp as [?|Hp]; [congruence|].
  destruct (started s) eqn:Est; [|simplify_eq; simpl; rewrite Est; by naive_solver].
  destruct (cancel_jobs (goroutines s) order order (cancelled s)) as [done' k'] eqn:Ec. simplify_eq.
  apply cancel_jobs_spec in Ec as [_ Hc].
  destruct k as [[]|]; simpl in *; try done; [|by left].
  destruct Hc as [-> Hc].
  assert (forall n j, goroutines s !! n = Some j -> n ∈ order) as Hall.
  { intros n j Hj. rewrite Ho. apply elem_of_job_names. by exists j. }
  split_and!; [done| | |].
  - intros n (j & c & -> & _)%Hc. by eexists.
  - intros n j Hj Hn. exfalso. by eapply Hn, Hall.
  - intros n j c Hj Hjc. destruct (Hc n) as (j' & c' & Hj' & Hc' & Hin & Hrs); [by eapply Hall|]. by simplify_eq.
Qed.

Lemma singleton_lookup {A} (l : list A) i x :
  (length l <= 1) -> l !! i = Some x -> l = [x] /\ i = 0.
Proof. destruct l as [|y [|]]; destruct i; simpl; intros; simplify_eq; try done; lia. Qed.

Lemma phase_length s : phase s -> length (controls s) <= 1.
Proof. unfold phase. destruct (controls s) as [|[] [|]]; simpl; try done; lia. Qed.

Lemma serial_start_next s p names k n j :
  sched_inv s -> serial_inv s -> controls s = [StartJobs p names] ->
  names !! k = Some n -> goroutines s !! n = Some j ->
  let (s', ok) := start_job s p n j in
  serial_inv (set_controls (put 0 (if ok then Some (StartJobs p (delete k names)) else None) (controls s)) s').
Proof.
  intros (_ & _ & _ & Hw) (HA & HB & HC) Hk Hn Hj. unfold phase in HC. rewrite Hk in HC.
  destruct HC as (Hst & Hnd & Hidle).
  assert (n ∈ names) as Hin by (by eapply list_elem_of_lookup_2).
  assert (wg j = 0) as H0 by (by eapply Hidle). assert (Hwj := Hw n j Hj).
  assert (forall q, (n, q) ∉ runners s) as Hno.
  { intros q Hq. pose proof (countb_pos (named n) _ _ Hq (named_refl _ _)). lia. }
  unfold start_job. destruct (0 <? Tick (cfg j))%Z; rewrite Hk; split_and!; simpl.
  - intros m q c [Hm|[= -> ->]%list_elem_of_singleton]%elem_of_app Hr; [|done].
    unfold job_ctx. simpl. destruct (decide (m = n)) as [->|Hne]; [by apply Hno in Hm|].
    rewrite lookup_insert_ne by done. by eapply HA.
  - intros Hp m jm Hm. rewrite countb_app. simpl. apply lookup_insert_Some in Hm as [[<- <-]|[Hne Hm]]; simpl.
    + rewrite named_refl. simpl. lia.
    + rewrite (HB Hp m jm Hm). unfold named at 3. simpl. rewrite bool_decide_false by done. simpl. lia.
  - unfold phase. simpl. split_and!; [done|by eapply sublist_NoDup; [|apply sublist_delete]|].
    intros m jm Hm Hjm. apply lookup_insert_Some in Hjm as [[<- <-]|[Hne Hjm]]; simpl.
    + exfalso. apply (elem_of_Permutation) in Hm as [l Hl].
      pose proof (delete_Permutation names k n Hn) as Hperm. rewrite Hperm, Hl in Hnd.
      inversion_clear Hnd as [|? ? Hnot _]. apply Hnot. left.
    + eapply Hidle; [|done]. eapply elem_of_sublist; [exact Hm|apply sublist_delete].
  - intros m q c Hm Hr. unfold job_ctx. simpl. destruct (decide (m = n)) as [->|Hne]; [by apply Hno in Hm|].
    rewrite lookup_insert_ne by done. by eapply HA.
  - intros Hp m jm Hm. apply lookup_insert_Some in Hm as [[<- <-]|[Hne Hm]]; simpl; [by apply HB|by apply HB].
  - unfold phase. simpl. auto.
Qed.

Lemma serial_add s c : sched_inv s -> serial_inv s -> serial_inv (Add s c).1.
Proof.
  intros Hinv (HA & HB & HC). unfold Add. destruct (started s) eqn:Est; [done|].
  destruct (goroutines s !! Name c) eqn:En; [done|]. simpl.
  assert (sched_inv (set_jobs (<[Name c := mkJob c None 0 false]> (goroutines s)) s)) as (_ & _ & _ & Hw).
  { pose proof (add_inv s c Hinv) as H. unfold Add in H. by rewrite Est, En in H. }
  destruct Hinv as (_ & _ & Hd & _).
  split_and!; simpl.
  - intros m q c' Hin Hr. unfold job_ctx in *. simpl. rewrite lookup_insert_ne.
    + by eapply HA.
    + intros <-. destruct (Hd _ _ Hin) as [? H]. by rewrite En in H.
  - intros Hp m j Hm. assert (Hle := Hw m j Hm). simpl in Hle.
    apply lookup_insert_Some in Hm as [[<- <-]|[Hne Hm]]; simpl in *; [lia|by apply HB].
  - unfold phase in *. simpl. rewrite Est in *.
    assert (all_idle s -> all_idle (set_jobs (<[Name c := mkJob c None 0 false]> (goroutines s)) s)) as Hidle.
    { intros Hi m j Hm. simpl in Hm. apply lookup_insert_Some in Hm as [[<- <-]|[Hne Hm]]; [done|by eapply Hi]. }
    destruct (controls s) as [|[] [|]]; try done; try (destruct HC as [?|[?|?] ]; auto; fail).
    + by destruct HC.
    + destruct HC as (H1 & H2 & H3 & H4). split_and!; [done| | |].
      * intros n Hn. destruct (decide (n = Name c)) as [->|Hne]; [rewrite lookup_insert_eq; by eexists|].
        rewrite lookup_insert_ne by done. by apply H2.
      * intros n j Hm Hn. apply lookup_insert_Some in Hm as [[<- <-]|[Hne Hm]]; [done|by eapply H3].
      * intros n j c' Hm Hj. apply lookup_insert_Some in Hm as [[<- <-]|[Hne Hm]]; [done|by eapply H4].
Qed.

Lemma serial_frame s s' :
  goroutines s' = goroutines s -> runners s' = runners s ->
  (parents_done s' = [] -> parents_done s = []) -> phase s' -> serial_inv s -> serial_inv s'.
Proof.
  intros E1 E2 E3 Hp (HA & HB & _). unfold serial_inv, job_ctx in *. rewrite E1, E2. split_and!; auto.
Qed.

Lemma jobs_serial_inv_step s s' : sched_inv s -> serial_inv s -> serial_step s s' -> serial_inv s'.
Proof.
  intros Hinv Hser (a & Ha & Hcall). pose proof (sched_action_runner s a s' Ha) as Hrun.
  destruct (runner_of a) as [i|] eqn:Er.
  { destruct Hrun as (n & p & Hi & Hs). by eapply serial_runner_step. }
  assert (HC := Hser). destruct HC as (_ & _ & HC). assert (Hlen := phase_length s HC).
  destruct a; try done; simpl in Ha.
  - destruct (mu_stuck s); [done|]. injection Ha as <-. by apply serial_add.
  - injection Ha as <-. apply (serial_frame s); try done. unfold phase in *. simpl. by rewrite (no_call_in_flight s (Hcall eq_refl)) in *.
  - injection Ha as <-. apply (serial_frame s); try done. unfold phase in *. simpl. by rewrite (no_call_in_flight s (Hcall eq_refl)) in *.
  - injection Ha as <-. by apply (serial_frame s).
  - destruct (mu_stuck s) eqn:Em; [done|]. simpl in Ha.
    destruct (bool_decide (order ≡ₚ job_names s)) eqn:Eo; [|done]. bool_to_prop. simpl in Ha.
    destruct (controls s !! i) as [[]|] eqn:Ei; try done;
      (assert (Hk := Ei); apply singleton_lookup in Hk as [Hk ->]; [|done]).
    + destruct (start_lock s p) as [s1 k] eqn:E. injection Ha as <-.
      assert (HF := E). apply start_lock_frame in HF as (?&?&_&_&HP&_). apply (serial_frame s); try done.
      * simpl. congruence.
      * by eapply phase_lock_start.
    + destruct (stop_lock s order) as [s1 k] eqn:E. injection Ha as <-.
      assert (HF := E). apply stop_lock_frame in HF as (?&?&_&_&HP). apply (serial_frame s); try done.
      * simpl. congruence.
      * by eapply phase_lock_stop.
  - destruct (controls s !! i) as [[]|] eqn:Ei; try done. apply singleton_lookup in Ei as [Hk ->]; [|done].
    destruct (names !! k) as [n|] eqn:En; [|done]. simpl in Ha.
    destruct (goroutines s !! n) as [j|] eqn:Ej; [|done]. simpl in Ha.
    destruct (rmu_stuck j); [done|]. injection Ha as <-.
    by apply (serial_start_next s p names k n j).
  - destruct (controls s !! i) as [[| ? [] | | |]|] eqn:Ei; try done. apply singleton_lookup in Ei as [Hk ->]; [|done].
    injection Ha as <-. apply (serial_frame s); try done.
    unfold phase in *. rewrite Hk in *. simpl. destruct HC as (Hst & _). auto.
  - destruct (controls s !! i) as [[]|] eqn:Ei; try done. apply singleton_lookup in Ei as [Hk ->]; [|done].
    destruct (names !! k) as [n|] eqn:En; [|done]. simpl in Ha.
    destruct (goroutines s !! n) as [j|] eqn:Ej; [|done]. simpl in Ha.
    destruct (wg j =? 0)%nat eqn:Ew; [|done]. injection Ha as <-. apply (serial_frame s); try done.
    unfold phase in *. rewrite Hk in *. simpl. destruct HC as (H1 & H2 & H3 & H4). split_and!; try done.
    + intros m Hm. apply H2. eapply elem_of_sublist; [exact Hm|apply sublist_delete].
    + intros m jm Hm Hnot. destruct (decide (m ∈ names)) as [Hin|Hin]; [|by eapply H3].
      rewrite (delete_Permutation names k n En) in Hin. apply elem_of_cons in Hin as [->|Hin]; [|done].
      apply Nat.eqb_eq in Ew. by simplify_eq.
  - destruct (controls s !! i) as [[| | | [] |]|] eqn:Ei; try done. apply singleton_lookup in Ei as [Hk ->]; [|done].
    injection Ha as <-. apply (serial_frame s); try done.
    unfold phase in *. rewrite Hk in *. simpl. destruct HC as (H1 & H2 & H3 & H4). right. right.
    intros n j Hn. eapply H3; [done|apply not_elem_of_nil].
Qed.

Lemma serial_from s s' :
  rtc serial_step s s' -> sched_inv s /\ serial_inv s -> sched_inv s' /\ serial_inv s'.
Proof.
  apply (rtc_invariant serial_step (fun s => sched_inv s /\ serial_inv s)).
  intros s1 s2 [H1 H2] Hs. split; [|by eapply jobs_serial_inv_step].
  eapply sched_inv_step; [exact H1|by eapply serial_acts_step_step].
Qed.

Lemma jobs_serial_reachable r s : rtc serial_step (NewJobScheduler r) s -> sched_inv s /\ serial_inv s.
Proof.
  intros H. apply (serial_from _ _ H). split; [apply new_sched_inv|]. split_and!; [set_solver|set_solver|].
  unfold phase. simpl. right. right. intros n j Hj. simpl in Hj. by rewrite lookup_empty in Hj.
Qed.

Lemma all_idle_no_runner s : sched_inv s -> all_idle s -> runners s = [].
Proof.
  intros (_ & _ & Hd & Hw) Hi. destruct (runners s) as [|[n p] l] eqn:E; [done|]. exfalso.
  destruct (Hd n p) as [c Hc]; [left|]. unfold job_ctx in Hc.
  destruct (goroutines s !! n) as [j|] eqn:Ej; [|done].
  specialize (Hw n j Ej). specialize (Hi n j Ej). simpl in Hw. rewrite named_refl in Hw. simpl in Hw. lia.
Qed.

(** ** [Stop] can return *)

(** The goroutine [i], from the point it is at, goes on to the next one. *)
Lemma runner_go s i n p a q used :
  runners s !! i = Some (n, p) -> runner_of a = Some i ->
  runner_action s i n p a = goto i n used q s ->
  serial_step s (set_runners used (<[i := (n, q)]> (runners s)) s).
Proof.
  intros Hi Ha Hs. exists a. destruct a; try done; simpl in Ha; simplify_eq;
    (split; [cbn [sched_action runner_of mbind option_bind]; rewrite Hi; exact Hs|done]).
Qed.

(** The state [s'] is [s] but for the goroutine [i], which is at [q]. *)
Definition moved (s : JobScheduler) (i : nat) (n : string) (q : run_point) (s' : JobScheduler) : Prop :=
  exists used, s' = set_runners used (<[i := (n, q)]> (runners s)) s.

(** Stopping, with the contexts given to [Start] alive: the state [Stop] waits in. *)
Definition stopping (s : JobScheduler) : Prop :=
  sched_inv s /\ serial_inv s /\ parents_done s = [] /\ exists names, controls s = [StopWait names].

Lemma stopping_from s s' :
  stopping s -> rtc serial_step s s' -> parents_done s' = [] -> controls s' = controls s -> stopping s'.
Proof.
  intros (H1 & H2 & H3 & names & H4) Hr Hp Hc. destruct (serial_from s s' Hr) as [H5 H6]; [done|].
  split_and!; try done. exists names. congruence.
Qed.

Lemma stopping_job s n c : stopping s -> job_ctx s n = Some c ->
  ctx_done s c = true /\ exists j, goroutines s !! n = Some j /\ jctx j = Some c /\ rmu_stuck j = false.
Proof.
  intros (_ & (_ & _ & HC) & _ & names & Hk) Hc. unfold phase in HC. rewrite Hk in HC.
  destruct HC as (_ & _ & _ & H4). unfold job_ctx in Hc.
  destruct (goroutines s !! n) as [j|] eqn:Ej; [|done]. simpl in Hc.
  destruct (H4 n j c Ej Hc) as [Hin Hr]. split; [|by exists j].
  unfold ctx_done. by rewrite orb_true_iff, !bool_decide_eq_true; right.
Qed.

Lemma moved_stopping s i n q s' :
  stopping s -> serial_step s s' -> moved s i n q s' ->
  stopping s' /\ delete i (runners s') = delete i (runners s) /\ (i < length (runners s) -> runners s' !! i = Some (n, q)).
Proof.
  intros Hst Hs [used ->]. split_and!.
  - apply (stopping_from s); [done|by apply rtc_once|by destruct Hst as (_ & _ & ? & _)|done].
  - simpl. by rewrite delete_insert_eq'.
  - intros Hlt. simpl. by rewrite list_lookup_insert_eq.
Qed.

(** The goroutine [i] can end, and nothing else changes for the call of [Stop]. *)
Definition can_leave (s : JobScheduler) (i : nat) : Prop :=
  exists s', rtc serial_step s s' /\ stopping s' /\ controls s' = controls s /\ runners s' = delete i (runners s).

Lemma waiting_leaves s i n c : stopping s -> runners s !! i = Some (n, Waiting c) -> can_leave s i.
Proof.
  intros Hst Hi. assert (HA := Hst). destruct HA as (_ & (HA & _) & Hp & _).
  destruct (stopping_job s n c Hst) as [Hdone _].
  { eapply HA; [by eapply list_elem_of_lookup_2|done]. }
  eexists. assert (serial_step s (set_jobs (done_job n (goroutines s)) (set_runners (rate_used s) (delete i (runners s)) s))) as Hs.
  { exists (GoDone i). split; [|done]. cbn [sched_action runner_of mbind option_bind]. rewrite Hi.
    unfold runner_action. simpl. by rewrite Hdone. }
  split; [by apply rtc_once|]. split; [|done]. apply (stopping_from s); [done|by apply rtc_once|done|done].
Qed.

(** One more step brings the goroutine to a point it can leave from. *)
Lemma leaves_after s i n p q used a :
  stopping s -> runners s !! i = Some (n, p) -> runner_of a = Some i ->
  runner_action s i n p a = goto i n used q s ->
  (forall s', stopping s' -> runners s' !! i = Some (n, q) -> can_leave s' i) -> can_leave s i.
Proof.
  intros Hst Hi Ha Hs Hnext. pose proof (runner_go s i n p a q used Hi Ha Hs) as Hstep.
  destruct (moved_stopping s i n q _ Hst Hstep) as (H1 & H2 & H3); [by eexists|].
  destruct (Hnext _ H1) as (s' & Hr & Hst' & Hc & Hrun); [apply H3; by eapply lookup_lt_Some|].
  exists s'. split_and!; [by eapply rtc_l|done|done|congruence].
Qed.

Lemma top_leaves s i n : stopping s -> runners s !! i = Some (n, Top) -> can_leave s i.
Proof.
  intros Hst Hi. assert (HA := Hst). destruct HA as ((_ & _ & Hd & _) & _).
  destruct (Hd n Top) as [c Hc]; [by eapply list_elem_of_lookup_2|].
  destruct (stopping_job s n c Hst Hc) as (_ & j & Hj & Hjc & Hr).
  eapply (leaves_after s i n Top (Waiting c) (rate_used s) (GoTop i)); [done..| |intros; by eapply waiting_leaves].
  unfold runner_action. rewrite Hj. simpl. by rewrite Hr, Hjc.
Qed.

Lemma runner_leaves s i n p : stopping s -> runners s !! i = Some (n, p) -> can_leave s i.
Proof.
  intros Hst Hi. assert (HA := Hst). destruct HA as ((_ & _ & Hd & _) & (HA & _) & Hp & _).
  assert (Hin := list_elem_of_lookup_2 _ _ _ Hi).
  destruct (Hd n p Hin) as [c0 Hc0]. destruct (stopping_job s n c0 Hst Hc0) as [Hdone _].
  assert (forall a used, runner_of a = Some i -> runner_action s i n p a = goto i n used Top s -> can_leave s i) as Htop.
  { intros a used Ha Hs. eapply leaves_after; [done..|]. intros s'. apply top_leaves. }
  destruct p as [q| |c|c| |].
  - apply (Htop (GoLaunch i) (rate_used s)); [done|]. unfold runner_action. by rewrite Hp.
  - by eapply top_leaves.
  - by eapply waiting_leaves.
  - apply (Htop (GoGiveUp i) (rate_used s)); [done|]. unfold runner_action.
    assert (c = c0) as -> by (specialize (HA n _ c Hin eq_refl); congruence). by rewrite Hdone.
  - apply (Htop (GoCheck i) (rate_used s - 1)); [done|]. unfold runner_action. rewrite Hc0. simpl. by rewrite Hdone.
  - by apply (Htop (GoFinish i) (rate_used s - 1)).
Qed.

Lemma runners_leave k s :
  length (runners s) = k -> stopping s ->
  exists s', rtc serial_step s s' /\ stopping s' /\ controls s' = controls s /\ runners s' = [].
Proof.
  revert s. induction k as [|k IH]; intros s Hk Hst.
  - exists s. split_and!; [done..|by apply length_zero_iff_nil].
  - destruct (runners s) as [|[n p] l] eqn:E; [done|]. simpl in Hk.
    destruct (runner_leaves s 0 n p Hst) as (s1 & Hr & Hst1 & Hc & Hrun); [by rewrite E|].
    destruct (IH s1) as (s2 & Hr2 & Hst2 & Hc2 & Hrun2); [rewrite Hrun, E; simpl; lia|done|].
    exists s2. split_and!; [by etrans|done|congruence|done].
Qed.

Lemma waits_end names s :
  controls s = [StopWait names] -> stopping s -> runners s = [] ->
  exists s', rtc serial_step s s' /\ controls s' = [] /\ runners s' = [].
Proof.
  revert s. induction names as [|n names IH]; intros s Hk Hst Hrun.
  - eexists. split; [apply rtc_once; exists (StopReturn 0); split; [|done]; simpl; by rewrite Hk|].
    by split.
  - assert (HA := Hst). destruct HA as (_ & (_ & HB & HC) & Hp & _). unfold phase in HC. rewrite Hk in HC.
    destruct HC as (_ & Hd & _). destruct (Hd n) as [j Hj]; [left|].
    specialize (HB Hp n j Hj). rewrite Hrun in HB. simpl in HB.
    set (s1 := set_controls [StopWait names] s).
    assert (serial_step s s1) as Hs.
    { exists (StopNext 0 0). split; [|done]. simpl. rewrite Hk. simpl. rewrite Hj. simpl. by rewrite HB. }
    destruct (IH s1) as (s' & Hr & H1 & H2); [done| |done|exists s'; split_and!; [by eapply rtc_l|done..] ].
    destruct (serial_from s s1) as [H1 H2]; [by apply rtc_once|by destruct Hst as (? & ? & _)|].
    split_and!; [done..|by exists names].
Qed.

(** ** A mutex that is never released *)

Lemma mu_stuck_step s s' : mu_stuck s = true -> step s s' -> mu_stuck s' = true.
Proof.
  intros Hm [a Ha]. pose proof (sched_action_runner s a s' Ha) as Hrun.
  destruct (runner_of a) as [i|] eqn:Er.
  { destruct Hrun as (n & p & Hi & Hs). apply runner_step_frame in Hs as (_ & _ & -> & _). done. }
  destruct a; try done; simpl in Ha; try rewrite Hm in Ha; simpl in Ha; try done;
    try (injection Ha as <-; done).
  - destruct (controls s !! i) as [[]|]; try done.
    destruct (names !! k) as [n|]; [|done]. simpl in Ha.
    destruct (goroutines s !! n) as [j|]; [|done]. simpl in Ha.
    destruct (rmu_stuck j); [done|]. by injection Ha as <-.
  - destruct (controls s !! i) as [[| ? [] | | |]|]; try done. by injection Ha as <-.
  - destruct (controls s !! i) as [[]|]; try done.
    destruct (names !! k) as [n|]; [|done]. simpl in Ha.
    destruct (goroutines s !! n) as [j|]; [|done]. simpl in Ha.
    destruct (wg j =? 0)%nat; [|done]. by injection Ha as <-.
  - destruct (controls s !! i) as [[| | | [] |]|]; try done. by injection Ha as <-.
Qed.

Lemma rate_step s s' : step s s' -> rate s' = rate s.
Proof.
  intros [a Ha]. pose proof (sched_action_runner s a s' Ha) as Hrun.
  destruct (runner_of a) as [i|] eqn:Er.
  { destruct Hrun as (n & p & Hi & []); done. }
  destruct a; try done; simpl in Ha.
  - destruct (mu_stuck s); [done|]. injection Ha as <-. unfold Add. by repeat case_match.
  - by injection Ha as <-.
  - by injection Ha as <-.
  - by injection Ha as <-.
  - destruct (mu_stuck s || _); [done|]. destruct (controls s !! i) as [[]|]; try done.
    + destruct (start_lock s p) as [s1 k] eqn:E. injection Ha as <-. by apply start_lock_frame in E as (_&_&_&?&_).
    + destruct (stop_lock s order) as [s1 k] eqn:E. injection Ha as <-. by apply stop_lock_frame in E as (_&_&_&?&_).
  - destruct (controls s !! i) as [[]|]; try done.
    destruct (names !! k) as [n|]; [|done]. simpl in Ha.
    destruct (goroutines s !! n) as [j|]; [|done]. simpl in Ha.
    destruct (rmu_stuck j); [done|]. by injection Ha as <-.
  - destruct (controls s !! i) as [[| ? [] | | |]|]; try done. by injection Ha as <-.
  - destruct (controls s !! i) as [[]|]; try done.
    destruct (names !! k) as [n|]; [|done]. simpl in Ha.
    destruct (goroutines s !! n) as [j|]; [|done]. simpl in Ha.
    destruct (wg j =? 0)%nat; [|done]. by injection Ha as <-.
  - destruct (controls s !! i) as [[| | | [] |]|]; try done. by injection Ha as <-.
Qed.

(** ** Properties *)

(** C9: all interleavings, with any number of [Add], [Start] and [Stop] calls in flight: at
    most [rate] job functions run at once (at most one when the configured rate is not positive), a
    slot of the limiter is taken exactly by the goroutines between its acquisition and its release (so none
    is lost, whether the function returns, fails or is not called), and the wait group of a job is never
    below the number of its goroutines, so [Done] cannot panic. *)
Theorem at_most_rate_jobs_execute (r : Z) (s : JobScheduler) (Hreach : rtc step (NewJobScheduler r) s) :
  (Z.of_nat (countb executes (runners s)) <= Z.max 1 r)%Z
  /\ rate_used s = countb busy (runners s)
  /\ (forall n j, goroutines s !! n = Some j -> countb (named n) (runners s) <= wg j).
Proof.
  destruct (sched_reachable r s Hreach) as (Hu & Hr & _ & Hw). split_and!; [|done..].
  assert (rate s = rate (NewJobScheduler r)) as Hrate.
  { pattern s. eapply (rtc_invariant step (fun s => rate s = rate (NewJobScheduler r))); [|exact Hreach|done].
    intros s1 s2 H1 H2. rewrite <- H1. by apply rate_step. }
  assert (countb executes (runners s) <= countb busy (runners s)) as Hle.
  { apply countb_le. intros [n []]; simpl; done. }
  rewrite Hrate in Hr. simpl in Hr. destruct (Z.leb_spec r 0); lia.
Qed.

Definition demo_job (n : string) (tick : Z) : JobConfiguration :=
  {| Name := n; Func := fun _ => JobReturns None; Tick := tick; Deadline := 5; StopMode := StopGraceful |}.

(** Two jobs on a limiter of one slot: both at the limiter, one executing. *)
Definition demo_two_jobs : list action :=
  [CallAdd (demo_job "a" 10); CallAdd (demo_job "b" 10); CallStart 0; Lock 0 ["b"; "a"]%string;
   StartNext 0 0; StartNext 0 0; StartReturn 0; GoLaunch 0; GoTop 0; GoTick 0; GoLaunch 1; GoTop 1; GoTick 1;
   GoAcquire 0; GoCheck 0].

Lemma at_most_rate_jobs_execute_witness :
  exists s, run_actions (NewJobScheduler 0) demo_two_jobs = Some s
  /\ countb executes (runners s) = 1 /\ sched_action s (GoAcquire 1) = None
  /\ (Z.of_nat (countb executes (runners s)) <= Z.max 1 0)%Z
  /\ rate_used s = countb busy (runners s)
  /\ (forall n j, goroutines s !! n = Some j -> countb (named n) (runners s) <= wg j).
Proof.
  eexists. split; [vm_compute; reflexivity|]. split; [reflexivity|]. split; [reflexivity|].
  apply (at_most_rate_jobs_execute 0). apply (run_all_sound sched_action demo_two_jobs). vm_compute. reflexivity.
Defined.

(** C10: [Stop] waits for every goroutine: when the calls of [Start] and [Stop] do not overlap
    (contexts may be cancelled, jobs added, goroutines interleaved in any way), a scheduler that is stopped
    and whose mutex was not left locked by a panic has no goroutine left, so no job function is running. *)
Theorem stopped_scheduler_runs_nothing (r : Z) (s : JobScheduler)
    (Hreach : rtc serial_step (NewJobScheduler r) s)
    (Hidle : controls s = []) (Hstopped : started s = false) (Hmu : mu_stuck s = false) :
  runners s = [] /\ rate_used s = 0.
Proof.
  destruct (jobs_serial_reachable r s Hreach) as [Hinv (_ & _ & HC)]. unfold phase in HC. rewrite Hidle in HC.
  assert (runners s = []) as E.
  { apply all_idle_no_runner; [done|]. destruct HC as [?|[?|?] ]; [congruence..|done]. }
  split; [done|]. destruct Hinv as (-> & _). by rewrite E.
Qed.

(** One job that executes when [Stop] is called, up to the point where [Stop] waits for it. *)
Definition demo_stop_begins : list action :=
  [CallAdd (demo_job "a" 10); CallStart 0; Lock 0 ["a"]%string; StartNext 0 0; StartReturn 0;
   GoLaunch 0; GoTop 0; GoTick 0; GoAcquire 0; GoCheck 0; CallStop; Lock 0 ["a"]%string].

Definition demo_stop : list action :=
  demo_stop_begins ++ [GoFinish 0; GoTop 0; GoDone 0; StopNext 0 0; StopReturn 0].

Lemma stopped_scheduler_runs_nothing_witness :
  exists s, run_actions (NewJobScheduler 2) demo_stop = Some s /\ runners s = [] /\ rate_used s = 0.
Proof.
  eexists. split; [vm_compute; reflexivity|].
  apply (stopped_scheduler_runs_nothing 2); [|reflexivity..].
  apply (run_serially_sound sched_action is_control_call idle demo_stop). vm_compute. reflexivity.
Defined.

(** C11: [Stop] is never stuck while the context given to [Start] is alive: in every state
    reached by non-overlapping calls in which [Stop] waits, every goroutine, wherever it is (not yet
    scheduled, waiting for a tick or for a slot, executing), can leave by its own steps, the job functions
    being assumed to return, and then [Stop] returns with no goroutine left. *)
Theorem Stop_can_return (r : Z) (s : JobScheduler) (names : list string)
    (Hreach : rtc serial_step (NewJobScheduler r) s)
    (Hwait : controls s = [StopWait names]) (Halive : parents_done s = []) :
  exists s', rtc serial_step s s' /\ controls s' = [] /\ runners s' = [].
Proof.
  destruct (jobs_serial_reachable r s Hreach) as [Hinv Hser].
  destruct (runners_leave (length (runners s)) s) as (s1 & Hr1 & Hst1 & Hc1 & Hrun1);
    [done|by split_and!; [..|by exists names]|].
  destruct (waits_end names s1) as (s2 & Hr2 & H2); [congruence|done..|].
  exists s2. split; [by etrans|done].
Qed.

Lemma Stop_can_return_witness :
  exists s, run_actions (NewJobScheduler 2) demo_stop_begins = Some s /\ length (runners s) = 1
    /\ exists s', rtc serial_step s s' /\ controls s' = [] /\ runners s' = [].
Proof.
  eexists. split; [vm_compute; reflexivity|]. split; [reflexivity|].
  apply (Stop_can_return 2 _ ["a"%string]); [|reflexivity..].
  apply (run_serially_sound sched_action is_control_call idle demo_stop_begins). vm_compute. reflexivity.
Defined.

(** A goroutine that is not yet scheduled when the context given to [Start] is cancelled
    blocks [Stop] for ever. [GoRecover] then does not call [run], whose deferred [Done] is the only
    one: the wait group of the job never gets to zero again, whatever happens later, so no call of [Stop]
    gets past this job. *)
Theorem skipped_goroutine_blocks_Stop (r : Z) (s s1 s2 : JobScheduler) (i p : nat) (n : string)
    (Hreach : rtc step (NewJobScheduler r) s) (Hlaunched : runners s !! i = Some (n, Launched p))
    (Hcancelled : p ∈ parents_done s) (Hskip : sched_action s (GoLaunch i) = Some s1)
    (Hlater : rtc step s1 s2) (c k : nat) (names : list string)
    (Hstop : controls s2 !! c = Some (StopWait names)) (Hname : names !! k = Some n) :
  sched_action s2 (StopNext c k) = None.
Proof.
  destruct (sched_reachable r s Hreach) as (_ & _ & Hd & Hw).
  destruct (Hd n (Launched p)) as [x Hx]; [by eapply list_elem_of_lookup_2|]. unfold job_ctx in Hx.
  destruct (goroutines s !! n) as [j|] eqn:Hj; [|done].
  cbn [sched_action runner_of mbind option_bind] in Hskip. rewrite Hlaunched in Hskip. unfold runner_action in Hskip.
  simpl in Hskip. rewrite bool_decide_true in Hskip by done. injection Hskip as <-.
  assert (leaked n s2) as (j2 & Hj2 & Hlt).
  { eapply (rtc_invariant step (leaked n)); [apply leaked_step|exact Hlater|].
    exists j. split; [done|]. pose proof (countb_delete (named n) (runners s) i _ Hlaunched) as Hc.
    rewrite named_refl in Hc. specialize (Hw n j Hj). simpl in *. lia. }
  simpl. rewrite Hstop. simpl. rewrite Hname. simpl. rewrite Hj2. simpl.
  destruct (Nat.eqb_spec (wg j2) 0); [lia|done].
Qed.

Lemma skipped_goroutine_blocks_Stop_witness :
  exists s s1 s2,
    run_actions (NewJobScheduler 1)
      [CallAdd (demo_job "a" 10); CallStart 0; Lock 0 ["a"]%string; StartNext 0 0; StartReturn 0; ParentCancel 0] = Some s
    /\ run_actions s [GoLaunch 0] = Some s1
    /\ run_actions s1 [CallStop; Lock 0 ["a"]%string] = Some s2
    /\ controls s2 = [StopWait ["a"%string]] /\ runners s2 = [] /\ sched_action s2 (StopNext 0 0) = None.
Proof.
  do 3 eexists. split; [vm_compute; reflexivity|]. split; [vm_compute; reflexivity|].
  split; [vm_compute; reflexivity|]. split; [reflexivity|]. split; [reflexivity|].
  eapply (skipped_goroutine_blocks_Stop 1 _ _ _ 0 0 "a"%string); [..|reflexivity|reflexivity].
  - eapply (run_all_sound sched_action
      [CallAdd (demo_job "a" 10); CallStart 0; Lock 0 ["a"]%string; StartNext 0 0; StartReturn 0; ParentCancel 0]).
    vm_compute. reflexivity.
  - reflexivity.
  - left.
  - vm_compute. reflexivity.
  - eapply (run_all_sound sched_action [CallStop; Lock 0 ["a"]%string]). vm_compute. reflexivity.
Defined.

(** A [Stop] that runs between the first critical section of a [Start] and the set-up of
    its jobs calls a nil [cancel] with the mutex held: the call panics, the mutex is never released, and no
    [Add], [Start] or [Stop] can take it any more, while the [Start] in flight goes on to launch the job. *)
Theorem Stop_during_Start_locks_scheduler :
  exists s, run_actions (NewJobScheduler 1)
      [CallAdd (demo_job "a" 10); CallStart 0; Lock 0 ["a"]%string; CallStop; Lock 1 ["a"]%string; StartNext 0 0] = Some s
    /\ runners s = [("a"%string, Launched 0)]
    /\ forall s', rtc step s s' -> forall i order c, sched_action s' (Lock i order) = None /\ sched_action s' (CallAdd c) = None.
Proof.
  eexists. split; [vm_compute; reflexivity|]. split; [reflexivity|]. intros s' Hr i order c.
  assert (mu_stuck s' = true) as Hm.
  { eapply (rtc_invariant step (fun s => mu_stuck s = true)); [|exact Hr|reflexivity].
    intros s1 s2. apply mu_stuck_step. }
  simpl. by rewrite Hm.
Qed.
