(* ===== verification/Cron.v ===== *)
(** [src/scheduler/cron.go]: the wrapper of robfig/cron. The library is a parameter: a table of entries, each a
    calendar and a job; when it calls the jobs is its own business. *)
From S2P Require Import Prelude Context.
From stdpp Require Import base tactics list strings.

Section cron.
Context {World : Type}.

(** A job acts on the world and may log a line. *)
Definition Job : Type := World -> World * list string.

(** [cron.Cron]: [AddFunc] may refuse a calendar. *)
Class CronLib (C : Type) := {
  New : C;
  AddFunc : C -> string -> Job -> C * option string;
  c_Start : C -> C;
  c_Stop : C -> C
}.

(** Its documented meaning: a valid calendar adds an entry, another one is refused with an error that tells
    why and changes nothing; starting and stopping keep the entries. *)
Class CronLaws (C : Type) `{!CronLib C} (entries : C -> list (string * Job)) (running : C -> bool)
    (refused : string -> option string) : Prop := {
  law_New : entries New = [] /\ running New = false;
  law_AddFunc c spec j :
    (AddFunc c spec j).2 = refused spec
    /\ entries (AddFunc c spec j).1 = (match refused spec with None => entries c ++ [(spec, j)] | Some _ => entries c end)
    /\ running (AddFunc c spec j).1 = running c;
  law_Start c : entries (c_Start c) = entries c /\ running (c_Start c) = true;
  law_Stop c : entries (c_Stop c) = entries c /\ running (c_Stop c) = false
}.

Section wrapper.
Context {C : Type} `{!CronLib C}.

Record Cron := mkCron { c : C }.

Definition NewCron : Cron := mkCron New.

(** The function given to the library: an error of [fn] is logged and goes no further. *)
Definition cron_job (ctx : context) (fn : context -> World -> World * option string) : Job := fun w =>
  let (w', err) := fn ctx w in
  (w', match err with Some e => ["cron job failed: " +:+ e] | None => [] end).

Definition Add (s : Cron) (ctx : context) (calendar : string) (fn : context -> World -> World * option string)
    : outcome Cron :=
  let (c', err) := AddFunc (c s) calendar (cron_job ctx fn) in
  match err with
  | Some e => Panicked ("failed to add cron job " +:+ calendar +:+ ": " +:+ e)
  | None => Returned (mkCron c')
  end.

Definition Stop (s : Cron) : Cron := mkCron (c_Stop (c s)).
Definition Start (s : Cron) : Cron := mkCron (c_Start (c s)).

(** Several calls of [Add] in a row; a panic ends them. *)
Fixpoint AddAll (s : Cron) (ctx : context) (l : list (string * (context -> World -> World * option string))) : outcome Cron :=
  match l with
  | [] => Returned s
  | (calendar, fn) :: l => match Add s ctx calendar fn with Returned s' => AddAll s' ctx l | Panicked m => Panicked m end
  end.
End wrapper.
End cron.
Arguments Job : clear implicits.
Arguments CronLib : clear implicits.
Arguments CronLaws World C {_} entries running refused.
Arguments Cron : clear implicits.

(** ** Properties *)

(** The jobs the library is to have after a list of calls. *)
Definition cron_entries {World : Type} (ctx : context) (l : list (string * (context -> World -> World * option string)))
    : list (string * Job World) := (fun x => (x.1, cron_job ctx x.2)) <$> l.

(** The jobs of the cron wrapper. Adding jobs in a row registers exactly these jobs, in order, each with its
    calendar, as long as the library accepts every calendar; the first calendar it refuses makes the call panic with
    the library's reason. A job runs its function with the given context; its error is logged and changes nothing else. Starting
    and stopping keep the jobs. *)
Theorem Cron_registers_jobs (World C : Type) (lib : CronLib World C) (entries : C -> list (string * Job World))
    (running : C -> bool) (refused : string -> option string) (Hlaws : CronLaws World C entries running refused)
    (ctx : context) (l : list (string * (context -> World -> World * option string))) :
  match AddAll NewCron ctx l, list_find (fun x => refused x.1 <> None) l with
  | Returned s, None => entries (c s) = cron_entries ctx l
      /\ entries (c (Stop (Start s))) = cron_entries ctx l /\ running (c (Start s)) = true
      /\ running (c (Stop (Start s))) = false
  | Panicked m, Some (_, x) => exists e, refused x.1 = Some e /\ m = "failed to add cron job " +:+ x.1 +:+ ": " +:+ e
  | _, _ => False
  end.
Proof.
  assert (forall s, match AddAll s ctx l, list_find (fun x => refused x.1 <> None) l with
    | Returned s', None => entries (c s') = entries (c s) ++ cron_entries ctx l
    | Panicked m, Some (_, x) => exists e, refused x.1 = Some e /\ m = "failed to add cron job " +:+ x.1 +:+ ": " +:+ e
    | _, _ => False
    end) as H.
  { induction l as [|[calendar fn] l IH]; intros s; simpl; [by rewrite app_nil_r|].
    unfold Add. destruct (law_AddFunc (c s) calendar (cron_job ctx fn)) as (H1 & H2 & _).
    destruct (AddFunc (c s) calendar (cron_job ctx fn)) as [c' err]. simpl in *. subst err.
    destruct (refused calendar) as [e|] eqn:E; simpl.
    - by exists e.
    - specialize (IH (mkCron c')). destruct (AddAll (mkCron c') ctx l) as [s'|m];
        destruct (list_find _ l) as [[k x]|]; simpl; try done. rewrite IH. simpl. rewrite H2. by rewrite <- app_assoc. }
  specialize (H NewCron). unfold NewCron in *. simpl in H. rewrite (proj1 law_New) in H.
  destruct (AddAll (mkCron New) ctx l) as [s|m]; [|done]. destruct (list_find _ l) as [[k x]|]; [done|].
  simpl in *. rewrite (proj1 (law_Stop _)), (proj1 (law_Start _)), (proj2 (law_Start _)), (proj2 (law_Stop _)).
  by split_and!.
Qed.

(** A table that refuses the empty calendar. *)
#[export] Instance demo_cron : CronLib nat (list (string * Job nat) * bool) := {
  New := ([], false);
  AddFunc t spec j := if String.eqb spec "" then (t, Some "empty spec string"%string) else ((t.1 ++ [(spec, j)], t.2), None);
  c_Start t := (t.1, true);
  c_Stop t := (t.1, false)
}.

#[export] Instance demo_cron_laws : CronLaws nat (list (string * Job nat) * bool) fst snd
  (fun spec => if String.eqb spec "" then Some "empty spec string"%string else None).
Proof. split; try done. intros t spec j. simpl. by destruct (String.eqb spec ""). Qed.

Definition demo_cron_jobs : list (string * (context -> nat -> nat * option string)) :=
  [("*/10 * * * * *", fun _ n => (S n, None)); ("0 * * * * *", fun _ n => (n, Some "boom"))]%string.

Lemma Cron_registers_jobs_witness :
  match AddAll NewCron Background demo_cron_jobs,
    list_find (fun x => (if String.eqb x.1 "" then Some "empty spec string"%string else None) <> None) demo_cron_jobs with
  | Returned s, None => (c s).1 = cron_entries Background demo_cron_jobs
      /\ (c (Stop (Start s))).1 = cron_entries Background demo_cron_jobs /\ (c (Start s)).2 = true
      /\ (c (Stop (Start s))).2 = false
  | Panicked m, Some (_, x) => exists e, (if String.eqb x.1 "" then Some "empty spec string"%string else None) = Some e
      /\ m = "failed to add cron job " +:+ x.1 +:+ ": " +:+ e
  | _, _ => False
  end.
Proof. apply (Cron_registers_jobs nat _ demo_cron fst snd _ demo_cron_laws Background demo_cron_jobs). Defined.
