(* ===== verification/Bitmap.v ===== *)
(** [src/database/in_memory_storage/bitmap]: the set storage over a roaring bitmap and its replicators.
    The library [roaring64] and the Redis client are parameters. The replicators are written against the
    interface [MemorySetStorage], the storage against [MemorySetStorageReplicator], as in contract.go. *)
From S2P Require Import Prelude Bytes.
From stdpp Require Import base tactics list relations strings gmap pretty.
From Stdlib Require Import ZArith Lia.
From Stdlib Require Strings.Byte.
Local Open Scope Z_scope.

(** ** The library [roaring64] *)

Class Roaring64 (Bitmap : Type) := {
  NewBitmap : Bitmap;
  bContains : Bitmap -> Z -> bool;
  AddMany : Bitmap -> list Z -> Bitmap;
  Remove : Bitmap -> Z -> Bitmap;
  bClear : Bitmap -> Bitmap;
  IsEmpty : Bitmap -> bool;
  GetCardinality : Bitmap -> Z;
  RunOptimize : Bitmap -> Bitmap;
  GetSizeInBytes : Bitmap -> Z;
  ToBytes : Bitmap -> result string bytes;
  (** The bitmap left by a read, and the number of bytes read or an error. *)
  ReadFrom : Bitmap -> bytes -> Bitmap * result string Z
}.

(** Its documented meaning; [elems] is the set a bitmap stores. Of [ReadFrom] only what every reader of the sources
    may count on: contract.go says that the keys read are added to those of the bitmap, roaring_bitmap.go that the bitmap is
    initialised with the buffer, and the law allows either, which is the same on an empty bitmap. *)
Class Roaring64Laws (Bitmap : Type) `{!Roaring64 Bitmap} (elems : Bitmap -> gset Z) : Prop := {
  law_New : elems NewBitmap = ∅;
  law_Contains b k : bContains b k = bool_decide (k ∈ elems b);
  law_AddMany b ks : elems (AddMany b ks) = elems b ∪ list_to_set ks;
  law_Remove b k : elems (Remove b k) = elems b ∖ {[k]};
  law_Clear b : elems (bClear b) = ∅;
  law_IsEmpty b : IsEmpty b = bool_decide (elems b = ∅);
  law_GetCardinality b : GetCardinality b = Z.of_nat (size (elems b));
  law_RunOptimize b : elems (RunOptimize b) = elems b;
  law_ToBytes_nonempty b l : ToBytes b = Ok l -> l <> [];
  law_ReadFrom b l b' : ToBytes b = Ok l ->
    (ReadFrom b' l).2 = Ok (Z.of_nat (length l))
    /\ (elems (ReadFrom b' l).1 = elems b \/ elems (ReadFrom b' l).1 = elems b ∪ elems b')
}.

(** ** The interfaces of contract.go *)

Record Warmer (S : Type) := {
  (** The callback is given the batch size and the storage, which it may change. *)
  WarmCallback : option (Z -> S -> S * result string (list Z)); BatchSize : Z
}.
Arguments WarmCallback {S} _.
Arguments BatchSize {S} _.

(** The methods of [MemorySetStorage] on the data. *)
Class MemorySetStorage (S : Type) := {
  Contains : S -> Z -> bool;
  UpsertMany : S -> list Z -> S;
  RemoveMany : S -> list Z -> S;
  GetCount : S -> Z;
  Clear : S -> S;
  ReadFromBuffer : S -> bytes -> S * result string Z;
  GetBytesFromBitmap : S -> result string (option bytes)
}.

(** What a storage promises its users and its replicator. *)
Class MemorySetStorageLaws (S : Type) `{!MemorySetStorage S} (keys : S -> gset Z) : Prop := {
  storage_Contains s k : Contains s k = bool_decide (k ∈ keys s);
  storage_UpsertMany s ks : keys (UpsertMany s ks) = keys s ∪ list_to_set ks;
  storage_RemoveMany s ks : keys (RemoveMany s ks) = keys s ∖ list_to_set ks;
  storage_GetCount s : GetCount s = Z.of_nat (size (keys s));
  storage_Clear s : keys (Clear s) = ∅;
  storage_dump_empty s : keys s = ∅ -> GetBytesFromBitmap s = Ok None;
  storage_dump_nonempty s l : GetBytesFromBitmap s = Ok (Some l) -> l <> [];
  storage_dump_read s l s' : GetBytesFromBitmap s = Ok (Some l) ->
    (ReadFromBuffer s' l).2 = Ok (Z.of_nat (length l))
    /\ (keys (ReadFromBuffer s' l).1 = keys s \/ keys (ReadFromBuffer s' l).1 = keys s ∪ keys s')
}.

(** A replicator keeps dumps in a state [R]; its errors are the [error] of the code. *)
Class MemorySetStorageReplicator (R : Type) := {
  rReplicate {S} `{!MemorySetStorage S} (r : R) (storage : S) (replicationKey : string) (ttl : Z) : R * option string;
  rRecover {S} `{!MemorySetStorage S} (r : R) (storage : S) (replicationKey : string) : (R * S) * option string;
  rDropReplicationKey (r : R) (replicationKey : string) : R * option string
}.

(** What a replicator that keeps its dumps promises: [dump r k] is the dump kept under [k]. *)
Class ReplicatorLaws (R : Type) `{!MemorySetStorageReplicator R} (dump : R -> string -> option bytes) : Prop := {
  replicate_writes {S} `{!MemorySetStorage S} r (s : S) k ttl :
    (rReplicate r s k ttl).2 = None ->
    exists l, GetBytesFromBitmap s = Ok (Some l) /\ dump (rReplicate r s k ttl).1 k = Some l;
  replicate_empty {S} `{!MemorySetStorage S} r (s : S) k ttl :
    GetBytesFromBitmap s = Ok None -> exists e, rReplicate r s k ttl = (r, Some e);
  recover_reads {S} `{!MemorySetStorage S} r (s : S) k :
    (rRecover r s k).2 = None ->
    exists l n, dump r k = Some l /\ ReadFromBuffer (Clear s) l = ((rRecover r s k).1.2, Ok n);
  recover_fails {S} `{!MemorySetStorage S} r (s : S) k e :
    (rRecover r s k).2 = Some e ->
    (rRecover r s k).1.2 = s
    \/ exists l, dump r k = Some l /\ ReadFromBuffer (Clear s) l = ((rRecover r s k).1.2, Err e);
  recover_keeps_dumps {S} `{!MemorySetStorage S} r (s : S) k k' :
    dump (rRecover r s k).1.1 k' = dump r k'
}.

(** ** roaringBitmapStorage *)

Record BitmapStorageConfigs := {
  MonitoringTicker : Z; OptimizingTicker : Z; ReplicationTicker : Z; ReplicationTtl : Z;
  StorageName : string; DebugLogs : bool; ReplicationKey : string
}.

(** The name of the storage at the head of its messages. *)
Definition bracket (name : string) : string := "[" +:+ name +:+ "]".

Section storage.
Context {Bitmap : Type} `{!Roaring64 Bitmap}.

(** The data part: the configuration and the bitmap. *)
Record roaringBitmapStorage := mkStorage { configs : BitmapStorageConfigs; bitmap : Bitmap }.

Definition with_bitmap (s : roaringBitmapStorage) (b : Bitmap) : roaringBitmapStorage := mkStorage (configs s) b.

Definition s_Contains (s : roaringBitmapStorage) (key : Z) : bool := bContains (bitmap s) key.

Definition s_UpsertMany (s : roaringBitmapStorage) (keys : list Z) : roaringBitmapStorage :=
  with_bitmap s (AddMany (bitmap s) keys).

Definition s_RemoveMany (s : roaringBitmapStorage) (keys : list Z) : roaringBitmapStorage :=
  with_bitmap s (foldl Remove (bitmap s) keys).

Definition s_GetCount (s : roaringBitmapStorage) : Z := GetCardinality (bitmap s).

Definition s_Clear (s : roaringBitmapStorage) : roaringBitmapStorage := with_bitmap s (bClear (bitmap s)).

Definition isEmpty (s : roaringBitmapStorage) : bool := IsEmpty (bitmap s).

Definition s_ReadFromBuffer (s : roaringBitmapStorage) (buffer : bytes) : roaringBitmapStorage * result string Z :=
  let (b, p) := ReadFrom (bitmap s) buffer in
  (with_bitmap s b, match p with Err e => Err e | Ok n => Ok n end).

Definition s_GetBytesFromBitmap (s : roaringBitmapStorage) : result string (option bytes) :=
  if IsEmpty (bitmap s) then Ok None
  else match ToBytes (bitmap s) with Err e => Err e | Ok l => Ok (Some l) end.

Definition optimize (s : roaringBitmapStorage) : roaringBitmapStorage := with_bitmap s (RunOptimize (bitmap s)).

Definition getSizeBytes (s : roaringBitmapStorage) : Z := GetSizeInBytes (bitmap s).

(** [fmt.Sprintf("%.2f", float64(bytes)/1024/1024)] in hundredths: the nearest one, ties to even (dividing by a
    power of two is exact below 2^53 bytes). *)
Definition size_hundredths (n : Z) : Z :=
  let q := n * 100 / 2 ^ 20 in
  let r := (n * 100) mod 2 ^ 20 in
  if r * 2 <? 2 ^ 20 then q else if 2 ^ 20 <? r * 2 then q + 1 else if Z.even q then q else q + 1.

Definition two_decimals (h : Z) : string :=
  pretty (h / 100) +:+ "." +:+ pretty (h mod 100 / 10) +:+ pretty (h mod 10).

(** The line of the monitoring; the size and the count are read in two critical sections, so from two
    storages when there is a change in between. *)
Definition printSize (at_size at_count : roaringBitmapStorage) : string :=
  let bytes := getSizeBytes at_size in
  let count := s_GetCount at_count in
  bracket (StorageName (configs at_count)) +:+ " elements=" +:+ pretty count
  +:+ " → roaring64 size = " +:+ two_decimals (size_hundredths bytes) +:+ " MB (≈ " +:+ pretty bytes +:+ " bytes)".

#[global] Instance roaring_storage : MemorySetStorage roaringBitmapStorage := {
  Contains := s_Contains; UpsertMany := s_UpsertMany; RemoveMany := s_RemoveMany; GetCount := s_GetCount;
  Clear := s_Clear; ReadFromBuffer := s_ReadFromBuffer; GetBytesFromBitmap := s_GetBytesFromBitmap
}.

(** [NewBitmapStorage]: the batch size is read before anything checks that the warmer is not nil. *)
Definition NewBitmapStorage (cfg : BitmapStorageConfigs) (warmer : option (Warmer roaringBitmapStorage))
    : outcome roaringBitmapStorage :=
  match warmer with
  | None => Panicked "runtime error: invalid memory address or nil pointer dereference"
  | Some w => if BatchSize w <=? 0
              then Panicked (bracket (StorageName cfg) +:+ " warmer batch size must be greater than 0")
              else Returned (mkStorage cfg NewBitmap)
  end.

(** [MustWarmer] on the warmer of the storage; the second component is whether the background goroutine is
    launched. *)
Definition MustWarmer (cfg : BitmapStorageConfigs) (warmer : option (Warmer roaringBitmapStorage))
    (fn : option (Z -> roaringBitmapStorage -> roaringBitmapStorage * result string (list Z)))
    : outcome (Warmer roaringBitmapStorage * bool) :=
  match warmer with
  | None => Panicked (bracket (StorageName cfg) +:+ " warmer function cannot be nil")
  | Some w => match WarmCallback w with
              | Some _ => Panicked (bracket (StorageName cfg) +:+ " warmer function already set")
              | None => Returned ({| WarmCallback := fn; BatchSize := BatchSize w |}, true)
              end
  end.

(** [Warm]: the callback runs only for an empty storage; calling a nil one panics. *)
Definition Warm (s : roaringBitmapStorage) (warmer : option (Warmer roaringBitmapStorage))
    : outcome (roaringBitmapStorage * option string) :=
  match warmer with
  | None => Panicked (bracket (StorageName (configs s)) +:+ " warmer function cannot be nil")
  | Some w =>
    if isEmpty s then
      match WarmCallback w with
      | None => Panicked "runtime error: invalid memory address or nil pointer dereference"
      | Some fn =>
        match fn (BatchSize w) s with
        | (s', Err e) => Returned (s', Some e)
        | (s', Ok data) => if (length data =? 0)%nat then Returned (s', None) else Returned (s_UpsertMany s' data, None)
        end
      end
    else Returned (s, None)
  end.

Section replication.
Context {R : Type} `{!MemorySetStorageReplicator R}.

Definition Recover (s : roaringBitmapStorage) (r : R) : (R * roaringBitmapStorage) * option string :=
  rRecover r s (ReplicationKey (configs s)).

Definition Replicate (s : roaringBitmapStorage) (r : R) : R * option string :=
  rReplicate r s (ReplicationKey (configs s)) (ReplicationTtl (configs s)).

Definition DropReplicationKey (s : roaringBitmapStorage) (r : R) : R * option string :=
  rDropReplicationKey r (ReplicationKey (configs s)).

(** The background loop: what each case of its [select] does. [None] is the end of the goroutine. *)
Inductive background_case := CtxDone | MonitoringTick | OptimizingTick | ReplicationTick.

Definition background_step (s : roaringBitmapStorage) (r : R) (c : background_case)
    : option (roaringBitmapStorage * R) :=
  match c with
  | CtxDone => None
  | MonitoringTick => Some (s, r)
  | OptimizingTick => Some (optimize s, r)
  | ReplicationTick => Some (s, (Replicate s r).1)
  end.

(** [time.NewTicker] panics on a period that is not positive, and [GoRecover] ends the goroutine:
    the loop runs only when the three periods are positive. *)
Definition background_runs (cfg : BitmapStorageConfigs) : bool :=
  (0 <? MonitoringTicker cfg) && (0 <? OptimizingTicker cfg) && (0 <? ReplicationTicker cfg).
End replication.
End storage.
Arguments roaringBitmapStorage : clear implicits.

(** ** The replicators *)

(** The common shape of [Replicate]: the bytes of the storage, then [write]. *)
Definition no_data (forStorage : string) : string := bracket forStorage +:+ " bitmap is empty for replicate".

(** *** BitmapFakeReplicator: the dumps in a map *)

Record BitmapFakeReplicator := mkFake { store : gmap string bytes; fakeForStorage : string }.

Definition NewBitmapFakeReplicator (forStorage : string) : BitmapFakeReplicator := mkFake ∅ forStorage.

Definition fake_Replicate {S} `{!MemorySetStorage S} (r : BitmapFakeReplicator) (storage : S) (key : string) (ttl : Z)
    : BitmapFakeReplicator * option string :=
  match GetBytesFromBitmap storage with
  | Err e => (r, Some e)
  | Ok None => (r, Some (no_data (fakeForStorage r)))
  | Ok (Some l) => (mkFake (<[key := l]> (store r)) (fakeForStorage r), None)
  end.

Definition fake_Recover {S} `{!MemorySetStorage S} (r : BitmapFakeReplicator) (storage : S) (key : string)
    : (BitmapFakeReplicator * S) * option string :=
  match store r !! key with
  | None | Some [] => ((r, storage), Some (bracket (fakeForStorage r) +:+ " no data found for replication key: " +:+ key))
  | Some data =>
    match ReadFromBuffer (Clear storage) data with
    | (s', Err e) => ((r, s'), Some e)
    | (s', Ok _) => ((r, s'), None)
    end
  end.

Definition fake_DropReplicationKey (r : BitmapFakeReplicator) (key : string) : BitmapFakeReplicator * option string :=
  (mkFake (delete key (store r)) (fakeForStorage r), None).

#[export] Instance fake_replicator : MemorySetStorageReplicator BitmapFakeReplicator := {
  rReplicate S _ := fake_Replicate; rRecover S _ := fake_Recover; rDropReplicationKey := fake_DropReplicationKey
}.

(** *** BitmapRedisReplicator: the dumps in Redis *)

(** The commands the replicator uses; any of them may fail. *)
Class RedisClient (W : Type) := {
  rSet : W -> string -> bytes -> Z -> W * option string;
  rGet : W -> string -> W * result string bytes;
  rDel : W -> string -> W * option string
}.

(** [live w k]: the value the server holds under [k] in the state [w]. *)
Class RedisClientLaws (W : Type) `{!RedisClient W} (live : W -> string -> option bytes) : Prop := {
  law_set_ok w k v ttl : (rSet w k v ttl).2 = None -> live (rSet w k v ttl).1 k = Some v;
  law_get_ok w k v : (rGet w k).2 = Ok v -> live w k = Some v;
  law_get_frame w k k' : live (rGet w k).1 k' = live w k'
}.

Record BitmapRedisReplicator (W : Type) := mkRedisReplicator { redis : W; forStorage : string }.
Arguments mkRedisReplicator {W} _ _.
Arguments redis {W} _.
Arguments forStorage {W} _.

Section redis_replicator.
Context {W : Type} `{!RedisClient W}.

Definition NewBimapRedisReplicator (redisClient : option W) (name : string) : outcome (BitmapRedisReplicator W) :=
  match redisClient with
  | None => Panicked "redis client must be not nil"
  | Some w => Returned (mkRedisReplicator w name)
  end.

Definition writeBytesToDump (r : BitmapRedisReplicator W) (key : string) (l : bytes) (ttl : Z)
    : BitmapRedisReplicator W * option string :=
  let (w, err) := rSet (redis r) key l ttl in (mkRedisReplicator w (forStorage r), err).

(** A nil slice of bytes is read as the empty one by [bytes.NewBuffer]. *)
Definition readBytesFromDump (r : BitmapRedisReplicator W) (key : string)
    : BitmapRedisReplicator W * result string bytes :=
  let (w, v) := rGet (redis r) key in (mkRedisReplicator w (forStorage r), v).

Definition redis_Replicate {S} `{!MemorySetStorage S} (r : BitmapRedisReplicator W) (storage : S) (key : string) (ttl : Z)
    : BitmapRedisReplicator W * option string :=
  match GetBytesFromBitmap storage with
  | Err e => (r, Some e)
  | Ok None => (r, Some (no_data (forStorage r)))
  | Ok (Some l) => writeBytesToDump r key l ttl
  end.

Definition redis_Recover {S} `{!MemorySetStorage S} (r : BitmapRedisReplicator W) (storage : S) (key : string)
    : (BitmapRedisReplicator W * S) * option string :=
  match readBytesFromDump r key with
  | (r', Err e) => ((r', storage), Some e)
  | (r', Ok l) =>
    match ReadFromBuffer (Clear storage) l with
    | (s', Err e) => ((r', s'), Some e)
    | (s', Ok _) => ((r', s'), None)
    end
  end.

Definition redis_DropReplicationKey (r : BitmapRedisReplicator W) (key : string)
    : BitmapRedisReplicator W * option string :=
  let (w, err) := rDel (redis r) key in (mkRedisReplicator w (forStorage r), err).

#[global] Instance redis_replicator : MemorySetStorageReplicator (BitmapRedisReplicator W) := {
  rReplicate S _ := redis_Replicate; rRecover S _ := redis_Recover; rDropReplicationKey := redis_DropReplicationKey
}.
End redis_replicator.

(** *** BitmapStubReplicator: nothing is kept *)

#[export] Instance stub_replicator : MemorySetStorageReplicator unit := {
  rReplicate S _ r storage k ttl := (r, None);
  rRecover S _ r storage k := ((r, storage), None);
  rDropReplicationKey r k := (r, None)
}.

(** ** The storage keeps its promise *)

Section storage_laws.
Context {Bitmap : Type} `{!Roaring64 Bitmap} (elems : Bitmap -> gset Z) `{!Roaring64Laws Bitmap elems}.

Definition keys (s : roaringBitmapStorage Bitmap) : gset Z := elems (bitmap s).

Lemma elems_foldl_Remove b ks : elems (foldl Remove b ks) = elems b ∖ list_to_set ks.
Proof.
  revert b. induction ks as [|k ks IH]; intros b; simpl; [set_solver|].
  rewrite IH, (law_Remove (elems := elems)). set_solver.
Qed.

#[global] Instance roaring_storage_laws : MemorySetStorageLaws (roaringBitmapStorage Bitmap) keys.
Proof.
  split; unfold keys; simpl.
  - intros s k. apply (law_Contains (elems := elems)).
  - intros s ks. apply (law_AddMany (elems := elems)).
  - intros s ks. apply elems_foldl_Remove.
  - intros s. apply (law_GetCardinality (elems := elems)).
  - intros s. apply (law_Clear (elems := elems)).
  - intros s Hs. unfold s_GetBytesFromBitmap. rewrite (law_IsEmpty (elems := elems)).
    by rewrite bool_decide_true.
  - intros s l. unfold s_GetBytesFromBitmap. destruct (IsEmpty _); [done|].
    destruct (ToBytes (bitmap s)) eqn:E; intros; simplify_eq. by eapply (law_ToBytes_nonempty (elems := elems)).
  - intros s l s'. unfold s_GetBytesFromBitmap, s_ReadFromBuffer. destruct (IsEmpty _); [done|].
    destruct (ToBytes (bitmap s)) eqn:E; intros; simplify_eq.
    destruct (law_ReadFrom (elems := elems) _ _ (bitmap s') E) as [H1 H2].
    destruct (ReadFrom (bitmap s') l) as [b p]. simpl in *. by subst p.
Qed.

(** The size that is printed is the nearest hundredth. *)
Lemma size_hundredths_nearest n : 0 <= n -> 2 * Z.abs (size_hundredths n * 2 ^ 20 - n * 100) <= 2 ^ 20.
Proof.
  intros Hn. unfold size_hundredths.
  pose proof (Z.div_mod (n * 100) (2 ^ 20) ltac:(lia)). pose proof (Z.mod_pos_bound (n * 100) (2 ^ 20) ltac:(lia)).
  destruct (Z.ltb_spec ((n * 100) mod 2 ^ 20 * 2) (2 ^ 20)); [lia|].
  destruct (Z.ltb_spec (2 ^ 20) ((n * 100) mod 2 ^ 20 * 2)); [lia|]. destruct (Z.even _); lia.
Qed.

(** *** Sequences of operations *)

Inductive storage_call :=
  | CContains (k : Z) | CUpsertMany (ks : list Z) | CRemoveMany (ks : list Z) | CGetCount | CClear | COptimize.
Inductive storage_reply := RBool (b : bool) | RCount (n : Z) | RUnit.

Definition storage_op (s : roaringBitmapStorage Bitmap) (c : storage_call) : roaringBitmapStorage Bitmap * storage_reply :=
  match c with
  | CContains k => (s, RBool (Contains s k))
  | CUpsertMany ks => (UpsertMany s ks, RUnit)
  | CRemoveMany ks => (RemoveMany s ks, RUnit)
  | CGetCount => (s, RCount (GetCount s))
  | CClear => (Clear s, RUnit)
  | COptimize => (optimize s, RUnit)
  end.

(** The specification: a set of keys. *)
Definition set_op (m : gset Z) (c : storage_call) : gset Z * storage_reply :=
  match c with
  | CContains k => (m, RBool (bool_decide (k ∈ m)))
  | CUpsertMany ks => (m ∪ list_to_set ks, RUnit)
  | CRemoveMany ks => (m ∖ list_to_set ks, RUnit)
  | CGetCount => (m, RCount (Z.of_nat (size m)))
  | CClear => (∅, RUnit)
  | COptimize => (m, RUnit)
  end.

Fixpoint run_calls {S} (op : S -> storage_call -> S * storage_reply) (s : S) (cs : list storage_call)
    : S * list storage_reply :=
  match cs with
  | [] => (s, [])
  | c :: cs => let (s1, r) := op s c in let (s2, rs) := run_calls op s1 cs in (s2, r :: rs)
  end.

Lemma storage_op_refines s c :
  keys (storage_op s c).1 = (set_op (keys s) c).1 /\ (storage_op s c).2 = (set_op (keys s) c).2.
Proof.
  destruct c; simpl; split; try done.
  - f_equal. exact (storage_Contains s k).
  - exact (storage_UpsertMany s ks).
  - exact (storage_RemoveMany s ks).
  - f_equal. exact (storage_GetCount s).
  - exact (storage_Clear s).
  - apply (law_RunOptimize (elems := elems)).
Qed.
End storage_laws.

(** ** The replicators keep their promise *)

#[export] Instance fake_laws : ReplicatorLaws BitmapFakeReplicator (fun r k => store r !! k).
Proof.
  split; intros S HS r s k; simpl.
  - intros ttl. unfold fake_Replicate. destruct (GetBytesFromBitmap s) as [[l|]|]; try done.
    intros _. exists l. split; [done|]. simpl. apply lookup_insert_eq.
  - intros ttl E. unfold fake_Replicate. rewrite E. by eexists.
  - unfold fake_Recover. destruct (store r !! k) as [[|b l]|]; try done.
    destruct (ReadFromBuffer (Clear s) (b :: l)) as [s' [n|e] ] eqn:E; [|done]. intros _. by exists (b :: l), n.
  - intros e. unfold fake_Recover. destruct (store r !! k) as [[|b l]|]; try (by left).
    destruct (ReadFromBuffer (Clear s) (b :: l)) as [s' [n|e'] ] eqn:E; [done|].
    intros [= <-]. right. by exists (b :: l).
  - intros k'. unfold fake_Recover. destruct (store r !! k) as [[|b l]|]; try done.
    by destruct (ReadFromBuffer (Clear s) (b :: l)) as [s' []].
Qed.

#[export] Instance redis_laws {W} `{!RedisClient W} (live : W -> string -> option bytes) `{!RedisClientLaws W live} :
  ReplicatorLaws (BitmapRedisReplicator W) (fun r => live (redis r)).
Proof.
  split; intros S HS r s k; simpl.
  - intros ttl. unfold redis_Replicate, writeBytesToDump. destruct (GetBytesFromBitmap s) as [[l|]|]; try done.
    pose proof (law_set_ok (redis r) k l ttl) as H. destruct (rSet (redis r) k l ttl) as [w err]. simpl in *.
    intros ->. exists l. auto.
  - intros ttl E. unfold redis_Replicate. rewrite E. by eexists.
  - unfold redis_Recover, readBytesFromDump. pose proof (law_get_ok (redis r) k) as H.
    destruct (rGet (redis r) k) as [w [l|e] ]; [|done]. simpl in *.
    destruct (ReadFromBuffer (Clear s) l) as [s' [n|e] ] eqn:E; [|done]. intros _. exists l, n. auto.
  - intros e. unfold redis_Recover, readBytesFromDump. pose proof (law_get_ok (redis r) k) as H.
    destruct (rGet (redis r) k) as [w [l|e'] ]; [|by left]. simpl in *.
    destruct (ReadFromBuffer (Clear s) l) as [s' [n|e'] ] eqn:E; [done|].
    intros [= <-]. right. exists l. auto.
  - intros k'. unfold redis_Recover, readBytesFromDump. pose proof (law_get_frame (redis r) k k') as H.
    destruct (rGet (redis r) k) as [w [l|e'] ]; [|done]. simpl in *.
    by destruct (ReadFromBuffer (Clear s) l) as [s' [n|e] ].
Qed.

(** ** Recovery, against the two interfaces *)

Section recovery.
Context {S : Type} `{!MemorySetStorage S} (keys_of : S -> gset Z) `{!MemorySetStorageLaws S keys_of}.
Context {R : Type} `{!MemorySetStorageReplicator R} (dump : R -> string -> option bytes) `{!ReplicatorLaws R dump}.

(** A dump of [s] either is read back or is not read at all. *)
Lemma recover_dump_of s r s2 k l :
  GetBytesFromBitmap s = Ok (Some l) -> dump r k = Some l ->
  match (rRecover r s2 k).2 with
  | None => keys_of (rRecover r s2 k).1.2 = keys_of s
  | Some _ => (rRecover r s2 k).1.2 = s2
  end.
Proof.
  intros Hl Hd. destruct (storage_dump_read (keys := keys_of) s l (Clear s2) Hl) as [H1 H2].
  destruct ((rRecover r s2 k).2) as [e|] eqn:E.
  - destruct (recover_fails r s2 k e E) as [?|(l' & Hd' & Hr)]; [done|]. simplify_eq.
    rewrite Hr in H1. done.
  - destruct (recover_reads r s2 k E) as (l' & n & Hd' & Hr). simplify_eq. rewrite Hr, (storage_Clear (keys := keys_of)) in H2.
    destruct H2 as [H2|H2]; simpl in H2; rewrite H2; set_solver.
Qed.

Lemma replicate_then_recover s r k ttl r2 s2 :
  (rReplicate r s k ttl).2 = None -> dump r2 k = dump (rReplicate r s k ttl).1 k ->
  match (rRecover r2 s2 k).2 with
  | None => keys_of (rRecover r2 s2 k).1.2 = keys_of s
  | Some _ => (rRecover r2 s2 k).1.2 = s2
  end.
Proof.
  intros (l & Hl & Hd)%replicate_writes Hsame. apply (recover_dump_of s r2 s2 k l Hl). congruence.
Qed.
End recovery.

(** ** A bitmap library, for concrete runs: a set, dumped as the bits of its encoding *)

Fixpoint dump_bits (p : positive) : bytes :=
  match p with
  | xH => [Byte.x02]
  | xO p => Byte.x00 :: dump_bits p
  | xI p => Byte.x01 :: dump_bits p
  end.

Fixpoint read_bits (l : bytes) : option positive :=
  match l with
  | [Byte.x02] => Some xH
  | Byte.x00 :: l => xO <$> read_bits l
  | Byte.x01 :: l => xI <$> read_bits l
  | _ => None
  end.

Lemma read_dump_bits p : read_bits (dump_bits p) = Some p.
Proof. induction p as [p IH|p IH|]; simpl; [by rewrite IH..|done]. Qed.

#[export] Instance demo_roaring : Roaring64 (gset Z) := {
  NewBitmap := ∅;
  bContains b k := bool_decide (k ∈ b);
  AddMany b ks := b ∪ list_to_set ks;
  Remove b k := b ∖ {[k]};
  bClear _ := ∅;
  IsEmpty b := bool_decide (b = ∅);
  GetCardinality b := Z.of_nat (size b);
  RunOptimize b := b;
  GetSizeInBytes b := 16 + 8 * Z.of_nat (size b);
  ToBytes b := Ok (dump_bits (encode (elements b)));
  ReadFrom b l := match read_bits l ≫= decode with
                  | Some ks => (list_to_set (ks : list Z), Ok (Z.of_nat (length l)))
                  | None => (b, Err "invalid cookie"%string)
                  end
}.

#[export] Instance demo_roaring_laws : Roaring64Laws (gset Z) id.
Proof.
  split; simpl; try done.
  - intros b l [= <-]. by destruct (encode (elements b)).
  - intros b l b' [= <-]. rewrite read_dump_bits. simpl. rewrite decode_encode. simpl.
    split; [done|]. left. apply list_to_set_elements_L.
Qed.

(** A Redis server that never fails and keeps every value. *)
#[export] Instance demo_redis_client : RedisClient (gmap string bytes) := {
  rSet w k v _ := (<[k := v]> w, None);
  rGet w k := (w, match w !! k with Some v => Ok v | None => Err "redis: nil"%string end);
  rDel w k := (delete k w, None)
}.

#[export] Instance demo_redis_client_laws : RedisClientLaws (gmap string bytes) (fun w k => w !! k).
Proof.
  split; simpl.
  - intros w k v ttl _. apply lookup_insert_eq.
  - intros w k v. destruct (w !! k); [by intros [= ->]|done].
  - done.
Qed.

Definition demo_configs : BitmapStorageConfigs := {|
  MonitoringTicker := 1; OptimizingTicker := 1; ReplicationTicker := 1; ReplicationTtl := 1;
  StorageName := "goods"; DebugLogs := false; ReplicationKey := "bitmap_current_goods_ids"
|}.

Definition demo_storage (ks : list Z) : roaringBitmapStorage (gset Z) := mkStorage demo_configs (list_to_set ks).

(** ** Properties *)

(** C15: any sequence of [Contains], [UpsertMany], [RemoveMany], [GetCount], [Clear] and of
    background optimizations, from any state of the storage, answers as a set of keys does, and
    leaves the set the specification leaves. *)
Theorem storage_refines_set {Bitmap : Type} `{!Roaring64 Bitmap} (elems : Bitmap -> gset Z)
    (Hlaws : Roaring64Laws Bitmap elems) (s : roaringBitmapStorage Bitmap) (cs : list storage_call) :
  keys elems (run_calls storage_op s cs).1 = (run_calls set_op (keys elems s) cs).1
  /\ (run_calls storage_op s cs).2 = (run_calls set_op (keys elems s) cs).2.
Proof.
  revert s. induction cs as [|c cs IH]; intros s; [done|]. simpl.
  destruct (storage_op_refines elems s c) as [H1 H2].
  destruct (storage_op s c) as [s1 r1], (set_op (keys elems s) c) as [m1 r1']. simpl in H1, H2. subst.
  destruct (IH s1) as [H3 H4].
  destruct (run_calls storage_op s1 cs), (run_calls set_op (keys elems s1) cs). simpl in *. by subst.
Qed.

Lemma storage_refines_set_witness :
  (run_calls storage_op (demo_storage [])
    [CUpsertMany [5; 7; 9]; CRemoveMany [7; 8]; COptimize; CContains 7; CContains 9; CGetCount]).2
    = [RUnit; RUnit; RUnit; RBool false; RBool true; RCount 2]
  /\ keys id (run_calls storage_op (demo_storage [5]) [CRemoveMany [5]]).1 = (run_calls set_op (keys id (demo_storage [5])) [CRemoveMany [5]]).1.
Proof.
  split; [vm_compute; reflexivity|]. apply (storage_refines_set id demo_roaring_laws).
Defined.

(** C16: replication round trip, for any replicator that keeps its dumps (the fake and the
    Redis one do). After [Replicate] has succeeded, and as long as the dump is there unchanged, [Recover]
    into any storage with the same replication key either gives it exactly the keys that were replicated,
    or returns an error and leaves it as it was: a dump that was written can always be read back. *)
Theorem Replicate_Recover_roundtrip {Bitmap : Type} `{!Roaring64 Bitmap} (elems : Bitmap -> gset Z)
    (Hlib : Roaring64Laws Bitmap elems) {R : Type} `{!MemorySetStorageReplicator R}
    (dump : R -> string -> option bytes) (Hrep : ReplicatorLaws R dump)
    (s s2 : roaringBitmapStorage Bitmap) (r r2 : R)
    (Hok : (Replicate s r).2 = None) (Hkey : configs s2 = configs s)
    (Hkept : dump r2 (ReplicationKey (configs s)) = dump (Replicate s r).1 (ReplicationKey (configs s))) :
  match (Recover s2 r2).2 with
  | None => keys elems (Recover s2 r2).1.2 = keys elems s
  | Some _ => (Recover s2 r2).1.2 = s2
  end.
Proof.
  unfold Recover, Replicate in *. rewrite Hkey.
  apply (replicate_then_recover (keys elems) dump s r _ (ReplicationTtl (configs s))); done.
Qed.

Lemma Replicate_Recover_roundtrip_witness :
  (Recover (demo_storage [1]) (Replicate (demo_storage [3; 4]) (NewBitmapFakeReplicator "goods")).1).2 = None
  /\ match (Recover (demo_storage [1]) (Replicate (demo_storage [3; 4]) (NewBitmapFakeReplicator "goods")).1).2 with
     | None => keys id (Recover (demo_storage [1]) (Replicate (demo_storage [3; 4]) (NewBitmapFakeReplicator "goods")).1).1.2
               = keys id (demo_storage [3; 4])
     | Some _ => (Recover (demo_storage [1]) (Replicate (demo_storage [3; 4]) (NewBitmapFakeReplicator "goods")).1).1.2
                 = demo_storage [1]
     end.
Proof.
  split; [vm_compute; reflexivity|].
  apply (Replicate_Recover_roundtrip id demo_roaring_laws (fun r k => store r !! k) fake_laws
    (demo_storage [3; 4]) (demo_storage [1]) (NewBitmapFakeReplicator "goods")); [vm_compute|..]; reflexivity.
Defined.

(** A storage that is emptied is never replicated as empty. [Replicate] of an empty storage
    returns an error and keeps the last dump, so a later [Recover] brings back all the keys that
    had been removed. *)
Theorem emptied_storage_recovers_removed_keys {Bitmap : Type} `{!Roaring64 Bitmap} (elems : Bitmap -> gset Z)
    (Hlib : Roaring64Laws Bitmap elems) {R : Type} `{!MemorySetStorageReplicator R}
    (dump : R -> string -> option bytes) (Hrep : ReplicatorLaws R dump)
    (s s2 : roaringBitmapStorage Bitmap) (r : R)
    (Hok : (Replicate s r).2 = None) (Hkey : configs s2 = configs s) (Hempty : keys elems s2 = ∅)
    (Hrec : (Recover s2 (Replicate s2 (Replicate s r).1).1).2 = None) :
  (Replicate s2 (Replicate s r).1).2 <> None
  /\ (Replicate s2 (Replicate s r).1).1 = (Replicate s r).1
  /\ keys elems (Recover s2 (Replicate s2 (Replicate s r).1).1).1.2 = keys elems s.
Proof.
  unfold Recover, Replicate in *. rewrite Hkey in *. set (k := ReplicationKey (configs s)) in *.
  set (ttl := ReplicationTtl (configs s)) in *. set (r1 := (rReplicate r s k ttl).1) in *.
  destruct (replicate_empty r1 s2 k ttl) as [e He].
  { by apply (storage_dump_empty (keys := keys elems)). }
  rewrite He in *. simpl in *. split_and!; [done|done|].
  pose proof (replicate_then_recover (keys elems) dump s r k ttl r1 s2 Hok eq_refl) as H.
  by rewrite Hrec in H.
Qed.

Lemma emptied_storage_recovers_removed_keys_witness :
  (Replicate (demo_storage []) (Replicate (demo_storage [3; 4]) (NewBitmapFakeReplicator "goods")).1).2 <> None
  /\ (Replicate (demo_storage []) (Replicate (demo_storage [3; 4]) (NewBitmapFakeReplicator "goods")).1).1
     = (Replicate (demo_storage [3; 4]) (NewBitmapFakeReplicator "goods")).1
  /\ keys id (Recover (demo_storage []) (Replicate (demo_storage [])
       (Replicate (demo_storage [3; 4]) (NewBitmapFakeReplicator "goods")).1).1).1.2 = keys id (demo_storage [3; 4]).
Proof.
  apply (emptied_storage_recovers_removed_keys id demo_roaring_laws (fun r k => store r !! k) fake_laws
    (demo_storage [3; 4]) (demo_storage []) (NewBitmapFakeReplicator "goods")); vm_compute; reflexivity.
Defined.

(** Every outcome of [Warm]. A storage that is not empty is left alone and the callback is not
    called; an empty one ends up with the keys the callback put in itself and the keys it
    returned; when the callback fails its error is returned and nothing is added. *)
Theorem Warm_outcomes {Bitmap : Type} `{!Roaring64 Bitmap} (elems : Bitmap -> gset Z)
    (Hlib : Roaring64Laws Bitmap elems) (s : roaringBitmapStorage Bitmap)
    (fn : Z -> roaringBitmapStorage Bitmap -> roaringBitmapStorage Bitmap * result string (list Z)) (n : Z) :
  exists s' err, Warm s (Some {| WarmCallback := Some fn; BatchSize := n |}) = Returned (s', err)
  /\ (keys elems s <> ∅ -> s' = s /\ err = None)
  /\ (keys elems s = ∅ -> forall data, (fn n s).2 = Ok data ->
        err = None /\ keys elems s' = keys elems (fn n s).1 ∪ list_to_set data)
  /\ (keys elems s = ∅ -> forall e, (fn n s).2 = Err e -> err = Some e /\ s' = (fn n s).1).
Proof.
  unfold Warm, isEmpty, keys. simpl. rewrite (law_IsEmpty (elems := elems)). case_bool_decide as Hs.
  - destruct (fn n s) as [s1 [data|e] ]; simpl.
    + destruct (Nat.eqb_spec (length data) 0) as [Hd|Hd]; do 2 eexists; split; [reflexivity| |reflexivity|];
        split_and!; try done; intros _ d [= <-]; split; try done.
      * apply length_zero_iff_nil in Hd as ->. simpl. set_solver.
      * apply (law_AddMany (elems := elems)).
    + do 2 eexists. split; [reflexivity|]. split_and!; [done|done|]. by intros _ e' [= <-].
  - do 2 eexists. split; [reflexivity|]. split_and!; [done|done|done].
Qed.

Lemma Warm_outcomes_witness :
  exists s' err, Warm (demo_storage []) (Some {| WarmCallback := Some (fun _ s => (s, Ok [8; 9])); BatchSize := 10 |})
    = Returned (s', err)
  /\ (keys id (demo_storage []) <> ∅ -> s' = demo_storage [] /\ err = None)
  /\ (keys id (demo_storage []) = ∅ -> forall data, Ok (E := string) [8; 9] = Ok data ->
        err = None /\ keys id s' = keys id (demo_storage []) ∪ list_to_set data)
  /\ (keys id (demo_storage []) = ∅ -> forall e, Ok (E := string) [8; 9] = Err e -> err = Some e /\ s' = demo_storage []).
Proof.
  apply (Warm_outcomes id demo_roaring_laws (demo_storage []) (fun _ s => (s, Ok [8; 9])) 10).
Defined.
