(* ===== verification/BitmapConcurrent.v ===== *)
(** The bitmap storage under concurrent calls. The methods of [roaringBitmapStorage] that touch the bitmap hold its
    mutex; [Warm], [Recover] and [Replicate] are sequences of such critical sections and of single commands
    of the replicator's store, and this file interleaves them in every possible way. *)
From S2P Require Import Prelude Bytes Bitmap.
From stdpp Require Import base tactics list relations strings gmap.
From Stdlib Require Import ZArith Lia.
Local Open Scope Z_scope.

(** ** The store of a replicator, command by command *)

(** [no_dump] is what [Replicate] answers for an empty storage. *)
Class DumpStore (D : Type) := {
  read_dump : D -> string -> D * result string bytes;
  write_dump : D -> string -> bytes -> Z -> D * option string;
  drop_dump : D -> string -> D * option string;
  no_dump : D -> string
}.

(** What every store of dumps does: a write may fail, and then the old dump or the new one is there. *)
Class DumpStoreLaws (D : Type) `{!DumpStore D} (dump : D -> string -> option bytes) : Prop := {
  read_dump_ok d k l : (read_dump d k).2 = Ok l -> dump d k = Some l;
  read_dump_frame d k k' : dump (read_dump d k).1 k' = dump d k';
  write_dump_one d k l ttl l' : dump (write_dump d k l ttl).1 k = Some l' -> l' = l \/ dump d k = Some l';
  drop_dump_one d k l' : dump (drop_dump d k).1 k = Some l' -> dump d k = Some l'
}.

(** The replicator of contract.go over such a store does its commands in this order. *)
Class ReplicatorSteps (D : Type) `{!DumpStore D, !MemorySetStorageReplicator D} : Prop := {
  replicate_steps {S} `{!MemorySetStorage S} (d : D) (s : S) k ttl :
    rReplicate d s k ttl =
    match GetBytesFromBitmap s with
    | Err e => (d, Some e)
    | Ok None => (d, Some (no_dump d))
    | Ok (Some l) => write_dump d k l ttl
    end;
  recover_steps {S} `{!MemorySetStorage S} (d : D) (s : S) k :
    rRecover d s k =
    match read_dump d k with
    | (d', Err e) => ((d', s), Some e)
    | (d', Ok l) => match ReadFromBuffer (Clear s) l with
                    | (s', Err e) => ((d', s'), Some e)
                    | (s', Ok _) => ((d', s'), None)
                    end
    end;
  drop_steps (d : D) k : rDropReplicationKey d k = drop_dump d k
}.

(** *** The map of the fake replicator *)

Definition fake_read (r : BitmapFakeReplicator) (key : string) : BitmapFakeReplicator * result string bytes :=
  match store r !! key with
  | None | Some [] => (r, Err (bracket (fakeForStorage r) +:+ " no data found for replication key: " +:+ key))
  | Some data => (r, Ok data)
  end.

Definition fake_write (r : BitmapFakeReplicator) (key : string) (l : bytes) (ttl : Z)
    : BitmapFakeReplicator * option string :=
  (mkFake (<[key := l]> (store r)) (fakeForStorage r), None).

#[export] Instance fake_dumps : DumpStore BitmapFakeReplicator := {
  read_dump := fake_read; write_dump := fake_write; drop_dump := fake_DropReplicationKey;
  no_dump r := no_data (fakeForStorage r)
}.

#[export] Instance fake_dumps_laws : DumpStoreLaws BitmapFakeReplicator (fun r k => store r !! k).
Proof.
  split; intros r k; simpl.
  - intros l. unfold fake_read. destruct (store r !! k) as [[|b l']|]; try done. by intros [= <-].
  - intros k'. unfold fake_read. by destruct (store r !! k) as [[|b l']|].
  - intros l ttl l'. rewrite lookup_insert_eq. naive_solver.
  - intros l'. by rewrite lookup_delete_eq.
Qed.

#[export] Instance fake_steps : ReplicatorSteps BitmapFakeReplicator.
Proof.
  split; intros; [done| |done]. simpl. unfold fake_Recover, fake_read. by destruct (store d !! k) as [[|b l']|].
Qed.

(** *** Redis *)

(** A command that fails may have been executed or not; a read changes nothing. *)
Class RedisAtomicLaws (W : Type) `{!RedisClient W} (live : W -> string -> option bytes) : Prop := {
  law_set_one w k v ttl v' : live (rSet w k v ttl).1 k = Some v' -> v' = v \/ live w k = Some v';
  law_del_one w k v' : live (rDel w k).1 k = Some v' -> live w k = Some v'
}.

#[export] Instance redis_dumps {W} `{!RedisClient W} : DumpStore (BitmapRedisReplicator W) := {
  read_dump := readBytesFromDump; write_dump := writeBytesToDump; drop_dump := redis_DropReplicationKey;
  no_dump r := no_data (forStorage r)
}.

#[export] Instance redis_dumps_laws {W} `{!RedisClient W} (live : W -> string -> option bytes)
  `{!RedisClientLaws W live, !RedisAtomicLaws W live} :
  DumpStoreLaws (BitmapRedisReplicator W) (fun r => live (redis r)).
Proof.
  split; intros r k; simpl; unfold readBytesFromDump, writeBytesToDump, redis_DropReplicationKey.
  - intros l. pose proof (law_get_ok (redis r) k l) as H. by destruct (rGet (redis r) k).
  - intros k'. pose proof (law_get_frame (redis r) k k') as H. by destruct (rGet (redis r) k).
  - intros l ttl l'. pose proof (law_set_one (redis r) k l ttl l') as H. by destruct (rSet (redis r) k l ttl).
  - intros l'. pose proof (law_del_one (redis r) k l') as H. by destruct (rDel (redis r) k).
Qed.

#[export] Instance redis_steps {W} `{!RedisClient W} : ReplicatorSteps (BitmapRedisReplicator W).
Proof. split; intros; done. Qed.

#[export] Instance demo_redis_atomic : RedisAtomicLaws (gmap string bytes) (fun w k => w !! k).
Proof.
  split; simpl.
  - intros w k v ttl v'. rewrite lookup_insert_eq. naive_solver.
  - intros w k v'. by rewrite lookup_delete_eq.
Qed.

(** ** Calls in flight *)

Inductive call :=
  | CallUpsert (ks : list Z) | CallRemove (ks : list Z) | CallClear
  | CallWarm | CallReplicate | CallRecover | CallDrop.

(** Where a call is: before its next critical section or command. A [Warm] whose callback has been
    called waits for it; a [Recover] holds the dump it has read. *)
Inductive point :=
  | AtUpsert (ks : list Z) | AtRemove (ks : list Z) | AtClear
  | WarmCheck | WarmWaits | WarmUpsert (data : list Z)
  | ReplicateBytes | ReplicateWrite (l : bytes)
  | RecoverRead | RecoverClear (l : bytes) | RecoverFill (l : bytes)
  | AtDrop.

Definition start_of (c : call) : point :=
  match c with
  | CallUpsert ks => AtUpsert ks | CallRemove ks => AtRemove ks | CallClear => AtClear
  | CallWarm => WarmCheck | CallReplicate => ReplicateBytes | CallRecover => RecoverRead | CallDrop => AtDrop
  end.

(** [replicated] lists the sets of keys whose bytes a [Replicate] has taken; it is for the statements only. *)
Record shared (Bitmap D : Type) := mkShared {
  the_storage : roaringBitmapStorage Bitmap; the_dumps : D; calls : list point; replicated : list Bitmap
}.
Arguments mkShared {Bitmap D} _ _ _ _.
Arguments the_storage {Bitmap D} _.
Arguments the_dumps {Bitmap D} _.
Arguments calls {Bitmap D} _.
Arguments replicated {Bitmap D} _.

(** The callback of [Warm] is given the storage: it may upsert batches itself before it returns. The background
    loop adds calls of [Replicate] and [OptimizeTick]; its reads for the monitoring change nothing. *)
Inductive action :=
  | Begin (c : call) | Advance (i : nat)
  | CallbackUpserts (i : nat) (ks : list Z) | CallbackReturns (i : nat) (data : result string (list Z))
  | OptimizeTick.

Section interleaving.
Context {Bitmap : Type} `{!Roaring64 Bitmap} {D : Type} `{!DumpStore D}.
Notation shared := (shared Bitmap D).

(** One critical section or command of a call; the second component is what is left of the call. *)
Definition advance (s : roaringBitmapStorage Bitmap) (d : D) (snaps : list Bitmap) (p : point)
    : (roaringBitmapStorage Bitmap * D * list Bitmap) * option point :=
  let key := ReplicationKey (configs s) in
  match p with
  | AtUpsert ks => ((s_UpsertMany s ks, d, snaps), None)
  | AtRemove ks => ((s_RemoveMany s ks, d, snaps), None)
  | AtClear => ((s_Clear s, d, snaps), None)
  | WarmCheck => ((s, d, snaps), if isEmpty s then Some WarmWaits else None)
  | WarmWaits => ((s, d, snaps), Some WarmWaits)
  | WarmUpsert data => ((s_UpsertMany s data, d, snaps), None)
  | ReplicateBytes =>
    match s_GetBytesFromBitmap s with
    | Ok (Some l) => ((s, d, bitmap s :: snaps), Some (ReplicateWrite l))
    | _ => ((s, d, snaps), None)
    end
  | ReplicateWrite l => ((s, (write_dump d key l (ReplicationTtl (configs s))).1, snaps), None)
  | RecoverRead =>
    match read_dump d key with
    | (d', Ok l) => ((s, d', snaps), Some (RecoverClear l))
    | (d', Err _) => ((s, d', snaps), None)
    end
  | RecoverClear l => ((s_Clear s, d, snaps), Some (RecoverFill l))
  | RecoverFill l => (((s_ReadFromBuffer s l).1, d, snaps), None)
  | AtDrop => ((s, (drop_dump d key).1, snaps), None)
  end.

Definition run_action (x : shared) (a : action) : option shared :=
  match a with
  | Begin c => Some (mkShared (the_storage x) (the_dumps x) (calls x ++ [start_of c]) (replicated x))
  | Advance i =>
    match calls x !! i with
    | None | Some WarmWaits => None
    | Some p =>
      let '((s, d, snaps), rest) := advance (the_storage x) (the_dumps x) (replicated x) p in
      Some (mkShared s d (put i rest (calls x)) snaps)
    end
  | CallbackUpserts i ks =>
    match calls x !! i with
    | Some WarmWaits => Some (mkShared (s_UpsertMany (the_storage x) ks) (the_dumps x) (calls x) (replicated x))
    | _ => None
    end
  | CallbackReturns i data =>
    match calls x !! i with
    | Some WarmWaits =>
      let rest := match data with
                  | Ok data => if (length data =? 0)%nat then None else Some (WarmUpsert data)
                  | Err _ => None
                  end in
      Some (mkShared (the_storage x) (the_dumps x) (put i rest (calls x)) (replicated x))
    | _ => None
    end
  | OptimizeTick => Some (mkShared (optimize (the_storage x)) (the_dumps x) (calls x) (replicated x))
  end.

Definition step : shared -> shared -> Prop := acts_step run_action.
End interleaving.
#[global] Arguments step {Bitmap _ D _} _ _.

(** ** Every dump is the dump of a snapshot *)

Section dumps.
Context {Bitmap : Type} `{!Roaring64 Bitmap} (elems : Bitmap -> gset Z) `{!Roaring64Laws Bitmap elems}.
Context {D : Type} `{!DumpStore D} (dump : D -> string -> option bytes) `{!DumpStoreLaws D dump}.
Implicit Types x : shared Bitmap D.

Definition dumps_one_of (snaps : list Bitmap) (l : bytes) : Prop :=
  exists b, b ∈ snaps /\ ToBytes b = Ok l /\ elems b <> ∅.

Definition carries (p : point) (l : bytes) : Prop := p = ReplicateWrite l \/ p = RecoverClear l \/ p = RecoverFill l.

Definition dumps_inv (key : string) x : Prop :=
  ReplicationKey (configs (the_storage x)) = key
  /\ (forall l, dump (the_dumps x) key = Some l -> dumps_one_of (replicated x) l)
  /\ (forall p l, p ∈ calls x -> carries p l -> dumps_one_of (replicated x) l).

Lemma GetBytes_ToBytes (s : roaringBitmapStorage Bitmap) l :
  s_GetBytesFromBitmap s = Ok (Some l) -> ToBytes (bitmap s) = Ok l /\ elems (bitmap s) <> ∅.
Proof.
  unfold s_GetBytesFromBitmap. rewrite (law_IsEmpty (elems := elems)). case_bool_decide; [done|].
  destruct (ToBytes (bitmap s)); [|done]. by intros [= <-].
Qed.

(** Some more snapshots, the same configuration, and the dumps there and carried are dumps of them. *)
Lemma dumps_inv_intro key x s d snaps cs :
  dumps_inv key x -> configs s = configs (the_storage x) ->
  (forall b, b ∈ replicated x -> b ∈ snaps) ->
  (forall l, dump d key = Some l -> dump (the_dumps x) key = Some l \/ dumps_one_of snaps l) ->
  (forall p l, p ∈ cs -> carries p l -> p ∈ calls x \/ dumps_one_of snaps l) ->
  dumps_inv key (mkShared s d cs snaps).
Proof.
  intros (Hk & Hd & Hc) Hs Hsub Hd' Hc'.
  assert (forall l, dumps_one_of (replicated x) l -> dumps_one_of snaps l) as Hmono.
  { intros l (b & ? & ?). exists b. auto. }
  unfold dumps_inv. simpl. split_and!; [by rewrite Hs| |].
  - intros l Hl. destruct (Hd' l Hl); auto.
  - intros p l Hp Hl. destruct (Hc' p l Hp Hl); eauto.
Qed.

(** A call that carries no dump may be added or may replace another one. *)
Lemma not_carried (cs cs' : list point) (snaps : list Bitmap) :
  (forall p, p ∈ cs' -> p ∈ cs \/ forall l, ~ carries p l) ->
  forall p l, p ∈ cs' -> carries p l -> p ∈ cs \/ dumps_one_of snaps l.
Proof. intros H p l Hp Hl. destruct (H p Hp) as [?|Hn]; [by left|by destruct (Hn l)]. Qed.

Lemma put_not_carried i rest (cs : list point) :
  (forall p l, rest = Some p -> ~ carries p l) ->
  forall p, p ∈ put i rest cs -> p ∈ cs \/ forall l, ~ carries p l.
Proof. intros H p [E|?]%elem_of_put; [right; intros l; by apply H|by left]. Qed.

Lemma put_carried i rest (cs : list point) (snaps : list Bitmap) l0 :
  (forall p l, rest = Some p -> carries p l -> l = l0) -> dumps_one_of snaps l0 ->
  forall p l, p ∈ put i rest cs -> carries p l -> p ∈ cs \/ dumps_one_of snaps l.
Proof. intros H Hl0 p l [E|?]%elem_of_put Hl; [right; by rewrite (H p l E Hl)|by left]. Qed.

Ltac not_carrying := unfold carries; intros; naive_solver.

Lemma dumps_inv_advance key x i p s d snaps rest :
  dumps_inv key x -> calls x !! i = Some p -> p <> WarmWaits ->
  advance (the_storage x) (the_dumps x) (replicated x) p = ((s, d, snaps), rest) ->
  dumps_inv key (mkShared s d (put i rest (calls x)) snaps).
Proof.
  intros Hinv Hp Hnw Ha. apply list_elem_of_lookup_2 in Hp. assert (Hinv' := Hinv). destruct Hinv' as (Hk & Hd & Hc).
  destruct p as [ks|ks| | | |data| |l| |l|l|]; simpl in Ha; rewrite ?Hk in Ha; try done.
  - injection Ha as <- <- <- <-. apply (dumps_inv_intro key x); auto. apply not_carried, put_not_carried; not_carrying.
  - injection Ha as <- <- <- <-. apply (dumps_inv_intro key x); auto. apply not_carried, put_not_carried; not_carrying.
  - injection Ha as <- <- <- <-. apply (dumps_inv_intro key x); auto. apply not_carried, put_not_carried; not_carrying.
  - injection Ha as <- <- <- <-. apply (dumps_inv_intro key x); auto.
    apply not_carried, put_not_carried. destruct (isEmpty _); not_carrying.
  - injection Ha as <- <- <- <-. apply (dumps_inv_intro key x); auto. apply not_carried, put_not_carried; not_carrying.
  - destruct (s_GetBytesFromBitmap (the_storage x)) as [[l|]|] eqn:E; injection Ha as <- <- <- <-.
    + apply GetBytes_ToBytes in E as [E Hne]. apply (dumps_inv_intro key x); auto; [intros; by right|].
      apply (put_carried _ _ _ _ l); [not_carrying|]. exists (bitmap (the_storage x)). split_and!; [by left|done..].
    + apply (dumps_inv_intro key x); auto. apply not_carried, put_not_carried; not_carrying.
    + apply (dumps_inv_intro key x); auto. apply not_carried, put_not_carried; not_carrying.
  - injection Ha as <- <- <- <-. apply (dumps_inv_intro key x); auto.
    + intros l' [->|?]%(write_dump_one (dump := dump)); [right|by left]. apply (Hc _ _ Hp). by left.
    + apply not_carried, put_not_carried; not_carrying.
  - pose proof (read_dump_frame (dump := dump) (the_dumps x) key key) as Hf.
    pose proof (read_dump_ok (dump := dump) (the_dumps x) key) as Hr.
    destruct (read_dump (the_dumps x) key) as [d' [l|e] ]; injection Ha as <- <- <- <-; simpl in Hf, Hr.
    + apply (dumps_inv_intro key x); auto; [rewrite Hf; auto|].
      apply (put_carried _ _ _ _ l); [not_carrying|]. apply Hd. by apply Hr.
    + apply (dumps_inv_intro key x); auto; [rewrite Hf; auto|]. apply not_carried, put_not_carried; not_carrying.
  - injection Ha as <- <- <- <-. apply (dumps_inv_intro key x); auto.
    apply (put_carried _ _ _ _ l); [not_carrying|]. apply (Hc _ _ Hp). not_carrying.
  - injection Ha as <- <- <- <-. apply (dumps_inv_intro key x); auto.
    + unfold s_ReadFromBuffer. by destruct (ReadFrom _ _).
    + apply not_carried, put_not_carried; not_carrying.
  - injection Ha as <- <- <- <-. apply (dumps_inv_intro key x); auto.
    + intros l' ?%(drop_dump_one (dump := dump)). by left.
    + apply not_carried, put_not_carried; not_carrying.
Qed.

Lemma dumps_inv_step key x x' : dumps_inv key x -> step x x' -> dumps_inv key x'.
Proof.
  intros Hinv [a Ha]. destruct a as [c|i|i ks|i data|]; simpl in Ha.
  - simplify_eq. apply (dumps_inv_intro key x); auto. apply not_carried. intros p [?|Hp]%elem_of_app; [by left|right].
    apply list_elem_of_singleton in Hp as ->. destruct c; not_carrying.
  - destruct (calls x !! i) as [p|] eqn:Hp; [|done].
    destruct (advance (the_storage x) (the_dumps x) (replicated x) p) as [[[s d] snaps] rest] eqn:E.
    destruct p; simplify_eq; by eapply dumps_inv_advance.
  - destruct (calls x !! i) as [[]|]; simplify_eq. apply (dumps_inv_intro key x); auto.
  - destruct (calls x !! i) as [[]|]; simplify_eq. apply (dumps_inv_intro key x); auto.
    apply not_carried, put_not_carried. repeat case_match; not_carrying.
  - simplify_eq. apply (dumps_inv_intro key x); auto.
Qed.

End dumps.

(** ** Storages that only grow *)

Section growing.
Context {Bitmap : Type} `{!Roaring64 Bitmap} (elems : Bitmap -> gset Z) `{!Roaring64Laws Bitmap elems}.
Context {D : Type} `{!DumpStore D}.

Definition growing (p : point) : bool :=
  match p with AtRemove _ | AtClear | RecoverRead | RecoverClear _ | RecoverFill _ => false | _ => true end.

Definition grows (x : shared Bitmap D) : bool := forallb growing (calls x).

(** Steps that begin no [RemoveMany], [Clear] or [Recover]. *)
Definition grow_step (x x' : shared Bitmap D) : Prop :=
  exists a, run_action x a = Some x' /\ (forall c, a = Begin c -> growing (start_of c) = true).

Lemma grows_put i rest (cs : list point) :
  forallb growing cs = true -> (forall p, rest = Some p -> growing p = true) ->
  forallb growing (put i rest cs) = true.
Proof.
  intros Hcs Hr. apply forallb_forall. intros p Hp. apply list_elem_of_In, elem_of_put in Hp as [E|Hp]; [by apply Hr|].
  rewrite forallb_forall in Hcs. by apply Hcs, list_elem_of_In.
Qed.

Lemma upsert_keys (s : roaringBitmapStorage Bitmap) ks : keys elems (s_UpsertMany s ks) = keys elems s ∪ list_to_set ks.
Proof. apply (law_AddMany (elems := elems)). Qed.

Lemma advance_grows s d snaps p s' d' snaps' rest :
  growing p = true -> advance s d snaps p = ((s', d', snaps'), rest) ->
  keys elems s ⊆ keys elems s' /\ (forall p', rest = Some p' -> growing p' = true).
Proof.
  destruct p as [ks|ks| | | |data| |l| |l|l|]; simpl; intros Hg Ha; try discriminate Hg.
  - injection Ha as <- <- <- <-. split; [rewrite upsert_keys; set_solver|done].
  - injection Ha as <- <- <- <-. split; [reflexivity|]. destruct (isEmpty s); naive_solver.
  - injection Ha as <- <- <- <-. split; [reflexivity|naive_solver].
  - injection Ha as <- <- <- <-. split; [rewrite upsert_keys; set_solver|done].
  - destruct (s_GetBytesFromBitmap s) as [[l|]|]; injection Ha as <- <- <- <-; (split; [reflexivity|naive_solver]).
  - injection Ha as <- <- <- <-. split; [reflexivity|done].
  - injection Ha as <- <- <- <-. split; [reflexivity|done].
Qed.

Lemma grow_step_grows x x' :
  grows x = true -> grow_step x x' ->
  grows x' = true /\ keys elems (the_storage x) ⊆ keys elems (the_storage x').
Proof.
  unfold grows. intros Hg (a & Ha & Hb). destruct a as [c|i|i ks|i data|]; simpl in Ha.
  - simplify_eq. simpl. split; [|reflexivity]. rewrite forallb_app, Hg. simpl. by rewrite Hb.
  - destruct (calls x !! i) as [p|] eqn:Hp; [|done].
    assert (growing p = true) as Hgp.
    { rewrite forallb_forall in Hg. apply Hg, list_elem_of_In. by eapply list_elem_of_lookup_2. }
    destruct (advance (the_storage x) (the_dumps x) (replicated x) p) as [[[s d] snaps] rest] eqn:E.
    apply (advance_grows _ _ _ _ _ _ _ _ Hgp) in E as [Hs Hr].
    assert (x' = mkShared s d (put i rest (calls x)) snaps) as -> by by destruct p; simplify_eq.
    split; [by apply grows_put|done].
  - destruct (calls x !! i) as [[]|]; simplify_eq. simpl. split; [done|]. rewrite upsert_keys. set_solver.
  - destruct (calls x !! i) as [[]|]; simplify_eq. simpl. split; [|reflexivity]. apply grows_put; [done|].
    repeat case_match; naive_solver.
  - simplify_eq. simpl. split; [done|]. unfold keys, optimize. simpl. rewrite (law_RunOptimize (elems := elems)). reflexivity.
Qed.

Lemma grow_steps_grow x x' :
  grows x = true -> rtc grow_step x x' -> keys elems (the_storage x) ⊆ keys elems (the_storage x').
Proof.
  intros Hg Hr. induction Hr as [|x x1 x' Hs _ IH]; [reflexivity|].
  destruct (grow_step_grows x x1 Hg Hs) as [Hg1 Hk]. etransitivity; [exact Hk|]. by apply IH.
Qed.
End growing.

(** ** Properties *)

(** C8: in every interleaving of any number of calls of [UpsertMany], [RemoveMany], [Clear], [Warm] (whose callback
    may upsert by itself), [Replicate], [Recover] and [DropReplicationKey] and of the background loop, the
    dump in the store is always the dump of a set of keys that the storage has held at the start of a [Replicate] (or that was
    there before), and never of an empty one; a [Recover] that has read a dump never fails, and its last
    critical section leaves the storage with all the keys of such a set, with no key that is neither in it nor in the
    storage at that moment, and so with exactly that set when nobody has filled the storage since the [Clear]. *)
Theorem recoveries_restore_snapshots {Bitmap : Type} `{!Roaring64 Bitmap} (elems : Bitmap -> gset Z)
    (Hlib : Roaring64Laws Bitmap elems) {D : Type} `{!DumpStore D} (dump : D -> string -> option bytes)
    (Hstore : DumpStoreLaws D dump) (s : roaringBitmapStorage Bitmap) (d : D) (old : list Bitmap) (x : shared Bitmap D)
    (Hold : forall l, dump d (ReplicationKey (configs s)) = Some l -> dumps_one_of elems old l)
    (Hreach : rtc step (mkShared s d [] old) x) :
  (forall l, dump (the_dumps x) (ReplicationKey (configs s)) = Some l -> dumps_one_of elems (replicated x) l)
  /\ forall i l, calls x !! i = Some (RecoverFill l) ->
       (s_ReadFromBuffer (the_storage x) l).2 = Ok (Z.of_nat (length l))
       /\ exists b x', b ∈ replicated x /\ elems b <> ∅ /\ run_action x (Advance i) = Some x'
          /\ elems b ⊆ keys elems (the_storage x')
          /\ keys elems (the_storage x') ⊆ elems b ∪ keys elems (the_storage x)
          /\ (keys elems (the_storage x) = ∅ -> keys elems (the_storage x') = elems b).
Proof.
  assert (dumps_inv elems dump (ReplicationKey (configs s)) x) as (_ & Hd & Hc).
  { eapply (rtc_invariant step); [intros; by eapply dumps_inv_step|exact Hreach|]. split_and!; [done|done|]. set_solver. }
  split; [done|]. intros i l Hi. destruct (Hc _ l (list_elem_of_lookup_2 _ _ _ Hi)) as (b & Hb & Hl & Hne).
  { by right; right. }
  destruct (law_ReadFrom (elems := elems) b l (bitmap (the_storage x)) Hl) as [H1 H2].
  unfold run_action. rewrite Hi. simpl. unfold s_ReadFromBuffer.
  destruct (ReadFrom (bitmap (the_storage x)) l) as [b' p]. simpl in *. subst p.
  split; [done|].
  exists b, (mkShared (with_bitmap (the_storage x) b') (the_dumps x) (delete i (calls x)) (replicated x)).
  unfold keys. simpl. split_and!; [done..|set_solver|set_solver|]. intros He. rewrite He in H2. set_solver.
Qed.

(** The storage [{3; 4}] with a dump of it in the store of a fake replicator. *)
Definition demo_shared (ks : list Z) (dumped : list Z) : shared (gset Z) BitmapFakeReplicator :=
  mkShared (demo_storage ks) (Replicate (demo_storage dumped) (NewBitmapFakeReplicator "goods")).1 []
    [list_to_set dumped].

Lemma recoveries_restore_snapshots_witness :
  let x := demo_shared [5] [3; 4] in
  (forall l, store (the_dumps x) !! ReplicationKey demo_configs = Some l -> dumps_one_of id (replicated x) l)
  /\ forall i l, calls x !! i = Some (RecoverFill l) ->
       (s_ReadFromBuffer (the_storage x) l).2 = Ok (Z.of_nat (length l))
       /\ exists b x', b ∈ replicated x /\ id b <> ∅ /\ run_action x (Advance i) = Some x'
          /\ id b ⊆ keys id (the_storage x')
          /\ keys id (the_storage x') ⊆ id b ∪ keys id (the_storage x)
          /\ (keys id (the_storage x) = ∅ -> keys id (the_storage x') = id b).
Proof.
  intros x.
  apply (recoveries_restore_snapshots id demo_roaring_laws (fun r k => store r !! k) fake_dumps_laws
    (demo_storage [5]) (the_dumps x) [list_to_set [3; 4]] x); [|apply rtc_refl].
  intros l E. exists (list_to_set [3; 4]). split_and!; [by left| |done].
  vm_compute in E. injection E as <-. vm_compute. reflexivity.
Defined.

(** C17: upserts are kept. As long as nobody calls [RemoveMany], [Clear] or [Recover], in every interleaving of the
    other calls the storage only grows: once the critical section of [UpsertMany] (or the one that ends a
    [Warm]) has run, its keys are in the storage in every later state, and so are all the keys that were
    there before. *)
Theorem upserts_are_kept {Bitmap : Type} `{!Roaring64 Bitmap} (elems : Bitmap -> gset Z)
    (Hlib : Roaring64Laws Bitmap elems) {D : Type} `{!DumpStore D} (x x1 x' : shared Bitmap D) (i : nat) (ks : list Z)
    (Hgrows : grows x = true) (Hcall : calls x !! i = Some (AtUpsert ks) \/ calls x !! i = Some (WarmUpsert ks))
    (Hadvance : run_action x (Advance i) = Some x1) (Hlater : rtc grow_step x1 x') :
  keys elems (the_storage x) ∪ list_to_set ks ⊆ keys elems (the_storage x').
Proof.
  assert (grow_step x x1) as Hs by (exists (Advance i); by split).
  destruct (grow_step_grows elems x x1 Hgrows Hs) as [Hg1 _].
  pose proof (grow_steps_grow elems x1 x' Hg1 Hlater) as Hk.
  assert (keys elems (the_storage x1) = keys elems (the_storage x) ∪ list_to_set ks) as E.
  { simpl in Hadvance. destruct Hcall as [Hc|Hc]; rewrite Hc in Hadvance; simpl in Hadvance; simplify_eq;
      apply (upsert_keys elems). }
  by rewrite <- E.
Qed.

Lemma upserts_are_kept_witness :
  let x : shared (gset Z) BitmapFakeReplicator :=
    mkShared (demo_storage [1]) (NewBitmapFakeReplicator "goods") [AtUpsert [7; 8]; WarmCheck] [] in
  let x1 := mkShared (demo_storage [1; 7; 8]) (NewBitmapFakeReplicator "goods") [WarmCheck] [] in
  keys id (the_storage x) ∪ list_to_set [7; 8] ⊆ keys id (the_storage x1).
Proof.
  intros x x1. apply (upserts_are_kept id demo_roaring_laws x x1 x1 0 [7; 8]);
    [reflexivity|by left|vm_compute; reflexivity|apply rtc_refl].
Defined.

(** Without interleaving the calls are the sequential functions. Over either replicator, from a state with no
    call in flight, the critical sections and commands of a [Replicate], a [Recover] or a
    [DropReplicationKey], run one after the other, end the call and leave the storage and the store exactly as
    the operation of [Bitmap] leaves them. *)
Lemma uninterrupted_calls_are_sequential {Bitmap : Type} `{!Roaring64 Bitmap} {D : Type} `{!DumpStore D}
    `{!MemorySetStorageReplicator D} (Hsteps : ReplicatorSteps D)
    (s : roaringBitmapStorage Bitmap) (d : D) (snaps : list Bitmap) :
  let leaves c s' d' := exists n snaps',
    run_all run_action (mkShared s d [] snaps) (Begin c :: replicate n (Advance 0)) = Some (mkShared s' d' [] snaps') in
  leaves CallReplicate s (Replicate s d).1
  /\ leaves CallRecover (Recover s d).1.2 (Recover s d).1.1
  /\ leaves CallDrop s (DropReplicationKey s d).1.
Proof.
  intros leaves. unfold Replicate, Recover, DropReplicationKey.
  rewrite replicate_steps, recover_steps, drop_steps. split_and!.
  - change (GetBytesFromBitmap s) with (s_GetBytesFromBitmap s).
    destruct (s_GetBytesFromBitmap s) as [[l|]|e] eqn:E.
    + exists 2%nat. eexists. simpl. rewrite E. simpl. reflexivity.
    + exists 1%nat. eexists. simpl. rewrite E. reflexivity.
    + exists 1%nat. eexists. simpl. rewrite E. reflexivity.
  - destruct (read_dump d (ReplicationKey (configs s))) as [d' [l|e] ] eqn:E.
    + exists 3%nat. eexists. simpl. rewrite E. simpl.
      change (ReadFromBuffer (Clear s) l) with (s_ReadFromBuffer (s_Clear s) l).
      by destruct (s_ReadFromBuffer (s_Clear s) l) as [s' [n|e] ].
    + exists 1%nat. eexists. simpl. rewrite E. reflexivity.
  - exists 1%nat. eexists. simpl. reflexivity.
Qed.

(** [Recover] is not atomic. From the storage [{3; 4}] and its own dump, a [Recover] interleaved with other
    calls: between its [Clear] and its read the keys it is about to restore are not found and a [Warm] sees an
    empty storage and calls its callback; and, with a library that reads in the way of the comment of roaring_bitmap.go, a
    [UpsertMany] that has completed in between is lost, the storage ends without its key. *)
Theorem Recover_is_not_atomic :
  let before := [Begin CallRecover; Advance 0; Advance 0; Begin CallWarm; Advance 1] in
  (exists x1, run_all run_action (demo_shared [3; 4] [3; 4]) before = Some x1
    /\ Contains (the_storage x1) 3 = false /\ calls x1 !! 1%nat = Some WarmWaits)
  /\ exists x2, run_all run_action (demo_shared [3; 4] [3; 4])
      (before ++ [Begin (CallUpsert [7]); Advance 2; Advance 0]) = Some x2
    /\ Contains (the_storage x2) 3 = true /\ Contains (the_storage x2) 7 = false
    /\ calls x2 = [WarmWaits].
Proof. split; apply (run_all_ends run_action); vm_compute; split_and!; reflexivity. Qed.

(** A [Replicate] that runs in the middle of a [Recover] can replace the dump by a smaller one: after
    a key is upserted into the cleared storage, the background replication overwrites the dump of
    [{3; 4}] by the dump of [{7}], and the storage then holds [{3; 4}] in memory only: a process that recovers from the store gets [{7}]. *)
Theorem Replicate_during_Recover_shrinks_dump :
  exists x, run_all run_action (demo_shared [3; 4] [3; 4])
      [Begin CallRecover; Advance 0; Advance 0; Begin (CallUpsert [7]); Advance 1;
       Begin CallReplicate; Advance 1; Advance 1; Advance 0] = Some x
    /\ calls x = []
    /\ keys id (the_storage x) = {[3; 4]}
    /\ (Recover (demo_storage []) (the_dumps x)).2 = None
    /\ keys id (Recover (demo_storage []) (the_dumps x)).1.2 = {[7]}.
Proof. apply (run_all_ends run_action). vm_compute. split_and!; reflexivity. Qed.
