(* ===== verification/Http.v ===== *)
(** [src/server/chi.go] and [src/server/gorilla.go]: the response writers that log the status, the middlewares,
    and the shutdown of the HTTP server with its draining state. A handler is a tree of the calls it makes on
    the response writer it is given, run over any writer: the one of [net/http], or a logging one around it. *)
From S2P Require Import Prelude GoTime Bytes.
From stdpp Require Import base tactics list strings gmap pretty.
From Stdlib Require Import ZArith SpecFloat Lia.
Local Open Scope Z_scope.

(** ** Handlers *)

(** What a handler does with its writer. [Copy] is [io.Copy(w, r)] for a reader of the given content (which is
    no [io.WriterTo]); [Flush] is the
    assertion that the writer is an [http.Flusher], and its [Flush] if it is one. (A handler that takes the connection over
    is not modelled: see [HttpServer] for [Hijack] and [Push].) *)
Inductive writer_call :=
  | CallWriteHeader (code : Z)
  | CallWrite (b : bytes)
  | CallCopy (b : bytes)
  | CallFlush
  | CallSetHeader (key value : string).

(** The result of a call: the bytes written and an error, whether the writer is a flusher; the call may panic. *)
Inductive reply := Wrote (n : Z) (err : option string) | Flushed (is_flusher : bool) | NoResult.

(** How a handler ends, and its run: each call is followed by what the handler does with its reply. *)
Inductive handler_end := HandlerReturns | HandlerPanics (reason : string).
Inductive handler := End (e : handler_end) | Do (c : writer_call) (k : reply -> handler).

(** A response writer: a call gives a new state and a reply, or a panic. *)
Class ResponseWriter (W : Type) := wcall : writer_call -> W -> W * (reply + string).

Fixpoint serve {W} `{!ResponseWriter W} (h : handler) (w : W) : W * handler_end :=
  match h with
  | End e => (w, e)
  | Do c k =>
    match wcall c w with
    | (w', inl r) => serve (k r) w'
    | (w', inr reason) => (w', HandlerPanics reason)
    end
  end.

(** ** The response of [net/http] *)

Record response := mkResponse {
  header : gmap string string; informational : list Z; status : option Z;
  sent_header : gmap string string; body : bytes
}.

Definition new_response : response := mkResponse ∅ [] None ∅ [].

(** The codes that end no response. *)
Definition informational_code (code : Z) : bool := (100 <=? code) && (code <=? 199) && negb (code =? 101).

Definition bodyAllowedForStatus (code : Z) : bool :=
  negb (((100 <=? code) && (code <=? 199)) || (code =? 204) || (code =? 304)).

Definition base_WriteHeader (code : Z) (w : response) : response * (reply + string) :=
  match status w with
  | Some _ => (w, inl NoResult)
  | None =>
    if (code <? 100) || (999 <? code) then (w, inr "invalid WriteHeader code"%string)
    else if informational_code code
    then (mkResponse (header w) (informational w ++ [code]) None (sent_header w) (body w), inl NoResult)
    else (mkResponse (header w) (informational w) (Some code) (header w) (body w), inl NoResult)
  end.

Definition base_Write (b : bytes) (w : response) : response * (reply + string) :=
  let w1 := (base_WriteHeader 200 w).1 in
  let code := default 200 (status w1) in
  if (length b =? 0)%nat then (w1, inl (Wrote 0 None))
  else if bodyAllowedForStatus code
  then (mkResponse (header w1) (informational w1) (status w1) (sent_header w1) (body w1 ++ b),
        inl (Wrote (Z.of_nat (length b)) None))
  else (w1, inl (Wrote 0 (Some "http: request method or response status code does not allow body"%string))).

#[export] Instance base_writer : ResponseWriter response := fun c w =>
  match c with
  | CallWriteHeader code => base_WriteHeader code w
  | CallWrite b => base_Write b w
  | CallCopy b => if (length b =? 0)%nat then (w, inl (Wrote 0 None)) else base_Write b w
  | CallFlush => ((base_WriteHeader 200 w).1, inl (Flushed true))
  | CallSetHeader key value =>
    (mkResponse (<[key := value]> (header w)) (informational w) (status w) (sent_header w) (body w), inl NoResult)
  end.

(** When a handler returns without having sent a status, [net/http] sends 200. *)
Definition finishRequest (w : response) : response := (base_WriteHeader 200 w).1.

(** The status a client gets from a handler; [None] when the panic reaches the server, which closes the
    connection. *)
Definition client_status (h : handler) : option Z :=
  match serve h new_response with
  | (w, HandlerReturns) => status (finishRequest w)
  | (w, HandlerPanics _) => None
  end.

(** ** loggingChiResponseWriter (chi.go) *)

Record loggingChiResponseWriter (W : Type) := mkChi { chi_inner : W; chi_statusCode : Z; chi_wroteHeader : bool }.
Arguments mkChi {W} _ _ _.
Arguments chi_inner {W} _.
Arguments chi_statusCode {W} _.
Arguments chi_wroteHeader {W} _.

Section chi_writer.
Context {W : Type} `{!ResponseWriter W}.

Definition newLoggingChiResponseWriter (w : W) : loggingChiResponseWriter W := mkChi w 200 false.

Definition chi_WriteHeader (code : Z) (l : loggingChiResponseWriter W) : loggingChiResponseWriter W * (reply + string) :=
  if chi_wroteHeader l then (l, inl NoResult)
  else match wcall (CallWriteHeader code) (chi_inner l) with
       | (w, inl r) => (mkChi w code true, inl r)
       | (w, inr reason) => (mkChi w code false, inr reason)
       end.

(** The call goes on to the writer inside. *)
Definition chi_delegate (c : writer_call) (l : loggingChiResponseWriter W) : loggingChiResponseWriter W * (reply + string) :=
  let (w, r) := wcall c (chi_inner l) in (mkChi w (chi_statusCode l) (chi_wroteHeader l), r).

Definition chi_Write (b : bytes) (l : loggingChiResponseWriter W) : loggingChiResponseWriter W * (reply + string) :=
  if chi_wroteHeader l then chi_delegate (CallWrite b) l
  else match chi_WriteHeader 200 l with
       | (l', inl _) => chi_delegate (CallWrite b) l'
       | (l', inr reason) => (l', inr reason)
       end.

(** [ReadFrom], which [io.Copy] calls: the one of the writer inside, or [io.Copy] to it. *)
Definition chi_ReadFrom (b : bytes) (l : loggingChiResponseWriter W) : loggingChiResponseWriter W * (reply + string) :=
  chi_delegate (CallCopy b) l.

(** [Flush]: of the writer inside, if that is a flusher; this one always is. *)
Definition chi_Flush (l : loggingChiResponseWriter W) : loggingChiResponseWriter W * (reply + string) :=
  match chi_delegate CallFlush l with
  | (l', inl _) => (l', inl (Flushed true))
  | (l', inr reason) => (l', inr reason)
  end.

#[global] Instance chi_writer : ResponseWriter (loggingChiResponseWriter W) := fun c l =>
  match c with
  | CallWriteHeader code => chi_WriteHeader code l
  | CallWrite b => chi_Write b l
  | CallCopy b => chi_ReadFrom b l
  | CallFlush => chi_Flush l
  | CallSetHeader key value => chi_delegate c l
  end.
End chi_writer.

(** ** loggingResponseWriter (gorilla.go) *)

Record loggingResponseWriter (W : Type) := mkGorilla { gorilla_inner : W; gorilla_statusCode : Z }.
Arguments mkGorilla {W} _ _.
Arguments gorilla_inner {W} _.
Arguments gorilla_statusCode {W} _.

Section gorilla_writer.
Context {W : Type} `{!ResponseWriter W}.

Definition newLoggingResponseWriter (w : W) : loggingResponseWriter W := mkGorilla w 200.

Definition gorilla_delegate (c : writer_call) (code : Z) (l : loggingResponseWriter W) : loggingResponseWriter W * (reply + string) :=
  let (w, r) := wcall c (gorilla_inner l) in (mkGorilla w code, r).

(** It has no [ReadFrom]: [io.Copy] calls its [Write], which goes on to the writer inside; there is no call for
    an empty reader. It has no [Flush] either, and embedding an interface promotes none. *)
#[global] Instance gorilla_writer : ResponseWriter (loggingResponseWriter W) := fun c l =>
  match c with
  | CallWriteHeader code => gorilla_delegate c code l
  | CallWrite b => gorilla_delegate c (gorilla_statusCode l) l
  | CallCopy b => if (length b =? 0)%nat then (l, inl (Wrote 0 None)) else gorilla_delegate (CallWrite b) (gorilla_statusCode l) l
  | CallFlush => (l, inl (Flushed false))
  | CallSetHeader key value => gorilla_delegate c (gorilla_statusCode l) l
  end.
End gorilla_writer.

(** ** Middlewares *)

(** The next handler, on the writer it is given: [serve h], or another middleware. The logging middlewares give
    it a wrapper and return the status in the line they log, if they log one. *)

Section middlewares.
Context {W : Type} `{!ResponseWriter W}.

(** [LoggingChiMiddleware]: the line is logged after the handler, so not when it panics. *)
Definition LoggingChiMiddleware (corrID : string)
    (next : loggingChiResponseWriter W -> loggingChiResponseWriter W * handler_end) (w : W) : W * handler_end * option Z :=
  match wcall (CallSetHeader "X-Correlation-ID" corrID) w with
  | (w0, inr reason) => (w0, HandlerPanics reason, None)
  | (w0, inl _) =>
    let (l, e) := next (newLoggingChiResponseWriter w0) in
    (chi_inner l, e, match e with HandlerReturns => Some (chi_statusCode l) | HandlerPanics _ => None end)
  end.

(** [LoggingMiddleware] of gorilla.go: the line is logged by a deferred call. ([Header().Add] on a header that
    is not set yet.) *)
Definition LoggingMiddleware (correlationID : string)
    (next : loggingResponseWriter W -> loggingResponseWriter W * handler_end) (w : W) : W * handler_end * option Z :=
  match wcall (CallSetHeader "X-Correlation-ID" correlationID) w with
  | (w0, inr reason) => (w0, HandlerPanics reason, None)
  | (w0, inl _) =>
    let (l, e) := next (newLoggingResponseWriter w0) in
    (gorilla_inner l, e, Some (gorilla_statusCode l))
  end.

(** The deferred function of [RecoverChiMiddleware] and [RecoverMiddleware], on the writer the middleware was
    given, after the next handler. *)
Definition recover_write (w : W) (e : handler_end) : W * handler_end :=
  match e with
  | HandlerReturns => (w, e)
  | HandlerPanics _ =>
    match wcall (CallWriteHeader 500) w with
    | (w', inl _) => (w', HandlerReturns)
    | (w', inr reason) => (w', HandlerPanics reason)
    end
  end.

Definition RecoverChiMiddleware (next : W -> W * handler_end) (w : W) : W * handler_end :=
  let (w', e) := next w in recover_write w' e.

Definition RecoverMiddleware (next : W -> W * handler_end) (w : W) : W * handler_end :=
  let (w', e) := next w in recover_write w' e.
End middlewares.

(** ** The draining state (chi.go) *)

Inductive serverState := stateInitial | stateRunning | stateDraining | stateShutdown.

#[export] Instance serverState_eq_dec : EqDecision serverState.
Proof. solve_decision. Defined.

Record PreShutdownState := mkPre { State : serverState; Need : bool; TimeForDraining : Z; TimeForShutdown : Z }.

Definition NewPreShutdownState (need : bool) (timeForDraining timeForShutdown : Z) : PreShutdownState :=
  mkPre stateInitial need timeForDraining timeForShutdown.

Definition store (st : serverState) (p : PreShutdownState) : PreShutdownState :=
  mkPre st (Need p) (TimeForDraining p) (TimeForShutdown p).

(** [Duration.Seconds]: the whole seconds plus the rest over 1e9, in [float64] (binary64, to nearest even). *)
Definition float64 (z : Z) : spec_float := binary_normalize 53 1024 z 0 false.

Definition Seconds (d : Z) : spec_float :=
  SFadd 53 1024 (float64 (Z.quot d Second)) (SFdiv 53 1024 (float64 (Z.rem d Second)) (float64 Second)).

(** The integer nearest to [n / 2^k], ties to even. *)
Definition round_half_even (n k : Z) : Z :=
  let q := Z.shiftr n k in
  let r := n - Z.shiftl q k in
  if r * 2 <? Z.shiftl 1 k then q
  else if Z.shiftl 1 k <? r * 2 then q + 1
  else if Z.even q then q else q + 1.

(** [fmt.Sprintf("%.0f", f)], which rounds the exact value of [f] and keeps the sign of what is rounded to zero. *)
Definition print_float (f : spec_float) : string :=
  let sign (s : bool) := if s then "-"%string else ""%string in
  match f with
  | S754_zero s => sign s +:+ "0"
  | S754_infinity s => if s then "-Inf" else "+Inf"
  | S754_nan => "NaN"
  | S754_finite s m e => sign s +:+ pretty (if 0 <=? e then Z.shiftl (Z.pos m) e else round_half_even (Z.pos m) (- e))
  end.

Definition format_seconds (d : Z) : string := print_float (Seconds d).

(** A tie goes to the even second, a tenth of a second before zero is printed as minus zero, and the largest
    duration has its seconds rounded to a [float64]. *)
Example format_seconds_examples :
  format_seconds <$> [5 * Second; 2 * Second + 500000000; 3 * Second + 500000000; - 100000000; 2 ^ 63 - 1]
  = ["5"; "2"; "4"; "-0"; "9223372037"]%string.
Proof. vm_compute. reflexivity. Qed.

(** [DrainMiddleware]: [None] is a nil state, and a nil callback. *)
Definition DrainMiddleware (state : option PreShutdownState) (responseCallback : option handler) (next : handler) : handler :=
  match state with
  | Some p =>
    if Need p && bool_decide (State p = stateDraining) then
      match responseCallback with
      | Some cb => cb
      | None => Do (CallSetHeader "Retry-After" (format_seconds (TimeForShutdown p)))
                  (fun _ => Do (CallWriteHeader 503) (fun _ => End HandlerReturns))
      end
    else next
  | None => next
  end.

(** ** Run and shutdown (chi.go) *)

(** [run]: the state once the server goroutine is launched. *)
Definition run (p : option PreShutdownState) : option PreShutdownState :=
  match p with
  | Some p => Some (if Need p then store stateRunning p else p)
  | None => None
  end.

(** [srv.Shutdown(ctx)] called at [now] with a context that expires at [deadline], when the last request in
    flight ends at [busy_until]: it returns when the connections are idle, which it looks at first, or with the
    error of the context. (The time between two looks is not modelled.) *)
Definition srv_Shutdown (now deadline busy_until : Z) : Z * option string :=
  if busy_until <=? now then (now, None)
  else if busy_until <? deadline then (busy_until, None)
  else (Z.max now deadline, Some "context deadline exceeded"%string).

(** What [shutdown] does, in order: the states it stores with their times, and when and how it ends. *)
Record shutdown_run := mkShutdown {
  stores : list (Z * serverState); shutdown_called : Z; shutdown_ended : Z; shutdown_err : option string;
  final : option PreShutdownState
}.

Definition shutdown (p : option PreShutdownState) (now busy_until : Z) : shutdown_run :=
  let timeout := match p with Some p => TimeForShutdown p | None => 5 * Second end in
  let deadline := now + timeout in
  match p with
  | Some p =>
    if Need p then
      let now' := now + Z.max 0 (TimeForDraining p) in
      let (t, err) := srv_Shutdown now' deadline busy_until in
      mkShutdown [(now, stateDraining); (t, stateShutdown)] now' t err (Some (store stateShutdown p))
    else
      let (t, err) := srv_Shutdown now deadline busy_until in mkShutdown [] now t err (Some p)
  | None => let (t, err) := srv_Shutdown now deadline busy_until in mkShutdown [] now t err None
  end.

(** [shutdown] of gorilla.go. *)
Definition gorilla_shutdown (now busy_until : Z) : Z * option string := srv_Shutdown now (now + 5 * Second) busy_until.

(** The draining state at the time [t] of a shutdown that begins in the state [st]. *)
Definition state_at (st : serverState) (l : list (Z * serverState)) (t : Z) : serverState :=
  foldl (fun acc x => if x.1 <=? t then x.2 else acc) st l.

(** ** Options of [http.Server] *)

(** The fields the options write. A logger, a function or a TLS configuration is known by its identity. *)
Record http_Server := mkServer {
  ReadTimeout : Z; WriteTimeout : Z; IdleTimeout : Z; ReadHeaderTimeout : Z; MaxHeaderBytes : Z;
  ErrorLog : option nat; BaseContext : option nat; ConnContext : option nat; TLSConfig : option nat;
  keepAlivesDisabled : bool
}.

Inductive ServerOption :=
  | WithReadTimeout (d : Z) | WithWriteTimeout (d : Z) | WithIdleTimeout (d : Z)
  | WithReadHeaderTimeout (d : Z) | WithMaxHeaderBytes (n : Z)
  | WithErrorLog (l : option nat) | WithBaseContext (fn : option nat) | WithConnContext (fn : option nat)
  | WithTLSConfig (cfg : option nat) | WithDisableKeepAlives (disable : bool).

Definition apply_option (s : http_Server) (o : ServerOption) : http_Server :=
  match o with
  | WithReadTimeout x =>
    mkServer x (WriteTimeout s) (IdleTimeout s) (ReadHeaderTimeout s) (MaxHeaderBytes s) (ErrorLog s) (BaseContext s) (ConnContext s) (TLSConfig s) (keepAlivesDisabled s)
  | WithWriteTimeout x =>
    mkServer (ReadTimeout s) x (IdleTimeout s) (ReadHeaderTimeout s) (MaxHeaderBytes s) (ErrorLog s) (BaseContext s) (ConnContext s) (TLSConfig s) (keepAlivesDisabled s)
  | WithIdleTimeout x =>
    mkServer (ReadTimeout s) (WriteTimeout s) x (ReadHeaderTimeout s) (MaxHeaderBytes s) (ErrorLog s) (BaseContext s) (ConnContext s) (TLSConfig s) (keepAlivesDisabled s)
  | WithReadHeaderTimeout x =>
    mkServer (ReadTimeout s) (WriteTimeout s) (IdleTimeout s) x (MaxHeaderBytes s) (ErrorLog s) (BaseContext s) (ConnContext s) (TLSConfig s) (keepAlivesDisabled s)
  | WithMaxHeaderBytes x =>
    mkServer (ReadTimeout s) (WriteTimeout s) (IdleTimeout s) (ReadHeaderTimeout s) x (ErrorLog s) (BaseContext s) (ConnContext s) (TLSConfig s) (keepAlivesDisabled s)
  | WithErrorLog x =>
    mkServer (ReadTimeout s) (WriteTimeout s) (IdleTimeout s) (ReadHeaderTimeout s) (MaxHeaderBytes s) x (BaseContext s) (ConnContext s) (TLSConfig s) (keepAlivesDisabled s)
  | WithBaseContext x =>
    mkServer (ReadTimeout s) (WriteTimeout s) (IdleTimeout s) (ReadHeaderTimeout s) (MaxHeaderBytes s) (ErrorLog s) x (ConnContext s) (TLSConfig s) (keepAlivesDisabled s)
  | WithConnContext x =>
    mkServer (ReadTimeout s) (WriteTimeout s) (IdleTimeout s) (ReadHeaderTimeout s) (MaxHeaderBytes s) (ErrorLog s) (BaseContext s) x (TLSConfig s) (keepAlivesDisabled s)
  | WithTLSConfig x =>
    mkServer (ReadTimeout s) (WriteTimeout s) (IdleTimeout s) (ReadHeaderTimeout s) (MaxHeaderBytes s) (ErrorLog s) (BaseContext s) (ConnContext s) x (keepAlivesDisabled s)
  | WithDisableKeepAlives x =>
    mkServer (ReadTimeout s) (WriteTimeout s) (IdleTimeout s) (ReadHeaderTimeout s) (MaxHeaderBytes s) (ErrorLog s) (BaseContext s) (ConnContext s) (TLSConfig s) x
  end.

(** The options are collected by [ApplyServerOptions] and applied in order by [run]. *)
Definition ApplyServerOptions (opts more : list ServerOption) : list ServerOption := opts ++ more.
Definition run_options (opts : list ServerOption) (s : http_Server) : http_Server := foldl apply_option s opts.

(** ** The logging writers are transparent *)

(** Every call the handler can make satisfies [ok]. *)
Fixpoint all_calls (ok : writer_call -> Prop) (h : handler) : Prop :=
  match h with End _ => True | Do c k => ok c /\ forall r, all_calls ok (k r) end.

Definition not_informational (c : writer_call) : Prop :=
  match c with CallWriteHeader code => informational_code code = false | _ => True end.

(** What has happened to the header of the response: nothing, or it was sent through [WriteHeader] or [Write],
    or [io.Copy] or [Flush] has sent it (or may have) behind the back of the writer of chi.go. *)
Inductive header_state := Unsent | SentThrough | SentBehind.

Definition header_after (st : header_state) (c : writer_call) : header_state :=
  match st, c with
  | SentThrough, _ => SentThrough
  | _, (CallWriteHeader _ | CallWrite _) => SentThrough
  | _, (CallCopy _ | CallFlush) => SentBehind
  | _, CallSetHeader _ _ => st
  end.

(** The handler never sets a status that [io.Copy] or [Flush] has forestalled. *)
Fixpoint no_late_status (st : header_state) (h : handler) : Prop :=
  match h with
  | End _ => True
  | Do c k => (match st, c with SentBehind, CallWriteHeader _ => False | _, _ => True end)
              /\ forall r, no_late_status (header_after st c) (k r)
  end.

Lemma base_WriteHeader_sent code c w : status w = Some c -> base_WriteHeader code w = (w, inl NoResult).
Proof. unfold base_WriteHeader. by intros ->. Qed.

Lemma base_WriteHeader_500 w : exists w', base_WriteHeader 500 w = (w', inl NoResult)
  /\ status w' = Some (default 500 (status w)).
Proof. unfold base_WriteHeader. destruct (status w) eqn:E; simpl; eauto. Qed.

Lemma base_WriteHeader_200 w : exists w', base_WriteHeader 200 w = (w', inl NoResult)
  /\ status w' = Some (default 200 (status w)).
Proof. unfold base_WriteHeader. destruct (status w) eqn:E; simpl; eauto. Qed.

Lemma status_finishRequest w : status (finishRequest w) = Some (default 200 (status w)).
Proof. unfold finishRequest. destruct (base_WriteHeader_200 w) as (w' & E & H). rewrite E. exact H. Qed.

(** The state of the writer of chi.go over the response [w]: the header it believes sent is sent. *)
Definition chi_sim (w : response) (l : loggingChiResponseWriter response) : Prop :=
  chi_inner l = w /\ (chi_wroteHeader l = true -> is_Some (status w)).

(** What it knows of the status. *)
Definition chi_exact (st : header_state) (w : response) (l : loggingChiResponseWriter response) : Prop :=
  chi_statusCode l = default 200 (status w)
  /\ match st with
     | Unsent => chi_wroteHeader l = false /\ status w = None
     | SentThrough => chi_wroteHeader l = true
     | SentBehind => chi_wroteHeader l = false /\ default 200 (status w) = 200
     end.

Lemma base_Write_result b w : exists w' r, base_Write b w = (w', inl r) /\ status w' = Some (default 200 (status w))
  /\ forall w1, (base_WriteHeader 200 w).1 = w1 -> base_Write b w1 = (w', inl r).
Proof.
  unfold base_Write. destruct (base_WriteHeader_200 w) as (w1 & E & Hs). rewrite E. simpl.
  assert (forall w2, w1 = w2 -> base_WriteHeader 200 w2 = (w2, inl NoResult)) as Hsent.
  { intros w2 <-. by apply (base_WriteHeader_sent 200 _ w1 Hs). }
  destruct (length b =? 0)%nat; [|destruct (bodyAllowedForStatus (default 200 (status w1))) eqn:Eb];
    (do 2 eexists; split; [reflexivity|]; split; [exact Hs|]; intros w2 Hw2; rewrite (Hsent w2 Hw2); simpl; subst w2;
     rewrite ?Eb; reflexivity).
Qed.

Lemma chi_call c w l :
  not_informational c -> chi_sim w l ->
  exists l' w' r, wcall c l = (l', r) /\ wcall c w = (w', r) /\ chi_sim w' l'
  /\ forall st, (match st, c with SentBehind, CallWriteHeader _ => False | _, _ => True end) ->
       chi_exact st w l -> forall x, r = inl x -> chi_exact (header_after st c) w' l'.
Proof.
  intros Hc [<- Hw]. destruct l as [w code wrote]. unfold chi_sim, chi_exact. simpl in *.
  destruct c as [n|b|b| |k v]; simpl in *; unfold wcall, chi_writer, base_writer; simpl.
  - unfold chi_WriteHeader. simpl. destruct wrote.
    + destruct (Hw eq_refl) as [x Hx]. rewrite (base_WriteHeader_sent n x) by done.
      do 3 eexists. split_and!; [done..|]. intros [] ? [? ?]; naive_solver.
    + unfold wcall, base_writer, base_WriteHeader. destruct (status w) as [x|] eqn:E.
      * do 3 eexists. split_and!; [done..|simpl; rewrite E; by eexists|]. intros [] ? [? ?]; naive_solver.
      * destruct ((n <? 100) || (999 <? n)); [do 3 eexists; split_and!; done|].
        rewrite Hc. do 3 eexists. split_and!; [done..|]. intros [] ? [? ?]; naive_solver.
  - unfold chi_Write, chi_WriteHeader, chi_delegate, wcall, base_writer. simpl.
    destruct (base_Write_result b w) as (w' & r & E & Hs & Hagain). destruct wrote.
    + rewrite E. do 3 eexists. split_and!; [done..|simpl; rewrite Hs; by eexists|]. rewrite Hs.
      intros [] ? [? ?]; naive_solver.
    + destruct (base_WriteHeader_200 w) as (w1 & E1 & Hs1). rewrite E1. simpl. rewrite (Hagain w1) by by rewrite E1.
      rewrite E. do 3 eexists. split_and!; [done..|simpl; rewrite Hs; by eexists|]. rewrite Hs. simpl.
      intros [] ? [? Hst]; simpl; (split; [|done]); [by destruct Hst as [_ ->]|done|by destruct Hst as [_ ->] ].
  - unfold chi_ReadFrom, chi_delegate, wcall, base_writer. simpl. destruct (length b =? 0)%nat.
    + do 3 eexists. split_and!; [done..|]. intros [] ? [? Hst] x _; (split; [done|]); try done.
      destruct Hst as [? ->]. by split.
    + destruct (base_Write_result b w) as (w' & r & -> & Hs & _).
      do 3 eexists. split_and!; [done..|simpl; rewrite Hs; by eexists|]. rewrite Hs.
      intros [] ? [? Hst] x _; (split; [done|]); try done. destruct Hst as [? ->]. by split.
  - unfold chi_Flush, chi_delegate, wcall, base_writer. simpl.
    destruct (base_WriteHeader_200 w) as (w1 & -> & Hs). simpl.
    do 3 eexists. split_and!; [done..|simpl; rewrite Hs; by eexists|]. rewrite Hs.
    intros [] ? [? Hst] x _; (split; [done|]); try done. destruct Hst as [? ->]. by split.
  - unfold chi_delegate, wcall, base_writer. simpl. do 3 eexists. split_and!; [done..|]. intros [] ? [? ?]; naive_solver.
Qed.

Lemma chi_serve h w l :
  all_calls not_informational h -> chi_sim w l ->
  exists l' w' e, serve h l = (l', e) /\ serve h w = (w', e) /\ chi_sim w' l'
  /\ forall st, no_late_status st h -> chi_exact st w l -> e = HandlerReturns -> exists st', chi_exact st' w' l'.
Proof.
  revert w l. induction h as [e|c k IH]; simpl; intros w l Hh Hs.
  { exists l, w, e. split_and!; try done. intros st ? ? ?. by exists st. }
  destruct Hh as [Hc Hk]. destruct (chi_call c w l Hc Hs) as (l1 & w1 & r & -> & -> & Hs1 & Hx).
  destruct r as [x|reason].
  - destruct (IH x w1 l1 (Hk x) Hs1) as (l2 & w2 & e & H1 & H2 & H3 & H4).
    exists l2, w2, e. split_and!; [done..|]. intros st [Hc' Hk'] Hex. apply (H4 (header_after st c)); [done|]. by eapply Hx.
  - exists l1, w1, (HandlerPanics reason). split_and!; try done.
Qed.

Definition not_flush (c : writer_call) : Prop := match c with CallFlush => False | _ => True end.

(** The writer of gorilla.go hides [Flush], and changes nothing else. *)
Lemma gorilla_call c w l :
  not_flush c -> gorilla_inner l = w ->
  exists l' w' r, wcall c l = (l', r) /\ wcall c w = (w', r) /\ gorilla_inner l' = w'.
Proof.
  intros Hc <-. destruct l as [w code].
  destruct c as [n|b|b| |k v]; [..|]; try done; unfold wcall, gorilla_writer, gorilla_delegate, wcall, base_writer; simpl.
  - destruct (base_WriteHeader n w). by do 3 eexists.
  - destruct (base_Write b w). by do 3 eexists.
  - destruct (length b =? 0)%nat; [by do 3 eexists|]. destruct (base_Write b w). by do 3 eexists.
  - by do 3 eexists.
Qed.

Lemma gorilla_serve h w l :
  all_calls not_flush h -> gorilla_inner l = w -> exists l' w' e, serve h l = (l', e) /\ serve h w = (w', e) /\ gorilla_inner l' = w'.
Proof.
  revert w l. induction h as [e|c k IH]; simpl; intros w l Hh Hs; [by exists l, w, e|]. destruct Hh as [Hc Hk].
  destruct (gorilla_call c w l Hc Hs) as (l1 & w1 & r & -> & -> & Hs1).
  destruct r as [x|reason]; [by apply IH|by exists l1, w1, (HandlerPanics reason)].
Qed.

Definition with_correlation (id : string) : response :=
  mkResponse (<["X-Correlation-ID"%string := id]> ∅) [] None ∅ [].

(** ** Properties *)

(** C27: the logging middleware of chi.go does not change the response: for every handler that
    sends no informational (1xx) status, whatever it writes, copies and flushes, however it reacts to the results and wherever it
    panics, the client gets the response it would get without the middleware (but for the correlation
    header). The status that is logged is the one the client gets, also when the handler calls [WriteHeader] again after
    that (the comment in the code says that the second call updates the logged code: it does not),
    unless the handler calls [WriteHeader] after an [io.Copy] or a [Flush] that has come before any
    [WriteHeader] or [Write]. Nothing is logged exactly when the handler panics. *)
Theorem chi_logging_is_transparent (id : string) (h : handler) (Hinfo : all_calls not_informational h) :
  exists w e logged,
    LoggingChiMiddleware id (serve h) new_response = (w, e, logged)
    /\ serve h (with_correlation id) = (w, e)
    /\ (logged = None <-> e <> HandlerReturns)
    /\ (no_late_status Unsent h -> e = HandlerReturns -> logged = status (finishRequest w)).
Proof.
  destruct (chi_serve h (with_correlation id) (newLoggingChiResponseWriter (with_correlation id)))
    as (l & w & e & H1 & H2 & [H3 H4] & H5); [done|by split|].
  unfold LoggingChiMiddleware.
  change (wcall (CallSetHeader "X-Correlation-ID" id) new_response) with (with_correlation id, inl NoResult : reply + string).
  cbv iota beta. rewrite H1.
  exists w, e. eexists. split; [by rewrite <- H3|]. split_and!; [done|by destruct e|].
  intros Hlate ->. destruct (H5 Unsent Hlate) as (st & -> & _); [by split|done|].
  by rewrite status_finishRequest.
Qed.

Definition demo_bytes : bytes := [Byte.x68; Byte.x69].

(** A handler that answers 404 with a body, and tries to change its mind. *)
Definition demo_handler : handler :=
  Do (CallWriteHeader 404) (fun _ => Do (CallWrite demo_bytes) (fun _ => Do (CallWriteHeader 500) (fun _ => End HandlerReturns))).

(** A handler that streams: it writes, flushes and copies, and tries to set a status at the end. *)
Definition streaming_handler : handler :=
  Do (CallWrite demo_bytes) (fun _ => Do CallFlush (fun _ => Do (CallCopy demo_bytes)
    (fun _ => Do (CallWriteHeader 500) (fun _ => End HandlerReturns)))).

Lemma chi_logging_is_transparent_witness :
  (LoggingChiMiddleware "id" (serve demo_handler) new_response).2 = Some 404
  /\ no_late_status Unsent demo_handler
  /\ exists w e logged,
    LoggingChiMiddleware "id" (serve streaming_handler) new_response = (w, e, logged)
    /\ serve streaming_handler (with_correlation "id") = (w, e)
    /\ (logged = None <-> e <> HandlerReturns)
    /\ (no_late_status Unsent streaming_handler -> e = HandlerReturns -> logged = status (finishRequest w)).
Proof.
  split; [vm_compute; reflexivity|]. split; [by split_and!|]. apply chi_logging_is_transparent. vm_compute.
  split; [done|]. intros _. split; [done|]. intros _. split; [done|]. intros _. split; done.
Defined.

(** An informational status swallows the final one. Under the logging middleware of chi.go a
    handler that sends a 1xx status (103 Early Hints) and then its status gets the second call dropped: the
    client is sent 200 and the log says 1xx, where [net/http] alone sends the status of the handler. *)
Theorem informational_status_swallows_final_status (id : string) (i code : Z)
    (Hinfo : informational_code i = true) (Hcode : 200 <= code <= 999) :
  let h := Do (CallWriteHeader i) (fun _ => Do (CallWriteHeader code) (fun _ => End HandlerReturns)) in
  client_status h = Some code
  /\ exists w, LoggingChiMiddleware id (serve h) new_response = (w, HandlerReturns, Some i)
     /\ status (finishRequest w) = Some 200 /\ informational w = [i].
Proof.
  assert (informational_code code = false) as Hfin.
  { unfold informational_code. destruct (Z.leb_spec code 199); [lia|]. by rewrite andb_false_r. }
  assert (Hi := Hinfo). unfold informational_code in Hi. bool_to_prop.
  assert ((i <? 100) || (999 <? i) = false) as Hri by (apply orb_false_iff; lia).
  assert ((code <? 100) || (999 <? code) = false) as Hrc by (apply orb_false_iff; lia).
  unfold client_status, LoggingChiMiddleware. simpl.
  unfold wcall, chi_writer, base_writer, chi_WriteHeader, wcall, base_WriteHeader. simpl.
  rewrite Hri, Hinfo. simpl. rewrite Hrc, Hfin. simpl. split; [done|].
  eexists. split; [done|]. by split.
Qed.

Lemma informational_status_swallows_final_status_witness :
  let h := Do (CallWriteHeader 103) (fun _ => Do (CallWriteHeader 404) (fun _ => End HandlerReturns)) in
  client_status h = Some 404
  /\ exists w, LoggingChiMiddleware "id" (serve h) new_response = (w, HandlerReturns, Some 103)
     /\ status (finishRequest w) = Some 200 /\ informational w = [103].
Proof. apply (informational_status_swallows_final_status "id" 103 404); [reflexivity|lia]. Defined.

(** After [io.Copy] or [Flush] the writer of chi.go does not know that the header is sent: a status set then is
    logged, while the client has got 200. *)
Theorem late_status_is_logged_but_not_sent (id : string) (first : writer_call) (code : Z)
    (Hfirst : first = CallFlush \/ first = CallCopy demo_bytes) :
  let h := Do first (fun _ => Do (CallWriteHeader code) (fun _ => End HandlerReturns)) in
  client_status h = Some 200
  /\ exists w, LoggingChiMiddleware id (serve h) new_response = (w, HandlerReturns, Some code) /\ status w = Some 200.
Proof. destruct Hfirst as [-> | ->]; simpl; (split; [done|]); by eexists. Qed.

(** *** What the writer of chi.go does with the writer inside *)

(** A writer that lists the calls it gets. *)
#[export] Instance recording_writer {W} `{!ResponseWriter W} : ResponseWriter (W * list writer_call) := fun c w =>
  let (w', r) := wcall c w.1 in ((w', w.2 ++ [c]), r).

Definition is_WriteHeader (c : writer_call) : bool := match c with CallWriteHeader _ => true | _ => false end.
Definition is_Write (c : writer_call) : bool := match c with CallWrite _ => true | _ => false end.

(** The calls that have gone through: at most one [WriteHeader], with the code that is logged, before every [Write]. *)
Definition one_header (code : Z) (wrote : bool) (cs : list writer_call) : Prop :=
  exists pre post, cs = pre ++ (if wrote then [CallWriteHeader code] else []) ++ post
  /\ (wrote = false -> post = [])
  /\ forallb (fun c => negb (is_WriteHeader c || is_Write c)) pre = true
  /\ forallb (fun c => negb (is_WriteHeader c)) post = true.

Lemma one_header_snoc code wrote cs c :
  one_header code wrote cs -> is_WriteHeader c = false -> (wrote = false -> is_Write c = false) ->
  one_header code wrote (cs ++ [c]).
Proof.
  intros (pre & post & -> & Hpost & H1 & H2) Hh Hw. destruct wrote.
  - exists pre, (post ++ [c]). rewrite forallb_app, H2. simpl. rewrite Hh, <- app_assoc. done.
  - rewrite (Hpost eq_refl). exists (pre ++ [c]), []. simpl. rewrite forallb_app, H1, !app_nil_r. simpl.
    by rewrite Hh, Hw.
Qed.

Lemma one_header_WriteHeader code code' cs :
  one_header code' false cs -> one_header code true (cs ++ [CallWriteHeader code]).
Proof.
  intros (pre & post & -> & Hpost & H1 & _). rewrite (Hpost eq_refl), !app_nil_r. by exists pre, [].
Qed.

(** The calls so far, and whether they include a [WriteHeader], agree with the state of the writer; a panic of the
    writer inside may come in the middle of a call. *)
Definition agrees {W} (l : loggingChiResponseWriter (W * list writer_call)) : Prop :=
  one_header (chi_statusCode l) (chi_wroteHeader l) (chi_inner l).2.

Definition agrees_up_to_panic {W} (l : loggingChiResponseWriter (W * list writer_call)) : Prop :=
  exists sent, (chi_wroteHeader l = true -> sent = true) /\ one_header (chi_statusCode l) sent (chi_inner l).2.

Section recorded.
Context {W : Type} `{!ResponseWriter W}.
Implicit Types l : loggingChiResponseWriter (W * list writer_call).

Lemma agrees_agrees l : agrees l -> agrees_up_to_panic l.
Proof. intros H. by exists (chi_wroteHeader l). Qed.

Lemma chi_delegate_agrees c l :
  agrees l -> is_WriteHeader c = false -> (chi_wroteHeader l = false -> is_Write c = false) ->
  agrees (chi_delegate c l).1.
Proof.
  unfold agrees, chi_delegate, wcall, recording_writer. intros H Hc Hw.
  destruct (wcall c (chi_inner l).1) as [w r]. simpl. by apply one_header_snoc.
Qed.

Lemma chi_WriteHeader_agrees code l :
  agrees l ->
  match chi_WriteHeader code l with
  | (l', inl _) => agrees l' /\ chi_wroteHeader l' = true
  | (l', inr _) => agrees_up_to_panic l'
  end.
Proof.
  unfold agrees, chi_WriteHeader, wcall, recording_writer. intros H.
  destruct (chi_wroteHeader l) eqn:E; [by rewrite E in *|].
  destruct (wcall (CallWriteHeader code) (chi_inner l).1) as [w [r|reason] ]; simpl.
  - split; [|done]. by eapply one_header_WriteHeader.
  - exists true. split; [done|]. by eapply one_header_WriteHeader.
Qed.

Lemma chi_call_agrees c l :
  agrees l -> match wcall c l with (l', inl _) => agrees l' | (l', inr _) => agrees_up_to_panic l' end.
Proof.
  intros H.
  assert (forall c, is_WriteHeader c = false -> is_Write c = false ->
    match chi_delegate c l with (l', inl _) => agrees l' | (l', inr _) => agrees_up_to_panic l' end) as Hd.
  { intros c' Hc Hw. pose proof (chi_delegate_agrees c' l H Hc (fun _ => Hw)).
    destruct (chi_delegate c' l) as [l' [r|reason] ]; [done|by apply agrees_agrees]. }
  unfold wcall, chi_writer. destruct c as [code|b|b| |k v]; try by apply Hd.
  - pose proof (chi_WriteHeader_agrees code l H). destruct (chi_WriteHeader code l) as [l' [r|reason] ]; naive_solver.
  - assert (forall l, agrees l -> chi_wroteHeader l = true ->
      match chi_delegate (CallWrite b) l with (l', inl _) => agrees l' | (l', inr _) => agrees_up_to_panic l' end) as Hw.
    { intros l1 H1 Hl1. pose proof (chi_delegate_agrees (CallWrite b) l1 H1 eq_refl) as Hx. rewrite Hl1 in Hx.
      specialize (Hx ltac:(done)). destruct (chi_delegate _ l1) as [l' [r|reason] ]; [done|by apply agrees_agrees]. }
    unfold chi_Write. destruct (chi_wroteHeader l) eqn:E; [by apply Hw|].
    pose proof (chi_WriteHeader_agrees 200 l H) as Hh. destruct (chi_WriteHeader 200 l) as [l1 [r|reason] ]; [|done].
    destruct Hh. by apply Hw.
  - unfold chi_Flush. specialize (Hd CallFlush eq_refl eq_refl). by destruct (chi_delegate CallFlush l) as [l' [r|reason] ].
Qed.

Lemma chi_serve_agrees h l :
  agrees l -> agrees_up_to_panic (serve h l).1 /\ ((serve h l).2 = HandlerReturns -> agrees (serve h l).1).
Proof.
  revert l. induction h as [e|c k IH]; intros l H; simpl; [split; [by apply agrees_agrees|done]|].
  pose proof (chi_call_agrees c l H) as Hc. destruct (wcall c l) as [l' [r|reason] ]; [by apply IH|by split].
Qed.
End recorded.


(** [io.Copy] first, then a body and a late status: the calls that arrive. *)
Example chi_forwards_example :
  (chi_inner (serve (Do (CallCopy demo_bytes) (fun _ => Do (CallWrite demo_bytes) (fun _ => Do (CallWriteHeader 500)
    (fun _ => End HandlerReturns)))) (newLoggingChiResponseWriter (new_response, []))).1).2
  = [CallCopy demo_bytes; CallWriteHeader 200; CallWrite demo_bytes].
Proof. reflexivity. Qed.

(** C29: the recovering middleware always answers. Around any handler, on the response of
    [net/http], it returns and does not panic; the client gets the status the handler sent if it sent one,
    500 if the handler panicked before sending one, and 200 if it returned without sending one. *)
Theorem recover_always_answers (h : handler) :
  exists w w' e, serve h new_response = (w, e)
  /\ RecoverChiMiddleware (serve h) new_response = (w', HandlerReturns)
  /\ RecoverMiddleware (serve h) new_response = (w', HandlerReturns)
  /\ status (finishRequest w') =
       Some (default (match e with HandlerReturns => 200 | HandlerPanics _ => 500 end) (status w))
  /\ body w' = body w.
Proof.
  unfold RecoverChiMiddleware, RecoverMiddleware. destruct (serve h new_response) as [w [|reason] ]; simpl.
  - exists w, w, HandlerReturns. split_and!; try done.
    by rewrite status_finishRequest.
  - unfold wcall, base_writer. destruct (base_WriteHeader_500 w) as (w' & E & Hs). rewrite E.
    exists w, w', (HandlerPanics reason). split_and!; try done.
    + unfold finishRequest. by rewrite (base_WriteHeader_sent 200 _ w' Hs).
    + unfold base_WriteHeader in E. destruct (status w); simpl in E; by simplify_eq.
Qed.

(** Where the status of a panic is logged. With the recovering middleware outside the
    logging one, the client of a handler that panics gets 500, but the middleware of gorilla.go logs 200 and the
    one of chi.go logs nothing; with the logging middleware outside, the 500 is logged. *)
Theorem panic_status_depends_on_middleware_order (id reason : string) :
  let h := End (HandlerPanics reason) in
  (exists w, LoggingMiddleware id (serve h) new_response = (w, HandlerPanics reason, Some 200)
     /\ status (recover_write w (HandlerPanics reason)).1 = Some 500)
  /\ (exists w, LoggingChiMiddleware id (serve h) new_response = (w, HandlerPanics reason, None)
     /\ status (recover_write w (HandlerPanics reason)).1 = Some 500)
  /\ (exists w, LoggingChiMiddleware id (RecoverChiMiddleware (serve h)) new_response = (w, HandlerReturns, Some 500)
     /\ status w = Some 500).
Proof. simpl. split_and!; by eexists. Qed.

(** C31: the draining time is taken from the shutdown time. The context of [srv.Shutdown] is
    created before the draining sleep, so requests are not cut off exactly if the last one ends by the end of
    the draining or before [TimeForShutdown] has passed since the beginning; when [TimeForDraining] is at
    least [TimeForShutdown], as with 10s and 5s, requests that outlive the draining get no time at all. *)
Theorem draining_consumes_shutdown_time (p : PreShutdownState) (now busy_until : Z)
    (Hneed : Need p = true) (Hdrain : 0 <= TimeForDraining p) :
  let r := shutdown (Some p) now busy_until in
  shutdown_called r = now + TimeForDraining p
  /\ (shutdown_err r = None <->
        busy_until <= now + TimeForDraining p \/ busy_until < now + TimeForShutdown p)
  /\ shutdown_ended r - shutdown_called r <= Z.max 0 (TimeForShutdown p - TimeForDraining p)
  /\ (TimeForShutdown p <= TimeForDraining p -> now + TimeForDraining p < busy_until ->
        shutdown_err r <> None /\ shutdown_ended r = shutdown_called r).
Proof.
  unfold shutdown. rewrite Hneed. rewrite Z.max_r by done. unfold srv_Shutdown.
  destruct (Z.leb_spec busy_until (now + TimeForDraining p)); simpl; [split_and!; [done|split; [by left|done]|lia|lia]|].
  destruct (Z.ltb_spec busy_until (now + TimeForShutdown p)); simpl.
  - split_and!; [done|split; [by right|done]|lia|lia].
  - split_and!; [done|split; [done|lia]|lia|intros; split; [done|lia] ].
Qed.

Definition example_state : PreShutdownState := NewPreShutdownState true (10 * Second) (5 * Second).

Lemma draining_consumes_shutdown_time_witness :
  let r := shutdown (Some example_state) 0 (10 * Second + 1) in
  shutdown_err r <> None /\ shutdown_ended r = shutdown_called r
  /\ shutdown_called r = 0 + TimeForDraining example_state
  /\ (shutdown_err r = None <->
        10 * Second + 1 <= 0 + TimeForDraining example_state \/ 10 * Second + 1 < 0 + TimeForShutdown example_state)
  /\ shutdown_ended r - shutdown_called r <= Z.max 0 (TimeForShutdown example_state - TimeForDraining example_state)
  /\ (TimeForShutdown example_state <= TimeForDraining example_state -> 0 + TimeForDraining example_state < 10 * Second + 1 ->
        shutdown_err r <> None /\ shutdown_ended r = shutdown_called r).
Proof.
  split; [vm_compute; done|]. split; [vm_compute; reflexivity|].
  apply (draining_consumes_shutdown_time example_state 0 (10 * Second + 1)); [reflexivity|vm_compute; discriminate].
Defined.

(** C30: requests during the draining are refused, when draining is needed ([Need]). From the beginning of [shutdown] until
    [srv.Shutdown] has returned, a request that goes through [DrainMiddleware] does not get to its handler: it gets exactly what
    the callback does, if there is one, and 503 with the shutdown time in [Retry-After] if there is none. Before the
    shutdown the middleware is the identity, and when draining is not needed it always is. *)
Theorem draining_refuses_requests (p : PreShutdownState) (callback : option handler) (now busy_until : Z) (next : handler)
    (Hrun : run (Some p) = Some p) :
  let s := shutdown (Some p) now busy_until in
  let h t := DrainMiddleware (Some (store (state_at (State p) (stores s) t) p)) callback next in
  (Need p = true ->
     (forall t, now <= t < shutdown_ended s ->
        match callback with
        | Some cb => h t = cb
        | None => client_status (h t) = Some 503
                  /\ header (serve (h t) new_response).1 = {[ "Retry-After"%string := format_seconds (TimeForShutdown p) ]}
        end)
     /\ (forall t, t < now \/ shutdown_ended s <= t -> h t = next))
  /\ (Need p = false -> forall t, h t = next)
  /\ DrainMiddleware None callback next = next.
Proof.
  intros s h. split_and!; [|intros Hn t; subst h; unfold DrainMiddleware; simpl; by rewrite Hn|done]. intros Hneed.
  assert (State p = stateRunning) as Hst.
  { unfold run in Hrun. rewrite Hneed in Hrun. injection Hrun as E. by rewrite <- E. }
  subst s h. unfold DrainMiddleware, shutdown. simpl. rewrite Hneed, Hst.
  set (now' := now + Z.max 0 (TimeForDraining p)). set (deadline := now + TimeForShutdown p).
  assert (now <= (srv_Shutdown now' deadline busy_until).1) as Hle.
  { unfold srv_Shutdown. destruct (Z.leb_spec busy_until now'); [simpl; lia|].
    destruct (Z.ltb_spec busy_until deadline); simpl; lia. }
  destruct (srv_Shutdown now' deadline busy_until) as [t' err]. simpl in *.
  split; intros t Ht; destruct (Z.leb_spec now t), (Z.leb_spec t' t); try lia; simpl; [|done..].
  by destruct callback.
Qed.

Definition running_example : PreShutdownState := store stateRunning example_state.

Lemma draining_refuses_requests_witness :
  let s := shutdown (Some running_example) 0 (12 * Second) in
  let h t := DrainMiddleware (Some (store (state_at (State running_example) (stores s) t) running_example)) None demo_handler in
  client_status (h (3 * Second)) = Some 503
  /\ header (serve (h (3 * Second)) new_response).1 = {[ "Retry-After"%string := format_seconds (TimeForShutdown running_example) ]}.
Proof.
  refine (proj1 (proj1 (draining_refuses_requests running_example None 0 (12 * Second) demo_handler _) _) (3 * Second) _);
    [reflexivity|reflexivity|vm_compute; split; [discriminate|reflexivity] ].
Defined.
