(* ===== verification/HttpServer.v ===== *)
(** [src/server/chi.go] and [src/server/gorilla.go], the rest: the optional interfaces of the logging writers, the
    middlewares that change the context of a request, and how the two servers are created and run. The routers
    (chi, gorilla/mux) are parameters. *)
From S2P Require Import Prelude GoTime Bytes Utils Context Http.
From stdpp Require Import base tactics list strings gmap pretty.
From Stdlib Require Import ZArith Lia.
Local Open Scope Z_scope.

(** ** Optional interfaces of a response writer *)

(** What a type assertion on a writer finds: [http.Hijacker] (an error, or the connection is
    taken over), [http.Pusher]. The dynamic type decides, so it is a property of the type. ([http.Flusher] is a call
    of [Http], the reply to which says whether the writer is one.) *)
Class Optional (W : Type) := {
  as_Hijacker : option (W -> W * option string);
  as_Pusher : option (string -> W -> W * option string)
}.

Definition ErrNotSupported : string := "feature not supported".

Section optional.
Context {W : Type} `{!Optional W}.

(** Of [loggingChiResponseWriter]. *)
Definition chi_Hijack (l : loggingChiResponseWriter W) : loggingChiResponseWriter W * option string :=
  match as_Hijacker with
  | Some hijack => let (w, err) := hijack (chi_inner l) in (mkChi w (chi_statusCode l) (chi_wroteHeader l), err)
  | None => (l, Some ErrNotSupported)
  end.

Definition chi_Push (target : string) (l : loggingChiResponseWriter W) : loggingChiResponseWriter W * option string :=
  match as_Pusher with
  | Some push => let (w, err) := push target (chi_inner l) in (mkChi w (chi_statusCode l) (chi_wroteHeader l), err)
  | None => (l, Some ErrNotSupported)
  end.

#[global] Instance chi_optional : Optional (loggingChiResponseWriter W) := {
  as_Hijacker := Some chi_Hijack; as_Pusher := Some chi_Push
}.

(** Of [loggingResponseWriter]: it has no method [Push], and embedding an interface promotes none. *)
Definition gorilla_Hijack (l : loggingResponseWriter W) : loggingResponseWriter W * option string :=
  match as_Hijacker with
  | Some hijack => let (w, err) := hijack (gorilla_inner l) in (mkGorilla w (gorilla_statusCode l), err)
  | None => (l, Some "the ResponseWriter does not implement http.Hijacker"%string)
  end.

#[global] Instance gorilla_optional : Optional (loggingResponseWriter W) := {
  as_Hijacker := Some gorilla_Hijack; as_Pusher := None
}.
End optional.

(** ** Requests and their contexts *)

Record request := mkRequest { rctx : context; Method : string; Path : string; UserAgent : string }.

Definition WithContext (r : request) (c : context) : request := mkRequest c (Method r) (Path r) (UserAgent r).

(** A handler of requests: what it does with the writer it is given, from the request and the time at
    which it is called. *)
Definition Handler (W : Type) : Type := request -> Z -> W -> W * handler_end.

(** A handler that makes the calls of a tree, which may depend on the request and the time. *)
Definition HandlerFunc {W} `{!ResponseWriter W} (h : request -> Z -> handler) : Handler W :=
  fun r now w => serve (h r now) w.

Definition correlationChiIDCtxKey : ctx_key := mkKey "server.contextChiKey" "correlation_id".
Definition correlationIDCtxKey : ctx_key := mkKey "server.contextKey" "correlation_id".

Section middlewares.
Context {W : Type} `{!ResponseWriter W}.

Definition LoggerChiContextMiddleware (next : Handler W) : Handler W :=
  fun r now w => next (WithContext r (rctx r)) now w.

(** [RequestTimeout]: the deferred [cancel] is for what the handler leaves running. *)
Definition RequestTimeout (d : Z) (next : Handler W) : Handler W :=
  fun r now w => next (WithContext r (WithTimeout (rctx r) now d)) now w.

(** The context of the handler once the middleware has returned, at [t]. *)
Definition RequestTimeout_left (d : Z) (r : request) (now t : Z) : context :=
  cancelled_at (WithTimeout (rctx r) now d) t.

Definition DrainMiddleware_ (state : option PreShutdownState) (responseCallback : option handler) (next : Handler W)
    : Handler W :=
  fun r now w =>
    match state with
    | Some p =>
      if Need p && bool_decide (State p = stateDraining)
      then serve (DrainMiddleware state responseCallback (End HandlerReturns)) w
      else next r now w
    | None => next r now w
    end.

Definition RecoverChi_ (next : Handler W) : Handler W := fun r now w => RecoverChiMiddleware (next r now) w.

(** The logging middlewares give the handler the correlation identifier; the line that is logged is the third
    component of [LoggingChiMiddleware]. *)
Definition LoggingChi_ (corrID : string) (next : Handler (loggingChiResponseWriter W)) : Handler W :=
  fun r now w =>
    (LoggingChiMiddleware corrID (next (WithContext r (WithValue (rctx r) correlationChiIDCtxKey corrID)) now) w).1.

Definition Logging_ (correlationID : string) (next : Handler (loggingResponseWriter W)) : Handler W :=
  fun r now w =>
    (LoggingMiddleware correlationID (next (WithContext r (WithValue (rctx r) correlationIDCtxKey correlationID)) now) w).1.

(** [LoggerContextMiddleware] of gorilla.go: the writer is wrapped, nothing is logged. *)
Definition LoggerContextMiddleware (next : Handler (loggingResponseWriter W)) : Handler W :=
  fun r now w =>
    let (l, e) := next (WithContext r (rctx r)) now (newLoggingResponseWriter w) in (gorilla_inner l, e).
End middlewares.

(** ** Creating and running a server *)

(** A router and its middlewares; adding them may panic (chi refuses them once a route is there). *)
Class Router (Mux Mw : Type) := { NewRouter : Mux; Use : Mux -> list Mw -> outcome Mux }.

(** How [ListenAndServe] ends. *)
Inductive listen_end := ServerClosed | NilError | ListenFailed (e : string).

(** The server goroutine, through [GoRecover] on a context of its own; the state is whether that context
    has been cancelled by the deferred [cancel]. *)
Definition listen_goroutine (message : string) (e : listen_end) : bool * Runtime.goroutine_end :=
  Runtime.GoRecover false (fun _ => (true, match e with
                                           | ListenFailed m => Panicked (message +:+ m)
                                           | _ => Returned tt
                                           end)) false.

Definition ifNil {H} (balancer : option H) (router : H) : H :=
  match balancer with Some b => b | None => router end.

(** The settings of [&http.Server{Addr, Handler}] that are left at zero. *)
Definition zero_server : http_Server := mkServer 0 0 0 0 0 None None None None false.

Section servers.
Context {Mux Mw : Type} `{!Router Mux Mw}.

Record server := mkHttpServer { Addr : string; Handler_ : Mux; settings : http_Server }.

(** What a started server consists of: the [http.Server], its goroutine, the draining state. *)
Record running := mkRunning {
  srv : server; goroutine : bool * Runtime.goroutine_end; draining : option PreShutdownState
}.

(** *** chi.go *)

Record HTTPServerChi := mkHTTPServerChi {
  port : string; Router_ : Mux; opts : list ServerOption; preShutdownState : option PreShutdownState
}.

Definition newHTTPServer (addr : string) : HTTPServerChi := mkHTTPServerChi addr NewRouter [] None.

Definition run_chi (s : HTTPServerChi) (balancer : option Mux) (e : listen_end) : running :=
  let srv := mkHttpServer (port s) (ifNil balancer (Router_ s)) (run_options (opts s) zero_server) in
  mkRunning srv (listen_goroutine "server stopped: " e) (run (preShutdownState s)).

(** [routes] configures the server and may panic; the goroutine is not started then. *)
Definition CreateHTTPChiServer (routes : HTTPServerChi -> outcome HTTPServerChi) (addr : string)
    (pre : option PreShutdownState) (mwf : list Mw) (e : listen_end) : outcome running :=
  let s := newHTTPServer addr in
  let used := if (0 <? length mwf)%nat
              then match Use (Router_ s) mwf with
                   | Returned m => Returned (mkHTTPServerChi (port s) m (opts s) (preShutdownState s))
                   | Panicked r => Panicked r
                   end
              else Returned s in
  match used with
  | Panicked r => Panicked r
  | Returned s1 =>
    match routes s1 with
    | Panicked r => Panicked r
    | Returned s2 =>
      Returned (run_chi (mkHTTPServerChi (port s2) (Router_ s2) (opts s2) pre) None e)
    end
  end.

(** *** gorilla.go *)

Record HTTPServer := mkHTTPServer { gorilla_port : string; gorilla_Router : Mux }.

Definition newSimpleHTTPServer (addr : string) : HTTPServer := mkHTTPServer addr NewRouter.

Definition ToConfigureHandlers (s : HTTPServer) (configure : HTTPServer -> outcome HTTPServer) : outcome HTTPServer :=
  configure s.

(** The middlewares are those of the router: a balancer that is given does not go through them. *)
Definition RunHTTPServer (s : HTTPServer) (balancer : option Mux) (mwf : list Mw) (e : listen_end) : outcome running :=
  match Use (gorilla_Router s) mwf with
  | Panicked r => Panicked r
  | Returned m =>
    let srv := match balancer with
               | Some b => mkHttpServer (gorilla_port s) b zero_server
               | None => mkHttpServer (gorilla_port s) m zero_server
               end in
    Returned (mkRunning srv (listen_goroutine "Server stopped by error: " e) None)
  end.

Definition CreateHttpServer (configure : HTTPServer -> outcome HTTPServer) (addr : string) (mwf : list Mw)
    (e : listen_end) : outcome running :=
  match ToConfigureHandlers (newSimpleHTTPServer addr) configure with
  | Panicked r => Panicked r
  | Returned s => RunHTTPServer s None mwf e
  end.

(** The function the kernel registers: the shutdown of the draining state, whatever became of the
    goroutine. *)
Definition stop_chi (r : running) (now busy_until : Z) : shutdown_run := shutdown (draining r) now busy_until.
End servers.
Arguments server : clear implicits.
Arguments running : clear implicits.
Arguments HTTPServerChi : clear implicits.
Arguments HTTPServer : clear implicits.

(** A router for concrete runs: what was registered on it, in order. *)
Inductive registered := Middleware (name : string) | Route (path : string).

#[export] Instance demo_chi_router : Router (list registered) string := {
  NewRouter := [];
  Use l mws := if existsb (fun x => match x with Route _ => true | _ => false end) l
               then Panicked "chi: all middlewares must be defined before routes on a mux"
               else Returned (l ++ (Middleware <$> mws))
}.

(** ** Properties *)

(** The context of a request under [RequestTimeout]. The handler is run once, on the same writer, with the
    same values and with a context whose deadline is the earlier one of the request's own and of [d] from
    now, which is done by then; and when the middleware has returned the context is done, so
    whatever the handler has left running on it is told to stop. *)
Theorem RequestTimeout_context (W : Type) (d : Z) (next : Handler W) (r : request) (now t_end : Z) (w : W)
    (Hr : ctx_wf now (rctx r)) :
  exists c, RequestTimeout d next r now w = next (WithContext r c) now w
    /\ deadline c = Some (match deadline (rctx r) with Some p => Z.min p (now + d) | None => now + d end)
    /\ Err_ c (Z.max now (now + d)) <> None
    /\ (forall k, Value c k = Value (rctx r) k)
    /\ forall t, t_end <= t -> Err_ (RequestTimeout_left d r now t_end) t <> None.
Proof.
  exists (WithTimeout (rctx r) now d). destruct (WithTimeout_done now (rctx r) d Hr) as (t & e & E & Ht).
  split_and!; [done| | | |].
  - unfold WithTimeout. destruct (deadline (rctx r)) as [p|] eqn:Ep; [|done].
    destruct (Z.ltb_spec p (now + d)); [|simpl]; [rewrite Ep|]; f_equal; lia.
  - by rewrite (Err_done _ _ e t).
  - intros k. unfold Value. by rewrite WithTimeout_values.
  - intros t' Ht'. unfold RequestTimeout_left.
    destruct (earlier_le_r (done (WithTimeout (rctx r) now d)) (Some (t_end, Canceled)) t_end Canceled eq_refl)
      as (t2 & e2 & E2 & Ht2).
    rewrite (Err_done _ _ e2 t2); [done|exact E2|lia].
Qed.

Definition demo_request : request := mkRequest Background "GET" "/api/ping" "curl".

Lemma RequestTimeout_context_witness :
  exists c, RequestTimeout (2 * Second) (HandlerFunc (fun _ _ => demo_handler)) demo_request 0 new_response
      = HandlerFunc (fun _ _ => demo_handler) (WithContext demo_request c) 0 new_response
    /\ deadline c = Some (match deadline (rctx demo_request) with Some p => Z.min p (0 + 2 * Second) | None => 0 + 2 * Second end)
    /\ Err_ c (Z.max 0 (0 + 2 * Second)) <> None
    /\ (forall k, Value c k = Value (rctx demo_request) k)
    /\ forall t, Second <= t -> Err_ (RequestTimeout_left (2 * Second) demo_request 0 Second) t <> None.
Proof.
  apply (RequestTimeout_context response (2 * Second) (HandlerFunc (fun _ _ => demo_handler)) demo_request 0 Second new_response).
  intros dl [=].
Defined.

(** What [CreateHTTPChiServer] starts. When the routes are configured without panic on the
    fresh router with its middlewares, the server listens on the port and serves the configured router with
    the options in the order they were applied, the draining state is [running] exactly if draining is needed, and no
    middleware is ever refused for coming after a route, as long as the router accepts them when
    it is fresh; when the configuration panics, so does the call, and nothing is started. *)
Theorem CreateHTTPChiServer_starts (Mux Mw : Type) (router : Router Mux Mw)
    (routes : HTTPServerChi Mux -> outcome (HTTPServerChi Mux)) (addr : string) (pre : option PreShutdownState)
    (mwf : list Mw) (e : listen_end) (m : Mux) (Huse : Use NewRouter mwf = Returned m) :
  let s1 := mkHTTPServerChi addr (if (0 <? length mwf)%nat then m else NewRouter) [] None in
  match routes s1, CreateHTTPChiServer routes addr pre mwf e with
  | Returned s2, Returned r =>
    Addr (srv r) = port s2 /\ Handler_ (srv r) = Router_ s2
    /\ settings (srv r) = foldl apply_option zero_server (opts s2)
    /\ match pre, draining r with
       | Some p, Some p' => Need p' = Need p /\ State p' = (if Need p then stateRunning else State p)
       | None, None => True
       | _, _ => False
       end
  | Panicked a, Panicked b => a = b
  | _, _ => False
  end.
Proof.
  intros s1. unfold CreateHTTPChiServer. simpl. rewrite Huse. unfold s1.
  destruct (0 <? length mwf)%nat;
    (match goal with |- context [routes ?s] => change (newHTTPServer addr) with (mkHTTPServerChi addr NewRouter [] None) end);
    (match goal with |- context [routes ?s] => destruct (routes s) as [s2|x] end); try done;
    unfold run_chi, run_options; simpl; (split_and!; [done..|]); unfold run; destruct pre as [p|]; try done;
    by destruct (Need p) eqn:En.
Qed.

Definition demo_routes (s : HTTPServerChi (list registered)) : outcome (HTTPServerChi (list registered)) :=
  Returned (mkHTTPServerChi (port s) (Router_ s ++ [Route "/api"]) (opts s ++ [WithReadTimeout (5 * Second)])
    (preShutdownState s)).

Lemma CreateHTTPChiServer_starts_witness :
  exists s2 r, demo_routes (mkHTTPServerChi ":8088" [Middleware "recover"; Middleware "logging"] [] None) = Returned s2
    /\ CreateHTTPChiServer demo_routes ":8088" (Some example_state) ["recover"; "logging"]%string ServerClosed = Returned r
    /\ (Addr (srv r) = port s2 /\ Handler_ (srv r) = Router_ s2
       /\ settings (srv r) = foldl apply_option zero_server (opts s2)
       /\ match Some example_state, draining r with
          | Some p, Some p' => Need p' = Need p /\ State p' = (if Need p then stateRunning else State p)
          | None, None => True
          | _, _ => False
          end).
Proof.
  do 2 eexists. split; [reflexivity|]. split; [reflexivity|].
  apply (CreateHTTPChiServer_starts (list registered) string demo_chi_router demo_routes ":8088" (Some example_state)
    ["recover"; "logging"]%string ServerClosed [Middleware "recover"; Middleware "logging"]). reflexivity.
Defined.

(** A server that cannot listen is not noticed. When [ListenAndServe] fails (the port is in
    use), the panic meant to stop the process is recovered by [GoRecover]: the call has returned as if the server
    ran, the draining state says [running], and the only trace is the cancelled context nobody watches; the
    same holds of gorilla.go. *)
Theorem listen_failure_is_swallowed (Mux Mw : Type) (router : Router Mux Mw) (addr why : string) (p : PreShutdownState)
    (Hneed : Need p = true) :
  exists r, CreateHTTPChiServer (fun s => Returned s) addr (Some p) [] (ListenFailed why) = Returned r
    /\ goroutine r = (true, Runtime.RecoveredPanic ("server stopped: " +:+ why))
    /\ State <$> draining r = Some stateRunning
    /\ CreateHTTPChiServer (fun s => Returned s) addr (Some p) [] NilError
       = Returned (mkRunning (srv r) (true, Runtime.Finished) (draining r))
    /\ forall m, Use NewRouter [] = Returned m ->
       exists r', CreateHttpServer (fun s => Returned s) addr [] (ListenFailed why) = Returned r'
         /\ goroutine r' = (true, Runtime.RecoveredPanic ("Server stopped by error: " +:+ why)).
Proof.
  eexists. split; [reflexivity|]. simpl. split_and!; [done| |done|].
  - by rewrite Hneed.
  - intros m Hm. unfold CreateHttpServer, ToConfigureHandlers, RunHTTPServer. simpl. rewrite Hm. by eexists.
Qed.

Lemma listen_failure_is_swallowed_witness :
  exists r, CreateHTTPChiServer (fun s => Returned s) ":80" (Some example_state) [] (ListenFailed "bind: permission denied") = Returned r
    /\ goroutine r = (true, Runtime.RecoveredPanic ("server stopped: " +:+ "bind: permission denied"))
    /\ State <$> draining r = Some stateRunning
    /\ CreateHTTPChiServer (fun s => Returned s) ":80" (Some example_state) [] NilError
       = Returned (mkRunning (srv r) (true, Runtime.Finished) (draining r))
    /\ forall m, Use NewRouter [] = Returned m ->
       exists r', CreateHttpServer (fun s => Returned s) ":80" [] (ListenFailed "bind: permission denied") = Returned r'
         /\ goroutine r' = (true, Runtime.RecoveredPanic ("Server stopped by error: " +:+ "bind: permission denied")).
Proof.
  apply (listen_failure_is_swallowed (list registered) string demo_chi_router ":80" "bind: permission denied" example_state).
  reflexivity.
Defined.

(** The writer of gorilla.go hides the pusher it wraps, the one of chi.go claims to be one. *)
Lemma optional_interfaces (W : Type) (O : Optional W) :
  as_Pusher (W := loggingResponseWriter W) = None /\ is_Some (as_Pusher (W := loggingChiResponseWriter W)).
Proof. by split; [|eexists]. Qed.

(** [LoggerContextMiddleware] does not change the response, for any handler that does not flush. *)
Lemma LoggerContextMiddleware_transparent (h : request -> Z -> handler) (r : request) (now : Z) :
  all_calls not_flush (h (WithContext r (rctx r)) now) ->
  LoggerContextMiddleware (HandlerFunc h) r now new_response = HandlerFunc h (WithContext r (rctx r)) now new_response.
Proof.
  intros Hh. unfold LoggerContextMiddleware, HandlerFunc.
  destruct (gorilla_serve (h (WithContext r (rctx r)) now) new_response (newLoggingResponseWriter new_response) Hh eq_refl)
    as (l & w & e & -> & -> & <-). done.
Qed.
