(* ===== verification/Gateway.v ===== *)
(** [src/server/grpc_gateway.go]: the configuration of the gateway, the validation of its Swagger paths, the
    routes it registers, its headers, its start and its shutdown. The gateway library and the conflicts between route
    patterns are parameters. *)
From S2P Require Import Prelude GoTime Utils.
From stdpp Require Import base tactics list strings gmap pretty.
From Stdlib Require Import ZArith Lia String Ascii.
Local Open Scope Z_scope.

(** ** Strings of Go *)

Definition HasPrefix (s pre : string) : bool := String.prefix pre s.
Definition HasSuffix (s suf : string) : bool :=
  (String.length suf <=? String.length s)%nat
  && String.eqb (String.substring (String.length s - String.length suf) (String.length suf) s) suf.

(** [strings.ToLower] on ASCII, the alphabet of header names. *)
Definition lower_ascii (c : ascii) : ascii :=
  let n := nat_of_ascii c in
  if ((65 <=? n) && (n <=? 90))%nat then ascii_of_nat (n + 32) else c.

Fixpoint ToLower (s : string) : string :=
  match s with EmptyString => EmptyString | String c s => String (lower_ascii c) (ToLower s) end.

(** [%q] of a string that needs no escape. *)
Definition quoted (s : string) : string :=
  String.append (String (ascii_of_nat 34) s) (String (ascii_of_nat 34) EmptyString).

(** ** Configuration *)

Record SwaggerAPIConfig := mkAPI { Name : string; UIPath : string; JSONPath : string; JSONFile : string }.
Record SwaggerConfig := mkSwagger { Enabled : bool; APIs : list SwaggerAPIConfig }.

Record GRPCGatewayConfigs := mkGateway {
  HTTPAddr : string; GRPCEndpoint : string; Network : string;
  gwReadHeaderTimeout : Z; gwReadTimeout : Z; gwWriteTimeout : Z; gwIdleTimeout : Z;
  ShutdownTimeout : Z; gwMaxHeaderBytes : Z; Swagger : SwaggerConfig
}.

(** [if x <= 0 { x = d }] *)
Definition or_default (x d : Z) : Z := if x <=? 0 then d else x.

Definition NewGRPCGatewayServer (c : GRPCGatewayConfigs) : result string GRPCGatewayConfigs :=
  if String.eqb (HTTPAddr c) "" then Err "grpcs gateway HTTP address is required"%string
  else if String.eqb (GRPCEndpoint c) "" then Err "grpcs gateway upstream endpoint is required"%string
  else Ok {|
    HTTPAddr := HTTPAddr c; GRPCEndpoint := GRPCEndpoint c;
    Network := if String.eqb (Network c) "" then "tcp" else Network c;
    gwReadHeaderTimeout := or_default (gwReadHeaderTimeout c) (5 * Second);
    gwReadTimeout := gwReadTimeout c; gwWriteTimeout := gwWriteTimeout c;
    gwIdleTimeout := or_default (gwIdleTimeout c) (60 * Second);
    ShutdownTimeout := or_default (ShutdownTimeout c) (5 * Second);
    gwMaxHeaderBytes := or_default (gwMaxHeaderBytes c) (Z.shiftl 1 20);
    Swagger := Swagger c
  |}.

(** ** Validation of the Swagger paths *)

Definition validateSwaggerAPIConfig (c : SwaggerAPIConfig) : option string :=
  if String.eqb (Name c) "" then Some "swagger API name is required"%string
  else if String.eqb (UIPath c) "" then Some ("swagger UI path is required for API " +:+ quoted (Name c))
  else if String.eqb (JSONPath c) "" then Some ("swagger JSON path is required for API " +:+ quoted (Name c))
  else if String.eqb (JSONFile c) "" then Some ("swagger JSON file is required for API " +:+ quoted (Name c))
  else if negb (HasPrefix (UIPath c) "/") then Some ("swagger UI path for API " +:+ quoted (Name c) +:+ " must start with /")
  else if negb (HasSuffix (UIPath c) "/") then Some ("swagger UI path for API " +:+ quoted (Name c) +:+ " must end with /")
  else if negb (HasPrefix (JSONPath c) "/") then Some ("swagger JSON path for API " +:+ quoted (Name c) +:+ " must start with /")
  else if HasSuffix (JSONPath c) "/" then Some ("swagger JSON path for API " +:+ quoted (Name c) +:+ " must not end with /")
  else if String.eqb (UIPath c) (JSONPath c) then
    Some ("swagger UI path and JSON path for API " +:+ quoted (Name c) +:+ " must be different")
  else None.

(** The loop of [validateSwaggerConfig]: [registered] maps a path to the name of the API that has it. *)
Fixpoint validate_loop (index : nat) (registered : gmap string string) (apis : list SwaggerAPIConfig) : option string :=
  match apis with
  | [] => None
  | api :: apis =>
    match validateSwaggerAPIConfig api with
    | Some err => Some ("validate Swagger API at index " +:+ pretty index +:+ ": " +:+ err)
    | None =>
      match registered !! UIPath api with
      | Some owner => Some ("swagger UI path " +:+ quoted (UIPath api) +:+ " for API " +:+ quoted (Name api)
                            +:+ " is already used by API " +:+ quoted owner)
      | None =>
        let registered := <[UIPath api := Name api]> registered in
        match registered !! JSONPath api with
        | Some owner => Some ("swagger JSON path " +:+ quoted (JSONPath api) +:+ " for API " +:+ quoted (Name api)
                              +:+ " is already used by API " +:+ quoted owner)
        | None => validate_loop (S index) (<[JSONPath api := Name api]> registered) apis
        end
      end
    end
  end.

Definition validateSwaggerConfig (c : SwaggerConfig) : option string := validate_loop 0 ∅ (APIs c).

(** ** Routes *)

(** What a route leads to. *)
Inductive route := ToGateway | ToJSON (file : string) | ToUI (json_url : string).

(** The handler that is built: the gateway itself, or a [http.ServeMux] with its patterns in order. *)
Inductive http_handler := GatewayMux | RootMux (routes : list (string * route)).

Section routes.
(** Whether [http.ServeMux] takes two patterns as conflicting. *)
Variable conflicts : string -> string -> bool.

(** [rootMux.Handle]: a conflict with a pattern that is registered panics. *)
Definition mux_Handle (pattern : string) (to : route) (mux : list (string * route)) : outcome (list (string * route)) :=
  if existsb (fun x => conflicts pattern x.1) mux then Panicked ("http: pattern conflicts: " +:+ pattern)
  else Returned (mux ++ [(pattern, to)]).

Definition outcome_bind {A B} (c : outcome A) (k : A -> outcome B) : outcome B :=
  match c with Returned a => k a | Panicked r => Panicked r end.

Fixpoint handle_apis (apis : list SwaggerAPIConfig) (mux : list (string * route)) : outcome (list (string * route)) :=
  match apis with
  | [] => Returned mux
  | api :: apis =>
    outcome_bind (mux_Handle (JSONPath api) (ToJSON (JSONFile api)) mux) (fun mux =>
    outcome_bind (mux_Handle (UIPath api) (ToUI (JSONPath api)) mux) (handle_apis apis))
  end.

Definition buildGatewayHTTPHandler (c : SwaggerConfig) : outcome (result string http_handler) :=
  if negb (Enabled c) then Returned (Ok GatewayMux)
  else if (List.length (APIs c) =? 0)%nat
  then Returned (Err "swagger is enabled, but no Swagger APIs are configured"%string)
  else match validateSwaggerConfig c with
       | Some err => Returned (Err err)
       | None =>
         outcome_bind (handle_apis (APIs c) []) (fun mux =>
         outcome_bind (mux_Handle "/" ToGateway mux) (fun mux => Returned (Ok (RootMux mux))))
       end.

(** ** The server *)

(** What [Start] puts into [s.server]: the address, the handler, the settings. *)
Record gateway_http := mkGatewayHTTP {
  Addr : string; handler : http_handler;
  httpReadHeaderTimeout : Z; httpReadTimeout : Z; httpWriteTimeout : Z; httpIdleTimeout : Z; httpMaxHeaderBytes : Z
}.

Record GRPCGatewayServer := mkGatewayServer { configs : GRPCGatewayConfigs; server : option gateway_http }.

(** How [Serve] ends: it never returns nil. *)
Inductive serve_end := ServerClosed | ServeFailed (e : string).

(** What a successful [Start] leaves: the listener that was opened, whether [Serve] was given it, how the goroutine
    ends and what it logs at its end. *)
Record started := mkStarted {
  listener : string * string; served : bool; goroutine : Runtime.goroutine_end; last_log : list string
}.

(** The goroutine, through [GoRecover]: an error of [Serve] is logged. *)
Definition serve_goroutine (ctx_done : bool) (e : serve_end) : (bool * list string) * Runtime.goroutine_end :=
  Runtime.GoRecover ctx_done
    (fun _ => ((true, match e with ServeFailed m => ["gRPC gateway stopped with error: " +:+ m] | ServerClosed => [] end), Returned tt))
    (false, []).

(** Of dial options, what [Start] does with an empty list. *)
Definition with_credentials {DialOption} (insecure : DialOption) (dialOptions : list DialOption) : list DialOption :=
  if (List.length dialOptions =? 0)%nat then [insecure] else dialOptions.

(** [Start]. The registration function is given the options of the mux, the endpoint and the dial options, and
    may fail; [Listen] is [net.Listen], [None] when it succeeds; [ctx_done] says whether the context is done already. The
    server is assigned before the listener is opened. *)
Definition Start {DialOption MuxOption} (insecure : DialOption) (s : GRPCGatewayServer)
    (registerFunc : option (list MuxOption -> string -> list DialOption -> option string))
    (dialOptions : list DialOption) (muxOptions : list MuxOption)
    (Listen : string -> string -> option string) (ctx_done : bool) (e : serve_end)
    : outcome (GRPCGatewayServer * result string started) :=
  let c := configs s in
  match registerFunc with
  | None => Returned (s, Err "grpcs gateway registration function is required"%string)
  | Some registerFunc =>
    match registerFunc muxOptions (GRPCEndpoint c) (with_credentials insecure dialOptions) with
    | Some err => Returned (s, Err ("register gateway handlers: " +:+ err))
    | None =>
      outcome_bind (buildGatewayHTTPHandler (Swagger c)) (fun h =>
        match h with
        | Err err => Returned (s, Err ("build gateway HTTP handler: " +:+ err))
        | Ok h =>
          let srv := mkGatewayHTTP (HTTPAddr c) h (gwReadHeaderTimeout c) (gwReadTimeout c) (gwWriteTimeout c)
                       (gwIdleTimeout c) (gwMaxHeaderBytes c) in
          let s := mkGatewayServer c (Some srv) in
          match Listen (Network c) (HTTPAddr c) with
          | Some err =>
            Returned (s, Err ("listen grpcs gateway on " +:+ Network c +:+ "/" +:+ HTTPAddr c +:+ ": " +:+ err))
          | None =>
            let '((served, log), g) := serve_goroutine ctx_done e in
            Returned (s, Ok (mkStarted (Network c, HTTPAddr c) served g log))
          end
        end)
    end
  end.
End routes.

(** ** Requests *)

(** [swaggerJSONHandler]: the headers set, and either an error status or the file. *)
Inductive json_answer := MethodNotAllowed | ServeFile (filename : string).

Definition swaggerJSONHandler (filename method : string) : list (string * string) * json_answer :=
  if negb (String.eqb method "GET") && negb (String.eqb method "HEAD")
  then ([("Allow", "GET, HEAD")]%string, MethodNotAllowed)
  else ([("Content-Type", "application/json; charset=utf-8")]%string, ServeFile filename).

(** [IncomingHeaderMatcher]; [DefaultHeaderMatcher] is the one of the library. *)
Definition IncomingHeaderMatcher (DefaultHeaderMatcher : string -> string * bool) (header : string) : string * bool :=
  let h := ToLower header in
  if String.eqb h "authorization" then ("authorization"%string, true)
  else if String.eqb h "x-request-id" then ("x-request-id"%string, true)
  else if String.eqb h "x-correlation-id" then ("x-correlation-id"%string, true)
  else if String.eqb h "cookie" then ("cookie"%string, true)
  else DefaultHeaderMatcher header.

(** The gRPC status library: codes with [codes.Unknown], their names and HTTP statuses, and the code and message
    of an error. *)
Class StatusLib (Code Error : Type) := {
  code_eq_dec :: EqDecision Code;
  Unknown : Code;
  code_String : Code -> string;
  HTTPStatusFromCode : Code -> Z;
  status_Code : Error -> Code;
  status_Message : Error -> string
}.

(** [GatewayErrorHandler]: the HTTP status and the payload. *)
Definition GatewayErrorHandler {Code Error} `{!StatusLib Code Error} (err : Error) : Z * list (string * string) :=
  let code := status_Code err in
  let httpStatus := if decide (code = Unknown) then 500 else HTTPStatusFromCode code in
  (httpStatus, [("code"%string, code_String code); ("message"%string, status_Message err)]).

(** [shutdown]: the calls made on the server; [shutdown_err] is the error of [Shutdown], and the one of [Close] is
    only logged. *)
Inductive server_call := CallShutdown (timeout : Z) | CallClose.

Definition shutdown (s : GRPCGatewayServer) (shutdown_err : option string) : list server_call :=
  match server s with
  | None => []
  | Some _ => CallShutdown (ShutdownTimeout (configs s)) :: match shutdown_err with Some _ => [CallClose] | None => [] end
  end.

(** [net/http]: [Shutdown] and [Close] close the listeners [Serve] was given, and no other. *)
Definition listener_open_after (calls : list server_call) (x : started) : bool :=
  match calls with [] => true | _ => negb (served x) end.

(** ** Validation accepts exactly the usable configurations *)

(** The rules of an API, as the documentation of the fields states them. *)
Record well_formed (c : SwaggerAPIConfig) : Prop := {
  wf_Name : Name c <> ""%string;
  wf_File : JSONFile c <> ""%string;
  wf_UI_start : HasPrefix (UIPath c) "/" = true;
  wf_UI_end : HasSuffix (UIPath c) "/" = true;
  wf_JSON_start : HasPrefix (JSONPath c) "/" = true;
  wf_JSON_end : HasSuffix (JSONPath c) "/" = false
}.

Lemma validateSwaggerAPIConfig_iff c : validateSwaggerAPIConfig c = None <-> well_formed c.
Proof.
  unfold validateSwaggerAPIConfig. split.
  - intros H. repeat match type of H with context [if ?b then _ else _] => destruct b eqn:?; [done|] end.
    bool_to_prop. split; try done; by apply String.eqb_neq.
  - intros [H1 H2 H3 H4 H5 H6].
    assert (UIPath c <> ""%string) as Hu by (intros E; by rewrite E in H3).
    assert (JSONPath c <> ""%string) as Hj by (intros E; by rewrite E in H5).
    assert (UIPath c <> JSONPath c) as Hd by (intros E; rewrite E in H4; congruence).
    apply String.eqb_neq in H1, H2, Hu, Hj, Hd. by rewrite H1, H2, H3, H4, H5, H6, Hu, Hj, Hd.
Qed.

(** The paths of the APIs, in the order of the validation. *)
Definition paths (apis : list SwaggerAPIConfig) : list string :=
  flat_map (fun api => [UIPath api; JSONPath api]) apis.

Lemma validate_loop_iff index registered apis :
  validate_loop index registered apis = None <->
  Forall well_formed apis /\ NoDup (paths apis) /\ Forall (fun p => registered !! p = None) (paths apis).
Proof.
  revert index registered. induction apis as [|api apis IH]; intros index registered.
  { split; [intros _; repeat constructor|done]. }
  simpl. destruct (validateSwaggerAPIConfig api) as [err|] eqn:E.
  { split; [done|]. intros (Hwf & _). inversion_clear Hwf as [|? ? Hapi _].
    apply validateSwaggerAPIConfig_iff in Hapi. congruence. }
  apply validateSwaggerAPIConfig_iff in E. rewrite Forall_cons, !NoDup_cons, not_elem_of_cons, !Forall_cons.
  destruct (registered !! UIPath api) as [o|] eqn:Eu; [by split; [|naive_solver]|].
  destruct (<[UIPath api := Name api]> registered !! JSONPath api) as [o|] eqn:Ej.
  { split; [done|]. apply lookup_insert_Some in Ej as [[Ej _]|[_ Ej]]; naive_solver. }
  apply lookup_insert_None in Ej as [Ej Hne]. rewrite IH, !Forall_forall.
  assert (forall p, <[JSONPath api := Name api]> (<[UIPath api := Name api]> registered) !! p = None
    <-> registered !! p = None /\ p <> UIPath api /\ p <> JSONPath api) as Hlk.
  { intros p. rewrite !lookup_insert_None. naive_solver. }
  setoid_rewrite Hlk. split.
  - intros (H1 & H2 & H3). split_and!; try done; try naive_solver.
  - intros ([_ H1] & ([H2 H3] & H4 & H5) & _ & _ & H6). split_and!; try done.
    intros p Hp. split_and!; [by apply H6|by intros ->|by intros ->].
Qed.

(** ** Registration of the routes *)

(** A pattern without a wildcard or an escape: [http.ServeMux] then compares patterns as strings. *)
Definition literal (p : string) : Prop :=
  forall c, c ∈ String.list_ascii_of_string p -> c <> ascii_of_nat 123 /\ c <> ascii_of_nat 37.

(** The documented conflicts between such patterns. *)
Definition literal_conflicts (conflicts : string -> string -> bool) : Prop :=
  (forall p, conflicts p p = true) /\ forall p q, literal p -> literal q -> p <> q -> conflicts p q = false.

Section registration.
Variable conflicts : string -> string -> bool.
Hypothesis Hconflicts : literal_conflicts conflicts.

Lemma mux_Handle_fresh p to mux :
  literal p -> Forall literal mux.*1 -> p ∉ mux.*1 -> mux_Handle conflicts p to mux = Returned (mux ++ [(p, to)]).
Proof.
  intros Hp Hl Hn. unfold mux_Handle. destruct (existsb _ mux) eqn:E; [|done]. exfalso.
  apply existsb_exists in E as ([q to'] & Hin & Hc). apply list_elem_of_In in Hin. simpl in Hc.
  assert (q ∈ mux.*1) as Hq by (apply list_elem_of_fmap; by exists (q, to')).
  destruct Hconflicts as [_ Hlit]. rewrite Forall_forall in Hl.
  rewrite (Hlit p q) in Hc; [done|done|by apply Hl|]. by intros ->.
Qed.

Definition routes_of (apis : list SwaggerAPIConfig) : list (string * route) :=
  flat_map (fun api => [(JSONPath api, ToJSON (JSONFile api)); (UIPath api, ToUI (JSONPath api))]) apis.

Lemma handle_apis_fresh apis mux :
  Forall literal (paths apis) -> Forall literal mux.*1 -> NoDup (paths apis) ->
  (forall p, p ∈ paths apis -> p ∉ mux.*1) ->
  handle_apis conflicts apis mux = Returned (mux ++ routes_of apis).
Proof.
  revert mux. induction apis as [|api apis IH]; intros mux Hl Hm Hnd Hnew; simpl in *; [by rewrite app_nil_r|].
  rewrite !Forall_cons in Hl. destruct Hl as (Hu & Hj & Hl).
  rewrite !NoDup_cons, not_elem_of_cons in Hnd. destruct Hnd as ([Hne Hu'] & Hj' & Hnd).
  rewrite mux_Handle_fresh by (try done; apply Hnew; set_solver). simpl.
  rewrite mux_Handle_fresh; [|done| |].
  - simpl. rewrite IH; [by rewrite <- !app_assoc|done| |done|].
    + rewrite !fmap_app, !Forall_app. simpl. by rewrite !Forall_singleton.
    + intros p Hp. rewrite !fmap_app, !not_elem_of_app. simpl. rewrite !list_elem_of_singleton.
      split_and!; [apply Hnew; set_solver|by intros ->|by intros ->].
  - rewrite fmap_app, Forall_app. simpl. by rewrite Forall_singleton.
  - rewrite fmap_app, not_elem_of_app. simpl. rewrite list_elem_of_singleton.
    split; [apply Hnew; set_solver|done].
Qed.

Lemma routes_of_paths apis p : p ∈ (routes_of apis).*1 <-> p ∈ paths apis.
Proof. induction apis as [|api apis IH]; simpl; [done|]. rewrite !elem_of_cons, IH. tauto. Qed.

Lemma mux_Handle_taken p to mux : p ∈ mux.*1 -> mux_Handle conflicts p to mux = Panicked ("http: pattern conflicts: " +:+ p).
Proof.
  intros Hp. unfold mux_Handle. apply list_elem_of_fmap in Hp as ([q to'] & -> & Hin).
  rewrite (proj2 (existsb_exists _ _)); [done|]. exists (q, to').
  split; [by apply list_elem_of_In|apply (proj1 Hconflicts)].
Qed.
End registration.

(** Only a UI path can be the root. *)
Lemma root_path apis :
  Forall well_formed apis -> ("/"%string ∈ paths apis <-> "/"%string ∈ UIPath <$> apis).
Proof.
  induction 1 as [|api apis Hapi Hwf IH]; [done|]. simpl.
  assert (JSONPath api <> "/"%string) as Hj.
  { intros E. pose proof (wf_JSON_end api Hapi) as He. by rewrite E in He. }
  rewrite !elem_of_cons, <- IH. naive_solver.
Qed.

(** A concrete comparison of patterns: equality. *)
Lemma eqb_literal_conflicts : literal_conflicts String.eqb.
Proof. split; [apply String.eqb_refl|]. intros p q _ _ H. by apply String.eqb_neq. Qed.

(** ** Defaults, start, headers *)

(** The configuration of a server that was accepted: the defaults are in place, and applying them again changes
    nothing. *)
Lemma NewGRPCGatewayServer_defaults c c' :
  NewGRPCGatewayServer c = Ok c' ->
  HTTPAddr c' <> ""%string /\ GRPCEndpoint c' <> ""%string /\ Network c' <> ""%string
  /\ 0 < gwReadHeaderTimeout c' /\ 0 < gwIdleTimeout c' /\ 0 < ShutdownTimeout c' /\ 0 < gwMaxHeaderBytes c'
  /\ NewGRPCGatewayServer c' = Ok c'.
Proof.
  assert (forall x d, 0 < d -> 0 < or_default x d) as Hpos.
  { intros x d Hd. unfold or_default. destruct (Z.leb_spec x 0); lia. }
  assert (forall x d, 0 < d -> or_default (or_default x d) d = or_default x d) as Hid.
  { intros x d Hd. specialize (Hpos x d Hd). unfold or_default at 1. destruct (Z.leb_spec (or_default x d) 0); [lia|done]. }
  unfold NewGRPCGatewayServer. destruct (String.eqb_spec (HTTPAddr c) ""%string) as [|Ha]; [done|].
  destruct (String.eqb_spec (GRPCEndpoint c) ""%string) as [|Hg]; [done|]. intros [= <-]. simpl.
  assert ((if String.eqb (Network c) "" then "tcp" else Network c)%string <> ""%string) as Hn.
  { by destruct (String.eqb_spec (Network c) ""%string). }
  apply String.eqb_neq in Ha as Ha', Hg as Hg', Hn as Hn'. rewrite Ha', Hg', Hn'.
  rewrite !(Hid _ (_ * _)) by (unfold Second; lia). rewrite (Hid _ (Z.shiftl _ _)) by done.
  split_and!; try done; by apply Hpos.
Qed.

(** [Start] succeeds exactly when there is a registration function that accepts the options (with insecure credentials
    if none are given), the handler is built and the address can be listened on. The server then has the
    settings of the configuration, and it is served unless the context was done already. *)
Lemma Start_succeeds_iff {DialOption MuxOption} (insecure : DialOption) conflicts s
    (registerFunc : option (list MuxOption -> string -> list DialOption -> option string)) dial mux Listen ctx_done e s' x :
  Start conflicts insecure s registerFunc dial mux Listen ctx_done e = Returned (s', Ok x) <->
  exists register h, registerFunc = Some register
  /\ register mux (GRPCEndpoint (configs s)) (with_credentials insecure dial) = None
  /\ buildGatewayHTTPHandler conflicts (Swagger (configs s)) = Returned (Ok h)
  /\ Listen (Network (configs s)) (HTTPAddr (configs s)) = None
  /\ s' = mkGatewayServer (configs s) (Some (mkGatewayHTTP (HTTPAddr (configs s)) h (gwReadHeaderTimeout (configs s))
            (gwReadTimeout (configs s)) (gwWriteTimeout (configs s)) (gwIdleTimeout (configs s)) (gwMaxHeaderBytes (configs s))))
  /\ x = mkStarted (Network (configs s), HTTPAddr (configs s)) (negb ctx_done)
           (if ctx_done then Runtime.CancelledBeforeStart else Runtime.Finished)
           (match ctx_done, e with false, ServeFailed m => ["gRPC gateway stopped with error: " +:+ m] | _, _ => [] end).
Proof.
  unfold Start. split.
  - destruct registerFunc as [register|]; [|done]. destruct (register _ _ _) as [err|] eqn:Er; [done|].
    destruct (buildGatewayHTTPHandler conflicts _) as [[h|err]|r] eqn:Eb; simpl; [|done..].
    destruct (Listen _ _) as [err|] eqn:El; [done|]. exists register, h.
    unfold serve_goroutine, Runtime.GoRecover in *. destruct ctx_done, e; simpl in *; by simplify_eq.
  - intros (register & h & -> & -> & -> & El & -> & ->). simpl. rewrite El. by destruct ctx_done, e.
Qed.

(** On a context that is done already, [Start] reports success with an open listener nobody serves, and the function it
    returns leaves the listener open; otherwise the shutdown closes it. *)
Lemma shutdown_closes_listener {DialOption MuxOption} (insecure : DialOption) conflicts s
    (registerFunc : option (list MuxOption -> string -> list DialOption -> option string)) dial mux Listen ctx_done e err s' x :
  Start conflicts insecure s registerFunc dial mux Listen ctx_done e = Returned (s', Ok x) ->
  listener_open_after (shutdown s' err) x = ctx_done.
Proof. intros (register & h & _ & _ & _ & _ & -> & ->)%Start_succeeds_iff. by destruct ctx_done. Qed.

Lemma ToLower_idempotent s : ToLower (ToLower s) = ToLower s.
Proof.
  induction s as [|c s IH]; [done|]. simpl. rewrite IH. f_equal. by destruct c as [[] [] [] [] [] [] [] []].
Qed.

(** The headers that are passed on do not depend on the case of their names. *)
Lemma IncomingHeaderMatcher_case_insensitive m h1 h2 k :
  ToLower h1 = ToLower h2 -> k ∈ ["authorization"; "x-request-id"; "x-correlation-id"; "cookie"]%string ->
  ToLower h1 = k -> IncomingHeaderMatcher m h1 = (k, true) /\ IncomingHeaderMatcher m h2 = (k, true).
Proof.
  intros E Hk H1. unfold IncomingHeaderMatcher. rewrite <- E, H1.
  clear E H1. rewrite !elem_of_cons, elem_of_nil in Hk. by decompose [or] Hk; subst.
Qed.

(** ** Properties *)

(** C28: the validation accepts a configuration exactly when every API is well formed (a name, a
    file, a UI path that begins and ends with a slash, a JSON path that begins with one and does not end with
    one) and all the UI and JSON paths of all the APIs are pairwise different. *)
Theorem validateSwaggerConfig_iff (c : SwaggerConfig) :
  validateSwaggerConfig c = None <-> Forall well_formed (APIs c) /\ NoDup (paths (APIs c)).
Proof.
  unfold validateSwaggerConfig. rewrite validate_loop_iff. split; [naive_solver|].
  intros [H1 H2]. split_and!; [done..|]. apply Forall_forall. intros p _. apply lookup_empty.
Qed.

(** The routes of an accepted configuration whose paths are literal. If no UI path is the
    root, registration does not panic and the mux has exactly the JSON and UI routes of the APIs, in order, and
    the gateway at the root; if some UI path is the root, which the validation accepts, the registration of
    the gateway panics. *)
Theorem buildGatewayHTTPHandler_routes (conflicts : string -> string -> bool) (c : SwaggerConfig)
    (Hconf : literal_conflicts conflicts) (Henabled : Enabled c = true) (Hsome : APIs c <> [])
    (Hvalid : validateSwaggerConfig c = None) (Hlit : Forall literal (paths (APIs c))) :
  buildGatewayHTTPHandler conflicts c =
    if decide ("/"%string ∈ UIPath <$> APIs c)
    then Panicked "http: pattern conflicts: /"
    else Returned (Ok (RootMux (routes_of (APIs c) ++ [("/"%string, ToGateway)]))).
Proof.
  unfold buildGatewayHTTPHandler. rewrite Henabled, Hvalid. simpl.
  destruct (Nat.eqb_spec (List.length (APIs c)) 0) as [E|_]; [by apply length_zero_iff_nil in E|].
  apply validate_loop_iff in Hvalid as (Hwf & Hnd & _).
  rewrite (handle_apis_fresh conflicts Hconf) by (try done; intros; apply not_elem_of_nil). simpl.
  pose proof (root_path (APIs c) Hwf) as Hroot.
  case_decide as Hd.
  - rewrite (mux_Handle_taken conflicts Hconf); [done|]. rewrite routes_of_paths. tauto.
  - rewrite (mux_Handle_fresh conflicts Hconf); [done| | |].
    + intros ch Hch. simpl in Hch. apply list_elem_of_singleton in Hch as ->. by split.
    + rewrite Forall_forall in Hlit |- *. intros p Hp. apply Hlit. by apply routes_of_paths.
    + rewrite routes_of_paths. tauto.
Qed.

Definition demo_api : SwaggerAPIConfig :=
  mkAPI "template" "/swagger/template/" "/swagger/template/api.swagger.json" "./protobuf/template.swagger.json".
Definition root_api : SwaggerAPIConfig := mkAPI "root" "/" "/api.swagger.json" "./api.swagger.json".

Lemma literal_dec_sound p :
  forallb (fun c => negb (Ascii.eqb c (ascii_of_nat 123)) && negb (Ascii.eqb c (ascii_of_nat 37))) (String.list_ascii_of_string p) = true ->
  literal p.
Proof.
  intros H c Hc. rewrite forallb_forall in H. apply list_elem_of_In in Hc. apply H in Hc. bool_to_prop.
  by split; apply Ascii.eqb_neq.
Qed.

Ltac prove_literals := repeat apply Forall_cons_2; try apply Forall_nil_2; apply literal_dec_sound; vm_compute; reflexivity.

Lemma buildGatewayHTTPHandler_routes_witness :
  buildGatewayHTTPHandler String.eqb (mkSwagger true [demo_api; root_api]) = Panicked "http: pattern conflicts: /"
  /\ buildGatewayHTTPHandler String.eqb (mkSwagger true [demo_api])
     = Returned (Ok (RootMux (routes_of [demo_api] ++ [("/"%string, ToGateway)]))).
Proof.
  split.
  - apply (buildGatewayHTTPHandler_routes String.eqb (mkSwagger true [demo_api; root_api]) eqb_literal_conflicts);
      [reflexivity|discriminate|vm_compute; reflexivity|].
    prove_literals.
  - apply (buildGatewayHTTPHandler_routes String.eqb (mkSwagger true [demo_api]) eqb_literal_conflicts);
      [reflexivity|discriminate|vm_compute; reflexivity|].
    prove_literals.
Defined.
