(* ===== verification/Grpc.v ===== *)
(** [src/server/grpc.go]: the start and the shutdown of the gRPC server and its unary interceptors. Messages,
    their size and the server are those of the gRPC library, parameters. *)
From S2P Require Import Prelude GoTime Bytes.
From stdpp Require Import base tactics list strings pretty.
From Stdlib Require Import ZArith Lia.
Local Open Scope Z_scope.

(** ** Interceptors *)

Inductive grpc_code := Internal | ResourceExhausted | OtherCode (n : Z).

(** A [status] error. *)
Record status := mkStatus { code : grpc_code; message : string }.

Section interceptors.
(** A response that is not nil: a protobuf message or another value. *)
Context {Message Other Req Ctx : Type}.
Variable Size : Message -> Z.

Inductive response := Nil | Proto (m : Message) | NotProto (x : Other).

(** A unary handler, and an interceptor around one. *)
Definition UnaryHandler : Type := Ctx -> Req -> response * option status.
Definition Interceptor : Type := Ctx -> Req -> UnaryHandler -> response * option status.

Definition EnforceMaxSendSize (max : Z) : Interceptor := fun ctx req handler =>
  let (resp, err) := handler ctx req in
  match err with
  | Some _ => (resp, err)
  | None =>
    match resp with
    | Nil => (resp, err)
    | Proto m =>
      if max <? Size m
      then (Nil, Some (mkStatus ResourceExhausted
             ("response too large: " +:+ pretty (Size m) +:+ " > " +:+ pretty max +:+ "; use paging/streaming")))
      else (resp, None)
    | NotProto _ => (resp, None)
    end
  end.

(** [TimeoutUnaryInterceptor]: the handler gets a context with the timeout. *)
Definition TimeoutUnaryInterceptor (WithTimeout : Ctx -> Z -> Ctx) (timeout : Z) : Interceptor :=
  fun ctx req handler => handler (WithTimeout ctx timeout) req.

(** [PanicHandler]: the error of a handler that panicked in the given method. *)
Definition PanicHandler (fullMethod : string) : status :=
  mkStatus Internal ("internal server error (" +:+ fullMethod +:+ ")").
End interceptors.

(** ** Start and shutdown *)

Record Configs := mkConfigs { Port : string; Network : string; Reflection : bool }.

(** What the calls do, in order. *)
Inductive server_call := NewServer | RegisterServices | RegisterReflection | Listen | Serve (listener : bool) | GracefulStop | ForceStop.

(** [Start]: a failed [net.Listen] is only logged, and the goroutine serves a nil listener; it is not run at all
    when the context is already cancelled. *)
Definition Start (c : Configs) (listen_ok ctx_done : bool) : list server_call :=
  [NewServer; RegisterServices] ++ (if Reflection c then [RegisterReflection] else []) ++ [Listen]
  ++ (if ctx_done then [] else [Serve listen_ok]).

(** [newGRPCServer] keeps the configuration, [CreateGRPCServer] starts the server with it. *)
Definition newGRPCServer (c : Configs) : Configs := c.
Definition CreateGRPCServer (c : Configs) (listen_ok ctx_done : bool) : list server_call :=
  Start (newGRPCServer c) listen_ok ctx_done.

(** How [GracefulStop] goes: the time it takes, or it never returns (or panics, which is recovered
    without closing [done]). *)
Inductive graceful := StopsAfter (d : Z) | NeverStops.

Definition shutdown_timeout : Z := 5 * Second.

(** [shutdown]: the calls, and the time after which it returns. When both channels are ready at the same time,
    [select] takes either of them; [forced] is its choice. *)
Definition shutdown (g : graceful) (forced : bool) : list server_call * Z :=
  match g with
  | StopsAfter d =>
    if d <? shutdown_timeout then ([GracefulStop], d)
    else if (d =? shutdown_timeout) && negb forced then ([GracefulStop], d)
    else ([GracefulStop; ForceStop], shutdown_timeout)
  | NeverStops => ([GracefulStop; ForceStop], shutdown_timeout)
  end.

(** ** ZeroPool: a pool of buffers that keeps none *)

(** [Get]: [make([]byte, n)], which panics on a negative size. *)
Definition ZeroPool_Get (n : Z) : outcome bytes :=
  if n <? 0 then Panicked "runtime error: makeslice: len out of range" else Returned (repeat Byte.x00 (Z.to_nat n)).

Definition ZeroPool_Put (b : bytes) : unit := tt.

(** A buffer is as long as asked and holds nothing of the ones that were given back. *)
Lemma ZeroPool_Get_zeroed n : 0 <= n ->
  exists b, ZeroPool_Get n = Returned b /\ Z.of_nat (length b) = n /\ Forall (fun x => x = Byte.x00) b.
Proof.
  intros Hn. unfold ZeroPool_Get. destruct (Z.ltb_spec n 0); [lia|]. eexists. split; [done|].
  rewrite repeat_length. split; [lia|]. apply Forall_forall. intros x Hx%list_elem_of_In. by apply repeat_spec in Hx.
Qed.

(** A server that could not listen, or whose context was cancelled, is not told apart by its caller: the
    services are registered and a shutdown function is returned, and nothing is served. *)
Lemma CreateGRPCServer_serves c listen_ok ctx_done :
  Serve true ∈ CreateGRPCServer c listen_ok ctx_done <-> listen_ok = true /\ ctx_done = false.
Proof.
  unfold CreateGRPCServer, Start, newGRPCServer. destruct (Reflection c), listen_ok, ctx_done; simpl;
    rewrite ?elem_of_cons, ?elem_of_nil; naive_solver.
Qed.

(** ** Properties *)

(** No response larger than the limit leaves the interceptor, whatever the handler does (the
    interceptors after it included): such a response is replaced by a [ResourceExhausted] error; a response
    within the limit, an error, and a value that is not a message go through unchanged. *)
Theorem EnforceMaxSendSize_bounds_responses {Message Other Req Ctx : Type} (Size : Message -> Z) (max : Z)
    (handler : UnaryHandler (Message := Message) (Other := Other) (Req := Req) (Ctx := Ctx)) (ctx : Ctx) (req : Req) :
  let r := EnforceMaxSendSize Size max ctx req handler in
  let inside := handler ctx req in
  (forall m, r = (Proto m, None) -> Size m <= max)
  /\ ((forall m, inside = (Proto m, None) -> Size m <= max) -> r = inside)
  /\ (forall m, inside = (Proto m, None) -> max < Size m ->
        r.1 = Nil /\ exists e, r.2 = Some e /\ code e = ResourceExhausted).
Proof.
  simpl. unfold EnforceMaxSendSize. destruct (handler ctx req) as [resp [e|] ].
  { split_and!; [done|done|done]. }
  destruct resp as [|m|x]; [by split_and!| |by split_and!].
  destruct (Z.ltb_spec max (Size m)); split_and!; try done.
  - intros Hle. specialize (Hle m eq_refl). lia.
  - intros m' [= <-] _. split; [done|]. by eexists.
  - intros m' [= <-]. done.
  - intros m' [= <-]. lia.
Qed.

(** [shutdown] returns within its five seconds, and forces the stop if the graceful one has not
    ended by then. *)
Theorem shutdown_is_bounded (g : graceful) (forced : bool) (Hpos : forall d, g = StopsAfter d -> 0 <= d) :
  0 <= (shutdown g forced).2 <= shutdown_timeout
  /\ (ForceStop ∈ (shutdown g forced).1 <->
        g = NeverStops \/ (exists d, g = StopsAfter d /\ shutdown_timeout <= d /\ (d = shutdown_timeout -> forced = true))).
Proof.
  unfold shutdown, shutdown_timeout, Second in *. destruct g as [d|]; simpl.
  - specialize (Hpos d eq_refl). destruct (Z.ltb_spec d (5 * 1000000000)); simpl.
    + split; [lia|]. rewrite list_elem_of_singleton. split; [done|].
      intros [?|(d' & [= <-] & ? & _)]; [done|lia].
    + destruct (Z.eqb_spec d (5 * 1000000000)) as [->|Hne]; simpl.
      * destruct forced; simpl; (split; [lia|]); rewrite ?elem_of_cons; rewrite ?list_elem_of_singleton.
        -- split; [|by right; left]. intros _. right. by eexists.
        -- split; [by intros [?|?%elem_of_nil]|]. by intros [?|(d' & [= <-] & _ & ?)]; [|naive_solver].
      * split; [lia|]. rewrite !elem_of_cons. split; [|by right; left]. intros _. right. by exists d.
  - split; [lia|]. rewrite !elem_of_cons. split; [by left|by right; left].
Qed.
