(* ===== verification/ClickHouse.v ===== *)
(** [src/database/clickhouse]: the connection and the classification of errors. Errors are trees, as [fmt.Errorf]
    with [%w] and [errors.Join] build them; the database handles are those of [database/sql], a parameter. *)
From S2P Require Import Prelude GoTime Utils Context.
From stdpp Require Import base tactics list strings.
From Stdlib Require Import ZArith Lia.
Local Open Scope Z_scope.

(** ** Errors *)

Inductive sentinel := DeadlineExceeded | Canceled | ErrUnexpectedEOF | EOF.

#[export] Instance sentinel_eq_dec : EqDecision sentinel.
Proof. solve_decision. Defined.

(** An exception of the ClickHouse server ([*ch.Exception]). *)
Record Exception := mkException { Code : Z; Message : string }.

(** A leaf lists the sentinels it is (by identity or by a method [Is]). *)
Inductive error :=
  | Leaf (kinds : list sentinel) (msg : string)
  | ServerException (e : Exception)
  | Wrapped (msg : string) (inner : error)
  | Joined (errs : list error).

(** [errors.Is]: the tree is searched in depth. *)
Fixpoint errors_Is (err : error) (target : sentinel) : bool :=
  match err with
  | Leaf kinds _ => bool_decide (target ∈ kinds)
  | ServerException _ => false
  | Wrapped _ inner => errors_Is inner target
  | Joined errs => (fix any l := match l with [] => false | e :: l => errors_Is e target || any l end) errs
  end.

(** [errors.As] for [*ch.Exception]: the first one in depth. *)
Fixpoint errors_As (err : error) : option Exception :=
  match err with
  | Leaf _ _ => None
  | ServerException e => Some e
  | Wrapped _ inner => errors_As inner
  | Joined errs => (fix first l := match l with
                                   | [] => None
                                   | e :: l => match errors_As e with Some x => Some x | None => first l end
                                   end) errs
  end.

Section messages.
(** [Error()] of an error. *)
Variable error_string : option error -> string.

Definition stubOrExc (exc : option Exception) (err : option error) : Exception :=
  match exc with
  | None => mkException 7777 ("nil stub exception: " +:+ error_string err)
  | Some e => e
  end.

(** A nil error is [None]. *)
Definition find_exception (err : option error) : option Exception := err ≫= errors_As.
Definition is_error (err : option error) (t : sentinel) : bool :=
  match err with Some e => errors_Is e t | None => false end.

Definition reconnect_codes : list Z := [60; 81; 3; 159; 209; 210; 425; 999; 1002].

Definition NeedReconnect (err : option error) : bool * option Exception :=
  let exc := find_exception err in
  match exc with
  | Some e =>
    if bool_decide (Code e ∈ reconnect_codes) then (true, Some (stubOrExc exc err))
    else if is_error err DeadlineExceeded || is_error err ErrUnexpectedEOF then (true, Some (stubOrExc exc err))
    else (false, exc)
  | None =>
    if is_error err DeadlineExceeded || is_error err ErrUnexpectedEOF then (true, Some (stubOrExc exc err))
    else (false, exc)
  end.

(** The pause for a code. *)
Definition wait_of_code (code : Z) : option Z :=
  if bool_decide (code ∈ [201]) then Some (5 * Second)
  else if bool_decide (code ∈ [202; 203]) then Some (1 * Second)
  else if bool_decide (code ∈ [252; 285]) then Some (2 * Second)
  else None.

Definition NeedWait (err : option error) : bool * Z * Exception :=
  let exc := find_exception err in
  match exc ≫= (fun e => wait_of_code (Code e)) with
  | Some d => (true, d, stubOrExc exc err)
  | None => (false, 0, stubOrExc exc err)
  end.
End messages.

(** ** The connection *)

Record Clickhouse := mkClickhouse {
  Host : string; Port : Z; Username : string; Password : string; Database : string;
  DialTimeout : Z; MaxOpenConn : Z; MaxIdleConn : Z; ConnMaxIdleTime : Z; ConnMaxLifeTime : Z
}.

Definition or_zero (x d : Z) : Z := if x =? 0 then d else x.

Definition with_defaults (c : Clickhouse) : Clickhouse := {|
  Host := Host c; Port := Port c; Username := Username c; Password := Password c; Database := Database c;
  DialTimeout := or_zero (DialTimeout c) (3 * Second);
  MaxOpenConn := or_zero (MaxOpenConn c) 1;
  MaxIdleConn := or_zero (MaxIdleConn c) 1;
  ConnMaxIdleTime := or_zero (ConnMaxIdleTime c) (30 * 60 * Second);
  ConnMaxLifeTime := or_zero (ConnMaxLifeTime c) (24 * 3600 * Second)
|}.

(** The options of the driver that depend on the configuration; an unset database is the empty string. *)
Record Options := mkOptions {
  Addr : list string; auth_Username : string; auth_Password : string; auth_Database : string; opt_DialTimeout : Z
}.

(** [host]: [fmt.Sprintf] of the host and the port. *)
Definition driver_options (host : string) (c : Clickhouse) : Options :=
  if negb (String.eqb (Database c) "")
  then mkOptions [host] (Username c) (Password c) (Database c) (DialTimeout c)
  else mkOptions [host] (Username c) (Password c) "" (DialTimeout c).

(** The handles of [database/sql]: which are open, and the next one. *)
Record sql_world := mkSql { open_dbs : list nat; next_db : nat }.

Record Connection := mkConnection { conn : nat; ccfg : Clickhouse }.

(** What the environment does during [NewClickhouseConnection]: the result of the ping, and what
    [Runtime.WaitOrCtx] gives for the pause. *)
Record attempt := mkAttempt { ping : option string; wait_result : option string }.

Definition sleepStep : Z := 3000 * Millisecond.

(** The attempt is one of a call at the time [now] with a context that is done at [done_at]. *)
Definition attempt_at (now : Z) (done_at : option (Z * string)) (a : attempt) : Prop :=
  Runtime.WaitOrCtx now done_at sleepStep (wait_result a).

(** The handle is opened lazily: [OpenDB] does not fail. A failed ping is followed by a pause, not by another
    attempt. *)
Definition NewClickhouseConnection (c : Clickhouse) (a : attempt) (w : sql_world) : sql_world * result string Connection :=
  let c := with_defaults c in
  let db := next_db w in
  let w := mkSql (db :: open_dbs w) (S db) in
  match ping a with
  | Some _ => match wait_result a with
              | Some e => (w, Err e)
              | None => (w, Ok (mkConnection db c))
              end
  | None => (w, Ok (mkConnection db c))
  end.

Definition close (db : nat) (w : sql_world) : sql_world :=
  mkSql (filter (fun d => d <> db) (open_dbs w)) (next_db w).

(** [Reconnect]: only the handle is replaced; [close_err] is the error of closing the old one. *)
Definition Reconnect (conn0 : Connection) (c : Clickhouse) (a : attempt) (close_err : option string) (w : sql_world)
    : sql_world * Connection * option string :=
  match NewClickhouseConnection c a w with
  | (w, Err e) => (w, conn0, Some ("failed to reconnect to Clickhouse: " +:+ e))
  | (w, Ok new) =>
    (close (conn conn0) w, mkConnection (conn new) (ccfg conn0),
     match close_err with
     | Some e => Some ("failed to close old Clickhouse connection: " +:+ e)
     | None => None
     end)
  end.

Definition GetClickHouseConfig (c : Connection) : Clickhouse := ccfg c.
Definition GetDB (c : Connection) : nat := conn c.

(** The function [Shutdown] returns: the error of [Close] is only logged. *)
Definition Shutdown (c : Connection) (w : sql_world) : sql_world := close (conn c) w.

(** *** The time it takes *)

Section timed.
(** [db.PingContext], called at a time: when it returns, and its error; and the text of the errors of a context. *)
Context (PingContext : context -> Z -> Z * option string) (error_text : ctx_error -> string).

Definition try_context (ctx : context) (now : Z) : context := TimeoutNoDeadline ctx now (2 * Second).

(** [WaitOrCtx] with its end; of two cases that are ready together it takes the context's. *)
Definition WaitOrCtx_until (ctx : context) (now wait : Z) : Z * option ctx_error :=
  match done ctx with
  | Some (t, e) => if t <=? now + wait then (Z.max now t, Some e) else (now + wait, None)
  | None => (now + wait, None)
  end.

Definition timed_attempt (ctx : context) (now : Z) : Z * attempt :=
  let (t1, err) := PingContext (try_context ctx now) now in
  match err with
  | None => (t1, mkAttempt None None)
  | Some e =>
    let (t2, cancelled) := WaitOrCtx_until ctx t1 sleepStep in (t2, mkAttempt (Some e) (error_text <$> cancelled))
  end.

Definition timed_NewClickhouseConnection (c : Clickhouse) (ctx : context) (now : Z) (w : sql_world)
    : Z * (sql_world * result string Connection) :=
  let (t, a) := timed_attempt ctx now in (t, NewClickhouseConnection c a w).
End timed.

(** ** Lemmas *)

Lemma WaitOrCtx_until_sound ctx now :
  Runtime.WaitOrCtx now (done ctx) sleepStep (WaitOrCtx_until ctx now sleepStep).2.
Proof.
  unfold WaitOrCtx_until. destruct (done ctx) as [[t e]|] eqn:E.
  - destruct (Z.leb_spec t (now + sleepStep)); simpl.
    + apply (Runtime.WaitCtx _ _ _ t); [done|]. unfold Runtime.fires_at. lia.
    + apply Runtime.WaitTimer. intros t' e' [= <- <-]. unfold Runtime.fires_at, sleepStep, Millisecond in *. lia.
  - apply Runtime.WaitTimer. by intros t' e' [=].
Qed.

Lemma reconnect_code_no_wait code : code ∈ reconnect_codes -> wait_of_code code = None.
Proof. unfold reconnect_codes. rewrite !elem_of_cons, elem_of_nil. intros H. by decompose [or] H; subst. Qed.

(** The branch for a database and the one without give the same options. *)
Lemma driver_options_uniform host c :
  driver_options host c = mkOptions [host] (Username c) (Password c) (Database c) (DialTimeout c).
Proof. unfold driver_options. by destruct (String.eqb_spec (Database c) ""%string) as [->|]. Qed.

(** ** Properties *)

(** The two classifications never contradict each other. Unless the tree of the error also
    holds a deadline or an unexpected end of file, an error that asks for a new connection asks for no
    pause; an error without an exception asks for a new connection exactly if it holds one of these two, and
    the exception that comes with a positive answer is the one of the tree or the stub with the code 7777. *)
Theorem NeedReconnect_NeedWait_exclusive (error_string : option error -> string) (err : option error) :
  (is_error err DeadlineExceeded = false -> is_error err ErrUnexpectedEOF = false ->
     (NeedReconnect error_string err).1 = true -> (NeedWait error_string err).1 = (false, 0))
  /\ (find_exception err = None ->
     (NeedReconnect error_string err).1 = is_error err DeadlineExceeded || is_error err ErrUnexpectedEOF
     /\ (NeedWait error_string err).1 = (false, 0))
  /\ ((NeedReconnect error_string err).1 = true ->
     exists e, (NeedReconnect error_string err).2 = Some e
       /\ (find_exception err = Some e \/ find_exception err = None /\ Code e = 7777)).
Proof.
  unfold NeedReconnect, NeedWait. destruct (find_exception err) as [e|] eqn:E; simpl; split_and!; try done.
  - intros -> ->. simpl. case_bool_decide as Hc; [|done]. intros _. by rewrite reconnect_code_no_wait.
  - intros H. exists e. split; [|by left]. case_bool_decide; [done|]. by destruct (_ || _).
  - intros _. split; [|done]. by destruct (_ || _).
  - destruct (_ || _); [|done]. intros _. eexists. split; [done|]. right. done.
Qed.

(** [Reconnect] replaces a working connection by one that was never reached. If the ping
    of the new one fails and the context outlives the pause, the old handle is closed, the new one takes its
    place and no error is returned; the configuration stays the old one. If the context is cancelled during the
    pause, the new handle is neither used nor closed. *)
Theorem Reconnect_ignores_failed_ping (conn0 : Connection) (c : Clickhouse) (a : attempt) (w : sql_world) (e : string)
    (Hping : ping a = Some e) (Hfresh : (conn conn0 < next_db w)%nat) :
  match wait_result a with
  | None => exists w', Reconnect conn0 c a None w = (w', mkConnection (next_db w) (GetClickHouseConfig conn0), None)
              /\ (conn conn0 ∉ open_dbs w') /\ (next_db w ∈ open_dbs w')
  | Some e' => exists w' err, Reconnect conn0 c a None w = (w', conn0, Some err) /\ open_dbs w' = next_db w :: open_dbs w
  end.
Proof.
  unfold Reconnect, NewClickhouseConnection, GetClickHouseConfig. rewrite Hping.
  destruct (wait_result a) as [e'|]; [by do 2 eexists|]. eexists. split; [done|].
  unfold close. cbn [open_dbs conn]. rewrite !list_elem_of_filter. split; [by intros [? _]|].
  split; [lia|by left].
Qed.

Lemma Reconnect_ignores_failed_ping_witness :
  exists w', Reconnect (mkConnection 0 (mkClickhouse "old" 9000 "u" "p" "" 0 0 0 0 0))
      (mkClickhouse "new" 9000 "u" "p" "db" 0 0 0 0 0) (mkAttempt (Some "dial tcp: refused"%string) None) None (mkSql [0%nat] 1)
    = (w', mkConnection 1 (GetClickHouseConfig (mkConnection 0 (mkClickhouse "old" 9000 "u" "p" "" 0 0 0 0 0))), None)
  /\ (0%nat ∉ open_dbs w') /\ (1%nat ∈ open_dbs w').
Proof.
  apply (Reconnect_ignores_failed_ping (mkConnection 0 (mkClickhouse "old" 9000 "u" "p" "" 0 0 0 0 0))
    (mkClickhouse "new" 9000 "u" "p" "db" 0 0 0 0 0) (mkAttempt (Some "dial tcp: refused"%string) None) (mkSql [0%nat] 1)
    "dial tcp: refused"); [reflexivity|simpl; lia].
Defined.

(** C34: how long [NewClickhouseConnection] takes. With a driver that returns from [PingContext] when its context is
    done, it returns within five seconds, and as soon as the caller's context is done if that is earlier; the
    context of the ping reports no deadline to the driver although it is done after two seconds. The result is an error only
    if the ping has failed and the caller's context was done before the end of the pause. *)
Theorem NewClickhouseConnection_in_time (PingContext : context -> Z -> Z * option string) (error_text : ctx_error -> string)
    (c : Clickhouse) (ctx : context) (now : Z) (w : sql_world)
    (Hping : forall x t0, t0 <= (PingContext x t0).1
       /\ forall t e, done x = Some (t, e) -> (PingContext x t0).1 <= Z.max t0 t)
    (Hctx : ctx_wf now ctx) :
  let out := timed_NewClickhouseConnection PingContext error_text c ctx now w in
  now <= out.1 <= now + 5 * Second
  /\ (forall t e, done ctx = Some (t, e) -> out.1 <= Z.max now t)
  /\ deadline (try_context ctx now) = None
  /\ (forall e, out.2.2 = Err e -> (PingContext (try_context ctx now) now).2 <> None /\ Err_ ctx out.1 <> None).
Proof.
  intros out. subst out. unfold timed_NewClickhouseConnection, timed_attempt, NewClickhouseConnection.
  destruct (WithTimeout_done now ctx (2 * Second) Hctx) as (td & ed & Ed & Htd).
  destruct (Hping (try_context ctx now) now) as [Hp1 Hp2]. specialize (Hp2 td ed Ed).
  assert (forall t e, done ctx = Some (t, e) -> (PingContext (try_context ctx now) now).1 <= Z.max now t) as Hctx1.
  { intros t e E. destruct (WithTimeout_no_later now ctx (2 * Second) t e E) as (t' & e' & E' & Ht').
    destruct (Hping (try_context ctx now) now) as [_ H]. specialize (H t' e' E'). lia. }
  destruct (PingContext (try_context ctx now) now) as [t1 [e1|] ]; simpl in *;
    [|split_and!; try done; unfold Second in *; lia].
  unfold WaitOrCtx_until. destruct (done ctx) as [[t e]|] eqn:E.
  - specialize (Hctx1 t e eq_refl). destruct (Z.leb_spec t (t1 + sleepStep)); simpl.
    + unfold sleepStep, Second, Millisecond in *. split_and!; try done; try lia; [intros t' e' [= <- <-]; lia|].
      intros e' _. split; [done|]. rewrite (Err_done _ _ e t); [done|done|lia].
    + unfold sleepStep, Second, Millisecond in *. split_and!; try done; try lia. intros t' e' [= <- <-]. lia.
  - simpl. unfold sleepStep, Second, Millisecond in *. split_and!; try done; lia.
Qed.

(** A driver that takes a second, or less if its context is done, and fails. *)
Definition demo_ping (x : context) (now : Z) : Z * option string :=
  (match done x with Some (t, _) => Z.max now (Z.min t (now + Second)) | None => now + Second end, Some "refused"%string).

Lemma NewClickhouseConnection_in_time_witness :
  let c := mkClickhouse "h" 9000 "u" "p" "" 0 0 0 0 0 in
  let out := timed_NewClickhouseConnection demo_ping (fun _ => "canceled"%string) c Background 0 (mkSql [] 0) in
  0 <= out.1 <= 0 + 5 * Second
  /\ (forall t e, done Background = Some (t, e) -> out.1 <= Z.max 0 t)
  /\ deadline (try_context Background 0) = None
  /\ (forall e, out.2.2 = Err e -> (demo_ping (try_context Background 0) 0).2 <> None /\ Err_ Background out.1 <> None).
Proof.
  intros c. apply (NewClickhouseConnection_in_time demo_ping (fun _ => "canceled"%string) c Background 0 (mkSql [] 0)).
  - intros x t0. unfold demo_ping, Second. destruct (done x) as [[t e]|]; simpl; (split; [lia|]); [|done].
    intros t' e' [= -> ->]. lia.
  - intros dl [=].
Defined.
