(* ===== verification/Postgres.v ===== *)
(** [src/database/postgres/postgres.go]: the DSN and the settings of the pool. Parsing a DSN and making a pool are
    the business of pgx, a parameter. *)
From S2P Require Import Prelude GoTime.
From stdpp Require Import base tactics list strings gmap.
From Stdlib Require Import ZArith Lia.
Local Open Scope Z_scope.

(** The fields of [pgxpool.Config] the code sets; [Rest] is what the DSN says besides them. *)
Record pool_config (Rest : Type) := mkPoolConfig {
  MaxConns : Z; MinConns : Z; pool_MaxConnIdleTime : Z; MaxConnLifetime : Z; MaxConnLifetimeJitter : Z;
  pool_ConnectTimeout : Z; pool_HealthCheckPeriod : Z; RuntimeParams : gmap string string; rest : Rest
}.
Arguments mkPoolConfig {Rest} _ _ _ _ _ _ _ _ _.
Arguments MaxConns {Rest} _.
Arguments MinConns {Rest} _.
Arguments pool_MaxConnIdleTime {Rest} _.
Arguments MaxConnLifetime {Rest} _.
Arguments MaxConnLifetimeJitter {Rest} _.
Arguments pool_ConnectTimeout {Rest} _.
Arguments pool_HealthCheckPeriod {Rest} _.
Arguments RuntimeParams {Rest} _.
Arguments rest {Rest} _.

Record Configs := mkConfigs {
  Host : string; Port : string; Username : string; Password : string; Database : string; SSLMode : string;
  MaxOpenedConnections : Z; ApplicationName : string;
  ConnectionMaxIdleTime : Z; ConnectionMaxLifeTime : Z; HealthCheckPeriod : Z; ConnectTimeout : Z;
  MaxConnLifeTimeJitter : Z
}.

(** pgx: [ParseConfig] gives a configuration or an error, [NewWithConfig] a pool or an error; a pool is closed by
    [Close]. *)
Class PgxPool (Rest Pool : Type) := {
  ParseConfig : string -> result string (pool_config Rest);
  NewWithConfig : pool_config Rest -> result string Pool
}.

Definition dsn (c : Configs) : string :=
  "postgres://" +:+ Username c +:+ ":" +:+ Password c +:+ "@" +:+ Host c +:+ ":" +:+ Port c +:+ "/" +:+ Database c
  +:+ "?sslmode=" +:+ SSLMode c.

Section postgres.
Context {Rest Pool : Type} `{!PgxPool Rest Pool}.

(** The assignments of [NewPostgresConnection], from [MaxConns] to [application_name]. *)
Definition configure (c : Configs) (p : pool_config Rest) : pool_config Rest :=
  let maxConnections := int32 (MaxOpenedConnections c) in
  mkPoolConfig maxConnections (Z.quot maxConnections 4) (ConnectionMaxIdleTime c) (ConnectionMaxLifeTime c)
    (MaxConnLifeTimeJitter c) (ConnectTimeout c) (HealthCheckPeriod c)
    (<["application_name" := ApplicationName c]> (RuntimeParams p)) (rest p).

(** A nil pool is [None]. *)
Record Connection := mkConnection { pool : option Pool }.

(** The outer [None] is the nil connection: a DSN that does not parse. A pool that cannot be made is only
    logged. *)
Definition NewPostgresConnection (c : Configs) : option Connection :=
  match ParseConfig (dsn c) with
  | Err _ => None
  | Ok p => Some (mkConnection (match NewWithConfig (configure c p) with Ok pool => Some pool | Err _ => None end))
  end.

Definition nil_dereference : string := "runtime error: invalid memory address or nil pointer dereference".

(** [Stop] and [GetPool], on a connection that may be nil: reading its field panics, and so does closing a nil
    pool. The result of [Stop] is the pool that is closed. *)
Definition Stop (c : option Connection) : outcome Pool :=
  match c with
  | Some c => match pool c with Some p => Returned p | None => Panicked nil_dereference end
  | None => Panicked nil_dereference
  end.

Definition GetPool (c : option Connection) : outcome (option Pool) :=
  match c with Some c => Returned (pool c) | None => Panicked nil_dereference end.
End postgres.
Arguments Connection : clear implicits.

(** ** Lemmas *)

Lemma string_app_assoc (a b c : string) : a +:+ (b +:+ c) = (a +:+ b) +:+ c.
Proof. induction a as [|x a IH]; [done|]. exact (f_equal _ IH). Qed.

Lemma string_length_app (a b : string) : String.length (a +:+ b) = (String.length a + String.length b)%nat.
Proof. induction a as [|x a IH]; [done|]. exact (f_equal _ IH). Qed.

Lemma int32_small n : 0 <= n < 2 ^ 31 -> int32 n = n.
Proof. intros Hn. unfold int32, wrap. rewrite Z.mod_small; lia. Qed.

(** The limits of the pool are those of the configuration while it fits in 32 bits. *)
Lemma limits_bounds {Rest} (c : Configs) (p : pool_config Rest) (Hn : 0 <= MaxOpenedConnections c < 2 ^ 31) :
  MaxConns (configure c p) = MaxOpenedConnections c /\ 0 <= MinConns (configure c p) <= MaxConns (configure c p).
Proof.
  unfold configure. cbn [MaxConns MinConns]. rewrite int32_small by done. rewrite Z.quot_div_nonneg by lia.
  split; [done|]. split; [apply Z.div_pos; lia|]. apply Z.div_le_upper_bound; lia.
Qed.

Lemma limits_overflow {Rest} (p : pool_config Rest) :
  let c n := mkConfigs "h" "5432" "u" "p" "d" "disable" n "app" 0 0 0 0 0 in
  MaxConns (configure (c (2 ^ 32)) p) = 0 /\ MaxConns (configure (c (2 ^ 31)) p) = - 2 ^ 31.
Proof. by vm_compute. Qed.

(** A driver for concrete runs: every DSN parses, a pool needs at least one connection, and is known by its limit. *)
#[export] Instance demo_pgx : PgxPool string Z := {
  ParseConfig d := Ok (mkPoolConfig 4 0 0 0 0 0 0 ∅ d);
  NewWithConfig p := if MaxConns p <? 1 then Err "MaxSize must be >= 1"%string else Ok (MaxConns p)
}.

(** ** Properties *)

(** The pool of a Postgres connection. When the DSN parses, the pool is asked for with every limit and duration
    of the configuration, whatever the DSN says of them: the maximum number of connections as given
    while it fits in 32 bits, a quarter of it kept open, never more than the maximum, [application_name] set and the other
    parameters of the session kept; what the DSN says besides is kept too. *)
Theorem NewPostgresConnection_pool (Rest Pool : Type) (driver : PgxPool Rest Pool) (c : Configs) (p : pool_config Rest)
    (Hparse : ParseConfig (dsn c) = Ok p) (Hmax : 0 <= MaxOpenedConnections c < 2 ^ 31) :
  exists q, NewPostgresConnection c = Some (mkConnection (match NewWithConfig q with Ok pool => Some pool | Err _ => None end))
  /\ MaxConns q = MaxOpenedConnections c
  /\ MinConns q = MaxOpenedConnections c / 4 /\ 0 <= MinConns q <= MaxConns q
  /\ pool_MaxConnIdleTime q = ConnectionMaxIdleTime c /\ MaxConnLifetime q = ConnectionMaxLifeTime c
  /\ MaxConnLifetimeJitter q = MaxConnLifeTimeJitter c /\ pool_ConnectTimeout q = ConnectTimeout c
  /\ pool_HealthCheckPeriod q = HealthCheckPeriod c
  /\ RuntimeParams q !! "application_name"%string = Some (ApplicationName c)
  /\ (forall k, k <> "application_name"%string -> RuntimeParams q !! k = RuntimeParams p !! k)
  /\ rest q = rest p.
Proof.
  exists (configure c p). unfold NewPostgresConnection. rewrite Hparse.
  destruct (limits_bounds c p Hmax) as (H1 & H2 & H3). split_and!; try done.
  - unfold configure. cbn [MinConns]. rewrite int32_small by done. apply Z.quot_div_nonneg; lia.
  - apply lookup_insert_eq.
  - intros k Hk. by apply lookup_insert_ne.
Qed.

Definition demo_config (user password : string) (n : Z) : Configs :=
  mkConfigs "db" "5432" user password "goods" "disable" n "app" (10 * Second) (60 * Second) Second Second Second.

Lemma NewPostgresConnection_pool_witness :
  exists q, NewPostgresConnection (demo_config "u" "p" 20)
      = Some (mkConnection (match NewWithConfig q with Ok pool => Some pool | Err _ => None end))
  /\ MaxConns q = 20
  /\ MinConns q = 20 / 4 /\ 0 <= MinConns q <= MaxConns q
  /\ pool_MaxConnIdleTime q = 10 * Second /\ MaxConnLifetime q = 60 * Second
  /\ MaxConnLifetimeJitter q = Second /\ pool_ConnectTimeout q = Second
  /\ pool_HealthCheckPeriod q = Second
  /\ RuntimeParams q !! "application_name"%string = Some "app"%string
  /\ (forall k, k <> "application_name"%string -> RuntimeParams q !! k = (∅ : gmap string string) !! k)
  /\ rest q = dsn (demo_config "u" "p" 20).
Proof.
  apply (NewPostgresConnection_pool string Z demo_pgx (demo_config "u" "p" 20)
    (mkPoolConfig 4 0 0 0 0 0 0 ∅ (dsn (demo_config "u" "p" 20)))); [reflexivity|simpl; lia].
Defined.

(** The credentials are put into the DSN without escaping, so it does not determine them: a user [u:v] with
    the password [w] has the DSN of the user [u] with the password [v:w]; whatever the driver makes of it, the two
    configurations are given the same connection, and one of them is not the one that was asked for. *)
Theorem dsn_is_ambiguous (Rest Pool : Type) (driver : PgxPool Rest Pool) (u v w host : string) (n : Z) :
  let c user password := mkConfigs host "5432" user password "goods" "disable" n "app" 0 0 0 0 0 in
  let c1 := c (u +:+ ":" +:+ v) w in
  let c2 := c u (v +:+ ":" +:+ w) in
  dsn c1 = dsn c2 /\ Username c1 <> Username c2 /\ NewPostgresConnection c1 = NewPostgresConnection c2.
Proof.
  intros c c1 c2. assert (dsn c1 = dsn c2) as E.
  { unfold dsn, c1, c2, c. cbn [Username Password Host Port Database SSLMode]. by rewrite !string_app_assoc. }
  split; [done|]. split.
  - cbn [Username c1 c2 c]. intros H. apply (f_equal String.length) in H. rewrite !string_length_app in H. simpl in H. lia.
  - unfold NewPostgresConnection. rewrite E. reflexivity.
Qed.

(** A connection without a pool, or no connection at all, cannot be stopped. *)
Lemma Stop_without_pool (Rest Pool : Type) (driver : PgxPool Rest Pool) (c : Configs) :
  (forall pool, exists p, NewPostgresConnection c = Some (mkConnection (Some pool)) -> Stop (NewPostgresConnection c) = Returned p)
  /\ ((forall pool, NewPostgresConnection c <> Some (mkConnection (Some pool))) ->
      Stop (NewPostgresConnection c) = Panicked nil_dereference).
Proof.
  split; [intros pool; exists pool; by intros ->|]. intros H.
  destruct (NewPostgresConnection c) as [[[p|]]|]; try done. by destruct (H p).
Qed.
