(* ===== verification/Connections.v ===== *)
(** [src/redis/redis.go]: how the options of the Redis client are computed. Parsing the DSN and opening the
    connection are the driver's business. *)
From S2P Require Import Prelude GoTime.
From stdpp Require Import base tactics list strings.
From Stdlib Require Import ZArith Lia.
Local Open Scope Z_scope.

(** ** Redis *)

Module Redis.

(** The fields of [redis.Options] and [redis.FailoverOptions] the options write. *)
Record Options := mkOptions {
  DialTimeout : Z; ReadTimeout : Z; MaxRetries : Z; MaxRetryBackoff : Z; Password : string; SentinelPassword : string
}.

Inductive Option :=
  | WithDialTimeout (timeout : Z) | WithReadTimeout (timeout : Z) | WithMaxRetries (retries : Z)
  | WithMaxRetryBackoff (backoff : Z) | WithPassword (password : string) | WithSentinelPassword (password : string).

Definition applyFailover (o : Options) (x : Option) : Options :=
  match x with
  | WithDialTimeout d => mkOptions d (ReadTimeout o) (MaxRetries o) (MaxRetryBackoff o) (Password o) (SentinelPassword o)
  | WithReadTimeout d => mkOptions (DialTimeout o) d (MaxRetries o) (MaxRetryBackoff o) (Password o) (SentinelPassword o)
  | WithMaxRetries n => mkOptions (DialTimeout o) (ReadTimeout o) n (MaxRetryBackoff o) (Password o) (SentinelPassword o)
  | WithMaxRetryBackoff d => mkOptions (DialTimeout o) (ReadTimeout o) (MaxRetries o) d (Password o) (SentinelPassword o)
  | WithPassword p => mkOptions (DialTimeout o) (ReadTimeout o) (MaxRetries o) (MaxRetryBackoff o) p (SentinelPassword o)
  | WithSentinelPassword p => mkOptions (DialTimeout o) (ReadTimeout o) (MaxRetries o) (MaxRetryBackoff o) (Password o) p
  end.

(** A standalone client has no sentinel: that option does nothing. *)
Definition applyStandalone (o : Options) (x : Option) : Options :=
  match x with WithSentinelPassword _ => o | _ => applyFailover o x end.

Definition defaultOptions : list Option :=
  [WithDialTimeout (10 * Second); WithReadTimeout (3 * Second); WithMaxRetries 5; WithMaxRetryBackoff (2 * Second)].

Inductive client := Standalone (o : Options) | Sentinel (o : Options).

(** What the libraries make of the DSN: [url.Parse] with the query parameter [master_name], and the options
    of [redis.ParseURL] and [redis.ParseFailoverURL]. *)
Record dsn := mkDsn {
  parsed : result string string; standalone_options : result string Options; failover_options : result string Options
}.

Definition makeSentinelClient (d : dsn) (options : list Option) : result string client :=
  match failover_options d with
  | Err e => Err ("parse redis failover dsn: " +:+ e)
  | Ok o => Ok (Sentinel (foldl applyFailover o options))
  end.

Definition makeStandaloneClient (d : dsn) (options : list Option) : result string client :=
  match standalone_options d with
  | Err e => Err ("parse redis dsn: " +:+ e)
  | Ok o => Ok (Standalone (foldl applyStandalone o options))
  end.

(** [NewRedisClient]: the result of the ping is only printed. *)
Definition NewRedisClient (d : dsn) (options : list Option) : result string client :=
  match parsed d with
  | Err e => Err ("parse dsn: " +:+ e)
  | Ok master =>
    let all := defaultOptions ++ options in
    match (if negb (String.eqb master "") then makeSentinelClient d all else makeStandaloneClient d all) with
    | Err e => Err ("failed to create redis client: " +:+ e)
    | Ok c => Ok c
    end
  end.

(** The last option of a kind, if there is one. *)
Definition last_of {A} (f : Option -> option A) (l : list Option) : option A :=
  foldl (fun acc x => match f x with Some v => Some v | None => acc end) None l.

Definition dial_timeout (x : Option) : option Z := match x with WithDialTimeout d => Some d | _ => None end.
Definition read_timeout (x : Option) : option Z := match x with WithReadTimeout d => Some d | _ => None end.
Definition max_retries (x : Option) : option Z := match x with WithMaxRetries n => Some n | _ => None end.
Definition max_backoff (x : Option) : option Z := match x with WithMaxRetryBackoff d => Some d | _ => None end.
Definition password (x : Option) : option string := match x with WithPassword p => Some p | _ => None end.
Definition sentinel_password (x : Option) : option string := match x with WithSentinelPassword p => Some p | _ => None end.

(** The options the client is made with, as their specification gives them: the last option of each kind, the
    default, and for the passwords the DSN. *)
Definition resolved (o : Options) (sentinel : bool) (l : list Option) : Options := {|
  DialTimeout := default (10 * Second) (last_of dial_timeout l);
  ReadTimeout := default (3 * Second) (last_of read_timeout l);
  MaxRetries := default 5 (last_of max_retries l);
  MaxRetryBackoff := default (2 * Second) (last_of max_backoff l);
  Password := default (Password o) (last_of password l);
  SentinelPassword := if sentinel then default (SentinelPassword o) (last_of sentinel_password l) else SentinelPassword o
|}.

Lemma last_of_app {A} (f : Option -> option A) l x :
  last_of f (l ++ [x]) = match f x with Some v => Some v | None => last_of f l end.
Proof. unfold last_of. by rewrite foldl_app. Qed.

Lemma resolve_failover o l : foldl applyFailover o (defaultOptions ++ l) = resolved o true l.
Proof.
  induction l as [|x l IH] using rev_ind; [by destruct o|].
  rewrite app_assoc, foldl_app, IH. unfold resolved. rewrite !last_of_app. by destruct x.
Qed.

Lemma resolve_standalone o l : foldl applyStandalone o (defaultOptions ++ l) = resolved o false l.
Proof.
  induction l as [|x l IH] using rev_ind; [by destruct o|].
  rewrite app_assoc, foldl_app, IH. unfold resolved. rewrite !last_of_app. by destruct x.
Qed.
End Redis.

(** ** Properties *)

(** The options of a Redis client. Whatever options are given, and however often, the client
    is made with the last one of each kind; without one, the timeouts and retries are the defaults of the
    package, which override those of the DSN, and the passwords are those of the DSN; the sentinel password
    counts only for a sentinel client. *)
Theorem NewRedisClient_options (d : Redis.dsn) (options : list Redis.Option) :
  match Redis.NewRedisClient d options with
  | Ok (Redis.Standalone o) => exists o0, Redis.standalone_options d = Ok o0 /\ o = Redis.resolved o0 false options
                                 /\ Redis.parsed d = Ok ""%string
  | Ok (Redis.Sentinel o) => exists o0, Redis.failover_options d = Ok o0 /\ o = Redis.resolved o0 true options
                                 /\ Redis.parsed d <> Ok ""%string
  | Err _ => (exists e, Redis.parsed d = Err e)
             \/ (exists e, Redis.standalone_options d = Err e) \/ (exists e, Redis.failover_options d = Err e)
  end.
Proof.
  unfold Redis.NewRedisClient. destruct (Redis.parsed d) as [m|e]; [|by left; eexists].
  unfold Redis.makeSentinelClient, Redis.makeStandaloneClient.
  destruct (String.eqb_spec m ""%string) as [->|Hm]; cbn [negb].
  - destruct (Redis.standalone_options d) as [o|e]; [|right; left; by eexists].
    exists o. rewrite Redis.resolve_standalone. by split_and!.
  - destruct (Redis.failover_options d) as [o|e]; [|right; right; by eexists].
    exists o. rewrite Redis.resolve_failover. split_and!; [done..|]. intros [= E]. done.
Qed.
