(* ===== verification/Examples.v ===== *)
(** The programs of [src/examples]: what the packages do when they are put together. [ChiExample] is
    examples/cmd/chi (an HTTP server with draining and a request timeout), [RunExample] is examples/cmd/run (a kernel with
    a server, a scheduler and a leader supervisor). *)
From S2P Require Import Prelude GoTime Bytes Utils Context KernelShutdown Watchdog KernelSupervisors KernelRun Scheduler.
From S2P Require Import Http HttpServer Connections.
From stdpp Require Import base tactics list relations strings gmap.
From Stdlib Require Import ZArith Lia.
Local Open Scope Z_scope.

Definition text (s : string) : bytes := String.list_byte_of_string s.

Module ChiExample.

(** [server.NewPreShutdownState(true, 10*time.Second, 5*time.Second)]. *)
Definition storage : PreShutdownState := NewPreShutdownState true (10 * Second) (5 * Second).

(** The callback of [DrainMiddleware]. *)
Definition on_drain : handler :=
  Do (CallWriteHeader 503) (fun _ => Do (CallWrite (text "server in draining state try again")) (fun _ => End HandlerReturns)).

(** GET /api/ping: it sleeps for three seconds and then looks at the context. *)
Definition ping (r : request) (now : Z) : handler :=
  match Err_ (rctx r) (now + 3 * Second) with
  | Some _ => Do (CallWriteHeader 408) (fun _ => Do (CallWrite (text "request timeout")) (fun _ => End HandlerReturns))
  | None => Do (CallWriteHeader 200) (fun _ => Do (CallWrite (text "pong")) (fun _ => End HandlerReturns))
  end.

(** The server's middlewares, then the ones of the group /api; [id1] and [id2] are the two correlation
    identifiers. *)
Definition api (p : PreShutdownState) (id1 id2 : string) : Handler response :=
  RecoverChi_ (LoggingChi_ id1 (DrainMiddleware_ (Some p) (Some on_drain)
    (RequestTimeout (2 * Second) (LoggingChi_ id2 (HandlerFunc ping))))).

(** [s.ApplyServerOptions(...)]. *)
Definition options : list ServerOption :=
  [WithReadTimeout (5 * Second); WithWriteTimeout (10 * Second); WithIdleTimeout (30 * Second);
   WithReadHeaderTimeout (2 * Second); WithMaxHeaderBytes (Z.shiftl 2 20)].

(** What the hook does to the world, a clock and the shutdowns done: it stops the server it was made for, whose last
    request ends at [busy_until]. *)
Definition stop_hook {Mux} (busy_until : Z) (r : running Mux) (w : Z * list shutdown_run) : (Z * list shutdown_run) * outcome unit :=
  let x := stop_chi r w.1 busy_until in ((shutdown_ended x, w.2 ++ [x]), Returned tt).

(** The function that configures the server: the group /api is mounted on the router ([mount], by chi), then the options
    are set. *)
Definition configure {Mux} (mount : Mux -> outcome Mux) (s : HTTPServerChi Mux) : outcome (HTTPServerChi Mux) :=
  match mount (Router_ s) with
  | Returned m => Returned (mkHTTPServerChi (port s) m (opts s ++ options) (preShutdownState s))
  | Panicked r => Panicked r
  end.

(** [RunMain]: [mws] are the two middlewares, [e] is how listening ends, [wait] whether the signal comes, at
    [now]. A panic of the configuration goes to the deferred recovery, whose send may block ([send]), and then to [Stop]. (There
    are no supervisors, so no turns of supervisors in [Stop].) *)
Definition RunMain {Mux Mw} `{!Router Mux Mw} (uuid : string) (mount : Mux -> outcome Mux) (mws : list Mw) (e : listen_end)
    (wait : wait_end) (send : send_end) (now busy_until : Z)
    : Kernel (running Mux) (Z * list shutdown_run) * runtime_settings
      * option (run_result (Fn := running Mux) (World := Z * list shutdown_run)) :=
  let (k, settings) := NewDefaultKernel uuid 1 100 in
  let stop_now s := stop_result (Stop (stop_hook busy_until) (fun _ => TurnReturns) s (now, [])) in
  (k, settings,
   match CreateHTTPChiServer (configure mount) ":8088" (Some storage) mws e with
   | Panicked _ => match send with Sent => stop_now (kstate k) | SendBlocks => Some (Blocked InRecovery) end
   | Returned r =>
     match RegisterAll (shutdown_list (kstate k)) [Hook "chi_http_server" r ImmediatePriority] with
     | None => None
     | Some l =>
       match wait with
       | StillWaiting => Some (Blocked InRun)
       | SignalReceived => stop_now (mkState l (leaderSupervisors (kstate k)))
       end
     end
   end).

(** The status and the body the client gets. *)
Definition answer (h : Handler response) (r : request) (now : Z) : option Z * bytes :=
  let w := finishRequest (h r now new_response).1 in (status w, body w).
End ChiExample.

Module RunExample.

(** [server.NewPreShutdownState(true, time.Second, time.Second)]. *)
Definition run_storage : PreShutdownState := NewPreShutdownState true Second Second.

(** The callback of [DrainMiddleware]: the JSON of the error is made and dropped. *)
Definition run_on_drain : handler :=
  Do (CallSetHeader "Content-Type" "application/json") (fun _ =>
  Do (CallWriteHeader 503) (fun _ => End HandlerReturns)).

Definition health : handler := Do (CallWriteHeader 200) (fun _ => End HandlerReturns).

(** The job of the scheduler: every five seconds, two seconds at most. *)
Definition heartbeat : JobConfiguration :=
  {| Name := "heartbeat"; Func := fun _ => JobReturns None; Tick := 5 * Second; Deadline := 2 * Second;
     StopMode := StopImmediate |}.

(** The execution function given to [RunKernel]: two hooks, then the Redis client, then the supervisor, whose
    channel is empty and open; [cancelled] says whether the context of the kernel is cancelled by then. ([None] of
    the list of hooks does not happen, see [run_example_execution].) Nothing starts the supervisors. *)
Definition execution (cancelled : bool) (d : Redis.dsn) : execution_fn (Fn := string) (World := list string) := fun s w =>
  match RegisterAll (shutdown_list s)
          [Hook "http" "http" HighPriority; Hook "scheduler" "scheduler" MediumPriority] with
  | None => (s, w, ExecOk)
  | Some l =>
    match Redis.NewRedisClient d [] with
    | Err e => (mkState l (leaderSupervisors s), w, ExecError e)
    | Ok _ => (mkState l (RegisterWatchdogsLeadership cancelled (leaderSupervisors s) (Some ([], false))), w, ExecOk)
    end
  end.

Definition config : KernelConfig := {| KernelId := ""; Cores := 0; HeapOverflow := 100 |}.

Definition main (cancelled : bool) (d : Redis.dsn) (uuid : string) (wait : wait_end) (send : send_end)
    (turn : nat -> turn_end) (progress : list LeaderSupervisor -> list LeaderSupervisor) (log : list string) :=
  RunKernel log_hook uuid [WithConfigs config; WithExecution (execution cancelled d)] wait send turn progress log.

(** The supervisor it registers. *)
Definition registered_supervisor (cancelled : bool) : LeaderSupervisor :=
  mkSup NotLaunched cancelled false [] false false [] false.

(** Who is inside a call of the supervisor's [Start] or [Stop], with its mutex held: its goroutine, or [Kernel.Stop]. *)
Inductive caller := ItsGoroutine | KernelStopping.

(** The supervisor and the scheduler it starts ([sch.Start(ctx)()]) and stops ([sch.Stop()()]), as the example
    connects them; [ctx] is the context of the kernel, number 0 for the scheduler. [hooks_begun] says that [Kernel.Stop] has
    got past the supervisor and runs the hooks, whose own effects are left out. *)
Record example := mkEx { esup : LeaderSupervisor; esch : JobScheduler; in_call : option caller; hooks_begun : bool }.

Definition call_of (c : user_call) : Scheduler.action := match c with Started => CallStart 0 | Stopped => CallStop end.

(** The scheduler once the calls of a step of the supervisor have begun. *)
Definition forward (calls : list user_call) (s : JobScheduler) : option JobScheduler :=
  run_all sched_action s (call_of <$> calls).

(** The scheduler's own steps; calls come from the supervisor, the cancellation from the kernel. *)
Definition scheduler_own (a : Scheduler.action) : bool :=
  match a with CallAdd _ | CallStart _ | CallStop | ParentCancel _ => false | _ => true end.

(** [Launch] is the call of [StartWatchdogsLeadership]; the program has none, see [run_example_never_starts_job]. *)
Inductive ex_action := Launch | Sup (a : KernelSupervisors.action) | Sch (a : Scheduler.action) | CallReturns | RunHooks.

Definition of_goroutine (a : KernelSupervisors.action) : bool :=
  match a with KernelStop | CancelKernel | SendEvent _ | CloseWatcher => false | _ => true end.

(** A step of the supervisor is possible unless its goroutine is inside a call, the mutex it needs is held, or
    [Kernel.Stop] has had its turn already. *)
Definition may_step (x : example) (a : KernelSupervisors.action) : bool :=
  match in_call x with
  | None => true
  | Some ItsGoroutine => negb (of_goroutine a || needs_mutex a)
  | Some KernelStopping => negb (needs_mutex a)
  end
  && match a with KernelStop => negb (stop_ran (esup x)) | _ => true end.

(** A step that calls [Start] or [Stop] begins the call; it ends when the scheduler has no such call in progress. (What
    [KernelSupervisors] writes together with the call, the flag and the point of the goroutine, is seen by nobody until then.) *)
Definition run_ex (x : example) (a : ex_action) : option example :=
  match a with
  | Launch =>
    match at_ (esup x) with
    | NotLaunched => Some (mkEx (launch (esup x)) (esch x) (in_call x) (hooks_begun x))
    | _ => None
    end
  | Sup a =>
    if may_step x a then
      match KernelSupervisors.run_action (esup x) a with
      | Some s' =>
        let sch := match a with CancelKernel => cancel_parent 0 (esch x) | _ => esch x end in
        let calls := calls_made (esup x) s' in
        match forward calls sch with
        | Some sch' =>
          Some (mkEx s' sch'
            (match calls with [] => in_call x | _ => Some (match a with KernelStop => KernelStopping | _ => ItsGoroutine end) end)
            (hooks_begun x))
        | None => None
        end
      | None => None
      end
    else None
  | Sch a =>
    if scheduler_own a then
      match sched_action (esch x) a with
      | Some sch' => Some (mkEx (esup x) sch' (in_call x) (hooks_begun x))
      | None => None
      end
    else None
  | CallReturns =>
    match in_call x, controls (esch x) with
    | Some _, [] => Some (mkEx (esup x) (esch x) None (hooks_begun x))
    | _, _ => None
    end
  | RunHooks =>
    match in_call x with
    | Some KernelStopping => None
    | _ => if stop_ran (esup x) && negb (hooks_begun x) then Some (mkEx (esup x) (esch x) (in_call x) true) else None
    end
  end.

Definition ex_step : example -> example -> Prop := acts_step run_ex.

(** [scheduler.NewJobScheduler(1)] with the job, and the supervisor as it is registered on a live kernel. *)
Definition start : example :=
  mkEx (registered_supervisor false) (Scheduler.Add (NewJobScheduler 1) heartbeat).1 None false.

(** A call of [Stop] waits for the job [n]. *)
Definition waits_for (n : string) (s : JobScheduler) : Prop :=
  exists names, StopWait names ∈ controls s /\ n ∈ names.
End RunExample.

(** ** Lemmas *)

Section waiting.
Import RunExample.

(** A wait for a leaked job lasts. *)
Lemma waits_step n s s' : leaked n s -> waits_for n s -> Scheduler.step s s' -> waits_for n s'.
Proof.
  intros Hleak (names & Hin & Hn) [a Ha]. pose proof (sched_action_runner s a s' Ha) as Hrun.
  destruct (runner_of a) as [i|] eqn:Er.
  { destruct Hrun as (m & p & _ & Hs). exists names. by destruct Hs. }
  destruct a; try done; simpl in Ha.
  - destruct (mu_stuck s); [done|]. injection Ha as <-. exists names. unfold Scheduler.Add.
    destruct (started s); [done|]. by destruct (goroutines s !! Name c).
  - injection Ha as <-. exists names. split; [apply elem_of_app; by left|done].
  - injection Ha as <-. exists names. split; [apply elem_of_app; by left|done].
  - injection Ha as <-. by exists names.
  - destruct (mu_stuck s || _); [done|]. destruct (controls s !! i) as [c|] eqn:Ei; [|done].
    destruct c; try done.
    + destruct (start_lock s p) as [s1 k] eqn:E. injection Ha as <-. exists names.
      split; [by eapply elem_of_put_ne|done].
    + destruct (stop_lock s order) as [s1 k] eqn:E. injection Ha as <-. exists names.
      split; [by eapply elem_of_put_ne|done].
  - destruct (controls s !! i) as [c|] eqn:Ei; [|done]. destruct c; try done.
    destruct (names0 !! k) as [m|]; [|done]. simpl in Ha.
    destruct (goroutines s !! m) as [j'|]; [|done]. simpl in Ha. destruct (rmu_stuck j'); [done|].
    injection Ha as <-. exists names. split; [|done]. simpl. by eapply elem_of_put_ne.
  - destruct (controls s !! i) as [c|] eqn:Ei; [|done]. destruct c as [|? [] | | |]; try done.
    injection Ha as <-. exists names. split; [|done]. simpl. by apply (elem_of_put_ne i None _ _ _ Ei).
  - destruct (controls s !! i) as [c|] eqn:Ei; [|done]. destruct c as [| | |names'|]; try done.
    destruct (names' !! k) as [m|] eqn:Ek; [|done]. simpl in Ha.
    destruct Hleak as (j & Hj & Hlt).
    destruct (goroutines s !! m) as [j'|] eqn:Ej; [|done]. simpl in Ha.
    destruct (Nat.eqb_spec (wg j') 0) as [Hz|]; [|done]. injection Ha as <-.
    assert (m <> n) as Hmn. { intros ->. rewrite Hj in Ej. simplify_eq. lia. }
    destruct (decide (names' = names)) as [->|Hne].
    + exists (delete k names). split.
      * apply (list_elem_of_lookup_2 _ i). simpl. apply list_lookup_insert_eq. by apply lookup_lt_Some in Ei.
      * by apply (elem_of_put_ne k None _ _ _ Ek).
    + exists names. split; [|done]. simpl. apply (elem_of_put_ne i (Some _) _ _ _ Ei); [congruence|done].
  - destruct (controls s !! i) as [c|] eqn:Ei; [|done]. destruct c as [| | |names'|]; try done.
    destruct names' as [|]; [|done]. injection Ha as <-. exists names. split; [|done].
    apply (elem_of_put_ne i None _ _ _ Ei); [|done]. intros [= ->]. by apply elem_of_nil in Hn.
Qed.
End waiting.

Lemma Err_WithTimeout_late now c d t :
  ctx_wf now c -> Z.max now (now + d) <= t -> Err_ (WithTimeout c now d) t <> None.
Proof. intros Hc Ht. destruct (WithTimeout_done now c d Hc) as (t0 & e & E & H0). rewrite (Err_done _ _ e t0); [done|done|lia]. Qed.

(** Steps that do not need the mutex call nothing. *)
Lemma unlocked_no_calls s a s' :
  KernelSupervisors.run_action s a = Some s' -> needs_mutex a = false -> calls_made s s' = [].
Proof.
  intros Ha Hn. assert (user_calls s' = user_calls s) as E.
  { destruct a; try discriminate Hn; simpl in Ha; repeat case_match; by simplify_eq. }
  unfold calls_made. rewrite E. apply drop_all.
Qed.

(** [Kernel.Stop] is inside a call that waits for a leaked job. *)
Definition hung (x : RunExample.example) : Prop :=
  leaked "heartbeat" (RunExample.esch x) /\ RunExample.waits_for "heartbeat" (RunExample.esch x)
  /\ RunExample.in_call x = Some RunExample.KernelStopping /\ RunExample.hooks_begun x = false.

Lemma hung_scheduler s s' :
  rtc Scheduler.step s s' -> leaked "heartbeat" s -> RunExample.waits_for "heartbeat" s ->
  leaked "heartbeat" s' /\ RunExample.waits_for "heartbeat" s'.
Proof.
  induction 1 as [|s s1 s2 Hs _ IH]; [done|]. intros Hl Hw. apply IH; [by eapply leaked_step|by eapply waits_step].
Qed.

Lemma hung_step x x' : hung x -> RunExample.ex_step x x' -> hung x'.
Proof.
  intros (Hl & Hw & Hc & Hh) [a Ha]. destruct a as [|a|a| |]; simpl in Ha.
  - destruct (at_ _); simplify_eq. done.
  - unfold RunExample.may_step in Ha. rewrite Hc in Ha. destruct (needs_mutex a) eqn:En; [done|]. simpl in Ha.
    destruct (match a with KernelStop => _ | _ => _ end); [|done].
    destruct (KernelSupervisors.run_action (RunExample.esup x) a) as [s'|] eqn:Es; [|done].
    rewrite (unlocked_no_calls _ _ _ Es En) in Ha. simpl in Ha. injection Ha as <-. unfold hung. simpl.
    destruct (hung_scheduler (RunExample.esch x)
      (match a with CancelKernel => cancel_parent 0 (RunExample.esch x) | _ => RunExample.esch x end)); [|done..|done].
    destruct a; try apply rtc_refl. apply rtc_once. by exists (ParentCancel 0).
  - destruct (RunExample.scheduler_own a); [|done].
    destruct (sched_action (RunExample.esch x) a) as [sch'|] eqn:Es; [|done]. injection Ha as <-. unfold hung. simpl.
    destruct (hung_scheduler (RunExample.esch x) sch'); [|done..]. apply rtc_once. by exists a.
  - rewrite Hc in Ha. destruct Hw as (names & Hin & _). destruct (controls (RunExample.esch x)); [|done].
    by apply elem_of_nil in Hin.
  - by rewrite Hc in Ha.
Qed.

(** What the execution function of the run example leaves. *)
Lemma run_example_execution (cancelled : bool) (d : Redis.dsn) :
  exists l, represents l [Hook "http" "http" HighPriority; Hook "scheduler" "scheduler" MediumPriority]
  /\ RunExample.execution cancelled d (mkState empty_list []) [] =
     match Redis.NewRedisClient d [] with
     | Err e => (mkState l [], [], ExecError e)
     | Ok _ => (mkState l [RunExample.registered_supervisor cancelled], [], ExecOk)
     end.
Proof.
  destruct (RegisterAll_spec (Fn := string) empty_list []
    [Hook "http" "http" HighPriority; Hook "scheduler" "scheduler" MediumPriority] represents_empty) as (l & E & Hl).
  exists l. split; [exact Hl|]. unfold RunExample.execution. cbn [shutdown_list leaderSupervisors]. rewrite E. reflexivity.
Qed.

(** The shutdown of the chi example: by the end of the draining the context of [srv.Shutdown] has expired. *)
Lemma chi_example_draining now busy_until :
  let x := shutdown (Some (store stateRunning ChiExample.storage)) now busy_until in
  shutdown_called x = now + 10 * Second /\ shutdown_ended x = now + 10 * Second
  /\ (shutdown_err x = None <-> busy_until <= now + 10 * Second) /\ State <$> final x = Some stateShutdown.
Proof.
  assert (Z.max 0 (10 * Second) = 10 * Second) as E by done.
  unfold shutdown, srv_Shutdown. simpl. rewrite E.
  destruct (Z.leb_spec busy_until (now + 10 * Second)); simpl; [by split_and!|].
  destruct (Z.ltb_spec busy_until (now + 5 * Second)); simpl; [unfold Second in *; lia|].
  split_and!; [done|unfold Second in *; lia|split; [done|lia]|done].
Qed.

(** ** Properties *)

(** C35: in the chi example GET /api/ping never answers "pong". Whatever the request (its context may have
    a deadline or be cancelled), when the server is not draining the handler finds its context done by the timeout
    of two seconds after its sleep of three, and the client gets 408 with "request timeout" through all the
    middlewares; when it is draining the client gets 503 with the message of the callback. *)
Theorem ping_always_times_out (r : request) (now : Z) (p : PreShutdownState) (id1 id2 : string)
    (Hctx : ctx_wf now (rctx r)) (Hneed : Need p = true) :
  ChiExample.answer (ChiExample.api p id1 id2) r now =
    if decide (State p = stateDraining) then (Some 503, text "server in draining state try again")
    else (Some 408, text "request timeout").
Proof.
  pose proof (Err_WithTimeout_late now (WithValue (rctx r) correlationChiIDCtxKey id1) (2 * Second)
    (now + 3 * Second) Hctx) as Herr.
  unfold ChiExample.answer, ChiExample.api, RecoverChi_, LoggingChi_, DrainMiddleware_, RequestTimeout, HandlerFunc.
  rewrite Hneed. destruct (decide (State p = stateDraining)) as [Hd|Hd].
  - rewrite (bool_decide_true _ Hd). unfold DrainMiddleware. rewrite Hneed, (bool_decide_true _ Hd). reflexivity.
  - rewrite (bool_decide_false _ Hd). unfold ChiExample.ping. cbn [rctx WithContext Err_ WithValue done].
    match goal with |- context [match ?e with Some _ => Do (CallWriteHeader 408) _ | None => _ end] =>
      destruct e eqn:E end; [reflexivity|].
    exfalso. apply Herr; [unfold Second; lia|exact E].
Qed.

Lemma ping_always_times_out_witness :
  ChiExample.answer (ChiExample.api (store stateRunning ChiExample.storage) "c1" "c2") demo_request 0
    = if decide (State (store stateRunning ChiExample.storage) = stateDraining)
      then (Some 503, text "server in draining state try again") else (Some 408, text "request timeout").
Proof. apply (ping_always_times_out demo_request 0); [intros dl [=]|reflexivity]. Defined.

(** The chi example never shuts down gracefully. Whatever the router (as long as it takes the middlewares when it is
    fresh and the group /api) and whether or not the server could listen, the process runs with one processor until
    the signal; then the only hook runs: the server drains for ten seconds and [srv.Shutdown] is called with a context
    that expired five seconds before, so it ends at once, without error exactly if every request had ended by then. *)
Theorem chi_example_stops (Mux Mw : Type) (router : Router Mux Mw) (uuid : string) (mount : Mux -> outcome Mux)
    (mws : list Mw) (e : listen_end) (send : send_end) (m m2 : Mux) (now busy_until : Z)
    (Huse : Use NewRouter mws = Returned m) (Hmws : mws <> []) (Hmount : mount m = Returned m2) :
  let out wait := ChiExample.RunMain uuid mount mws e wait send now busy_until in
  (out StillWaiting).2 = Some (Blocked InRun)
  /\ (out SignalReceived).1.2 = {| gc_percent := 100; gomaxprocs := Some 1 |}
  /\ exists s x, (out SignalReceived).2 = Some (Done s (now + 10 * Second, [x]) (Returned ()))
    /\ node (shutdown_list s) = None /\ leaderSupervisors s = []
    /\ shutdown_called x = now + 10 * Second /\ shutdown_ended x = shutdown_called x
    /\ (shutdown_err x = None <-> busy_until <= now + 10 * Second)
    /\ State <$> final x = Some stateShutdown.
Proof.
  intros out. subst out. unfold ChiExample.RunMain, NewDefaultKernel.
  unfold CreateHTTPChiServer, ChiExample.configure, newHTTPServer.
  destruct mws as [|mw mws]; [done|]. cbn [length Nat.ltb Nat.leb Router_ port opts preShutdownState].
  rewrite Huse. cbn [Router_ port opts preShutdownState]. rewrite Hmount.
  cbn [Router_ port opts preShutdownState kstate shutdown_list leaderSupervisors].
  set (r := run_chi _ _ _).
  destruct (RegisterAll_spec (Fn := running Mux) empty_list [] [Hook "chi_http_server" r ImmediatePriority] represents_empty)
    as (l & -> & Hl).
  split; [done|]. split; [done|].
  destruct (Stop_spec (ChiExample.stop_hook busy_until) (fun _ => TurnReturns) (mkState l []) _ (now, []) (fun _ _ _ => eq_refl) Hl) as (s & -> & Hs & Hsup).
  exists s, (stop_chi r now busy_until).
  destruct (chi_example_draining now busy_until) as (Hc & He & Herr & Hf).
  change (stop_chi r now busy_until) with (shutdown (Some (store stateRunning ChiExample.storage)) now busy_until).
  split_and!; [by rewrite <- He| |done|exact Hc|by rewrite He, Hc|exact Herr|exact Hf].
  destruct Hs as ([|? ?] & Hnil & _ & Hseg); [exact Hseg|done].
Qed.

Lemma chi_example_stops_witness :
  let out wait := ChiExample.RunMain "id" (fun m => Returned (m ++ [Route "/api"])) ["recover"; "logging"]%string
                    (ListenFailed "bind: address already in use") wait Sent 0 (11 * Second) in
  (out StillWaiting).2 = Some (Blocked InRun)
  /\ (out SignalReceived).1.2 = {| gc_percent := 100; gomaxprocs := Some 1 |}
  /\ exists s x, (out SignalReceived).2 = Some (Done s (0 + 10 * Second, [x]) (Returned ()))
    /\ node (shutdown_list s) = None /\ leaderSupervisors s = []
    /\ shutdown_called x = 0 + 10 * Second /\ shutdown_ended x = shutdown_called x
    /\ (shutdown_err x = None <-> 11 * Second <= 0 + 10 * Second)
    /\ State <$> final x = Some stateShutdown.
Proof.
  apply (chi_example_stops (list registered) string demo_chi_router "id" (fun m => Returned (m ++ [Route "/api"]))
    ["recover"; "logging"]%string (ListenFailed "bind: address already in use") Sent [Middleware "recover"; Middleware "logging"]
    [Middleware "recover"; Middleware "logging"; Route "/api"]); [reflexivity|discriminate|reflexivity].
Defined.

(** How the run example stops, when the turns of the supervisors in [Stop] end. Whatever Redis is like: when the client cannot be
    made the execution fails, otherwise the kernel waits for a signal; in both cases [RunKernel] returns with the
    supervisor (if it was registered) stopped and the hooks run, the server before the scheduler; until the
    signal comes it waits, it stays in the recovery if that blocks, and the identifier is the fresh one. *)
Theorem run_example_stops_in_order (cancelled : bool) (d : Redis.dsn) (uuid : string) (wait : wait_end) (send : send_end)
    (turn : nat -> turn_end) (progress : list LeaderSupervisor -> list LeaderSupervisor)
    (Hturn : forall k s, turn_ends (turn k) s = true) :
  let out := RunExample.main cancelled d uuid wait send turn progress [] in
  id out.1.1 = uuid /\ gc_percent out.1.2 = 100
  /\ match Redis.NewRedisClient d [], wait, send with
     | Ok _, StillWaiting, _ => out.2 = Some (Blocked InRun)
     | Err _, _, SendBlocks => out.2 = Some (Blocked InRecovery)
     | Ok _, SignalReceived, _ => exists s, out.2 = Some (Done s ["http"; "scheduler"]%string (Returned ()))
         /\ leaderSupervisors s = stop_supervisor <$> progress [RunExample.registered_supervisor cancelled]
     | Err _, _, Sent => exists s, out.2 = Some (Done s ["http"; "scheduler"]%string (Returned ()))
         /\ leaderSupervisors s = stop_supervisor <$> progress []
     end.
Proof.
  intros out. subst out. unfold RunExample.main, RunKernel.
  cbn [foldl KernelRun.apply_option KernelRun.with_defaults newKernel execution config kstate KernelId Cores HeapOverflow id RunExample.config].
  destruct (run_example_execution cancelled d) as (l & Hl & ->).
  assert (forall sups, exists s, stop_result (Stop log_hook turn (mkState l sups) [])
      = Some (Done s ["http"; "scheduler"]%string (Returned ())) /\ leaderSupervisors s = stop_supervisor <$> sups) as Hstop.
  { intros sups. destruct (Stop_spec log_hook turn (mkState l sups) _ [] (fun k s _ => Hturn k s) Hl) as (s & -> & _ & Hs). by exists s. }
  destruct (Redis.NewRedisClient d []) as [c|e]; (split; [reflexivity|]); (split; [reflexivity|]); [|destruct send; [apply Hstop|reflexivity] ].
  destruct wait; [apply Hstop|reflexivity].
Qed.

(** The answer of a draining server of the run example has a type and no body. *)
Lemma run_example_drains_without_body :
  let w := finishRequest (serve (DrainMiddleware (Some (store stateDraining RunExample.run_storage)) (Some RunExample.run_on_drain)
             RunExample.health) new_response).1 in
  status w = Some 503 /\ sent_header w = {[ "Content-Type"%string := "application/json"%string ]} /\ body w = []
  /\ client_status (DrainMiddleware (Some (store stateRunning RunExample.run_storage)) (Some RunExample.run_on_drain) RunExample.health)
     = Some 200.
Proof. vm_compute. split_and!; reflexivity. Qed.

(** The run example never runs its job. It registers a supervisor and nothing calls
    [StartWatchdogsLeadership]: whatever the election says and whatever the kernel does, the supervisor's [Start]
    is never called. *)
Theorem run_example_never_starts_job (cancelled : bool) (s : LeaderSupervisor)
    (Hreach : rtc KernelSupervisors.step (RunExample.registered_supervisor cancelled) s) :
  user_calls s = [] /\ Working s = false.
Proof.
  assert (at_ s = NotLaunched /\ user_calls s = [] /\ Working s = false) as (_ & H1 & H2); [|done].
  eapply (rtc_invariant KernelSupervisors.step (fun s => at_ s = NotLaunched /\ user_calls s = [] /\ Working s = false));
    [|exact Hreach|done].
  intros s1 s2 (Hat & Hc & Hw) [a Ha].
  destruct a; simpl in Ha; rewrite ?Hat in Ha; try done; repeat case_match; simplify_eq; try done.
  unfold stop_supervisor. simpl. by rewrite Hw.
Qed.

Lemma run_example_never_starts_job_witness :
  let s := mkSup NotLaunched true true [TakenAcquire] false false [] true in user_calls s = [] /\ Working s = false.
Proof.
  intros s. apply (run_example_never_starts_job false s).
  apply (run_all_sound KernelSupervisors.run_action [SendEvent TakenAcquire; CancelKernel; KernelStop]). reflexivity.
Defined.

(** C36: a signal while the leadership is being taken hangs a kernel whose supervisor starts a scheduler on the
    kernel's context, as the run example connects them (once the missing call of [StartWatchdogsLeadership] is there). The
    supervisor has received [TakenAcquire], the signal cancels the context of the kernel, and the supervisor then starts the
    scheduler on the cancelled context: the goroutine of the job is skipped. [Kernel.Stop] then calls the scheduler's [Stop],
    and in everything that can happen next it is still inside this call, which waits for the job: the hooks are
    never begun and the process does not end. *)
Theorem signal_during_takeover_hangs_Stop :
  exists x, rtc RunExample.ex_step RunExample.start x
    /\ stop_ran (RunExample.esup x) = true /\ runners (RunExample.esch x) = []
    /\ forall x', rtc RunExample.ex_step x x' ->
         RunExample.in_call x' = Some RunExample.KernelStopping
         /\ RunExample.waits_for "heartbeat" (RunExample.esch x') /\ RunExample.hooks_begun x' = false.
Proof.
  destruct (run_all_ends RunExample.run_ex
    (fun x => stop_ran (RunExample.esup x) = true /\ runners (RunExample.esch x) = []
       /\ (exists j, goroutines (RunExample.esch x) !! "heartbeat"%string = Some j /\ wg j = 1%nat)
       /\ controls (RunExample.esch x) = [StopWait ["heartbeat"%string] ]
       /\ RunExample.in_call x = Some RunExample.KernelStopping /\ RunExample.hooks_begun x = false)
    [RunExample.Launch; RunExample.Sup (SendEvent TakenAcquire); RunExample.Sup TakeEvent; RunExample.Sup CancelKernel;
     RunExample.Sup Handle; RunExample.Sch (Lock 0 ["heartbeat"]%string); RunExample.Sch (StartNext 0 0);
     RunExample.Sch (StartReturn 0); RunExample.CallReturns; RunExample.Sch (GoLaunch 0); RunExample.Sup KernelStop;
     RunExample.Sch (Lock 0 ["heartbeat"]%string)] RunExample.start)
    as (x & Hx & Hstop & Hrun & (j & Hj & Hwg) & Hc & Hin & Hh).
  { vm_compute. split_and!; try reflexivity. eexists. split; reflexivity. }
  exists x. split_and!; [by eapply run_all_sound|done..|]. intros x' Hr.
  assert (hung x) as Hinv.
  { split_and!; [exists j; split; [done|]; rewrite Hrun, Hwg; simpl; lia| |done..].
    exists ["heartbeat"%string]. rewrite Hc. split; by left. }
  destruct (rtc_invariant RunExample.ex_step hung hung_step x x' Hr Hinv) as (_ & Hw & Hc' & Hh').
  split; [exact Hc'|split; [exact Hw|exact Hh'] ].
Qed.
